(* ===== verification/_CoqProject ===== *)
-Q . S2P
Prelude.v
GoStrings.v
GoIO.v
Digest.v
DigestSet.v
GoFS.v
Layer.v
LayerStore.v
LayerInv.v
LayerProofs.v
LayerMounts.v
LayerSystem.v
FileStore.v
ImageFS.v
ImageStore.v
ImageTree.v
ImageSystem.v
BytesPipe.v
StdCopy.v
RestartManager.v
Health.v
Reference.v
ReferenceStore.v
Locker.v
VolumeStore.v
ContainerState.v
Lifecycle.v
Runes.v
ShellParser.v
Json.v
DockerfileParser.v
GoSlices.v
GoPath.v
BFlags.v
Builder.v
BuilderProofs.v
Xfer.v
XferInv.v
XferProofs.v
UnixFS.v
IDTools.v
Archive.v
ArchiveChanges.v
ArchiveWalk.v
ArchivePaths.v
ArchiveCalls.v
ArchiveFile.v
ArchiveSteps.v
ArchiveRoundTrip.v
ArchiveLimits.v
ArchiveSize.v
