(* ===== verification/Prelude.v ===== *)
(** * A verification library for the Docker engine

    The engine (Go, under src/) is a daemon that keeps images as stacks of
    layers, runs containers over them through containerd, builds images from
    Dockerfiles and moves layers to and from registries.  This library models
    the parts of it that keep state other parts rely on, translated from the
    source function by function, and proves what those parts promise each other.

    ** The parts and the files

    Images and layers.
    - Layer.v, LayerStore.v, LayerInv.v, LayerProofs.v, LayerMounts.v,
      LayerSystem.v: the layer store (layer/layer_store.go, ro_layer.go,
      mounted_layer.go, empty.go).  The state is the record [store]; Go objects
      shared by pointers are entries of two heaps; every method is a call of the
      monad [M] over any graph driver and metadata store.  LayerInv has the
      reference-counting invariant, LayerProofs and LayerMounts the
      specification of every method, LayerSystem the calls of many clients as a
      transition system and the theorems (C1 to C4).
    - GoFS.v, FileStore.v: directories of small files, and the metadata store on
      them (layer/filestore.go) as an instance of the interface of the layer
      store (C37).
    - Digest.v, DigestSet.v: digests as strings and the sorted set that finds an
      image by a prefix of its ID (vendored digest/digest.go, digest/set.go).
    - ImageFS.v, ImageStore.v, ImageTree.v, ImageSystem.v: the image store
      (image/store.go, fs.go, image.go).  It is written against two interfaces,
      [StoreBackend] with [StoreBackendLaws] and [LayerGetReleaser] with
      [LayerLaws]; image/fs.go and the layer store are shown to have the laws
      (C7, C16).
    - Reference.v, ReferenceStore.v: the names of images (reference/reference.go
      and the vendored grammar) and the store of tags (reference/store.go)
      (C20, C22 to C24).
    - Xfer.v, XferInv.v, XferProofs.v: the transfers of layers to and from
      registries (distribution/xfer/transfer.go, download.go, upload.go), with
      all goroutines interleaved (C5, C15, C32).
    - UnixFS.v: a file system of Linux as the archives see it, with inodes, hard
      and symbolic links, and the calls of package os and of pkg/system.
    - IDTools.v: the ranges of user and group IDs of a container
      (pkg/idtools/idtools.go) (C38).
    - Archive.v: layers as archives: the comparison of two directory trees, the
      archive of the changes with its whiteouts and hard links, and the
      extraction on top of another tree (pkg/archive/changes.go,
      changes_linux.go, changes_other.go, changes_unix.go, archive.go,
      archive_unix.go, diff.go, whiteouts.go), and the diffs of graph drivers on
      them (daemon/graphdriver/fsdiff.go).  ArchiveChanges.v and ArchiveWalk.v
      characterise the changes (C21, C34), ArchivePaths.v, ArchiveCalls.v,
      ArchiveFile.v and ArchiveSteps.v follow the extraction entry by entry,
      ArchiveRoundTrip.v has the theorem about both directions (C6),
      ArchiveSize.v the size of a layer (C40), and ArchiveLimits.v inputs on
      which the code does not do what it means to.

    Containers.
    - ContainerState.v, Lifecycle.v: the state of a container
      (container/state.go), the daemon's start, pause, unpause and wait, and the
      starts, restarts and the queue of events of libcontainerd, interleaved, with
      writes to disk that may fail (C28 to C30, C36).
    - RestartManager.v: restarts, their back-off and their cancellation
      (restartmanager/restartmanager.go) (C13, C14).
    - Health.v: probe results and the monitor goroutine (container/health.go,
      daemon/health.go) (C17 to C19).
    - BytesPipe.v, GoIO.v, StdCopy.v: the pipe that carries output
      (pkg/ioutils/bytespipe.go, buffer.go) and the framing of several streams on
      one connection (pkg/stdcopy/stdcopy.go) (C8 to C12).
    - VolumeStore.v, Locker.v: named volumes over any drivers
      (volume/store/store.go, volume/drivers/extpoint.go) and the named locks
      that serialise calls on one volume (pkg/locker/locker.go) (C25 to C27).

    Builds.
    - GoStrings.v, Runes.v, GoSlices.v, GoPath.v, Json.v: the parts of Go's
      library that the builder uses: strings of bytes, UTF-8, slices with shared
      arrays, paths, and the JSON decoder for arrays of strings.
    - ShellParser.v: word expansion (builder/dockerfile/shell_parser.go) (C31).
    - DockerfileParser.v: the parser (builder/dockerfile/parser) (C33, C35).
    - BFlags.v, Builder.v, BuilderProofs.v: flags, every instruction, dispatch,
      triggers and the build loop (builder/dockerfile) over any engine, which is
      the class [Backend] (C39).  Its methods are functions: an engine call that
      never returns, such as the wait for a RUN that does not exit, is outside.

    ** How the code is translated

    A Go function is a definition of the same name.  Code with state is a call of
    the monad [M] of this file: it returns, panics (a nil dereference, a closed
    channel closed again) or runs out of fuel.  [wp m Q s] says that the call [m]
    started in [s] returns and ends in [Q]; so every specification proved with it
    excludes panics and endless loops.  [preserves I m] allows a panic.  Errors
    are values of [result].  Concurrency is a step relation or a function on
    actions: goroutines interleave where they give up a lock or touch a channel,
    and theorems are about every state that can be reached.  Integers are [Z];
    where the width matters ([wrap64]) the wrap-around is written out.

    What the sources only call is a parameter: the graph driver, volume drivers
    and plugins, containerd, the engine behind the builder, registries, hash
    functions.  Where a theorem needs something of it, that is a named law of a
    class, and a witness instantiates it.

    ** What the theorems show

    - Invariants over all interleavings of the modelled calls: C1, C4, C8, C13,
      C17, C28.  The layer store starts empty; its restore after a restart is
      modelled and is not a step of C1 to C4.  C7, C16 and C22 include restarts.
      C16 asks clients not to delete an image while they create it and to set the
      parents of images only; C22 and C24 ask the names in the file to parse back
      to themselves, which the normalisation of references does not always
      grant; C28 holds up to the first failure of the disk in a start or restart,
      and C36 says what such a failure leaves behind.
    - Safety, among it the absence of panics: C2, C3, C5, C14, C25, C26.
    - Refinement and equivalence: C11 (the copy loop computes a decoder of the
      whole stream), C23 (the tag store is a map), C31 (the expander computes a
      compositional meaning), C21 (the walker that skips shared inodes finds the
      changes of the complete trees).
    - Round trips: C6 (the archive of a layer, applied to its parent, gives the
      layer, for files that archives can hold and owners that the ID maps bring
      back), C12, C20, C24, C35, C37, C38.
    - Bounds and liveness: C15 (slots of transfers), C32 (transfers do not
      deadlock).
    - What operations compute, with their errors: C9 (the calls of a pipe), C19
      (the health of a container from its probes), C27 (the removal of a volume),
      C30 (what wakes a wait), C33 (the nodes of a Dockerfile and their lines),
      C34 (the changes between two trees without block devices and sockets), C39
      (the variables that ENV sets), C40 (the size of a layer).
    - Defects of the code that the model exhibits: C10 (a lost wake-up in the
      pipe), C18 and C29 (deadlocks), C27 (a panic on a volume whose driver is
      gone), C36 (containers that no longer follow their processes), and, without
      a number, [Reference.normalize_moves_names] (names that normalise to each
      other), [BuilderProofs.shell_form_shares] (shared arrays),
      [BuilderProofs.onbuild_comment_panics] (a nil dereference),
      [DockerfileParser.FileConcrete.twice_continued_lost] (a dropped
      instruction), [ImageSystem.ConcreteImages.create_delete_race] and
      [ImageSystem.ConcreteImages.set_parent_phantom] (the two calls that C16
      excludes) and the examples of ArchiveLimits.v.

    ** Bounds and fuel

    Loops that are not structural take fuel, and the theorems show that what is
    given is enough: one unit per rune in ShellParser, one more than the length
    of the text in DockerfileParser, the length of the array for the binary
    search of DigestSet, two levels of dispatch in Builder (no trigger starts
    another level, [BuilderProofs.build_ends]), the depth of the chain for releases in LayerStore (at most
    [maxLayerDepth] + 1), the length of the longest path for the walks of a tree
    in Archive; a path follows at most 40 symbolic links, as in the kernel.  The
    progress theorem of XferProofs uses a well-founded order instead.

    ** Not modelled, and why

    - api, cli, cliconfig, cmd, registry, plugin, daemon/cluster, libnetwork glue,
      distribution other than xfer: HTTP, flags, remote services and the glue
      between vendored libraries; what they compute is mostly I/O.
    - Graph drivers other than the naive diff, volume/local, daemon/logger
      drivers, oci, profiles, the gRPC connection of libcontainerd: calls to the
      kernel, containerd and third-party services.
    - The execution of probes and execs, streams and networks of containers, and
      the set-up of mounts: they go through containerd and libnetwork.
    - Of pkg/archive: [TarWithOptions] and [Unpack], which pack and unpack whole
      directories by patterns for the build context and the copy commands,
      compression, and the whiteouts of overlay; the bytes of a tar file are
      those of archive/tar, an archive here is the list of its headers with
      their contents.
    - The zero value of the [Directive] of the Dockerfile parser, whose regular
      expression is nil: the engine sets the escape token before it parses.
    - Tar streaming out of layers (tar-split), JSON of configurations, and the
      files of the build context: third-party formats; they are arguments.
    - The Windows, Solaris and FreeBSD variants; integration-cli, contrib, hack,
      docs, man, experimental: not part of the Linux engine. *)

From stdpp Require Export base gmap strings list fin_maps sets.
From stdpp Require Export tactics.
#[export] Set Default Proof Using "Type".

Declare Scope go_scope.
Delimit Scope go_scope with go.
Open Scope go_scope.

(** * Machine integers *)

(** Two's-complement reduction of an integer to the range of Go's [int64]
    (and [int] on the 64-bit platforms the engine is built for). *)
Definition wrap64 (z : Z) : Z := (z + 2 ^ 63) `mod` 2 ^ 64 - 2 ^ 63.

Lemma wrap64_add a b : wrap64 (wrap64 a + b) = wrap64 (a + b).
Proof.
  unfold wrap64. f_equal. set (m := (2 ^ 64)%Z). set (h := (2 ^ 63)%Z).
  replace ((a + h) `mod` m - h + b + h)%Z with ((a + h) `mod` m + b)%Z by lia.
  rewrite Z.add_mod_idemp_l by done. f_equal. lia.
Qed.

Lemma wrap64_idemp a : wrap64 (wrap64 a) = wrap64 a.
Proof. rewrite <-(Z.add_0_r (wrap64 a)), wrap64_add. by rewrite !Z.add_0_r. Qed.

Lemma wrap64_small z : (- 2 ^ 63 ≤ z < 2 ^ 63)%Z → wrap64 z = z.
Proof. intros Hz. unfold wrap64. rewrite Z.mod_small; lia. Qed.

(** * Results and effects *)

(** A Go pair [(value, error)], of which the callers use exactly one half. *)
Inductive result (E A : Type) : Type :=
| Ok (a : A)
| Err (e : E).
Arguments Ok {E A} a.
Arguments Err {E A} e.

(** The end of a call: it returns with the state it leaves behind, it panics,
    or the bound on the iterations of one of its loops was too small. *)
Inductive outcome (S A : Type) : Type :=
| Ret (a : A) (s : S)
| Panic (msg : string)
| OutOfFuel.
Arguments Ret {S A} a s.
Arguments Panic {S A} msg.
Arguments OutOfFuel {S A}.

(** A call on a state [S]: errors are values, so the state survives them. *)
Definition M (S A : Type) : Type := S → outcome S A.

#[export] Instance M_ret {S} : MRet (M S) := λ A a s, Ret a s.
#[export] Instance M_bind {S} : MBind (M S) := λ A B f m s,
  match m s with
  | Ret a s' => f a s'
  | Panic msg => Panic msg
  | OutOfFuel => OutOfFuel
  end.

Definition panic {S A} (msg : string) : M S A := λ _, Panic msg.
Definition out_of_fuel {S A} : M S A := λ _, OutOfFuel.
Definition read {S A} (f : S → A) : M S A := λ s, Ret (f s) s.
Definition modify {S} (f : S → S) : M S unit := λ s, Ret () (f s).

(** [x ←? m; k]: [if err != nil { return ..., err }] after the call [m]. *)
Definition try_bind {S E A B} (m : M S (result E A)) (k : A → M S (result E B)) : M S (result E B) :=
  m ≫= λ r, match r with Ok a => k a | Err e => mret (Err e) end.
Notation "x ←? m ; k" := (try_bind m (λ x, k))
  (at level 20, m at level 100, k at level 200, right associativity) : go_scope.

(** * Weakest preconditions *)

(** [wp m Q s]: the call [m] started in [s] returns (it neither panics nor
    runs out of fuel) and its value and final state satisfy [Q]. *)
Definition wp {S A} (m : M S A) (Q : A → S → Prop) (s : S) : Prop :=
  match m s with Ret a s' => Q a s' | _ => False end.

Lemma wp_bind {S A B} (m : M S A) (f : A → M S B) Q s :
  wp m (λ a, wp (f a) Q) s → wp (m ≫= f) Q s.
Proof. unfold wp, mbind, M_bind. by destruct (m s). Qed.

Lemma wp_mono {S A} (m : M S A) (P Q : A → S → Prop) s :
  wp m P s → (∀ a s', P a s' → Q a s') → wp m Q s.
Proof. unfold wp. destruct (m s); naive_solver. Qed.

Lemma wp_ret {S A} (a : A) (Q : A → S → Prop) s : Q a s → wp (mret a) Q s.
Proof. done. Qed.

Lemma wp_read {S A} (f : S → A) (Q : A → S → Prop) s : Q (f s) s → wp (read f) Q s.
Proof. done. Qed.

Lemma wp_modify {S} (f : S → S) (Q : unit → S → Prop) s : Q () (f s) → wp (modify f) Q s.
Proof. done. Qed.

Lemma wp_try {S E A B} (m : M S (result E A)) (k : A → M S (result E B)) Q s :
  wp m (λ r s', match r with Ok a => wp (k a) Q s' | Err e => Q (Err e) s' end) s →
  wp (try_bind m k) Q s.
Proof.
  intros H. apply wp_bind. eapply wp_mono; [exact H|].
  by intros [a|e] s' H'.
Qed.

(** A call whose weakest precondition holds returns a value that satisfies it. *)
Lemma wp_inv {S A} (m : M S A) Q s : wp m Q s → ∃ a s', m s = Ret a s' ∧ Q a s'.
Proof. unfold wp. destruct (m s); naive_solver. Qed.

(** A weakest precondition, used on a run that is known. *)
Lemma wp_run {S A} (m : M S A) Q s a s' : wp m Q s → m s = Ret a s' → Q a s'.
Proof. unfold wp. intros H E. by rewrite E in H. Qed.

Lemma wp_ran {S A} (m : M S A) (Q : A → S → Prop) s a s' : m s = Ret a s' → Q a s' → wp m Q s.
Proof. unfold wp. by intros ->. Qed.

(** One symbolic step through a call. *)
Ltac wp_step :=
  lazymatch goal with
  | |- wp (_ ≫= _) _ _ => apply wp_bind
  | |- wp (try_bind _ _) _ _ => apply wp_try
  | |- wp (mret _) _ _ => apply wp_ret
  | |- wp (read _) _ _ => apply wp_read
  | |- wp (modify _) _ _ => apply wp_modify
  end.
Ltac wp_steps := repeat (wp_step; simpl).
Tactic Notation "wp_apply" uconstr(H) := eapply wp_mono; [eapply H|cbv beta].

(** An equation between closed terms, by evaluation of both sides. *)
Ltac by_vm := lazymatch goal with |- ?a = ?b => exact (@eq_refl _ b <: a = b) end.

(** The run of a call, unfolded in a hypothesis. *)
Ltac run_in H := unfold read, modify, mbind, M_bind, mret, M_ret, id in H; simpl in H.

(** * Calls that keep an invariant and end *)

(** The call returns, with the invariant, or panics. *)
Definition preserves {S A} (I : S → Prop) (m : M S A) : Prop :=
  ∀ s, I s → match m s with Ret _ s' => I s' | Panic _ => True | OutOfFuel => False end.

Create HintDb preserves.

Section preserves.
  Context {S : Type} (I : S → Prop).

Lemma preserves_ret {A} (a : A) : preserves I (mret a).
Proof. by intros s Hs. Qed.
Lemma preserves_bind {A C} (m : M S A) (f : A → M S C) : preserves I m → (∀ a, preserves I (f a)) → preserves I (m ≫= f).
Proof. intros Hm Hf s Hs. unfold mbind, M_bind. specialize (Hm s Hs). destruct (m s); [by apply Hf|done|done]. Qed.
Lemma preserves_try {E A C} (m : M S (result E A)) (f : A → M S (result E C)) :
  preserves I m → (∀ a, preserves I (f a)) → preserves I (try_bind m f).
Proof. intros Hm Hf. apply preserves_bind; [done|]. intros [a|e]; [apply Hf|apply preserves_ret]. Qed.
Lemma preserves_read {A} (f : S → A) : preserves I (read f).
Proof. by intros s Hs. Qed.
Lemma preserves_modify (f : S → S) : (∀ s, I s → I (f s)) → preserves I (modify f).
Proof. intros Hf s Hs. by apply Hf. Qed.
Lemma preserves_panic {A} msg : preserves I (panic (A := A) msg).
Proof. by intros s Hs. Qed.

(** A call that starts by looking at the state. *)
Lemma preserves_inspect {A} (f : S → M S A) : (∀ s0, I s0 → preserves I (f s0)) → preserves I (read id ≫= f).
Proof. intros Hf s Hs. apply (Hf s Hs s Hs). Qed.
End preserves.

#[export] Hint Resolve preserves_ret preserves_read preserves_panic : preserves.
#[export] Hint Extern 2 (preserves _ (_ ≫= _)) => apply preserves_bind; [|intros] : preserves.
#[export] Hint Extern 2 (preserves _ (try_bind _ _)) => apply preserves_try; [|intros] : preserves.

(** The steps through a call. *)
Ltac preserve_step :=
  lazymatch goal with
  | |- preserves _ (_ ≫= _) => apply preserves_bind; [|intros ?]
  | |- preserves _ (try_bind _ _) => apply preserves_try; [|intros ?]
  | |- preserves _ (if decide ?P then _ else _) => destruct (decide P)
  | |- preserves _ (if ?b then _ else _) => destruct b eqn:?
  | |- preserves _ (match ?x with _ => _ end) => destruct x eqn:?
  | |- preserves _ (let '(_, _) := ?x in _) => destruct x eqn:?
  end.
Ltac preserve := repeat (preserve_step || (solve [auto with preserves])).

(** * Counting the entries of a map *)

Section count.
Context {K : Type} `{Countable K} {A : Type}.

(** The number of entries of [m] that satisfy [P]. *)
Definition count (P : K * A → Prop) `{∀ x, Decision (P x)} (m : gmap K A) : nat :=
  size (filter P m).

Context (P : K * A → Prop) `{∀ x, Decision (P x)}.

Lemma count_empty : count P ∅ = 0.
Proof. done. Qed.

Lemma count_insert m k x :
  m !! k = None →
  count P (<[k:=x]> m) = count P m + (if decide (P (k, x)) then 1 else 0).
Proof.
  intros Hk. unfold count. case_decide as HP.
  - rewrite map_filter_insert_True by done.
    rewrite map_size_insert_None; [lia|].
    apply map_lookup_filter_None. by left.
  - rewrite map_filter_insert_False by done. rewrite delete_id by done. lia.
Qed.

Lemma count_delete m k x :
  m !! k = Some x →
  count P m = count P (delete k m) + (if decide (P (k, x)) then 1 else 0).
Proof.
  intros Hk. rewrite <-(insert_delete_id m k x Hk) at 1.
  by rewrite count_insert by apply lookup_delete_eq.
Qed.

Lemma count_zero m : count P m = 0 → ∀ k x, m !! k = Some x → ¬ P (k, x).
Proof.
  intros Hc k x Hk HP. pose proof (count_delete m k x Hk) as Hd.
  rewrite decide_True in Hd by done. lia.
Qed.

Lemma count_none m : (∀ k x, m !! k = Some x → ¬ P (k, x)) → count P m = 0.
Proof.
  intros Hm. unfold count. apply map_size_empty_iff, map_empty_filter. exact Hm.
Qed.
End count.

Lemma count_ext {K A} `{Countable K} (P Q : K * A → Prop)
    `{!∀ x, Decision (P x)} `{!∀ x, Decision (Q x)} (m : gmap K A) :
  (∀ k x, m !! k = Some x → P (k, x) ↔ Q (k, x)) → count P m = count Q m.
Proof. intros HPQ. unfold count. f_equal. by apply map_filter_ext. Qed.

(** * Sums over maps *)

Section msum.
Context {A : Type} (f : A → nat).

Definition msum (m : gmap nat A) : nat := map_fold (λ _ x n, f x + n) 0 m.

Lemma msum_new m i x : m !! i = None → msum (<[i:=x]> m) = f x + msum m.
Proof. intros Hi. unfold msum. rewrite map_fold_insert_L; [done| |done]. intros. lia. Qed.
Lemma msum_take m i x : m !! i = Some x → msum m = f x + msum (delete i m).
Proof.
  intros Hi. rewrite <-(insert_delete_id m i x) at 1 by done. apply msum_new, lookup_delete_eq.
Qed.
Lemma msum_put m i x y : m !! i = Some x → msum (<[i:=y]> m) + f x = msum m + f y.
Proof.
  intros Hi. rewrite (msum_take m i x Hi), <-insert_delete_eq, msum_new by apply lookup_delete_eq. lia.
Qed.
Lemma msum_pos m : 0 < msum m → ∃ i x, m !! i = Some x ∧ 0 < f x.
Proof.
  unfold msum. apply (map_fold_weak_ind (λ r m, 0 < r → ∃ i x, m !! i = Some x ∧ 0 < f x)); [lia|].
  intros i x m' r Hi IH Hr. destruct (decide (0 < f x)) as [Hx|Hx]; [exists i, x; by rewrite lookup_insert_eq|].
  destruct IH as (k & y & Hk & Hy); [lia|]. exists k, y. rewrite lookup_insert_ne; [done|]. intros ->. congruence.
Qed.
Lemma msum_zero m i x : msum m = 0 → m !! i = Some x → f x = 0.
Proof. intros H Hi. rewrite (msum_take m i x Hi) in H. lia. Qed.
End msum.
