(* ===== verification/GoStrings.v ===== *)
(** The parts of Go's [strings], [strconv] and [unicode] packages that the
    modelled code uses, on ASCII strings, with the lemmas about them. *)

From Stdlib Require Import Ascii DecimalString DecimalZ DecimalFacts.
From S2P Require Import Prelude.

Local Open Scope string_scope.

(** ** Characters *)

Definition code (c : ascii) : N := N_of_ascii c.

(** [unicode.IsSpace] on ASCII: tab, line feed, vertical tab, form feed,
    carriage return and space. *)
Definition IsSpace (c : ascii) : bool :=
  bool_decide (code c = 32 ∨ (9 ≤ code c ∧ code c ≤ 13))%N.

Definition IsDigit (c : ascii) : bool := bool_decide (48 ≤ code c ∧ code c ≤ 57)%N.
Definition IsLower (c : ascii) : bool := bool_decide (97 ≤ code c ∧ code c ≤ 122)%N.
Definition IsUpper (c : ascii) : bool := bool_decide (65 ≤ code c ∧ code c ≤ 90)%N.
Definition IsLetter (c : ascii) : bool := IsLower c || IsUpper c.

(** Lower-case hexadecimal digits. *)
Definition IsHex (c : ascii) : bool := IsDigit c || bool_decide (97 ≤ code c ∧ code c ≤ 102)%N.

Definition to_lower (c : ascii) : ascii := if IsUpper c then ascii_of_N (code c + 32) else c.
Definition to_upper (c : ascii) : ascii := if IsLower c then ascii_of_N (code c - 32) else c.

(** ** Strings *)

Fixpoint string_forallb (f : ascii → bool) (s : string) : bool :=
  match s with
  | "" => true
  | String c s => f c && string_forallb f s
  end.

Fixpoint string_existsb (f : ascii → bool) (s : string) : bool :=
  match s with
  | "" => false
  | String c s => f c || string_existsb f s
  end.

Fixpoint string_map (f : ascii → ascii) (s : string) : string :=
  match s with
  | "" => ""
  | String c s => String (f c) (string_map f s)
  end.

Definition ToLower : string → string := string_map to_lower.
Definition ToUpper : string → string := string_map to_upper.

(** [strings.TrimLeftFunc] and [strings.TrimRightFunc]. *)
Fixpoint TrimLeftFunc (f : ascii → bool) (s : string) : string :=
  match s with
  | "" => ""
  | String c s' => if f c then TrimLeftFunc f s' else s
  end.
Fixpoint TrimRightFunc (f : ascii → bool) (s : string) : string :=
  match s with
  | "" => ""
  | String c s' => match TrimRightFunc f s' with
                   | "" => if f c then "" else String c ""
                   | t => String c t
                   end
  end.
Definition TrimSpace (s : string) : string := TrimRightFunc IsSpace (TrimLeftFunc IsSpace s).

(** The parts before and after the first occurrence of a character. *)
Fixpoint cut (sep : ascii) (s : string) : option (string * string) :=
  match s with
  | "" => None
  | String c s' =>
      if decide (c = sep) then Some ("", s')
      else '(a, b) ← cut sep s'; Some (String c a, b)
  end.

Definition ContainsChar (sep : ascii) (s : string) : bool := bool_decide (is_Some (cut sep s)).

Fixpoint HasPrefix (s prefix : string) : bool :=
  match prefix, s with
  | EmptyString, _ => true
  | String a prefix, String b s => bool_decide (a = b) && HasPrefix s prefix
  | String _ _, EmptyString => false
  end.

Fixpoint Contains (s substr : string) : bool :=
  HasPrefix s substr || match s with EmptyString => false | String _ s => Contains s substr end.

(** ** Integers *)

(** [fmt.Sprintf] with the verb [d], [strconv.Itoa]. *)
Definition Itoa (z : Z) : string := NilZero.string_of_int (Z.to_int z).

Definition min_int64 : Z := -(2 ^ 63).
Definition max_int64 : Z := 2 ^ 63 - 1.

(** [strconv.ParseInt(s, 10, 64)]. *)
Definition ParseInt64 (s : string) : result string Z :=
  let digits :=
    match s with
    | String "+"%char s' => Decimal.Pos <$> NilZero.uint_of_string s'
    | _ => NilZero.int_of_string s
    end in
  match digits with
  | None => Err "invalid syntax"
  | Some d =>
      let z := Z.of_int d in
      if decide (min_int64 ≤ z ≤ max_int64)%Z then Ok z else Err "value out of range"
  end.

(** ** Lemmas *)

Lemma string_of_uint_cons u : u ≠ Decimal.Nil → ∃ c s, NilZero.string_of_uint u = String c s ∧ IsDigit c = true.
Proof. destruct u; intros H; [done|..]; simpl; by eexists _, _. Qed.

Lemma string_of_uint_digits u : string_forallb IsDigit (NilZero.string_of_uint u) = true.
Proof.
  assert (H : ∀ u, string_forallb IsDigit (NilEmpty.string_of_uint u) = true).
  { clear u. induction u; simpl; rewrite ?IHu; done. }
  destruct u; [done|..]; apply H.
Qed.

Lemma to_int_not_nil z : Z.to_int z ≠ Decimal.Pos Decimal.Nil ∧ Z.to_int z ≠ Decimal.Neg Decimal.Nil.
Proof.
  destruct z as [|p|p]; simpl; [done|..]; (split; [|done]) || (split; [done|]);
    intros [= H]; by apply (DecimalPos.Unsigned.to_uint_nonnil p).
Qed.

Lemma Itoa_first z : ∃ c s, Itoa z = String c s ∧ c ≠ "+"%char.
Proof.
  unfold Itoa. destruct (to_int_not_nil z) as [Hp Hn].
  destruct (Z.to_int z) as [u|u]; simpl; [|by eexists _, _].
  destruct (string_of_uint_cons u) as (c & s & -> & Hd); [congruence|].
  exists c, s. split; [done|]. by intros ->.
Qed.

(** Printing an [int64] and parsing it back. *)
Lemma ParseInt64_Itoa z : (min_int64 ≤ z ≤ max_int64)%Z → ParseInt64 (Itoa z) = Ok z.
Proof.
  intros Hz. unfold ParseInt64. destruct (Itoa_first z) as (c & s & E & Hc).
  assert (Hd : NilZero.int_of_string (Itoa z) = Some (Z.to_int z)) by (apply NilZero.isi; apply to_int_not_nil).
  assert (match Itoa z with
          | String "+"%char s' => Decimal.Pos <$> NilZero.uint_of_string s'
          | _ => NilZero.int_of_string (Itoa z)
          end = Some (Z.to_int z)) as ->.
  { rewrite <-Hd, E. destruct c as [[] [] [] [] [] [] [] []]; done. }
  rewrite DecimalZ.of_to. by rewrite decide_True.
Qed.

Lemma TrimLeftFunc_id f c s : f c = false → TrimLeftFunc f (String c s) = String c s.
Proof. simpl. by intros ->. Qed.

Lemma TrimRightFunc_id f s : string_forallb (negb ∘ f) s = true → TrimRightFunc f s = s.
Proof.
  induction s as [|c s IH]; [done|]. simpl. intros [Hc Hs]%andb_true_iff. rewrite IH by done.
  destruct s; [|done]. unfold compose in Hc. by destruct (f c).
Qed.

(** A string without white space is not trimmed. *)
Lemma TrimSpace_id s : string_forallb (negb ∘ IsSpace) s = true → TrimSpace s = s.
Proof.
  intros Hs. unfold TrimSpace. destruct s as [|c s]; [done|].
  pose proof Hs as Hs'. simpl in Hs'. apply andb_true_iff in Hs' as [Hc _]. apply negb_true_iff in Hc.
  rewrite TrimLeftFunc_id by done. by apply TrimRightFunc_id.
Qed.

Lemma string_forallb_impl (f g : ascii → bool) s :
  (∀ c, f c = true → g c = true) → string_forallb f s = true → string_forallb g s = true.
Proof.
  intros Hfg. induction s as [|c s IH]; [done|]. simpl. rewrite !andb_true_iff. naive_solver.
Qed.

Lemma string_forallb_app f s t :
  string_forallb f (s ++ t) = string_forallb f s && string_forallb f t.
Proof. induction s as [|c s IH]; [done|]. simpl. by rewrite IH, andb_assoc. Qed.

Lemma cut_app sep a b :
  string_forallb (λ c, negb (bool_decide (c = sep))) a = true → cut sep (a ++ String sep b) = Some (a, b).
Proof.
  induction a as [|c a IH]; simpl; [by rewrite decide_True|].
  rewrite andb_true_iff, negb_true_iff, bool_decide_eq_false. intros [Hc Ha].
  by rewrite decide_False, IH by done.
Qed.

Lemma cut_Some sep s a b : cut sep s = Some (a, b) → s = a ++ String sep b.
Proof.
  revert a b. induction s as [|c s IH]; intros a b; simpl; [done|].
  case_decide; [naive_solver|]. destruct (cut sep s) as [[a' b']|]; simpl; [|done].
  intros [= <- <-]. simpl. by rewrite (IH a' b').
Qed.

(** ** Strings in order *)

Definition sle (a b : string) : Prop := String.leb a b = true.

Lemma leb_cons c a d b :
  String.leb (String c a) (String d b) =
  if decide (c = d) then String.leb a b else bool_decide (code c < code d)%N.
Proof.
  unfold String.leb, code. cbn [String.compare]. unfold Ascii.compare.
  case_decide as Hc; [subst; by rewrite N.compare_refl|].
  destruct (N.compare_spec (N_of_ascii c) (N_of_ascii d)) as [E|E|E].
  - apply (f_equal ascii_of_N) in E. by rewrite !ascii_N_embedding in E.
  - by rewrite bool_decide_eq_true_2.
  - by rewrite bool_decide_eq_false_2 by lia.
Qed.

Lemma code_inj c d : code c = code d → c = d.
Proof. intros E%(f_equal ascii_of_N). unfold code in E. by rewrite !ascii_N_embedding in E. Qed.

Lemma sle_cons c a d b : sle (String c a) (String d b) ↔ (code c < code d)%N ∨ c = d ∧ sle a b.
Proof.
  unfold sle. rewrite leb_cons. case_decide as Hc; [subst; split; [by right|intros [?|[_ ?]]; [lia|done]]|].
  rewrite bool_decide_eq_true. naive_solver.
Qed.

Lemma sle_refl a : sle a a.
Proof. unfold sle. induction a as [|c a IH]; [done|]. by rewrite leb_cons, decide_True. Qed.
Lemma sle_trans a b c : sle a b → sle b c → sle a c.
Proof.
  revert b c. induction a as [|x a IH]; intros [|y b] [|z c]; try done.
  rewrite !sle_cons. intros [?|[-> ?]] [?|[-> ?]]; [left; lia|by left|by left|right; eauto].
Qed.
Lemma sle_antisym a b : sle a b → sle b a → a = b.
Proof.
  revert b. induction a as [|x a IH]; intros [|y b]; try done.
  rewrite !sle_cons. intros [?|[-> ?]] [?|[? ?]]; subst; try lia; f_equal; auto.
Qed.
Lemma sle_total a b : sle a b ∨ sle b a.
Proof.
  revert b. induction a as [|x a IH]; intros [|y b]; [by left..|by right|]. rewrite !sle_cons.
  destruct (N.lt_trichotomy (code x) (code y)) as [?|[->%code_inj|?]]; [by left; left| |by right; left].
  destruct (IH b); [left|right]; by right.
Qed.

(** The strings with the prefix [h] follow one another, and [h] comes first. *)
Lemma prefix_sle v h : HasPrefix v h = true → sle h v.
Proof.
  revert v. induction h as [|c h IH]; intros [|d v]; try done. simpl.
  intros [->%bool_decide_eq_true ?]%andb_true_iff. apply sle_cons. auto.
Qed.
Lemma prefix_between h v w : sle h v → sle v w → HasPrefix w h = true → HasPrefix v h = true.
Proof.
  revert v w. induction h as [|c h IH]; intros [|d v] [|e w]; try done. simpl.
  rewrite !sle_cons. intros H1 H2 [->%bool_decide_eq_true Hw]%andb_true_iff.
  destruct H1 as [?|[-> ?]], H2 as [?|[? ?]]; subst; try lia. rewrite bool_decide_eq_true_2 by done. simpl. eauto.
Qed.
Lemma prefix_same_length v h : String.length v = String.length h → HasPrefix v h = true → v = h.
Proof.
  revert v. induction h as [|c h IH]; intros [|d v]; try done. simpl.
  intros [= E] [->%bool_decide_eq_true ?]%andb_true_iff. f_equal. auto.
Qed.
Lemma prefix_refl h : HasPrefix h h = true.
Proof. induction h as [|c h IH]; [done|]. simpl. by rewrite bool_decide_eq_true_2. Qed.
