(* ===== verification/GoIO.v ===== *)
(** Byte streams: the errors of package io and of the stream packages of the
    engine, [io.Reader] and [io.Writer] as interfaces, and the big-endian
    encoding of [encoding/binary]. *)

From Stdlib Require Import Strings.Byte.
From S2P Require Import Prelude.

Abbreviation byte := Byte.byte.

Inductive io_error : Type :=
| EOF
| ErrShortWrite
| errBufferFull
| ErrClosed
| OtherIO (msg : string).
#[export] Instance io_error_eq_dec : EqDecision io_error.
Proof. solve_decision. Defined.

(** ** Readers and writers *)

(** [Read] on a slice of length [k] gives the bytes it has stored in it. *)
Class Reader (R : Type) := io_Read : nat → R → list byte * option io_error * R.

(** [Write] gives the number of bytes taken. *)
Class Writer (W : Type) := io_Write : list byte → W → Z * option io_error * W.

(** A reader that behaves: it delivers the bytes of [stream r], at most as many
    as fit, then [EOF], with the last bytes or after them; [budget r] bounds
    the number of calls before that. *)
Class GoodReader (R : Type) `{Reader R} := {
  stream : R → list byte;
  budget : R → nat;
  good_Read k r : 0 < k →
    let '(d, e, r') := io_Read k r in
    stream r = d ++ stream r' ∧ length d ≤ k ∧
    match e with
    | None => budget r' < budget r
    | Some e => e = EOF ∧ stream r' = [] ∧ budget r' ≤ budget r
    end }.

(** A list of chunks: every call gives as much of the next one as fits. *)
#[export] Instance chunks_reader : Reader (list (list byte)) := λ k r,
  match r with
  | [] => ([], Some EOF, [])
  | c :: r' => if decide (length c ≤ k) then (c, None, r') else (take k c, None, drop k c :: r')
  end.

#[export] Program Instance chunks_good : GoodReader (list (list byte)) := {|
  stream r := concat r;
  budget r := length (concat r) + length r |}.
Next Obligation.
  intros k r Hk. unfold io_Read, chunks_reader. destruct r as [|c r]; [simpl; split_and!; (done || lia)|].
  case_decide; simpl; [rewrite ?length_app; split_and!; [done|lia|lia]|].
  rewrite (assoc_L (++)), take_drop. rewrite !length_app, length_take, length_drop. split_and!; [done|lia|lia].
Qed.

(** A sink takes everything. *)
#[export] Instance sink : Writer (list byte) := λ p w, (Z.of_nat (length p), None, w ++ p).

(** ** encoding/binary *)

Definition byte_of_Z (z : Z) : byte := default x00 (Byte.of_N (Z.to_N (z `mod` 256))).
Definition Z_of_byte (b : byte) : Z := Z.of_N (Byte.to_N b).

(** [uint32(v)]. *)
Definition uint32 (v : Z) : Z := v `mod` 2 ^ 32.

(** [binary.BigEndian.PutUint32] and [Uint32]. *)
Definition PutUint32 (v : Z) : list byte :=
  [byte_of_Z (Z.shiftr v 24); byte_of_Z (Z.shiftr v 16); byte_of_Z (Z.shiftr v 8); byte_of_Z v].
Definition Uint32 (l : list byte) : option Z :=
  match l with
  | b0 :: b1 :: b2 :: b3 :: _ =>
      Some (Z.lor (Z_of_byte b3) (Z.lor (Z.shiftl (Z_of_byte b2) 8)
        (Z.lor (Z.shiftl (Z_of_byte b1) 16) (Z.shiftl (Z_of_byte b0) 24))))
  | _ => None
  end.

Lemma Z_of_byte_of_Z z : Z_of_byte (byte_of_Z z) = (z `mod` 256)%Z.
Proof.
  unfold Z_of_byte, byte_of_Z. assert (H := Z.mod_pos_bound z 256 ltac:(lia)).
  destruct (Byte.of_N (Z.to_N (z `mod` 256)%Z)) as [b|] eqn:E; simpl.
  - apply Byte.to_of_N in E. rewrite E. lia.
  - apply Byte.of_N_None_iff in E. lia.
Qed.

Lemma Z_of_byte_bound b : (0 ≤ Z_of_byte b < 256)%Z.
Proof. unfold Z_of_byte. pose proof (Byte.to_N_bounded b). lia. Qed.

Lemma byte_testbit z i : (0 ≤ i)%Z → Z.testbit (z `mod` 256) i = bool_decide (i < 8)%Z && Z.testbit z i.
Proof.
  intros Hi. change 256%Z with (2 ^ 8)%Z. case_bool_decide.
  - by rewrite Z.mod_pow2_bits_low by lia.
  - by rewrite Z.mod_pow2_bits_high by lia.
Qed.

Lemma Uint32_PutUint32 v rest : (0 ≤ v < 2 ^ 32)%Z → Uint32 (PutUint32 v ++ rest) = Some v.
Proof.
  intros Hv. simpl. f_equal. rewrite !Z_of_byte_of_Z. apply Z.bits_inj'. intros i Hi.
  rewrite !Z.lor_spec, !Z.shiftl_spec by lia.
  assert (Hb : ∀ k, (0 ≤ k)%Z → Z.testbit (Z.shiftr v k `mod` 256) (i - k) =
    bool_decide (k ≤ i < k + 8)%Z && Z.testbit v i).
  { intros k Hk. destruct (decide (k ≤ i)%Z).
    - rewrite byte_testbit, Z.shiftr_spec by lia. replace (i - k + k)%Z with i by lia.
      f_equal. apply bool_decide_ext. lia.
    - rewrite Z.testbit_neg_r by lia. rewrite bool_decide_false by lia. done. }
  rewrite !Hb by lia. rewrite byte_testbit by done.
  destruct (Z.testbit v i) eqn:Ht; [|by rewrite !andb_false_r].
  assert (i < 32)%Z.
  { apply Z.nle_gt. intros Hge. rewrite (Z.bits_above_log2 v i) in Ht; [done|lia|].
    destruct (decide (v = 0)%Z) as [->|]; [simpl; lia|]. apply Z.log2_lt_pow2; [lia|].
    apply Z.lt_le_trans with (2 ^ 32)%Z; [lia|]. apply Z.pow_le_mono_r; lia. }
  rewrite !andb_true_r, <-!bool_decide_or. apply bool_decide_eq_true. lia.
Qed.
