(* ===== verification/Digest.v ===== *)
(** Digests as strings: the vendored package digest, with the algorithms it
    accepts. *)

From Stdlib Require Import Ascii.
From S2P Require Import Prelude GoStrings.

Local Open Scope string_scope.

(** The number of hexadecimal digits of a digest of the vendored package
    digest, by algorithm. *)
Definition digest_length (alg : string) : option nat :=
  if decide (alg = "sha256") then Some 64
  else if decide (alg = "sha384") then Some 96
  else if decide (alg = "sha512") then Some 128
  else None.

Definition IsXDigit (c : ascii) : bool := IsHex c || bool_decide (65 ≤ code c ∧ code c ≤ 70)%N.

(** The regular expression of a digest, anchored. *)
Definition DigestRegexpAnchored (d : string) : bool :=
  match cut ":" d with
  | Some (alg, hex) =>
      negb (bool_decide (alg = "")) && string_forallb (λ c, IsLetter c || IsDigit c || bool_decide (c ∈ ["-"; "_"; "+"; "."]%char)) alg &&
      negb (bool_decide (hex = "")) && string_forallb IsXDigit hex
  | None => false
  end.

(** [digest.ParseDigest], with the error of [Validate]. *)
Definition ParseDigest (s : string) : result string string :=
  if negb (DigestRegexpAnchored s) then Err "invalid checksum digest format"
  else match cut ":" s with
  | None => Err "invalid checksum digest format"
  | Some (alg, hex) =>
      if decide (hex = "") then Err "invalid checksum digest format"
      else match digest_length alg with
      | None => Err "unsupported digest algorithm"
      | Some n => if decide (n = String.length hex) then Ok s else Err "invalid checksum digest length"
      end
  end.

Definition Validate (d : string) : bool := match ParseDigest d with Ok _ => true | Err _ => false end.

(** [Algorithm()] and [Hex()] of a digest; they panic on a string without a
    colon, which no chain ID is. *)
Definition digest_parts (d : string) : string * string := default ("", d) (cut ":" d).

(** ** Lemmas *)

Lemma digest_length_alg alg n : digest_length alg = Some n → alg ∈ ["sha256"; "sha384"; "sha512"].
Proof. unfold digest_length. repeat case_decide; subst; set_solver. Qed.

Lemma Validate_ParseDigest d : Validate d = true → ParseDigest d = Ok d.
Proof.
  unfold Validate. destruct (ParseDigest d) as [d'|] eqn:E; [|done]. intros _. unfold ParseDigest in E.
  destruct (negb _); [done|]. destruct (cut ":" d) as [[alg hex]|]; [|done].
  case_decide; [done|]. destruct (digest_length alg); [|done]. case_decide; by simplify_eq.
Qed.

Lemma Validate_cut d :
  Validate d = true → ∃ alg hex, cut ":" d = Some (alg, hex) ∧
    digest_length alg = Some (String.length hex) ∧ string_forallb IsXDigit hex = true.
Proof.
  intros E%Validate_ParseDigest. unfold ParseDigest, DigestRegexpAnchored in E.
  destruct (cut ":" d) as [[alg hex]|]; [|done]. destruct (negb (_ && _)) eqn:Hr; [done|].
  apply negb_false_iff in Hr. rewrite !andb_true_iff in Hr. exists alg, hex. split; [done|]. split; [|by apply Hr].
  case_decide; [done|]. destruct (digest_length alg); [|done]. case_decide; [by subst|done].
Qed.

Lemma Validate_parts d :
  Validate d = true →
  ∃ alg hex, digest_parts d = (alg, hex) ∧ d = alg +:+ ":" +:+ hex ∧ alg ∈ ["sha256"; "sha384"; "sha512"].
Proof.
  intros (alg & hex & E & Hl & _)%Validate_cut. exists alg, hex. unfold digest_parts. rewrite E.
  apply cut_Some in E. split_and!; [done..|by eapply digest_length_alg].
Qed.

(** A digest and an identifier hold no white space. *)
Lemma hex_no_space c : IsXDigit c = true → IsSpace c = false.
Proof.
  unfold IsXDigit, IsHex, IsDigit, IsSpace. rewrite !orb_true_iff, !bool_decide_eq_true, bool_decide_eq_false. lia.
Qed.

Lemma Validate_trim d : Validate d = true → TrimSpace d = d.
Proof.
  intros (alg & hex & E & Hl & Hh)%Validate_cut. apply TrimSpace_id. apply cut_Some in E as ->.
  rewrite string_forallb_app. simpl. apply andb_true_iff. split.
  - apply digest_length_alg in Hl. repeat (apply elem_of_cons in Hl as [->|Hl]; [done|]). by apply not_elem_of_nil in Hl.
  - eapply string_forallb_impl; [|exact Hh]. intros c Hc. unfold compose. by rewrite (hex_no_space c Hc).
Qed.
