(* ===== verification/DigestSet.v ===== *)
(** The set of digests of the vendored package digest (set.go), which finds an
    image by a prefix of its ID: a sorted array with binary search.  The search
    is shown to compute the same as a scan of the whole set. *)

From Stdlib Require Import Ascii.
From stdpp Require Import sorting.
From S2P Require Import Prelude GoStrings Digest.

Local Open Scope string_scope.

(** ** sort.Search *)

Fixpoint search (fuel i j : nat) (f : nat → bool) : nat :=
  match fuel with
  | O => i
  | S fuel =>
      if decide (i < j)%nat then
        let h := (i + (j - i) / 2)%nat in
        if f h then search fuel i h f else search fuel (S h) j f
      else i
  end.
Definition Search (n : nat) (f : nat → bool) : nat := search n 0 n f.

(** On a predicate that stays true once it is, it finds where it becomes true. *)
Lemma search_spec f n fuel i j :
  (∀ a b, (a ≤ b < n)%nat → f a = true → f b = true) → (i ≤ j ≤ n)%nat → (j - i ≤ fuel)%nat →
  (∀ a, (a < i)%nat → f a = false) → (∀ a, (j ≤ a < n)%nat → f a = true) →
  let k := search fuel i j f in
  (k ≤ n)%nat ∧ (∀ a, (a < k)%nat → f a = false) ∧ (∀ a, (k ≤ a < n)%nat → f a = true).
Proof.
  intros Hm. revert i j. induction fuel as [|fuel IH]; intros i j Hij Hf Hlo Hhi; cbn [search].
  { split_and!; [lia|done|]. intros a Ha. apply Hhi. lia. }
  case_decide as Hd; [|split_and!; [lia|done|]; intros a Ha; apply Hhi; lia].
  assert ((j - i) / 2 < j - i)%nat by (apply Nat.div_lt; lia).
  destruct (f _) eqn:E; (apply IH; [lia|lia| |]); try done.
  - intros a Ha. apply (Hm (i + (j - i) / 2)%nat); [lia|done].
  - intros a Ha. destruct (f a) eqn:Ea; [|done]. rewrite (Hm a (i + (j - i) / 2)%nat) in E; [done|lia|done].
Qed.

(** ** The set *)

Record digestEntry := mkEntry { e_alg : string; e_val : string; e_digest : string }.
Definition entry_of (d : string) : digestEntry := mkEntry (digest_parts d).1 (digest_parts d).2 d.

Inductive digestError := ErrDigestNotFound | ErrDigestAmbiguous.

Definition checkShortMatch (alg hex shortAlg shortHex : string) : bool :=
  if decide (String.length hex = String.length shortHex) then
    if decide (hex ≠ shortHex) then false
    else if decide (shortAlg ≠ "" ∧ alg ≠ shortAlg) then false else true
  else if negb (HasPrefix hex shortHex) then false
  else if decide (shortAlg ≠ "" ∧ alg ≠ shortAlg) then false else true.

(** The closures that are passed to [sort.Search]. *)
Definition at_least (alg hex : string) (e : digestEntry) : bool :=
  if decide (e_val e = hex) then String.leb alg (e_alg e) else String.leb hex (e_val e).
Definition over (entries : list digestEntry) (f : digestEntry → bool) (i : nat) : bool :=
  match entries !! i with Some e => f e | None => false end.

(** What is searched for: the algorithm, if the string has one, and the digits. *)
Definition query (d : string) : string * string :=
  match ParseDigest d with
  | Err e => if decide (e = "invalid checksum digest format") then ("", d) else digest_parts d
  | Ok d => digest_parts d
  end.
Definition query_test (d : string) : digestEntry → bool :=
  match ParseDigest d with
  | Err e => if decide (e = "invalid checksum digest format") then λ en, String.leb d (e_val en)
             else at_least (digest_parts d).1 (digest_parts d).2
  | Ok d => at_least (digest_parts d).1 (digest_parts d).2
  end.

Definition Lookup (d : string) (entries : list digestEntry) : result digestError string :=
  match entries with
  | [] => Err ErrDigestNotFound
  | _ =>
      let '(alg, hex) := query d in
      let idx := Search (length entries) (over entries (query_test d)) in
      match entries !! idx with
      | None => Err ErrDigestNotFound
      | Some e =>
          if negb (checkShortMatch (e_alg e) (e_val e) alg hex) then Err ErrDigestNotFound
          else if decide (e_alg e = alg ∧ e_val e = hex) then Ok (e_digest e)
          else
            match entries !! S idx with
            | Some e' =>
                if checkShortMatch (e_alg e') (e_val e') alg hex then Err ErrDigestAmbiguous else Ok (e_digest e)
            | None => Ok (e_digest e)
            end
      end
  end.

Definition place (d : string) (entries : list digestEntry) : nat :=
  let entry := entry_of d in
  Search (length entries) (over entries (at_least (e_alg entry) (e_val entry))).

Definition Add (d : string) (entries : list digestEntry) : result string (list digestEntry) :=
  match ParseDigest d with
  | Err e => Err e
  | Ok d =>
      let idx := place d entries in
      match entries !! idx with
      | None => Ok (entries ++ [entry_of d])%list
      | Some e =>
          if decide (e_digest e = d) then Ok entries
          else Ok (take idx entries ++ entry_of d :: drop idx entries)%list
      end
  end.

Definition Remove (d : string) (entries : list digestEntry) : result string (list digestEntry) :=
  match ParseDigest d with
  | Err e => Err e
  | Ok d =>
      let idx := place d entries in
      match entries !! idx with
      | Some e =>
          if decide (e_digest e = d) then Ok (take idx entries ++ drop (S idx) entries)%list else Ok entries
      | None => Ok entries
      end
  end.

Definition All (entries : list digestEntry) : list string := e_digest <$> entries.

(** ** Correctness *)

(** A set of digests of one algorithm, as the image store keeps it. *)
Definition entry_ok (alg : string) (e : digestEntry) : Prop :=
  e = entry_of (e_digest e) ∧ Validate (e_digest e) = true ∧ e_alg e = alg.
Definition entry_lt (e e' : digestEntry) : Prop := sle (e_val e) (e_val e') ∧ e_val e ≠ e_val e'.
Definition set_ok (alg : string) (entries : list digestEntry) : Prop :=
  Forall (entry_ok alg) entries ∧ StronglySorted entry_lt entries.

(** What [Lookup] promises: the only digest that matches. *)
Definition lookup_spec (d : string) (entries : list digestEntry) : result digestError string :=
  match filter (λ e, checkShortMatch (e_alg e) (e_val e) (query d).1 (query d).2 = true) entries with
  | [] => Err ErrDigestNotFound
  | [e] => Ok (e_digest e)
  | _ => Err ErrDigestAmbiguous
  end.

Lemma checkShortMatch_prefix alg hex a h :
  checkShortMatch alg hex a h = HasPrefix hex h && bool_decide (a = "" ∨ alg = a).
Proof.
  assert (∀ b : bool, (if decide (a ≠ "" ∧ alg ≠ a) then false else true) = bool_decide (a = "" ∨ alg = a)) as Hb.
  { intros _. case_decide; case_bool_decide; destruct (decide (a = "")); naive_solver. }
  unfold checkShortMatch. rewrite (Hb true). clear Hb. destruct (decide (String.length hex = String.length h)) as [Hl|Hl].
  - destruct (decide (hex = h)) as [->|Hne].
    + rewrite decide_False by (intros Hh; by apply Hh). by rewrite prefix_refl.
    + rewrite decide_True by done. destruct (HasPrefix hex h) eqn:E; [|done].
      by apply prefix_same_length in E.
  - by destruct (HasPrefix hex h).
Qed.

Lemma at_least_same a h e : e_alg e = a → at_least a h e = String.leb h (e_val e).
Proof.
  intros Ha. unfold at_least. rewrite Ha. case_decide as Hv; [|done].
  rewrite <-Hv. pose proof (sle_refl a). pose proof (sle_refl (e_val e)). congruence.
Qed.

Lemma sorted_le entries i j e e' : StronglySorted entry_lt entries →
  entries !! i = Some e → entries !! j = Some e' → (i ≤ j)%nat → sle (e_val e) (e_val e').
Proof.
  intros Hs. revert i j. induction Hs as [|x l Hs IH Hx]; intros i j Hi Hj Hij; [by destruct i|].
  destruct i as [|i], j as [|j]; simplify_eq/=; [apply sle_refl| |lia|eapply IH; eauto with lia].
  rewrite list.Forall_forall in Hx. by apply Hx, (list_elem_of_lookup_2 _ j).
Qed.

(** Where the search for the digits [h] ends. *)
Lemma Search_first entries f h : StronglySorted entry_lt entries →
  (∀ e, e ∈ entries → f e = String.leb h (e_val e)) →
  let k := Search (length entries) (over entries f) in
  Forall (λ e, ¬ sle h (e_val e)) (take k entries) ∧ Forall (λ e, sle h (e_val e)) (drop k entries).
Proof.
  intros Hs Hf.
  assert (∀ i e, entries !! i = Some e → over entries f i = String.leb h (e_val e)) as Hov.
  { intros i e Hi. unfold over. rewrite Hi. by eapply Hf, list_elem_of_lookup_2. }
  destruct (search_spec (over entries f) (length entries) (length entries) 0 (length entries)) as (Hk & Hlo & Hhi);
    try lia.
  { intros i j Hij Ha. destruct (lookup_lt_is_Some_2 entries i) as [e Hi]; [lia|].
    destruct (lookup_lt_is_Some_2 entries j) as [e' Hj]; [lia|].
    rewrite (Hov _ _ Hi) in Ha. rewrite (Hov _ _ Hj). eapply sle_trans; [exact Ha|].
    eapply sorted_le; [done..|lia]. }
  fold (Search (length entries) (over entries f)) in Hk, Hlo, Hhi.
  split; apply Forall_lookup; intros i e.
  - intros [Hi Hlt]%lookup_take_Some. specialize (Hlo i Hlt). rewrite (Hov _ _ Hi) in Hlo. unfold sle. congruence.
  - rewrite lookup_drop. intros Hi. pose proof (lookup_lt_Some _ _ _ Hi). unfold sle. rewrite <-(Hov _ _ Hi). apply Hhi. lia.
Qed.

Lemma StronglySorted_strengthen (R R' : digestEntry → digestEntry → Prop) (P : digestEntry → Prop) l :
  StronglySorted R l → Forall P l → (∀ x y, P x → P y → R x y → R' x y) → StronglySorted R' l.
Proof.
  intros Hs HP HR. induction Hs as [|x l Hs IH Hx]; [constructor|]. apply list.Forall_cons in HP as [Hp HP].
  constructor; [by apply IH|]. apply list.Forall_forall. intros y Hy. rewrite list.Forall_forall in Hx, HP. auto.
Qed.

(** The end of a lookup, once the first candidate is known. *)
Definition pick (matches : digestEntry → bool) (exact : digestEntry → Prop) `{∀ e, Decision (exact e)}
    (l : list digestEntry) : result digestError string :=
  match l with
  | [] => Err ErrDigestNotFound
  | e :: l =>
      if negb (matches e) then Err ErrDigestNotFound
      else if decide (exact e) then Ok (e_digest e)
      else match l with
           | e' :: _ => if matches e' then Err ErrDigestAmbiguous else Ok (e_digest e)
           | [] => Ok (e_digest e)
           end
  end.

Lemma filter_none (m : digestEntry → bool) l : Forall (λ e, m e = false) l → filter (λ e, m e = true) l = [].
Proof.
  induction 1 as [|e l He _ IH]; [done|]. by rewrite filter_cons_False by congruence.
Qed.

(** When the matches come first and an exact match is the only one. *)
Lemma pick_filter m (exact : digestEntry → Prop) `{∀ e, Decision (exact e)} l :
  StronglySorted (λ e e', m e' = true → m e = true ∧ ¬ exact e) l →
  pick m exact l =
  match filter (λ e, m e = true) l with
  | [] => Err ErrDigestNotFound
  | [e] => Ok (e_digest e)
  | _ => Err ErrDigestAmbiguous
  end.
Proof.
  assert (∀ e l, m e = false ∨ exact e → Forall (λ e', m e' = true → m e = true ∧ ¬ exact e) l →
    filter (λ e, m e = true) l = []) as Hnone.
  { intros e l' He Hl. apply filter_none, (list.Forall_impl _ _ _ Hl). intros e' H'.
    destruct (m e') eqn:E; [|done]. destruct H' as [??]; [done|]. destruct He; congruence. }
  destruct 1 as [|e l Hs He]; [done|]. simpl pick. pose proof (λ Hx, Hnone e l Hx He) as Hn. clear He.
  destruct (m e) eqn:Em; simpl.
  2: { rewrite filter_cons_False by congruence. by rewrite Hn by by left. }
  rewrite filter_cons_True by done. destruct (decide (exact e)) as [Hx|Hx]; [by rewrite Hn by by right|].
  destruct Hs as [|e' l Hs He']; [done|]. pose proof (λ Hx, Hnone e' l Hx He') as Hn'. clear He'.
  destruct (m e') eqn:Em'; [by rewrite filter_cons_True|].
  rewrite filter_cons_False by congruence. by rewrite Hn' by by left.
Qed.

Lemma Lookup_pick d entries a h : query d = (a, h) → entries ≠ [] →
  Lookup d entries =
  pick (λ e, checkShortMatch (e_alg e) (e_val e) a h) (λ e, e_alg e = a ∧ e_val e = h)
    (drop (Search (length entries) (over entries (query_test d))) entries).
Proof.
  intros Hq Hne. unfold Lookup. destruct entries as [|e0 l0] eqn:E; [done|]. rewrite <-E in *. rewrite Hq.
  set (k := Search _ _). clearbody k.
  assert (drop k entries = match entries !! k with Some e => e :: drop (S k) entries | None => [] end) as ->.
  { destruct (entries !! k) eqn:Hk; [by apply drop_S|]. by apply drop_ge, lookup_ge_None. }
  destruct (entries !! k) as [e|]; [|done]. simpl pick.
  assert (entries !! S k = head (drop (S k) entries)) as ->.
  { by rewrite <-(Nat.add_0_r (S k)), <-lookup_drop, Nat.add_0_r, head_lookup. }
  by destruct (drop (S k) entries).
Qed.

(** What [Lookup] tests in its search, on a set of one algorithm. *)
Lemma query_test_ok d a h alg e : query d = (a, h) → e_alg e = alg → a = "" ∨ a = alg →
  query_test d e = String.leb h (e_val e).
Proof.
  unfold query, query_test. intros Hq He Ha.
  assert (∀ d, digest_parts d = (a, h) → at_least (digest_parts d).1 (digest_parts d).2 e = String.leb h (e_val e)) as Hgo.
  { intros d' ->. simpl. destruct Ha as [->| ->]; [|by apply at_least_same].
    unfold at_least. case_decide as Hv; [|done]. rewrite <-Hv. pose proof (sle_refl (e_val e)). by destruct (e_alg e). }
  destruct (ParseDigest d); [by apply Hgo|]. case_decide; [by simplify_eq|by apply Hgo].
Qed.

Lemma entry_ok_length alg e e' : entry_ok alg e → entry_ok alg e' → String.length (e_val e) = String.length (e_val e').
Proof.
  intros (-> & (a & hx & E & Hl & _)%Validate_cut & Ha) (-> & (a' & hx' & E' & Hl' & _)%Validate_cut & Ha').
  simpl in *. unfold digest_parts in *. rewrite E, E' in *. simpl in *. congruence.
Qed.

(** Lookup in a set of digests of one algorithm finds the only match. *)
Lemma set_ok_lookup alg entries d : set_ok alg entries → alg ≠ "" → Lookup d entries = lookup_spec d entries.
Proof.
  intros [Hok Hs] Halg. unfold lookup_spec. destruct (query d) as [a h] eqn:Hq. simpl fst. simpl snd.
  destruct (decide (entries = [])) as [->|Hne]; [done|]. rewrite (Lookup_pick d entries a h) by done.
  set (k := Search _ _). pose (m := λ e, checkShortMatch (e_alg e) (e_val e) a h). fold m.
  change (pick m (λ e, e_alg e = a ∧ e_val e = h) (drop k entries) =
    match filter (λ e, m e = true) entries with [] => Err ErrDigestNotFound | [e] => Ok (e_digest e) | _ => Err ErrDigestAmbiguous end).
  rewrite list.Forall_forall in Hok. destruct (decide (a = "" ∨ a = alg)) as [Ha|Ha].
  2: { assert (∀ e, e ∈ entries → m e = false) as Hm.
       { intros e (_ & _ & He)%Hok. unfold m. rewrite checkShortMatch_prefix, bool_decide_eq_false_2, andb_false_r; naive_solver. }
       rewrite (filter_none m entries) by by apply list.Forall_forall. destruct (drop k entries) as [|e l] eqn:E; [done|].
       simpl. rewrite Hm; [done|]. apply (subseteq_drop k). rewrite E. by left. }
  destruct (Search_first entries (query_test d) h Hs) as [Hlo Hhi].
  { intros e (_ & _ & He)%Hok. by eapply query_test_ok. }
  fold k in Hlo, Hhi.
  assert (filter (λ e, m e = true) (take k entries) = []) as Hnone.
  { apply filter_none, (list.Forall_impl _ _ _ Hlo). intros e He. unfold m. rewrite checkShortMatch_prefix.
    destruct (HasPrefix (e_val e) h) eqn:E; [by apply prefix_sle in E|done]. }
  rewrite <-(take_drop k entries) at 2. rewrite list.filter_app, Hnone. simpl. apply pick_filter.
  apply (StronglySorted_strengthen entry_lt _ (λ e, entry_ok alg e ∧ sle h (e_val e))).
  - rewrite <-(take_drop k entries) in Hs. by apply StronglySorted_app_1_r in Hs.
  - apply list.Forall_and. split; [|done]. apply list.Forall_forall. intros e He. by apply Hok, (subseteq_drop k).
  - intros e e' [Hoke Hle] [Hoke' _] [Hlt Hnv]. unfold m. rewrite !checkShortMatch_prefix, !andb_true_iff, !bool_decide_eq_true.
    intros [Hp _]. split; [split|].
    + by eapply prefix_between.
    + destruct Hoke as (_ & _ & ->). naive_solver.
    + intros [_ Hv]. apply Hnv. rewrite Hv. symmetry. apply prefix_same_length; [|done].
      rewrite <-Hv. by eapply entry_ok_length.
Qed.

(** ** Changing the set *)

Section change.
Context (alg d : string) (entries : list digestEntry).
Hypothesis Hok : set_ok alg entries.
Hypothesis Hd : Validate d = true.
Hypothesis Ha : (digest_parts d).1 = alg.

Lemma entry_of_ok : entry_ok alg (entry_of d).
Proof using Hd Ha. done. Qed.

Lemma same_val e : entry_ok alg e → e_val e = (digest_parts d).2 → e_digest e = d.
Proof using Hd Ha.
  intros (He & Hv & Hae) E. apply Validate_parts in Hd as (a & h & Ed & -> & _), Hv as (a' & h' & Ee & -> & _).
  rewrite He in Hae, E. simpl in *. rewrite Ed in *. rewrite Ee in *. simpl in *. congruence.
Qed.

(** The place of a digest: behind the smaller ones. *)
Lemma place_spec :
  let k := place d entries in
  Forall (λ e, entry_lt e (entry_of d)) (take k entries) ∧ Forall (λ e, sle (digest_parts d).2 (e_val e)) (drop k entries) ∧
  match entries !! k with
  | Some e => e_digest e ≠ d → Forall (entry_lt (entry_of d)) (drop k entries)
  | None => True
  end.
Proof using Hok Hd Ha.
  destruct Hok as [Hall Hs]. rewrite list.Forall_forall in Hall.
  destruct (Search_first entries (at_least (e_alg (entry_of d)) (e_val (entry_of d))) (digest_parts d).2 Hs) as [Hlo Hhi].
  { intros e (_ & _ & He)%Hall. apply at_least_same. by rewrite He. }
  fold (place d entries) in Hlo, Hhi. set (k := place d entries) in *. split_and!; [|done|].
  - apply (list.Forall_impl _ _ _ Hlo). intros e He. simpl.
    destruct (sle_total (digest_parts d).2 (e_val e)) as [?|?]; [done|]. split; [done|]. intros E. apply He. rewrite E. apply sle_refl.
  - destruct (entries !! k) as [e|] eqn:Hk; [|done]. intros Hne. rewrite (drop_S _ _ _ Hk) in *.
    apply list.Forall_cons in Hhi as [Hle Hhi].
    assert (StronglySorted entry_lt (e :: drop (S k) entries)) as Hs'.
    { rewrite <-(drop_S _ _ _ Hk). rewrite <-(take_drop k entries) in Hs. by apply StronglySorted_app_1_r in Hs. }
    apply StronglySorted_inv in Hs' as [_ Hrest]. rewrite list.Forall_forall in Hrest, Hhi.
    apply list.Forall_cons. split.
    + split; [done|]. simpl. intros E. apply Hne, same_val; [|done]. by eapply Hall, list_elem_of_lookup_2.
    + apply list.Forall_forall. intros x Hx. split; [by apply Hhi|]. simpl. intros E.
      destruct (Hrest x Hx) as [H1 H2]. apply H2, sle_antisym; [done|]. by rewrite <-E.
Qed.

(** [Add] puts the digest in. *)
Lemma Add_spec : ∃ entries', Add d entries = Ok entries' ∧ set_ok alg entries' ∧ ∀ x, x ∈ All entries' ↔ x = d ∨ x ∈ All entries.
Proof using Hok Hd Ha.
  unfold Add. rewrite (Validate_ParseDigest d Hd). destruct place_spec as (Hlo & _ & Hhi). destruct Hok as [Hall Hs].
  set (k := place d entries) in *. destruct (entries !! k) as [e|] eqn:Hk.
  - case_decide as Hde.
    { eexists. split_and!; [done|done|]. intros x. split; [by right|]. intros [->|?]; [|done].
      apply list_elem_of_fmap. exists e. split; [done|]. by eapply list_elem_of_lookup_2. }
    eexists. split_and!; [done| |].
    + pose proof (take_drop k entries) as Etd. rewrite <-Etd in Hall, Hs. apply Forall_app in Hall as [??].
      apply StronglySorted_app in Hs as (Hc & ? & ?). specialize (Hhi Hde). rewrite list.Forall_forall in Hlo.
      split; [apply Forall_app; split; [done|]; by apply list.Forall_cons|].
      apply StronglySorted_app. split_and!; [|done|by constructor].
      intros x y Hx [->|Hy]%elem_of_cons; [by apply Hlo|by apply Hc].
    + intros x. unfold All. rewrite fmap_app, fmap_cons, elem_of_app, elem_of_cons. simpl.
      rewrite <-(take_drop k entries) at 3. rewrite fmap_app, elem_of_app. tauto.
  - eexists. split_and!; [done| |].
    + rewrite take_ge in Hlo by by apply lookup_ge_None. rewrite list.Forall_forall in Hlo.
      split; [apply Forall_app; split; [done|]; by apply Forall_singleton|].
      apply StronglySorted_app. split_and!; [|done|by repeat constructor].
      intros x y Hx ->%list_elem_of_singleton. by apply Hlo.
    + intros x. unfold All. rewrite fmap_app, elem_of_app. simpl. rewrite list_elem_of_singleton. tauto.
Qed.

(** [Remove] takes it out. *)
Lemma Remove_spec : ∃ entries', Remove d entries = Ok entries' ∧ set_ok alg entries' ∧ ∀ x, x ∈ All entries' ↔ x ≠ d ∧ x ∈ All entries.
Proof using Hok Hd Ha.
  unfold Remove. rewrite (Validate_ParseDigest d Hd). destruct place_spec as (Hlo & _ & Hhi). destruct Hok as [Hall Hs].
  set (k := place d entries) in *. pose proof (take_drop k entries) as Etd.
  assert (∀ e, e ∈ entries → e_digest e = d → e_val e = e_val (entry_of d)) as Hval.
  { rewrite list.Forall_forall in Hall. intros e (He & _)%Hall <-. by rewrite He. }
  assert (∀ e, e ∈ take k entries → e_digest e ≠ d) as Htake.
  { rewrite list.Forall_forall in Hlo. intros e He E. destruct (Hlo e He) as [_ Hne]. apply Hne, Hval; [|done].
    by apply (subseteq_take k). }
  assert (∀ l, (∀ e, e ∈ l → e_digest e ≠ d) → ∀ x, x ∈ All l ↔ x ≠ d ∧ x ∈ All l) as Hout.
  { intros l Hl x. split; [|by intros [_ ?]]. intros Hx. split; [|done]. apply list_elem_of_fmap in Hx as (e & -> & He). by apply Hl. }
  destruct (entries !! k) as [e|] eqn:Hk; [case_decide as Hde|].
  - eexists. rewrite (drop_S _ _ _ Hk) in Etd. rewrite <-Etd in Hall, Hs. apply StronglySorted_app in Hs as (Hc & Hs1 & Hs2).
    apply StronglySorted_inv in Hs2 as [Hs2 Hrest]. apply Forall_app in Hall as [? [??]%list.Forall_cons].
    split_and!; [done| |].
    + split; [by apply Forall_app|]. apply StronglySorted_app. split_and!; [|done..]. intros x y Hx Hy. apply Hc; [done|by right].
    + assert (∀ e', e' ∈ drop (S k) entries → e_digest e' ≠ d) as Hdrop.
      { rewrite list.Forall_forall in Hrest. intros e' He' E. destruct (Hrest e' He') as [_ Hne]. apply Hne.
        transitivity (e_val (entry_of d)); [apply Hval|symmetry; apply Hval]; [|done| |done].
        - by eapply list_elem_of_lookup_2.
        - by apply (subseteq_drop (S k)). }
      intros x. rewrite <-Etd at 3. unfold All in *. rewrite !fmap_app, fmap_cons, !elem_of_app, elem_of_cons, Hde.
      rewrite (Hout _ Htake x), (Hout _ Hdrop x). tauto.
  - exists entries. split_and!; [done..|]. apply Hout. intros e' He' E. specialize (Hhi Hde).
    rewrite <-Etd in He'. apply elem_of_app in He' as [He'|He']; [by apply (Htake e')|].
    rewrite list.Forall_forall in Hhi. destruct (Hhi e' He') as [_ Hne]. apply Hne. symmetry. apply Hval; [|done].
    by apply (subseteq_drop k).
  - exists entries. split_and!; [done..|]. apply Hout. rewrite take_ge in Htake by by apply lookup_ge_None. done.
Qed.
End change.

(** ** Lookup, as the callers see it *)

(** The string names the digest: the digits begin with those of the string, and
    the algorithm is that of the string, if it has one. *)
Definition names (term d : string) : Prop :=
  checkShortMatch (digest_parts d).1 (digest_parts d).2 (query term).1 (query term).2 = true.

(** [Lookup] finds a digest exactly when it is the only one that is named. *)
Lemma Lookup_exact alg entries term d : set_ok alg entries → alg ≠ "" →
  Lookup term entries = Ok d ↔ d ∈ All entries ∧ names term d ∧ ∀ d', d' ∈ All entries → names term d' → d' = d.
Proof.
  intros Hok Halg. rewrite (set_ok_lookup alg) by done. destruct Hok as [Hall Hs]. rewrite list.Forall_forall in Hall.
  unfold lookup_spec. set (P := λ e, checkShortMatch (e_alg e) (e_val e) (query term).1 (query term).2 = true).
  assert (∀ e, e ∈ entries → P e ↔ names term (e_digest e)) as HP.
  { intros e (He & _)%Hall. unfold P, names. by rewrite He. }
  assert (∀ x, x ∈ All entries ∧ names term x ↔ x ∈ e_digest <$> filter P entries) as Hf.
  { intros x. unfold All. rewrite !list_elem_of_fmap. split.
    - intros [(e & -> & He) Hn]. exists e. split; [done|]. apply list_elem_of_filter. by rewrite HP.
    - intros (e & -> & [Hp He]%list_elem_of_filter). rewrite HP in Hp by done. split; [by exists e|done]. }
  assert (NoDup (filter P entries)) as Hnd.
  { apply list.NoDup_filter. clear -Hs. induction Hs as [|e l _ IH He]; constructor; [|done].
    intros Hin. rewrite list.Forall_forall in He. by destruct (He e Hin). }
  assert (∀ e, e ∈ filter P entries → e = entry_of (e_digest e)) as Hent.
  { intros e [_ (He & _)%Hall]%list_elem_of_filter. done. }
  assert (d ∈ All entries ∧ names term d ∧ (∀ d', d' ∈ All entries → names term d' → d' = d) ↔
    d ∈ e_digest <$> filter P entries ∧ ∀ d', d' ∈ e_digest <$> filter P entries → d' = d) as ->.
  { rewrite <-Hf. split; [intros (? & ? & Hu); split; [done|]; intros d' [??]%Hf; auto|].
    intros [[??] Hu]. split_and!; [done..|]. intros d' ??. apply Hu, Hf. done. }
  clear Hf HP. destruct (filter P entries) as [|e [|e' l]].
  - split; [done|]. intros [?%elem_of_nil _]. done.
  - rewrite fmap_cons, list_elem_of_singleton. split; [|by intros [-> _]]. intros [= <-]. split; [done|]. by intros d' ->%list_elem_of_singleton.
  - split; [done|]. intros [_ Hu]. apply list.NoDup_cons in Hnd as [Hn _]. destruct Hn.
    assert (e = e') as ->; [|by left]. rewrite (Hent e), (Hent e') by (rewrite ?elem_of_cons; auto).
    f_equal. rewrite (Hu (e_digest e)), (Hu (e_digest e')); [done|rewrite !fmap_cons, !elem_of_cons; auto..].
Qed.
