(* ===== verification/GoFS.v ===== *)
(** A directory tree as the metadata stores of the engine use it: packages os
    and io/ioutil on directories of small files. *)

From Stdlib Require Import Ascii.
From stdpp Require Import sorting.
From S2P Require Import Prelude.

Local Open Scope string_scope.

(** ** The directory tree *)

(** A directory, by its path below the root, with its regular files. The
    number of the next temporary directory stands for the random names that
    [ioutil.TempDir] draws until it finds one that is free. Reads and writes
    of the disk do not fail. *)
Abbreviation path := (list string) (only parsing).
Record dirTree := mkFMS {
  dirs : gmap (list string) (gmap string string);
  seed : nat }.

Inductive os_error : Type := NotExist | OtherError.

Definition prefixes (p : path) : list path := (λ n, take n p) <$> seq 1 (length p).

Definition MkdirAll (p : path) (s : dirTree) : dirTree :=
  mkFMS (foldr (λ q m, match m !! q with Some _ => m | None => <[q:=∅]> m end) (dirs s) (prefixes p)) (seed s).

(** [ioutil.WriteFile] of a file of the directory [p], which must exist. *)
Definition WriteFile (p : path) (name content : string) (s : dirTree)
    : result string unit * dirTree :=
  match dirs s !! p with
  | Some files => (Ok (), mkFMS (<[p:=<[name:=content]> files]> (dirs s)) (seed s))
  | None => (Err "no such file or directory", s)
  end.

Definition ReadFile (p : path) (name : string) (s : dirTree) : result os_error string :=
  match dirs s !! p with
  | Some files => match files !! name with Some c => Ok c | None => Err NotExist end
  | None => Err NotExist
  end.

Definition RemoveAll (p : path) (s : dirTree) : dirTree :=
  mkFMS (filter (λ kv, ¬ (p `prefix_of` kv.1)) (dirs s)) (seed s).

(** [os.Rename] of a directory without subdirectories: the target must not be
    a directory that holds anything. *)
Definition Rename (p q : path) (s : dirTree) : result string unit * dirTree :=
  match dirs s !! p with
  | None => (Err "no such file or directory", s)
  | Some files =>
      match dirs s !! q with
      | Some old => if decide (old = ∅) then (Ok (), mkFMS (<[q:=files]> (delete p (dirs s))) (seed s))
                    else (Err "directory not empty", s)
      | None => (Ok (), mkFMS (<[q:=files]> (delete p (dirs s))) (seed s))
      end
  end.

(** The names of the subdirectories of [p], sorted; an error when [p] is not
    a directory. *)
Definition subdir (p q : path) : option string :=
  match drop (length p) q with
  | [name] => if decide (take (length p) q = p) then Some name else None
  | _ => None
  end.
Definition string_le (a b : string) : Prop := String.leb a b = true.
#[export] Instance string_le_dec : RelDecision string_le.
Proof. intros a b. unfold string_le. apply _. Defined.
Definition ReadDir (p : path) (s : dirTree) : result os_error (list string) :=
  match dirs s !! p with
  | None => Err NotExist
  | Some _ => Ok (merge_sort string_le (omap (subdir p) (map_to_list (dirs s)).*1))
  end.

(** ** Lemmas *)

Lemma foldr_mkdir_lookup (ps : list (list string)) (m : gmap (list string) (gmap string string)) q :
  foldr (λ q m, match m !! q with Some _ => m | None => <[q:=∅]> m end) m ps !! q =
  match m !! q with Some f => Some f | None => if decide (q ∈ ps) then Some ∅ else None end.
Proof.
  induction ps as [|p ps IH].
  - simpl foldr. destruct (m !! q); [done|]. case_decide as H; [by apply not_elem_of_nil in H|done].
  - simpl foldr. set (m' := foldr _ m ps) in *. destruct (decide (p = q)) as [->|Hne].
    + destruct (m' !! q) as [f|] eqn:E.
      * rewrite E, IH. destruct (m !! q); [done|].
        rewrite (decide_True (P := q ∈ q :: ps)) by set_solver. case_decide; congruence.
      * rewrite lookup_insert_eq. destruct (m !! q); [congruence|]. by rewrite decide_True by set_solver.
    + assert ((match m' !! p with Some _ => m' | None => <[p:=∅]> m' end) !! q = m' !! q) as ->.
      { destruct (m' !! p); [done|]. by rewrite lookup_insert_ne. }
      rewrite IH. destruct (m !! q); [done|]. do 2 case_decide; set_solver.
Qed.

Lemma elem_of_prefixes1 q a : q ∈ prefixes [a] ↔ q = [a].
Proof. change (prefixes [a]) with [[a]]. apply list_elem_of_singleton. Qed.
Lemma elem_of_prefixes2 q a b : q ∈ prefixes [a; b] ↔ q = [a] ∨ q = [a; b].
Proof. change (prefixes [a; b]) with [[a]; [a; b]]. by rewrite elem_of_cons, list_elem_of_singleton. Qed.

Lemma MkdirAll_lookup p s q :
  dirs (MkdirAll p s) !! q =
  match dirs s !! q with Some f => Some f | None => if decide (q ∈ prefixes p) then Some ∅ else None end.
Proof. apply foldr_mkdir_lookup. Qed.

Lemma RemoveAll_lookup p s q :
  dirs (RemoveAll p s) !! q = if decide (p `prefix_of` q) then None else dirs s !! q.
Proof.
  simpl. case_decide as Hp.
  - apply map_lookup_filter_None. right. intros f _. simpl. naive_solver.
  - destruct (dirs s !! q) as [f|] eqn:E.
    + by apply map_lookup_filter_Some.
    + apply map_lookup_filter_None. by left.
Qed.

Lemma WriteFile_dirs p name c s files :
  dirs s !! p = Some files →
  WriteFile p name c s = (Ok (), mkFMS (<[p:=<[name:=c]> files]> (dirs s)) (seed s)).
Proof. intros Hp. unfold WriteFile. by rewrite Hp. Qed.
