(* ===== verification/Layer.v ===== *)
(** Layers of the union filesystem: the identifiers, errors and records of
    layer/layer.go, layer/ro_layer.go and layer/mounted_layer.go, the content
    addressing of a layer chain, and the two interfaces the layer store is
    built on (the graph driver and the metadata store). *)

From S2P Require Import Prelude.

Abbreviation ChainID := string (only parsing).
Abbreviation DiffID := string (only parsing).

(** The errors of the package; [EOther] stands for an error of a driver, of
    the metadata store or of the operating system. *)
Inductive error : Type :=
| ErrLayerDoesNotExist
| ErrLayerNotRetained
| ErrMountDoesNotExist
| ErrMountNameConflict
| ErrActiveMount
| ErrNotMounted
| ErrMaxDepthExceeded
| ErrNotSupported
| EOther (msg : string).

(** distribution.Descriptor. *)
Record Descriptor := mkDescriptor {
  MediaType : string;
  DescSize : Z;
  Digest : string;
  URLs : list string }.
Definition emptyDescriptor : Descriptor := mkDescriptor "" 0 "" [].

(** Addresses of Go objects. *)
Abbreviation loc := positive (only parsing).

(** A read-only layer. The keys of [rl_references] are the addresses of the
    [referencedCacheLayer] objects handed out by [getReference]. *)
Record roLayer := mkRoLayer {
  rl_chainID : ChainID;
  rl_diffID : DiffID;
  rl_parent : option loc;
  rl_cacheID : string;
  rl_size : Z;
  rl_descriptor : Descriptor;
  rl_referenceCount : Z;
  rl_references : gset loc }.

(** A writable layer; [ml_references] as above, for [referencedRWLayer]. *)
Record mountedLayer := mkMountedLayer {
  ml_name : string;
  ml_mountID : string;
  ml_initID : string;
  ml_parent : option loc;
  ml_path : string;
  ml_references : gset loc }.

(** The values of the interface [Layer] the store is handed back: a reference
    at address [r] to the layer at [l], a layer itself (what [Parent] returns),
    or another implementation of the interface, with its chain ID. *)
Inductive Layer : Type :=
| RefLayer (r l : loc)
| BareLayer (l : loc)
| ForeignLayer (chain : ChainID).

Inductive RWLayer : Type :=
| RefRW (r m : loc)
| ForeignRW (name : string).

Record Metadata := mkMetadata {
  MdChainID : ChainID;
  MdDiffID : DiffID;
  MdSize : Z;
  MdDiffSize : Z }.

(** ** The graph driver *)

(** graphdriver.Driver, on a driver state [D]: the operations the layer store
    calls. [ApplyDiff] also gives the part of the stream it has read. *)
Class GraphDriver (D : Type) := {
  driver_Create : string → string → string → gmap string string → D → result string unit * D;
  driver_CreateReadWrite : string → string → string → gmap string string → D → result string unit * D;
  driver_Remove : string → D → result string unit * D;
  driver_Get : string → string → D → result string string * D;
  driver_Put : string → D → result string unit * D;
  driver_ApplyDiff : string → string → string → D → (result string Z * string) * D }.

(** ** The metadata store *)

(** MetadataStore and MetadataTransaction, on a store state [MS] and with
    transactions named by [Tx]. The writer of [TarSplitWriter] is driven by
    the tar-split assembler: [tx_TarSplitWrite tx e] says that [e] is what the
    assembler has written through it so far. *)
Class MetadataStore (MS Tx : Type) := {
  StartTransaction : MS → result string Tx * MS;
  tx_SetSize : Tx → Z → MS → result string unit * MS;
  tx_SetParent : Tx → ChainID → MS → result string unit * MS;
  tx_SetDiffID : Tx → DiffID → MS → result string unit * MS;
  tx_SetCacheID : Tx → string → MS → result string unit * MS;
  tx_SetDescriptor : Tx → Descriptor → MS → result string unit * MS;
  tx_TarSplitWriter : Tx → bool → MS → result string unit * MS;
  tx_TarSplitWrite : Tx → string → MS → MS;
  tx_TarSplitClose : Tx → MS → MS;
  tx_Commit : Tx → ChainID → MS → result string unit * MS;
  tx_Cancel : Tx → MS → result string unit * MS;
  st_GetSize : ChainID → MS → result string Z;
  st_GetParent : ChainID → MS → result string ChainID;
  st_GetDiffID : ChainID → MS → result string DiffID;
  st_GetCacheID : ChainID → MS → result string string;
  st_GetDescriptor : ChainID → MS → result string Descriptor;
  st_SetMountID : string → string → MS → result string unit * MS;
  st_SetInitID : string → string → MS → result string unit * MS;
  st_SetMountParent : string → ChainID → MS → result string unit * MS;
  st_GetMountID : string → MS → result string string;
  st_GetInitID : string → MS → result string string;
  st_GetMountParent : string → MS → result string ChainID;
  st_List : MS → result string (list ChainID * list string);
  st_Remove : ChainID → MS → result string unit * MS;
  st_RemoveMount : string → MS → result string unit * MS }.

(** ** Third-party packages *)

(** digest.FromBytes (SHA-256) and the tar-split assembler: whether a stream
    is accepted, and the entries packed for the part of it that was read. *)
Class Digester := FromBytes : string → string.
Class TarSplit := {
  asm_accepts : string → result string unit;
  asm_pack : string → string }.

(** ** Chain IDs *)

Section chain.
Context {DG : Digester}.

Fixpoint createChainIDFromParent (parent : ChainID) (dgsts : list DiffID) : ChainID :=
  match dgsts with
  | [] => parent
  | d :: ds =>
      if decide (parent = "") then createChainIDFromParent d ds
      else createChainIDFromParent (FromBytes (parent ++ " " ++ d)) ds
  end.

Definition CreateChainID (dgsts : list DiffID) : ChainID :=
  createChainIDFromParent "" dgsts.

Lemma createChainIDFromParent_app parent ds ds' :
  createChainIDFromParent parent (ds ++ ds') =
  createChainIDFromParent (createChainIDFromParent parent ds) ds'.
Proof.
  revert parent. induction ds as [|d ds IH]; intros parent; [done|].
  simpl. case_decide; apply IH.
Qed.

(** Adding one diff to a chain hashes the chain ID of the parent with it. *)
Lemma CreateChainID_snoc ds d :
  CreateChainID (ds ++ [d]) = createChainIDFromParent (CreateChainID ds) [d].
Proof. apply createChainIDFromParent_app. Qed.

Context (FromBytes_nonempty : ∀ s, FromBytes s ≠ "").

Lemma createChainIDFromParent_nonempty parent ds :
  Forall (.≠ "") ds → parent ≠ "" → createChainIDFromParent parent ds ≠ "".
Proof using FromBytes_nonempty.
  intros Hds. revert parent. induction Hds as [|d ds Hd Hds IH]; intros parent Hp; [done|].
  simpl. rewrite decide_False by done. apply IH, FromBytes_nonempty.
Qed.

Lemma CreateChainID_nonempty ds :
  Forall (.≠ "") ds → ds ≠ [] → CreateChainID ds ≠ "".
Proof using FromBytes_nonempty.
  intros Hds. destruct Hds as [|d ds Hd Hds]; [done|]. intros _.
  unfold CreateChainID. simpl. by apply createChainIDFromParent_nonempty.
Qed.
End chain.
