(* ===== verification/LayerStore.v ===== *)
(** The layer store of layer/layer_store.go: its state (the read-only layers
    and their reference counts, the writable mounts, the driver and the
    metadata) and its operations, over any graph driver and metadata store.
    Every operation is a call of the monad [M]; what one of its critical
    sections does is one call on the state, and a Go object that is shared by
    pointers is an entry of [heap] or [mheap]. *)

From S2P Require Import Prelude Layer.

Definition maxLayerDepth : nat := 125.

Record layerStore (D MS : Type) := mkLayerStore {
  heap : gmap loc roLayer;
  layerMap : gmap ChainID loc;
  mheap : gmap loc mountedLayer;
  mounts : gmap string loc;
  next : loc;
  driver : D;
  store : MS }.
Arguments mkLayerStore {D MS}.
Arguments heap {D MS}.
Arguments layerMap {D MS}.
Arguments mheap {D MS}.
Arguments mounts {D MS}.
Arguments next {D MS}.
Arguments driver {D MS}.
Arguments store {D MS}.

Section store.
Context {D MS Tx : Type} `{!GraphDriver D} `{!MetadataStore MS Tx} `{!Digester} `{!TarSplit}.
Abbreviation ls := (layerStore D MS).

(** ** Access to the state *)

Definition set_heap (f : gmap loc roLayer → gmap loc roLayer) (s : ls) : ls :=
  mkLayerStore (f (heap s)) (layerMap s) (mheap s) (mounts s) (next s) (driver s) (store s).
Definition set_layerMap (f : gmap ChainID loc → gmap ChainID loc) (s : ls) : ls :=
  mkLayerStore (heap s) (f (layerMap s)) (mheap s) (mounts s) (next s) (driver s) (store s).
Definition set_mheap (f : gmap loc mountedLayer → gmap loc mountedLayer) (s : ls) : ls :=
  mkLayerStore (heap s) (layerMap s) (f (mheap s)) (mounts s) (next s) (driver s) (store s).
Definition set_mounts (f : gmap string loc → gmap string loc) (s : ls) : ls :=
  mkLayerStore (heap s) (layerMap s) (mheap s) (f (mounts s)) (next s) (driver s) (store s).
Definition set_next (n : loc) (s : ls) : ls :=
  mkLayerStore (heap s) (layerMap s) (mheap s) (mounts s) n (driver s) (store s).
Definition set_driver (d : D) (s : ls) : ls :=
  mkLayerStore (heap s) (layerMap s) (mheap s) (mounts s) (next s) d (store s).
Definition set_store (m : MS) (s : ls) : ls :=
  mkLayerStore (heap s) (layerMap s) (mheap s) (mounts s) (next s) (driver s) m.

Definition nil_pointer : string := "invalid memory address or nil pointer dereference".

(** The object at an address. *)
Definition deref (l : loc) : M ls roLayer := λ s,
  match heap s !! l with Some rl => Ret rl s | None => Panic nil_pointer end.
Definition mderef (m : loc) : M ls mountedLayer := λ s,
  match mheap s !! m with Some ml => Ret ml s | None => Panic nil_pointer end.

(** A fresh address. *)
Definition alloc : M ls loc := λ s, Ret (next s) (set_next (Pos.succ (next s)) s).

(** A call of the driver, and one of the metadata store. *)
Definition on_driver {A} (f : D → A * D) : M ls A := λ s,
  let '(a, d) := f (driver s) in Ret a (set_driver d s).
Definition on_store {A} (f : MS → A * MS) : M ls A := λ s,
  let '(a, m) := f (store s) in Ret a (set_store m s).

Definition lift_err {A} (r : result string A) : result error A :=
  match r with Ok a => Ok a | Err e => Err (EOther e) end.
Definition driver_call {A} (f : D → result string A * D) : M ls (result error A) :=
  r ← on_driver f; mret (lift_err r).
Definition store_call {A} (f : MS → result string A * MS) : M ls (result error A) :=
  r ← on_store f; mret (lift_err r).
Definition store_read {A} (f : MS → result string A) : M ls (result error A) :=
  read (λ s, lift_err (f (store s))).

(** ** roLayer *)

Definition set_referenceCount (f : Z → Z) (rl : roLayer) : roLayer :=
  mkRoLayer (rl_chainID rl) (rl_diffID rl) (rl_parent rl) (rl_cacheID rl) (rl_size rl)
    (rl_descriptor rl) (f (rl_referenceCount rl)) (rl_references rl).
Definition set_references (f : gset loc → gset loc) (rl : roLayer) : roLayer :=
  mkRoLayer (rl_chainID rl) (rl_diffID rl) (rl_parent rl) (rl_cacheID rl) (rl_size rl)
    (rl_descriptor rl) (rl_referenceCount rl) (f (rl_references rl)).
Definition set_applied (sz : Z) (diff : DiffID) (rl : roLayer) : roLayer :=
  mkRoLayer (rl_chainID rl) diff (rl_parent rl) (rl_cacheID rl) sz
    (rl_descriptor rl) (rl_referenceCount rl) (rl_references rl).
Definition set_chainID (c : ChainID) (rl : roLayer) : roLayer :=
  mkRoLayer c (rl_diffID rl) (rl_parent rl) (rl_cacheID rl) (rl_size rl)
    (rl_descriptor rl) (rl_referenceCount rl) (rl_references rl).

Definition update (l : loc) (f : roLayer → roLayer) : M ls unit := modify (set_heap (alter f l)).

(** [Size] and [depth] walk the chain of parents; a parent is allocated before
    its children, so the address of a layer bounds the length of its chain. *)
Fixpoint Size_loop (fuel : nat) (l : loc) : M ls Z :=
  match fuel with
  | O => out_of_fuel
  | S fuel =>
      rl ← deref l;
      match rl_parent rl with
      | Some p => sz ← Size_loop fuel p; mret (wrap64 (sz + rl_size rl))
      | None => mret (rl_size rl)
      end
  end.
Definition Size (l : loc) : M ls Z := Size_loop (Pos.to_nat l) l.

Fixpoint depth_loop (fuel : nat) (l : loc) : M ls nat :=
  match fuel with
  | O => out_of_fuel
  | S fuel =>
      rl ← deref l;
      match rl_parent rl with
      | None => mret 1
      | Some p => n ← depth_loop fuel p; mret (n + 1)
      end
  end.
Definition depth (l : loc) : M ls nat := depth_loop (Pos.to_nat l) l.

Definition getReference (l : loc) : M ls Layer :=
  r ← alloc;
  update l (set_references (λ refs, {[r]} ∪ refs));;
  mret (RefLayer r l).

Definition hasReference (rl : roLayer) (ref : Layer) : bool :=
  match ref with
  | RefLayer r _ => bool_decide (r ∈ rl_references rl)
  | _ => false
  end.

Definition hasReferences (rl : roLayer) : bool := bool_decide (0 < size (rl_references rl)).

Definition deleteReference (l : loc) (ref : Layer) : M ls unit :=
  match ref with
  | RefLayer r _ => update l (set_references (λ refs, refs ∖ {[r]}))
  | _ => mret ()
  end.

(** [ChainID()] of a value of the interface. *)
Definition layer_ChainID (ref : Layer) : M ls ChainID :=
  match ref with
  | RefLayer _ l | BareLayer l => rl ← deref l; mret (rl_chainID rl)
  | ForeignLayer c => mret c
  end.

Definition storeLayer (tx : Tx) (l : loc) : M ls (result error unit) :=
  rl ← deref l;
  _ ←? store_call (tx_SetDiffID tx (rl_diffID rl));
  _ ←? store_call (tx_SetSize tx (rl_size rl));
  _ ←? store_call (tx_SetCacheID tx (rl_cacheID rl));
  _ ←? (if decide (Digest (rl_descriptor rl) = "") then mret (Ok ())
        else store_call (tx_SetDescriptor tx (rl_descriptor rl)));
  match rl_parent rl with
  | Some p => prl ← deref p; store_call (tx_SetParent tx (rl_chainID prl))
  | None => mret (Ok ())
  end.

(** ** Layers of the store *)

Definition getWithoutLock (layer : ChainID) : M ls (option loc) :=
  m ← read (λ s, layerMap s !! layer);
  match m with
  | None => mret None
  | Some l => update l (set_referenceCount Z.succ);; mret (Some l)
  end.

Definition get (l : ChainID) : M ls (option loc) := getWithoutLock l.

Definition Get (l : ChainID) : M ls (result error Layer) :=
  m ← getWithoutLock l;
  match m with
  | None => mret (Err ErrLayerDoesNotExist)
  | Some l => ref ← getReference l; mret (Ok ref)
  end.

Definition deleteLayer (l : loc) : M ls (result error Metadata) :=
  rl ← deref l;
  _ ←? driver_call (driver_Remove (rl_cacheID rl));
  _ ←? store_call (st_Remove (rl_chainID rl));
  sz ← Size l;
  mret (Ok (mkMetadata (rl_chainID rl) (rl_diffID rl) sz (rl_size rl))).

Fixpoint releaseLayer_loop (fuel : nat) (l : loc) (depth : nat) (removed : list Metadata)
    : M ls (result error (list Metadata)) :=
  match fuel with
  | O => out_of_fuel
  | S fuel =>
      rl ← deref l;
      if decide (rl_referenceCount rl = 0)%Z then panic "layer not retained" else
      update l (set_referenceCount Z.pred);;
      rl ← deref l;
      if decide (rl_referenceCount rl ≠ 0)%Z then mret (Ok removed) else
      if decide (length removed = 0 ∧ 0 < depth) then panic "cannot remove layer with child" else
      if hasReferences rl then panic "cannot delete referenced layer" else
      metadata ←? deleteLayer l;
      modify (set_layerMap (delete (rl_chainID rl)));;
      let removed := removed ++ [metadata] in
      match rl_parent rl with
      | None => mret (Ok removed)
      | Some p => releaseLayer_loop fuel p (S depth) removed
      end
  end.
Definition releaseLayer (l : loc) : M ls (result error (list Metadata)) :=
  releaseLayer_loop (Pos.to_nat l) l 0 [].

Definition Release (l : Layer) : M ls (result error (list Metadata)) :=
  c ← layer_ChainID l;
  m ← read (λ s, layerMap s !! c);
  match m with
  | None => mret (Ok [])
  | Some layer =>
      rl ← deref layer;
      if negb (hasReference rl l) then mret (Err ErrLayerNotRetained) else
      deleteReference layer l;;
      releaseLayer layer
  end.

(** ** Registration *)

Definition applyTar (tx : Tx) (ts : string) (parent : string) (layer : loc) : M ls (result error unit) :=
  _ ←? store_call (tx_TarSplitWriter tx true);
  (* [defer tsw.Close()] runs after the rest of the body *)
  r ← (_ ←? mret (lift_err (asm_accepts ts));
       rl ← deref layer;
       ' (applied, consumed) ← on_driver (driver_ApplyDiff (rl_cacheID rl) parent ts);
       on_store (λ m, ((), tx_TarSplitWrite tx (asm_pack consumed) m));;
       applySize ←? mret (lift_err applied);
       on_store (λ m, ((), tx_TarSplitWrite tx (asm_pack ts) m));;
       update layer (set_applied applySize (FromBytes ts));;
       mret (Ok ()));
  on_store (λ m, ((), tx_TarSplitClose tx m));;
  mret r.

(** The chain ID of a layer whose diff ID is known. *)
Definition computeChainID (layer : loc) : M ls ChainID :=
  rl ← deref layer;
  match rl_parent rl with
  | None => mret (rl_diffID rl)
  | Some p => prl ← deref p; mret (createChainIDFromParent (rl_chainID prl) [rl_diffID rl])
  end.

(** The last critical section of [registerWithDescriptor], under [layerL]. The
    second component of the value is the variable [err] the deferred cleanups
    look at: it is set when the layer exists although no error is returned. *)
Definition registerCommit (tx : Tx) (layer : loc) : M ls (result error Layer * bool) :=
  rl ← deref layer;
  existing ← getWithoutLock (rl_chainID rl);
  match existing with
  | Some e => ref ← getReference e; mret (Ok ref, true)
  | None =>
      c ← store_call (tx_Commit tx (rl_chainID rl));
      match c with
      | Err e => mret (Err e, true)
      | Ok _ =>
          modify (set_layerMap (insert (rl_chainID rl) layer));;
          ref ← getReference layer;
          mret (Ok ref, false)
      end
  end.

(** From [applyTar] to the return, with the cleanup of the driver layer and of
    the transaction. *)
Definition registerTransaction (tx : Tx) (ts pid : string) (layer : loc) : M ls (result error Layer * bool) :=
  r ← (_ ←? applyTar tx ts pid layer;
       c ← computeChainID layer;
       update layer (set_chainID c);;
       storeLayer tx layer);
  out ← (match r with
         | Err e => mret (Err e, true)
         | Ok _ => registerCommit tx layer
         end);
  (if (out.2 : bool) then
     rl ← deref layer;
     _ ← driver_call (driver_Remove (rl_cacheID rl));
     _ ← store_call (tx_Cancel tx);
     mret ()
   else mret ());;
  mret out.

(** The body of [registerWithDescriptor] after the parent has been retained. *)
Definition registerBody (cacheID ts : string) (p : option loc) (pid : string) (descriptor : Descriptor)
    : M ls (result error Layer * bool) :=
  layer ← alloc;
  modify (set_heap (insert layer (mkRoLayer "" "" p cacheID 0 descriptor 1 ∅)));;
  created ← driver_call (driver_Create cacheID pid "" ∅);
  match created with
  | Err e => mret (Err e, true)
  | Ok _ =>
      started ← store_call StartTransaction;
      match started with
      | Err e => mret (Err e, true)
      | Ok tx => registerTransaction tx ts pid layer
      end
  end.

(** [cacheID] is the value of [stringid.GenerateRandomID()]. *)
Definition registerWithDescriptor (cacheID ts : string) (parent : ChainID) (descriptor : Descriptor)
    : M ls (result error Layer) :=
  if decide (parent = "") then
    out ← registerBody cacheID ts None "" descriptor; mret out.1
  else
    m ← get parent;
    match m with
    | None => mret (Err ErrLayerDoesNotExist)
    | Some p =>
        prl ← deref p;
        n ← depth p;
        out ← (if decide (maxLayerDepth ≤ n) then mret (Err ErrMaxDepthExceeded, true)
               else registerBody cacheID ts (Some p) (rl_cacheID prl) descriptor);
        (if (out.2 : bool) then _ ← releaseLayer p; mret () else mret ());;
        mret out.1
    end.

Definition Register (cacheID ts : string) (parent : ChainID) : M ls (result error Layer) :=
  registerWithDescriptor cacheID ts parent emptyDescriptor.

(** ** mountedLayer *)

Definition set_mreferences (f : gset loc → gset loc) (ml : mountedLayer) : mountedLayer :=
  mkMountedLayer (ml_name ml) (ml_mountID ml) (ml_initID ml) (ml_parent ml) (ml_path ml)
    (f (ml_references ml)).
Definition set_initID (i : string) (ml : mountedLayer) : mountedLayer :=
  mkMountedLayer (ml_name ml) (ml_mountID ml) i (ml_parent ml) (ml_path ml) (ml_references ml).

Definition mupdate (m : loc) (f : mountedLayer → mountedLayer) : M ls unit := modify (set_mheap (alter f m)).

Definition cacheParent (m : loc) : M ls string :=
  ml ← mderef m;
  if decide (ml_initID ml = "") then
    match ml_parent ml with
    | Some p => rl ← deref p; mret (rl_cacheID rl)
    | None => mret ""
    end
  else mret (ml_initID ml).

Definition mgetReference (m : loc) : M ls RWLayer :=
  r ← alloc;
  mupdate m (set_mreferences (λ refs, {[r]} ∪ refs));;
  mret (RefRW r m).

Definition mhasReferences (ml : mountedLayer) : bool := bool_decide (0 < size (ml_references ml)).

Definition mdeleteReference (m : loc) (ref : RWLayer) : M ls (result error unit) :=
  ml ← mderef m;
  match ref with
  | RefRW r _ =>
      if decide (r ∈ ml_references ml) then
        mupdate m (set_mreferences (λ refs, refs ∖ {[r]}));; mret (Ok ())
      else mret (Err ErrLayerNotRetained)
  | ForeignRW _ => mret (Err ErrLayerNotRetained)
  end.

Definition retakeReference (m : loc) (ref : RWLayer) : M ls unit :=
  match ref with
  | RefRW r _ => mupdate m (set_mreferences (λ refs, {[r]} ∪ refs))
  | ForeignRW _ => mret ()
  end.

Definition rw_Name (ref : RWLayer) : M ls string :=
  match ref with
  | RefRW _ m => ml ← mderef m; mret (ml_name ml)
  | ForeignRW n => mret n
  end.

Definition Mount (m : loc) (mountLabel : string) : M ls (result error string) :=
  ml ← mderef m; driver_call (driver_Get (ml_mountID ml) mountLabel).

Definition Unmount (m : loc) : M ls (result error unit) :=
  ml ← mderef m; driver_call (driver_Put (ml_mountID ml)).

(** ** Mounts of the store *)

Definition saveMount (m : loc) : M ls (result error unit) :=
  ml ← mderef m;
  _ ←? store_call (st_SetMountID (ml_name ml) (ml_mountID ml));
  _ ←? (if decide (ml_initID ml = "") then mret (Ok ())
        else store_call (st_SetInitID (ml_name ml) (ml_initID ml)));
  _ ←? (match ml_parent ml with
        | Some p => prl ← deref p; store_call (st_SetMountParent (ml_name ml) (rl_chainID prl))
        | None => mret (Ok ())
        end);
  modify (set_mounts (insert (ml_name ml) m));;
  mret (Ok ()).

(** The callback [initFunc] writes below the mount point it is given: on the
    store it only shows by its error. *)
Definition initMount (graphID parent mountLabel : string) (initFunc : string → result string unit)
    (storageOpt : gmap string string) : M ls (result error string) :=
  let initID := (graphID ++ "-init")%string in
  _ ←? driver_call (driver_Create initID parent mountLabel storageOpt);
  p ←? driver_call (driver_Get initID "");
  match initFunc p with
  | Err e => _ ← driver_call (driver_Put initID); mret (Err (EOther e))
  | Ok _ => _ ←? driver_call (driver_Put initID); mret (Ok initID)
  end.

(** The body of [CreateRWLayer] after the parent has been retained; [mountID]
    is the value of [ls.mountID(name)]. *)
Definition createRWBody (name mountID : string) (p : option loc) (pid mountLabel : string)
    (initFunc : option (string → result string unit)) (storageOpt : gmap string string)
    : M ls (result error RWLayer) :=
  m ← alloc;
  modify (set_mheap (insert m (mkMountedLayer name mountID "" p "" ∅)));;
  pid ←? (match initFunc with
          | None => mret (Ok pid)
          | Some f =>
              i ←? initMount mountID pid mountLabel f storageOpt;
              mupdate m (set_initID i);; mret (Ok i)
          end);
  _ ←? driver_call (driver_CreateReadWrite mountID pid "" storageOpt);
  _ ←? saveMount m;
  ref ← mgetReference m;
  mret (Ok ref).

Definition CreateRWLayer (name mountID : string) (parent : ChainID) (mountLabel : string)
    (initFunc : option (string → result string unit)) (storageOpt : gmap string string)
    : M ls (result error RWLayer) :=
  existing ← read (λ s, mounts s !! name);
  match existing with
  | Some _ => mret (Err ErrMountNameConflict)
  | None =>
      if decide (parent = "") then createRWBody name mountID None "" mountLabel initFunc storageOpt
      else
        p ← get parent;
        match p with
        | None => mret (Err ErrLayerDoesNotExist)
        | Some p =>
            prl ← deref p;
            out ← createRWBody name mountID (Some p) (rl_cacheID prl) mountLabel initFunc storageOpt;
            match out with
            | Err e => _ ← releaseLayer p; mret (Err e)
            | Ok ref => mret (Ok ref)
            end
        end
  end.

Definition GetRWLayer (id : string) : M ls (result error RWLayer) :=
  m ← read (λ s, mounts s !! id);
  match m with
  | None => mret (Err ErrMountDoesNotExist)
  | Some m => ref ← mgetReference m; mret (Ok ref)
  end.

Definition GetMountID (id : string) : M ls (result error string) :=
  m ← read (λ s, mounts s !! id);
  match m with
  | None => mret (Err ErrMountDoesNotExist)
  | Some m => ml ← mderef m; mret (Ok (ml_mountID ml))
  end.

(** A step of the teardown of a mount: its error gives the reference back. *)
Definition orRetake (m : loc) (ref : RWLayer) (call : M ls (result error unit)) : M ls (result error unit) :=
  r ← call;
  match r with
  | Ok _ => mret (Ok ())
  | Err e => retakeReference m ref;; mret (Err e)
  end.

Definition ReleaseRWLayer (l : RWLayer) : M ls (result error (list Metadata)) :=
  name ← rw_Name l;
  m ← read (λ s, mounts s !! name);
  match m with
  | None => mret (Ok [])
  | Some m =>
      _ ←? mdeleteReference m l;
      ml ← mderef m;
      if mhasReferences ml then mret (Ok []) else
      _ ←? orRetake m l (driver_call (driver_Remove (ml_mountID ml)));
      _ ←? (if decide (ml_initID ml = "") then mret (Ok ())
            else orRetake m l (driver_call (driver_Remove (ml_initID ml))));
      _ ←? orRetake m l (store_call (st_RemoveMount (ml_name ml)));
      modify (set_mounts (delete (ml_name ml)));;
      match ml_parent ml with
      | Some p => releaseLayer p
      | None => mret (Ok [])
      end
  end.

(** ** Restoring the store *)

(** [loadLayer] recurses on the parent recorded in the metadata: [fuel] bounds
    the chain that is loaded. *)
Fixpoint loadLayer (fuel : nat) (layer : ChainID) : M ls (result error loc) :=
  match fuel with
  | O => out_of_fuel
  | S fuel =>
      m ← read (λ s, layerMap s !! layer);
      match m with
      | Some cl => mret (Ok cl)
      | None =>
          diff ←? store_read (st_GetDiffID layer);
          sz ←? store_read (st_GetSize layer);
          cacheID ←? store_read (st_GetCacheID layer);
          parent ←? store_read (st_GetParent layer);
          descriptor ←? store_read (st_GetDescriptor layer);
          p ←? (if decide (parent = "") then mret (Ok None)
                else p ←? loadLayer fuel parent; mret (Ok (Some p)));
          l ← alloc;
          modify (set_heap (insert l (mkRoLayer layer diff p cacheID sz descriptor 0 ∅)));;
          modify (set_layerMap (insert layer l));;
          mret (Ok l)
      end
  end.

Definition loadMount (fuel : nat) (mount : string) : M ls (result error unit) :=
  m ← read (λ s, mounts s !! mount);
  match m with
  | Some _ => mret (Ok ())
  | None =>
      mountID ←? store_read (st_GetMountID mount);
      initID ←? store_read (st_GetInitID mount);
      parent ←? store_read (st_GetMountParent mount);
      p ←? (if decide (parent = "") then mret (Ok None)
            else p ←? loadLayer fuel parent;
                 update p (set_referenceCount Z.succ);; mret (Ok (Some p)));
      ml ← alloc;
      modify (set_mheap (insert ml (mkMountedLayer mount mountID initID p "" ∅)));;
      modify (set_mounts (insert mount ml));;
      mret (Ok ())
  end.

Fixpoint loadLayers (fuel : nat) (ids : list ChainID) : M ls unit :=
  match ids with
  | [] => mret ()
  | id :: ids =>
      r ← loadLayer fuel id;
      (match r with
       | Err _ => mret ()
       | Ok l =>
           rl ← deref l;
           match rl_parent rl with
           | Some p => update p (set_referenceCount Z.succ)
           | None => mret ()
           end
       end);;
      loadLayers fuel ids
  end.

Fixpoint loadMounts (fuel : nat) (ms : list string) : M ls unit :=
  match ms with
  | [] => mret ()
  | m :: ms => _ ← loadMount fuel m; loadMounts fuel ms
  end.

Definition emptyStore (st : MS) (d : D) : ls := mkLayerStore ∅ ∅ ∅ ∅ 1 d st.

(** The constructor runs on the empty store over the given backends. *)
Definition NewStoreFromGraphDriver (fuel : nat) : M ls (result error unit) :=
  r ← store_read st_List;
  match r with
  | Err e => mret (Err e)
  | Ok (ids, ms) => loadLayers fuel ids;; loadMounts fuel ms;; mret (Ok ())
  end.
End store.
