(* ===== verification/LayerInv.v ===== *)
(** The reference-counting invariant of the layer store and the pure lemmas
    about it: what each elementary change of the state does to it. *)

From S2P Require Import Prelude Layer LayerStore.

(** ** What a reference count counts *)

Definition parent_of (h : gmap loc roLayer) (l : loc) : option loc := h !! l ≫= rl_parent.
Definition mparent_of (mh : gmap loc mountedLayer) (m : loc) : option loc := mh !! m ≫= ml_parent.

(** The registered layers, and the mounts, whose parent is [l]. *)
Definition nchildren (h : gmap loc roLayer) (lm : gmap ChainID loc) (l : loc) : nat :=
  count (λ kv, parent_of h kv.2 = Some l) lm.
Definition nmounts (mh : gmap loc mountedLayer) (ms : gmap string loc) (l : loc) : nat :=
  count (λ kv, mparent_of mh kv.2 = Some l) ms.

(** The references to [l] held by calls in progress. *)
Definition occ (l : loc) (held : list loc) : nat := length (filter (.= l) held).

(** [l] is a layer of the store. *)
Definition registered (lm : gmap ChainID loc) (l : loc) : Prop := ∃ c, lm !! c = Some l.

(** The diff IDs on the way from the root of a layer's chain up to the layer. *)
Inductive chain (h : gmap loc roLayer) : loc → list DiffID → Prop :=
| chain_root l rl : h !! l = Some rl → rl_parent rl = None → chain h l [rl_diffID rl]
| chain_child l rl p ds : h !! l = Some rl → rl_parent rl = Some p → chain h p ds →
    chain h l (ds ++ [rl_diffID rl]).

(** The invariant is stated for a property [good] of the diff IDs and the chain
    ID of the registered layers. *)
Record inv (good : list DiffID → ChainID → Prop) (held : list loc) (h : gmap loc roLayer) (lm : gmap ChainID loc)
    (mh : gmap loc mountedLayer) (ms : gmap string loc) (nx : loc) : Prop := mkInv {
  inv_layer c l : lm !! c = Some l → ∃ rl, h !! l = Some rl ∧ rl_chainID rl = c;
  inv_parent l rl p : registered lm l → h !! l = Some rl → rl_parent rl = Some p →
    registered lm p ∧ (p < l)%positive;
  inv_mount n m : ms !! n = Some m → ∃ ml, mh !! m = Some ml ∧ ml_name ml = n ∧
    ∀ p, ml_parent ml = Some p → registered lm p;
  inv_count l rl : registered lm l → h !! l = Some rl →
    rl_referenceCount rl =
    Z.of_nat (size (rl_references rl) + nchildren h lm l + nmounts mh ms l + occ l held);
  inv_good l rl ds : registered lm l → h !! l = Some rl → chain h l ds → good ds (rl_chainID rl);
  inv_held l : l ∈ held → registered lm l;
  inv_fresh l rl : h !! l = Some rl → (l < nx)%positive ∧ ∀ r, r ∈ rl_references rl → (r < nx)%positive;
  inv_mfresh m ml : mh !! m = Some ml → (m < nx)%positive ∧ ∀ r, r ∈ ml_references ml → (r < nx)%positive }.

(** The invariant of a store, while calls in progress hold [held]. *)
Definition Inv {D MS} good (held : list loc) (s : layerStore D MS) : Prop :=
  inv good held (heap s) (layerMap s) (mheap s) (mounts s) (next s).

(** ** Counting lemmas *)

Lemma occ_cons l x held : occ l (x :: held) = (if decide (x = l) then 1 else 0) + occ l held.
Proof. unfold occ. rewrite filter_cons. by case_decide. Qed.

#[export] Instance occ_perm l : Proper ((≡ₚ) ==> eq) (occ l).
Proof. intros h1 h2 Hp. unfold occ. by rewrite Hp. Qed.

Lemma occ_pos l held : 0 < occ l held → l ∈ held.
Proof.
  unfold occ. intros Hlen. destruct (filter (.= l) held) as [|x xs] eqn:E; simpl in *; [lia|].
  assert (Hx : x ∈ filter (.= l) held) by (rewrite E; by left).
  apply list_elem_of_filter in Hx as [-> ?]. done.
Qed.

Lemma occ_elem l held : l ∈ held → 0 < occ l held.
Proof.
  intros Hin. assert (Hf : l ∈ filter (.= l) held) by (by apply list_elem_of_filter).
  unfold occ. destruct (filter (.= l) held); [by apply not_elem_of_nil in Hf|simpl; lia].
Qed.

Lemma parent_of_alter f l h l' :
  (∀ rl, rl_parent (f rl) = rl_parent rl) → parent_of (alter f l h) l' = parent_of h l'.
Proof.
  intros Hf. unfold parent_of. rewrite lookup_alter. case_decide; subst; [|done].
  destruct (h !! l') as [rl|]; simpl; [apply Hf|done].
Qed.

Lemma mparent_of_alter f m mh m' :
  (∀ ml, ml_parent (f ml) = ml_parent ml) → mparent_of (alter f m mh) m' = mparent_of mh m'.
Proof.
  intros Hf. unfold mparent_of. rewrite lookup_alter. case_decide; subst; [|done].
  destruct (mh !! m') as [ml|]; simpl; [apply Hf|done].
Qed.

Lemma nchildren_ext h h' lm l :
  (∀ l', registered lm l' → parent_of h' l' = parent_of h l') → nchildren h' lm l = nchildren h lm l.
Proof.
  intros Hext. unfold nchildren. apply count_ext. intros c l' Hc. simpl.
  by rewrite Hext by (by exists c).
Qed.

Lemma nmounts_ext mh mh' ms l :
  (∀ n m, ms !! n = Some m → mparent_of mh' m = mparent_of mh m) → nmounts mh' ms l = nmounts mh ms l.
Proof.
  intros Hext. unfold nmounts. apply count_ext. intros n m Hn. simpl. by rewrite (Hext n m Hn).
Qed.

Lemma chain_alter f l h l' ds :
  (∀ rl, rl_parent (f rl) = rl_parent rl ∧ rl_diffID (f rl) = rl_diffID rl) →
  chain (alter f l h) l' ds → chain h l' ds.
Proof.
  intros Hf. induction 1 as [l' rl Hl Hp|l' rl p ds Hl Hp Hc IH].
  - rewrite lookup_alter in Hl. case_decide; subst; [|by apply chain_root].
    destruct (h !! l') as [rl0|] eqn:E; simplify_eq/=. destruct (Hf rl0) as [E1 ->]. rewrite E1 in Hp.
    by apply chain_root.
  - rewrite lookup_alter in Hl. case_decide; subst; [|by eapply chain_child].
    destruct (h !! l') as [rl0|] eqn:E; simplify_eq/=. destruct (Hf rl0) as [E1 ->]. rewrite E1 in Hp.
    by eapply chain_child.
Qed.

Lemma chain_lookup h l ds : chain h l ds → ∃ rl, h !! l = Some rl.
Proof. destruct 1; eauto. Qed.

Lemma chain_functional h l ds ds' : chain h l ds → chain h l ds' → ds = ds'.
Proof.
  intros Hc. revert ds'. induction Hc as [l rl Hl Hp|l rl p ds Hl Hp Hc IH]; intros ds' Hc';
    inversion Hc'; simplify_eq; [done|]. by f_equal; apply IH.
Qed.

Section lemmas.
Context {good : list DiffID → ChainID → Prop} {held : list loc} {h : gmap loc roLayer} {lm : gmap ChainID loc}
  {mh : gmap loc mountedLayer} {ms : gmap string loc} {nx : loc}.
Context (I : inv good held h lm mh ms nx).

Lemma inv_registered l : registered lm l → ∃ rl, h !! l = Some rl ∧ lm !! rl_chainID rl = Some l.
Proof using I. intros [c Hc]. destruct (inv_layer _ _ _ _ _ _ _ I c l Hc) as (rl & ? & <-). eauto. Qed.

Lemma inv_lookup_registered c l : lm !! c = Some l → registered lm l.
Proof using Type. by exists c. Qed.

(** The chain of a registered layer only goes through registered layers. *)
Lemma chain_insert l rl l' ds :
  ¬ registered lm l → registered lm l' → chain (<[l:=rl]> h) l' ds → chain h l' ds.
Proof using I.
  intros Hnot Hl' Hc. revert Hl'. induction Hc as [l' rl' Hl Hp|l' rl' p ds Hl Hp Hc IH]; intros Hl';
    (rewrite lookup_insert_ne in Hl by (by intros <-)).
  - by apply chain_root.
  - eapply chain_child; [done..|]. apply IH. by apply (inv_parent _ _ _ _ _ _ _ I l' rl').
Qed.

(** Nothing counts on an object that is not registered. *)
Lemma nchildren_unregistered l : ¬ registered lm l → nchildren h lm l = 0.
Proof using I.
  intros Hl. apply count_none.
  intros c l' Hc. simpl. unfold parent_of. intros Hp.
  destruct (h !! l') as [rl|] eqn:Hh; simpl in Hp; [|done].
  destruct (inv_parent _ _ _ _ _ _ _ I l' rl l) as [? _]; [by exists c|done..].
Qed.

Lemma nmounts_unregistered l : ¬ registered lm l → nmounts mh ms l = 0.
Proof using I.
  intros Hl. apply count_none.
  intros n m Hn. simpl. unfold mparent_of. intros Hp.
  destruct (inv_mount _ _ _ _ _ _ _ I n m Hn) as (ml & Hm & _ & Hpar).
  rewrite Hm in Hp. simpl in Hp. by apply Hl, Hpar.
Qed.

Lemma occ_unregistered l : ¬ registered lm l → occ l held = 0.
Proof using I.
  intros Hl. destruct (occ l held) eqn:E; [done|].
  exfalso. apply Hl, (inv_held _ _ _ _ _ _ _ I), occ_pos. lia.
Qed.

(** *** Changes to one layer *)

(** A change of a layer that keeps its chain ID and its parent, and that moves
    its count together with its references and the references held to it. *)
Lemma inv_update held' l f nx' :
  (nx ≤ nx')%positive →
  (∀ rl, rl_chainID (f rl) = rl_chainID rl ∧ rl_parent (f rl) = rl_parent rl ∧ rl_diffID (f rl) = rl_diffID rl) →
  (∀ rl r, h !! l = Some rl → r ∈ rl_references (f rl) → (r < nx')%positive) →
  (∀ l', l' ≠ l → occ l' held' = occ l' held) →
  (∀ l', l' ∈ held' → registered lm l') →
  (∀ rl, registered lm l → h !! l = Some rl →
    rl_referenceCount (f rl) - Z.of_nat (size (rl_references (f rl)) + occ l held') =
    rl_referenceCount rl - Z.of_nat (size (rl_references rl) + occ l held))%Z →
  inv good held' (alter f l h) lm mh ms nx'.
Proof using I.
  intros Hnx Hf Hrefs Hocc Hheld Hcnt.
  assert (Hch : ∀ l', nchildren (alter f l h) lm l' = nchildren h lm l').
  { intros l'. apply nchildren_ext. intros l'' _. apply parent_of_alter. apply Hf. }
  destruct I as [IL IP IM IC IG IH IF IMF]. split.
  - intros c l' Hc. destruct (IL c l' Hc) as (rl & Hl' & <-).
    rewrite lookup_alter. case_decide; subst; rewrite Hl'; simpl; eexists; (split; [done|]); [apply Hf|done].
  - intros l' rl p Hr. rewrite lookup_alter. case_decide; subst.
    + destruct (h !! l') as [rl0|] eqn:E; simpl; intros [= <-].
      rewrite (proj1 (proj2 (Hf rl0))). by apply IP.
    + by apply IP.
  - done.
  - intros l' rl Hr. rewrite lookup_alter, Hch. case_decide as Heq; subst.
    + destruct (h !! l') as [rl0|] eqn:E; simpl; intros [= <-].
      specialize (Hcnt rl0 Hr eq_refl). specialize (IC l' rl0 Hr E). lia.
    + intros Hl'. rewrite (IC l' rl Hr Hl'), Hocc by done. done.
  - intros l' rl ds Hr Hl' Hc. apply chain_alter in Hc; [|intros rl'; by destruct (Hf rl') as (_&?&?)].
    rewrite lookup_alter in Hl'. case_decide; subst; [|by apply (IG l')].
    destruct (h !! l') as [rl0|] eqn:E; simplify_eq/=. rewrite (proj1 (Hf rl0)). by apply (IG l').
  - done.
  - intros l' rl. rewrite lookup_alter. case_decide; subst.
    + destruct (h !! l') as [rl0|] eqn:E; simpl; intros [= <-].
      destruct (IF l' rl0 E). split; [lia|]. intros r. by apply (Hrefs rl0).
    + intros Hl'. destruct (IF l' rl Hl') as [? Hr]. split; [lia|]. intros r Hin. specialize (Hr r Hin). lia.
  - intros m ml Hm. destruct (IMF m ml Hm) as [? Hr]. split; [lia|]. intros r Hin. specialize (Hr r Hin). lia.
Qed.

(** [getWithoutLock] adds a reference that the caller holds. *)
Lemma inv_incr l :
  registered lm l → inv good (l :: held) (alter (set_referenceCount Z.succ) l h) lm mh ms nx.
Proof using I.
  intros Hl. apply inv_update; simpl; try done.
  - intros rl r Hrl. by apply (inv_fresh _ _ _ _ _ _ _ I l rl Hrl).
  - intros l' Hne. rewrite occ_cons, decide_False by done. done.
  - intros l' [->|?]%elem_of_cons; [done|]. by apply (inv_held _ _ _ _ _ _ _ I).
  - intros rl _ _. rewrite occ_cons, decide_True by done. lia.
Qed.

(** [deleteReference] gives the reference of the handle [r] to the caller. *)
Lemma inv_delref l rl r :
  registered lm l → h !! l = Some rl → r ∈ rl_references rl →
  inv good (l :: held) (alter (set_references (λ refs, refs ∖ {[r]})) l h) lm mh ms nx.
Proof using I.
  intros Hl Hrl Hr. apply inv_update; simpl; try done.
  - intros rl' r' Hrl'. rewrite elem_of_difference. intros [? _]. by apply (inv_fresh _ _ _ _ _ _ _ I l rl' Hrl').
  - intros l' Hne. rewrite occ_cons, decide_False by done. done.
  - intros l' [->|?]%elem_of_cons; [done|]. by apply (inv_held _ _ _ _ _ _ _ I).
  - intros rl' _ Hrl'. simplify_eq. rewrite occ_cons, decide_True by done.
    assert (size (rl_references rl) = S (size (rl_references rl ∖ {[r]}))); [|lia].
    rewrite size_difference by set_solver. rewrite size_singleton.
    assert (size (rl_references rl) ≠ 0); [|lia].
    intros Hz%size_empty_inv. set_solver.
Qed.
End lemmas.

(** [getReference] turns a reference held by the caller into a handle, at a
    fresh address. *)
Lemma inv_getref good held h lm mh ms nx l :
  inv good (l :: held) h lm mh ms nx →
  inv good held (alter (set_references (λ refs, {[nx]} ∪ refs)) l h) lm mh ms (Pos.succ nx).
Proof.
  intros I. apply (inv_update I); simpl; try done.
  - lia.
  - intros rl r Hrl. rewrite elem_of_union, elem_of_singleton. intros [->|Hr]; [lia|].
    apply (inv_fresh _ _ _ _ _ _ _ I l rl Hrl) in Hr. lia.
  - intros l' Hne. rewrite occ_cons, decide_False by done. done.
  - intros l' ?. apply (inv_held _ _ _ _ _ _ _ I). by right.
  - intros rl _ Hrl. rewrite occ_cons, decide_True by done.
    rewrite size_union, size_singleton; [lia|].
    apply disjoint_singleton_l. intros Hr. apply (inv_fresh _ _ _ _ _ _ _ I l rl Hrl) in Hr. lia.
Qed.

(** [releaseLayer] drops the reference it was given. *)
Lemma inv_decr good held h lm mh ms nx l :
  inv good (l :: held) h lm mh ms nx → inv good held (alter (set_referenceCount Z.pred) l h) lm mh ms nx.
Proof.
  intros I. apply (inv_update I); simpl; try done.
  - intros rl r Hrl. by apply (inv_fresh _ _ _ _ _ _ _ I l rl Hrl).
  - intros l' Hne. rewrite occ_cons, decide_False by done. done.
  - intros l' ?. apply (inv_held _ _ _ _ _ _ _ I). by right.
  - intros rl _ _. rewrite occ_cons, decide_True by done. lia.
Qed.

(** A count that is zero leaves no handle, child, mount or holder. *)
Lemma inv_count_zero good held h lm mh ms nx l rl :
  inv good held h lm mh ms nx → registered lm l → h !! l = Some rl → rl_referenceCount rl = 0%Z →
  rl_references rl = ∅ ∧ nchildren h lm l = 0 ∧ nmounts mh ms l = 0 ∧ occ l held = 0.
Proof.
  intros I Hl Hrl Hz. rewrite (inv_count _ _ _ _ _ _ _ I l rl Hl Hrl) in Hz.
  split_and!; [|lia..]. apply leibniz_equiv, size_empty_inv. lia.
Qed.

Lemma inv_held_count good held h lm mh ms nx l rl :
  inv good (l :: held) h lm mh ms nx → h !! l = Some rl → (0 < rl_referenceCount rl)%Z.
Proof.
  intros I Hrl. rewrite (inv_count _ _ _ _ _ _ _ I l rl); [|by apply (inv_held _ _ _ _ _ _ _ I); left|done].
  rewrite occ_cons, decide_True by done. lia.
Qed.

Lemma registered_delete good held h lm mh ms nx c l l' :
  inv good held h lm mh ms nx → lm !! c = Some l → l' ≠ l → registered lm l' → registered (delete c lm) l'.
Proof.
  intros I Hc Hne [c' Hc']. exists c'. rewrite lookup_delete_ne; [done|]. intros ->. congruence.
Qed.

Lemma registered_delete_inv (lm : gmap ChainID loc) c l : registered (delete c lm) l → registered lm l.
Proof. intros [c' Hc']. apply lookup_delete_Some in Hc' as [_ ?]. by exists c'. Qed.

(** The references that the deletion of a layer leaves to the caller: the one
    the layer had on its parent. *)
Definition released (p : option loc) (held : list loc) : list loc :=
  match p with Some p => p :: held | None => held end.

Lemma occ_released l p held :
  occ l (released p held) = (if decide (p = Some l) then 1 else 0) + occ l held.
Proof.
  destruct p as [p|]; [|by rewrite decide_False by done].
  unfold released. rewrite occ_cons. do 2 case_decide; naive_solver.
Qed.

(** Removing a layer whose count is zero from the map. *)
Lemma inv_remove good held h lm mh ms nx c l rl :
  inv good held h lm mh ms nx → lm !! c = Some l → h !! l = Some rl → rl_referenceCount rl = 0%Z →
  inv good (released (rl_parent rl) held) h (delete c lm) mh ms nx.
Proof.
  intros I Hc Hrl Hz. assert (Hl : registered lm l) by (by exists c).
  destruct (inv_count_zero _ _ _ _ _ _ _ _ _ I Hl Hrl Hz) as (_ & Hch & Hmt & Hocc).
  assert (Hnotl : ∀ l', registered (delete c lm) l' → l' ≠ l).
  { intros l' [c' Hc'] ->. apply lookup_delete_Some in Hc' as [Hne Hc'].
    destruct (inv_layer _ _ _ _ _ _ _ I c l Hc) as (?&?&?).
    destruct (inv_layer _ _ _ _ _ _ _ I c' l Hc') as (?&?&?). congruence. }
  assert (Hkeep : ∀ p, registered lm p → p ≠ l → registered (delete c lm) p).
  { intros p Hp Hne. by eapply registered_delete. }
  assert (Hdel : ∀ l', nchildren h lm l' =
    nchildren h (delete c lm) l' + (if decide (rl_parent rl = Some l') then 1 else 0)).
  { intros l'. unfold nchildren. rewrite (count_delete _ lm c l Hc). f_equal. simpl.
    unfold parent_of. by rewrite Hrl. }
  pose proof I as [IL IP IM IC IG IH IF IMF]. split.
  - intros c' l' [_ Hc']%lookup_delete_Some. by apply IL.
  - intros l' rl' p Hr Hl' Hp. pose proof (registered_delete_inv _ _ _ Hr) as Hr'.
    destruct (IP l' rl' p Hr' Hl' Hp) as [Hregp ?]. split; [|done]. apply Hkeep; [done|]. intros ->.
    destruct Hr' as [c' Hc']. refine (count_zero _ _ Hch c' l' Hc' _). simpl. unfold parent_of. by rewrite Hl'.
  - intros n m Hn. destruct (IM n m Hn) as (ml & Hm & Hname & Hpar). exists ml. split_and!; [done..|].
    intros p Hp. apply Hkeep; [by apply Hpar|]. intros ->.
    refine (count_zero _ _ Hmt n m Hn _). simpl. unfold mparent_of. by rewrite Hm.
  - intros l' rl' Hr Hl'. pose proof (registered_delete_inv _ _ _ Hr) as Hr'.
    rewrite (IC l' rl' Hr' Hl'), Hdel, occ_released. lia.
  - intros l' rl' ds Hr. by apply IG, registered_delete_inv with c.
  - intros l' Hin. destruct (decide (l' ∈ held)) as [Hh|Hh].
    + apply Hkeep; [by apply IH|]. intros ->. apply occ_elem in Hh. lia.
    + destruct (rl_parent rl) as [p|] eqn:Hp; simpl in Hin; [|done].
      apply elem_of_cons in Hin as [->|?]; [|done].
      destruct (IP l rl p Hl Hrl Hp) as [? ?]. apply Hkeep; [done|]. lia.
  - done.
  - done.
Qed.

(** Adding a layer that is not registered, with the reference its parent was
    given by [get]; the count of one is the reference the caller holds. *)
Lemma inv_register good held h lm mh ms nx l rl :
  inv good (released (rl_parent rl) held) h lm mh ms nx →
  lm !! rl_chainID rl = None → h !! l = Some rl →
  rl_referenceCount rl = 1%Z → rl_references rl = ∅ →
  (∀ p, rl_parent rl = Some p → (p < l)%positive) →
  (∀ ds, chain h l ds → good ds (rl_chainID rl)) →
  inv good (l :: held) h (<[rl_chainID rl := l]> lm) mh ms nx.
Proof.
  intros I Hc Hrl Hone Hrefs Hlt Hgood.
  assert (Hnot : ¬ registered lm l).
  { intros [c' Hc']. destruct (inv_layer _ _ _ _ _ _ _ I c' l Hc') as (?&?&?). congruence. }
  assert (Hreg : ∀ l', registered lm l' → registered (<[rl_chainID rl := l]> lm) l').
  { intros l' [c' Hc']. exists c'. rewrite lookup_insert_ne; [done|congruence]. }
  assert (Hinv : ∀ l', registered (<[rl_chainID rl := l]> lm) l' → l' = l ∨ registered lm l').
  { intros l' [c' [[_ ?]|[_ ?]]%lookup_insert_Some]; [by left|right; by exists c']. }
  pose proof (nchildren_unregistered I l Hnot) as Hch. pose proof (nmounts_unregistered I l Hnot) as Hmt.
  pose proof (occ_unregistered I l Hnot) as Hoc. rewrite occ_released in Hoc.
  assert (Hins : ∀ l', nchildren h (<[rl_chainID rl := l]> lm) l' =
    nchildren h lm l' + (if decide (rl_parent rl = Some l') then 1 else 0)).
  { intros l'. unfold nchildren. rewrite count_insert by done. f_equal. simpl.
    unfold parent_of. by rewrite Hrl. }
  pose proof I as [IL IP IM IC IG IH IF IMF]. split.
  - intros c' l' [[<- <-]|[_ Hc']]%lookup_insert_Some; [by exists rl|by apply IL].
  - intros l' rl' p [->|Hr]%Hinv Hl' Hp.
    + simplify_eq. split; [|by apply Hlt]. apply Hreg, IH. rewrite Hp. by left.
    + destruct (IP l' rl' p Hr Hl' Hp). split; [by apply Hreg|done].
  - intros n m Hn. destruct (IM n m Hn) as (ml & Hm & Hname & Hpar). exists ml. split_and!; [done..|].
    intros p Hp. by apply Hreg, Hpar.
  - intros l' rl' [->|Hr]%Hinv Hl'; rewrite Hins, occ_cons.
    + simplify_eq. rewrite Hone, Hrefs, size_empty, Hch, Hmt, (decide_True (P := l = l)) by done.
      rewrite decide_False; [lia|]. intros Hp. specialize (Hlt _ Hp). lia.
    + rewrite (IC l' rl' Hr Hl'), occ_released.
      rewrite (decide_False (P := l = l')); [lia|]. by intros ->.
  - intros l' rl' ds [->|Hr]%Hinv Hl' Hch'; [|by apply (IG l')]. simplify_eq. by apply Hgood.
  - intros l' [->|Hin]%elem_of_cons; [exists (rl_chainID rl); apply lookup_insert_eq|].
    apply Hreg, IH. destruct (rl_parent rl); simpl; [by right|done].
  - done.
  - done.
Qed.

(** *** Objects that are not registered *)

(** A change of an object of the heap that is not a layer of the store. *)
Lemma inv_local good held h lm mh ms nx nx' l rl :
  inv good held h lm mh ms nx → ¬ registered lm l → (nx ≤ nx')%positive → (l < nx')%positive →
  rl_references rl = ∅ → inv good held (<[l:=rl]> h) lm mh ms nx'.
Proof.
  intros I Hnot Hnx Hl Hrefs.
  assert (Hch : ∀ l', nchildren (<[l:=rl]> h) lm l' = nchildren h lm l').
  { intros l'. apply nchildren_ext. intros l'' Hr. unfold parent_of.
    rewrite lookup_insert_ne; [done|]. by intros <-. }
  pose proof I as [IL IP IM IC IG IH IF IMF]. split.
  - intros c l' Hc. rewrite lookup_insert_ne; [by apply IL|]. intros <-. apply Hnot. by exists c.
  - intros l' rl' p Hr. rewrite lookup_insert_ne; [by apply IP|]. by intros <-.
  - done.
  - intros l' rl' Hr. rewrite lookup_insert_ne; [|by intros <-]. rewrite Hch. by apply IC.
  - intros l' rl' ds Hr. rewrite lookup_insert_ne; [|by intros <-].
    intros Hl' Hc. apply (IG l'); [done..|]. by eapply (chain_insert I).
  - done.
  - intros l' rl' [[<- <-]|[_ Hl']]%lookup_insert_Some; [rewrite Hrefs; set_solver|].
    destruct (IF l' rl' Hl') as [? Hr]. split; [lia|]. intros r Hin. specialize (Hr r Hin). lia.
  - intros m ml Hm. destruct (IMF m ml Hm) as [? Hr]. split; [lia|]. intros r Hin. specialize (Hr r Hin). lia.
Qed.

Lemma fresh_unregistered good held h lm mh ms nx : inv good held h lm mh ms nx → ¬ registered lm nx.
Proof.
  intros I Hr. destruct (inv_registered I nx Hr) as (rl & Hrl & _).
  apply (inv_fresh _ _ _ _ _ _ _ I) in Hrl as [? _]. lia.
Qed.

Lemma inv_set_next good held h lm mh ms nx nx' :
  inv good held h lm mh ms nx → (nx ≤ nx')%positive → inv good held h lm mh ms nx'.
Proof.
  intros [IL IP IM IC IG IH IF IMF] Hnx. split; try done.
  - intros l rl Hl. destruct (IF l rl Hl) as [? Hr]. split; [lia|]. intros r Hin. specialize (Hr r Hin). lia.
  - intros m ml Hm. destruct (IMF m ml Hm) as [? Hr]. split; [lia|]. intros r Hin. specialize (Hr r Hin). lia.
Qed.

(** *** Mounts *)

(** A change of a mount object that keeps its name and its parent. *)
Lemma inv_mupdate good held h lm mh ms nx nx' m f :
  inv good held h lm mh ms nx → (nx ≤ nx')%positive →
  (∀ ml, ml_name (f ml) = ml_name ml ∧ ml_parent (f ml) = ml_parent ml) →
  (∀ ml r, mh !! m = Some ml → r ∈ ml_references (f ml) → (r < nx')%positive) →
  inv good held h lm (alter f m mh) ms nx'.
Proof.
  intros I Hnx Hf Hrefs. apply inv_set_next with (nx' := nx') in I; [|done].
  destruct I as [IL IP IM IC IG IH IF IMF]. split; try done.
  - intros n m' Hn. destruct (IM n m' Hn) as (ml & Hm & Hname & Hp).
    rewrite lookup_alter. case_decide; subst; rewrite Hm; simpl; eexists; (split; [done|]); [|done].
    destruct (Hf ml) as [-> ->]. done.
  - intros l rl Hr Hl. rewrite (IC l rl Hr Hl). do 3 f_equal. symmetry. apply nmounts_ext.
    intros n m' _. apply mparent_of_alter, Hf.
  - intros m' ml. rewrite lookup_alter. case_decide; subst; [|by apply IMF].
    destruct (mh !! m') as [ml0|] eqn:E; simpl; intros [= <-].
    destruct (IMF m' ml0 E). split; [done|]. intros r. by apply (Hrefs ml0).
Qed.

(** A fresh mount object. *)
Lemma inv_mnew good held h lm mh ms nx ml :
  inv good held h lm mh ms nx → ml_references ml = ∅ → inv good held h lm (<[nx:=ml]> mh) ms (Pos.succ nx).
Proof.
  intros I Hrefs. apply inv_set_next with (nx' := Pos.succ nx) in I as I'; [|lia].
  assert (Hnot : ∀ n m, ms !! n = Some m → m ≠ nx).
  { intros n m Hn ->. destruct (inv_mount _ _ _ _ _ _ _ I n nx Hn) as (ml' & Hm & _).
    apply (inv_mfresh _ _ _ _ _ _ _ I) in Hm as [? _]. lia. }
  destruct I' as [IL IP IM IC IG IH IF IMF]. split; try done.
  - intros n m Hn. rewrite lookup_insert_ne by (symmetry; by eapply Hnot). by apply IM.
  - intros l rl Hr Hl. rewrite (IC l rl Hr Hl). do 3 f_equal. symmetry. apply nmounts_ext.
    intros n m Hn. unfold mparent_of. by rewrite lookup_insert_ne by (symmetry; by eapply Hnot).
  - intros m' ml' [[<- <-]|[_ Hm]]%lookup_insert_Some; [|by apply IMF].
    rewrite Hrefs. split; [lia|set_solver].
Qed.

(** [saveMount] hands the reference on the parent over to the mount. *)
Lemma inv_mount_add good held h lm mh ms nx m ml :
  inv good (released (ml_parent ml) held) h lm mh ms nx → ms !! ml_name ml = None → mh !! m = Some ml →
  inv good held h lm mh (<[ml_name ml := m]> ms) nx.
Proof.
  intros I Hn Hm. pose proof I as [IL IP IM IC IG IH IF IMF]. split; try done.
  - intros n' m' [[<- <-]|[_ Hn']]%lookup_insert_Some; [|by apply IM].
    exists ml. split_and!; [done..|]. intros p Hp. apply IH. rewrite Hp. by left.
  - intros l rl Hr Hl. rewrite (IC l rl Hr Hl), occ_released. unfold nmounts.
    rewrite count_insert by done. simpl.
    replace (mparent_of mh m) with (ml_parent ml) by (unfold mparent_of; by rewrite Hm). lia.
  - intros l Hin. apply IH. destruct (ml_parent ml); simpl; [by right|done].
Qed.

(** Deleting a mount leaves its reference on the parent to the caller. *)
Lemma inv_mount_delete good held h lm mh ms nx m ml :
  inv good held h lm mh ms nx → ms !! ml_name ml = Some m → mh !! m = Some ml →
  inv good (released (ml_parent ml) held) h lm mh (delete (ml_name ml) ms) nx.
Proof.
  intros I Hn Hm. pose proof I as [IL IP IM IC IG IH IF IMF]. split; try done.
  - intros n' m' [_ Hn']%lookup_delete_Some. by apply IM.
  - intros l rl Hr Hl. rewrite (IC l rl Hr Hl), occ_released. unfold nmounts.
    rewrite (count_delete _ ms _ m Hn). simpl.
    replace (mparent_of mh m) with (ml_parent ml) by (unfold mparent_of; by rewrite Hm). lia.
  - intros l Hin. destruct (ml_parent ml) as [p|] eqn:Hp; simpl in Hin; [|by apply IH].
    apply elem_of_cons in Hin as [->|?]; [|by apply IH].
    destruct (IM _ m Hn) as (ml' & Hm' & _ & Hpar). simplify_eq. by apply Hpar.
Qed.
