(* ===== verification/LayerProofs.v ===== *)
(** The layer store keeps the reference-counting invariant: the specification
    of every operation, for any driver and metadata store, while other calls
    hold any references. A specification [wp m Q s] also says that [m] does
    not panic and that its loops terminate. *)

From S2P Require Import Prelude Layer LayerStore LayerInv.

(** Two states that differ only in their backends. *)
Definition same_core {D MS} (s s' : layerStore D MS) : Prop :=
  heap s' = heap s ∧ layerMap s' = layerMap s ∧ mheap s' = mheap s ∧
  mounts s' = mounts s ∧ next s' = next s.

#[export] Instance same_core_equivalence {D MS} : Equivalence (@same_core D MS).
Proof.
  split.
  - intros s. done.
  - intros s s' (?&?&?&?&?). done.
  - intros s1 s2 s3 (?&?&?&?&?) (?&?&?&?&?). repeat split; congruence.
Qed.

#[export] Instance Inv_proper {D MS} good held : Proper (same_core ==> iff) (@Inv D MS good held).
Proof. intros s s' (E1&E2&E3&E4&E5). unfold Inv. by rewrite E1, E2, E3, E4, E5. Qed.

(** What never changes in a registered layer. *)
Definition ident (rl : roLayer) : ChainID * DiffID * option loc * string * Z :=
  (rl_chainID rl, rl_diffID rl, rl_parent rl, rl_cacheID rl, rl_size rl).

(** The handle at address [r] retains the layer at [l], which is in the store
    and has the identity [id]. *)
Definition handle {D MS} (s : layerStore D MS) (r l : loc) id : Prop :=
  ∃ rl, heap s !! l = Some rl ∧ layerMap s !! rl_chainID rl = Some l ∧
    r ∈ rl_references rl ∧ ident rl = id.

(** Every handle of [s] still retains its layer, unchanged, in [s']. *)
Definition keeps {D MS} (s s' : layerStore D MS) : Prop :=
  ∀ r l id, handle s r l id → handle s' r l id.

#[export] Instance keeps_preorder {D MS} : PreOrder (@keeps D MS).
Proof. split; unfold keeps; [by intros s|naive_solver]. Qed.

(** [s] and [s'] have the same handles. *)
Definition same_handles {D MS} (s s' : layerStore D MS) : Prop :=
  ∀ r l id, handle s r l id ↔ handle s' r l id.

#[export] Instance same_handles_equivalence {D MS} : Equivalence (@same_handles D MS).
Proof.
  split; unfold same_handles; [done|by intros s s' Hs r l id; rewrite Hs|].
  intros s1 s2 s3 H12 H23 r l id. by rewrite H12, H23.
Qed.

#[export] Instance same_handles_keeps {D MS} : subrelation (@same_handles D MS) keeps.
Proof. intros s s' Hs r l id. apply Hs. Qed.

#[export] Instance same_core_handles {D MS} : subrelation (@same_core D MS) same_handles.
Proof. intros s s' (E1&E2&_) r l id. unfold handle. by rewrite E1, E2. Qed.

#[export] Instance same_core_keeps {D MS} : subrelation (@same_core D MS) keeps.
Proof. intros s s' Hs. by apply same_handles_keeps, same_core_handles. Qed.

(** A change of one layer that keeps its identity and its handles. *)
Lemma handles_update {D MS} (s : layerStore D MS) l f :
  (∀ rl, ident (f rl) = ident rl ∧ rl_references (f rl) = rl_references rl) →
  same_handles s (set_heap (alter f l) s).
Proof.
  intros Hf r l' id. unfold handle. simpl. destruct (decide (l = l')) as [<-|Hne].
  - rewrite lookup_alter_eq. destruct (heap s !! l) as [rl|]; simpl; [|naive_solver].
    destruct (Hf rl) as [Hi Hr]. split; intros (? & [= <-] & Hc & Hin & Hid); eexists; (split; [done|]);
      rewrite ?Hr, ?Hi in *; injection Hi as Hi; rewrite ?Hi in *; done.
  - by rewrite lookup_alter_ne.
Qed.

(** Removing a layer without handles. *)
Lemma handles_remove {D MS} (s : layerStore D MS) l rl :
  heap s !! l = Some rl → rl_references rl = ∅ → layerMap s !! rl_chainID rl = Some l →
  same_handles s (set_layerMap (delete (rl_chainID rl)) s).
Proof.
  intros Hl Hrefs Hc r l' id. unfold handle. simpl.
  split; intros (rl' & Hl' & Hc' & Hr & Hid); exists rl'; split_and!; try done.
  - rewrite lookup_delete_ne; [done|]. intros Heq. rewrite Heq in Hc. simplify_eq. set_solver.
  - by apply lookup_delete_Some in Hc' as [_ ?].
Qed.

(** [s'] has lost layers at most; no object has changed its identity. *)
Definition shrinks {D MS} (s s' : layerStore D MS) : Prop :=
  layerMap s' ⊆ layerMap s ∧ ∀ l, ident <$> heap s' !! l = ident <$> heap s !! l.

#[export] Instance shrinks_preorder {D MS} : PreOrder (@shrinks D MS).
Proof.
  split; [done|]. intros s1 s2 s3 [H1 H2] [H3 H4]. split; [by etransitivity|].
  intros l. by rewrite H4, H2.
Qed.

#[export] Instance same_core_shrinks {D MS} : subrelation (@same_core D MS) shrinks.
Proof. intros s s' (E1&E2&_). unfold shrinks. by rewrite E1, E2. Qed.

Lemma shrinks_update {D MS} (s : layerStore D MS) l f :
  (∀ rl, ident (f rl) = ident rl) → shrinks s (set_heap (alter f l) s).
Proof.
  intros Hf. split; [done|]. intros l'. simpl. destruct (decide (l = l')) as [<-|?].
  - rewrite lookup_alter_eq. destruct (heap s !! l); [|done]. simpl. by rewrite Hf.
  - by rewrite lookup_alter_ne.
Qed.

Section specs.
Context {D MS Tx : Type} `{!GraphDriver D} `{!MetadataStore MS Tx} `{!Digester} `{!TarSplit}.
Abbreviation ls := (layerStore D MS).
Context (good : list DiffID → ChainID → Prop).
Implicit Types (s : ls) (held : list loc).

(** ** Elementary calls *)

Lemma wp_deref l rl (Q : roLayer → ls → Prop) s :
  heap s !! l = Some rl → Q rl s → wp (deref l) Q s.
Proof. intros Hl HQ. unfold wp, deref. by rewrite Hl. Qed.

Lemma wp_mderef m ml (Q : mountedLayer → ls → Prop) s :
  mheap s !! m = Some ml → Q ml s → wp (mderef m) Q s.
Proof. intros Hm HQ. unfold wp, mderef. by rewrite Hm. Qed.

Lemma wp_driver_call {A} (f : D → result string A * D) (Q : result error A → ls → Prop) s :
  (∀ r d, Q r (set_driver d s)) → wp (driver_call f) Q s.
Proof.
  intros HQ. unfold driver_call. apply wp_bind. unfold wp at 1, on_driver.
  destruct (f (driver s)). apply wp_ret, HQ.
Qed.

Lemma wp_store_call {A} (f : MS → result string A * MS) (Q : result error A → ls → Prop) s :
  (∀ r m, Q r (set_store m s)) → wp (store_call f) Q s.
Proof.
  intros HQ. unfold store_call. apply wp_bind. unfold wp at 1, on_store.
  destruct (f (store s)). apply wp_ret, HQ.
Qed.

Lemma same_core_driver s d : same_core s (set_driver d s).
Proof. done. Qed.
Lemma same_core_store s m : same_core s (set_store m s).
Proof. done. Qed.

(** A call that only touches the backends. *)
Definition backend_only {A} (m : M ls A) : Prop := ∀ s, wp m (λ _ s', same_core s s') s.

Lemma backend_ret {A} (a : A) : backend_only (mret a).
Proof. intros s. done. Qed.

Lemma backend_bind {A B} (m : M ls A) (f : A → M ls B) :
  backend_only m → (∀ a, backend_only (f a)) → backend_only (m ≫= f).
Proof.
  intros Hm Hf s. apply wp_bind. wp_apply Hm. intros a s' Hs.
  wp_apply Hf. intros b s'' Hs'. by transitivity s'.
Qed.

Lemma backend_try {A B} (m : M ls (result error A)) (f : A → M ls (result error B)) :
  backend_only m → (∀ a, backend_only (f a)) → backend_only (try_bind m f).
Proof. intros Hm Hf. apply backend_bind; [done|]. intros [a|e]; [apply Hf|apply backend_ret]. Qed.

Lemma backend_driver {A} (f : D → A * D) : backend_only (on_driver f).
Proof. intros s. unfold wp, on_driver. by destruct (f (driver s)). Qed.

Lemma backend_store {A} (f : MS → A * MS) : backend_only (on_store f).
Proof. intros s. unfold wp, on_store. by destruct (f (store s)). Qed.

Lemma backend_driver_call {A} (f : D → result string A * D) : backend_only (driver_call f).
Proof. intros s. by apply wp_driver_call. Qed.

Lemma backend_store_call {A} (f : MS → result string A * MS) : backend_only (store_call f).
Proof. intros s. by apply wp_store_call. Qed.

(** A backend call in a sequence that leaves the core of [s0] unchanged. *)
Lemma core_try {A B} s0 s (m : M ls (result error A)) (k : A → M ls (result error B)) :
  same_core s0 s → backend_only m →
  (∀ a s1, same_core s0 s1 → wp (k a) (λ _ s', same_core s0 s') s1) →
  wp (try_bind m k) (λ _ s', same_core s0 s') s.
Proof.
  intros Hs Hm Hk. apply wp_try. wp_apply Hm.
  intros [a|e] s1 H1; [apply Hk|]; by transitivity s.
Qed.

Lemma core_last {A} s0 s (m : M ls A) :
  same_core s0 s → backend_only m → wp m (λ _ s', same_core s0 s') s.
Proof. intros Hs Hm. wp_apply Hm. intros a s1 H1. by transitivity s. Qed.

Lemma wp_update l f (Q : unit → ls → Prop) s : Q () (set_heap (alter f l) s) → wp (update l f) Q s.
Proof. done. Qed.

Lemma wp_alloc (Q : loc → ls → Prop) s : Q (next s) (set_next (Pos.succ (next s)) s) → wp alloc Q s.
Proof. done. Qed.

(** A registered layer is an object of the heap. *)
Lemma Inv_deref held s l : Inv good held s → registered (layerMap s) l →
  ∃ rl, heap s !! l = Some rl ∧ layerMap s !! rl_chainID rl = Some l.
Proof. intros I. by apply (inv_registered I). Qed.

(** ** Chains of parents *)

(** Walking from a registered layer to the root stays in the store. *)
Lemma Size_loop_returns held s fuel l :
  Inv good held s → registered (layerMap s) l → Pos.to_nat l ≤ fuel →
  wp (Size_loop fuel l) (λ _ s', s' = s) s.
Proof.
  intros I. revert l. induction fuel as [|fuel IH]; intros l Hl Hf; [lia|].
  simpl. destruct (Inv_deref _ _ _ I Hl) as (rl & Hrl & _).
  wp_step. apply wp_deref with rl; [done|].
  destruct (rl_parent rl) as [p|] eqn:Hp; [|done].
  destruct (inv_parent _ _ _ _ _ _ _ I l rl p Hl Hrl Hp) as [Hreg Hlt].
  wp_step. wp_apply IH; [done|lia|]. by intros sz s' ->.
Qed.

Lemma depth_loop_returns held s fuel l :
  Inv good held s → registered (layerMap s) l → Pos.to_nat l ≤ fuel →
  wp (depth_loop fuel l) (λ n s', s' = s ∧ ∃ ds, chain (heap s) l ds ∧ n = length ds) s.
Proof.
  intros I. revert l. induction fuel as [|fuel IH]; intros l Hl Hf; [lia|].
  simpl. destruct (Inv_deref _ _ _ I Hl) as (rl & Hrl & _).
  wp_step. apply wp_deref with rl; [done|].
  destruct (rl_parent rl) as [p|] eqn:Hp; [|wp_step; split; [done|]; eexists; by split; [apply chain_root|]].
  destruct (inv_parent _ _ _ _ _ _ _ I l rl p Hl Hrl Hp) as [Hreg Hlt].
  wp_step. wp_apply IH; [done|lia|]. intros n s' (-> & ds & Hc & ->). wp_step. split; [done|].
  exists (ds ++ [rl_diffID rl]). split; [by eapply chain_child|]. by rewrite length_app.
Qed.

(** ** Retaining and releasing *)

Lemma getWithoutLock_spec held s c :
  Inv good held s →
  wp (getWithoutLock c) (λ r s', layerMap s' = layerMap s ∧ mheap s' = mheap s ∧ mounts s' = mounts s ∧
    match r with
    | Some l => layerMap s !! c = Some l ∧ Inv good (l :: held) s' ∧ same_handles s s' ∧
        heap s' = alter (set_referenceCount Z.succ) l (heap s)
    | None => layerMap s !! c = None ∧ s' = s
    end) s.
Proof.
  intros I. unfold getWithoutLock. wp_steps.
  destruct (layerMap s !! c) as [l|] eqn:Hc; [|done].
  wp_steps. apply wp_update. simpl. split_and!; try done.
  - apply (inv_incr I). by exists c.
  - by apply handles_update.
Qed.

(** A new handle on [l], with the identity of the layer. *)
Lemma getReference_spec held s l rl :
  Inv good (l :: held) s → heap s !! l = Some rl →
  wp (getReference l) (λ r s', r = RefLayer (next s) l ∧ Inv good held s' ∧
    layerMap s' = layerMap s ∧ mheap s' = mheap s ∧ mounts s' = mounts s ∧
    keeps s s' ∧ handle s' (next s) l (ident rl) ∧
    heap s' = alter (set_references (λ refs, {[next s]} ∪ refs)) l (heap s)) s.
Proof.
  intros I Hrl. unfold getReference. wp_step. apply wp_alloc. wp_step. apply wp_update. wp_steps.
  assert (Hreg : registered (layerMap s) l) by (apply (inv_held _ _ _ _ _ _ _ I); by left).
  destruct (Inv_deref _ _ _ I Hreg) as (rl' & Hrl' & Hc). simplify_eq.
  split_and!; try done.
  - by apply inv_getref.
  - intros r l' id (rl' & Hl' & Hc' & Hr & Hid). unfold handle. simpl.
    destruct (decide (l = l')) as [<-|Hne]; [|exists rl'; by rewrite lookup_alter_ne].
    rewrite lookup_alter_eq, Hl'. eexists. split_and!; [done|exact Hc'|simpl; set_solver|done].
  - eexists. simpl. rewrite lookup_alter_eq, Hrl. split_and!; [done..|simpl; set_solver|done].
Qed.

Lemma deleteLayer_spec held s l :
  Inv good held s → registered (layerMap s) l → wp (deleteLayer l) (λ _ s', same_core s s') s.
Proof.
  intros I Hl. unfold deleteLayer. destruct (Inv_deref _ _ _ I Hl) as (rl & Hrl & _).
  wp_step. apply wp_deref with rl; [done|].
  apply core_try; [done|apply backend_driver_call|]. intros _ s1 H1.
  apply core_try; [done|apply backend_store_call|]. intros _ s2 H2.
  wp_step. wp_apply Size_loop_returns; [by rewrite <-H2|by destruct H2 as (_&->&_)|done|].
  intros sz s3 ->. by wp_step.
Qed.

Lemma releaseLayer_loop_spec fuel depth removed held s l :
  Inv good (l :: held) s → Pos.to_nat l ≤ fuel → (depth = 0 ∨ removed ≠ []) →
  wp (releaseLayer_loop fuel l depth removed) (λ _ s',
    Inv good held s' ∧ (same_handles s s' ∧ shrinks s s') ∧ mounts s' = mounts s ∧ mheap s' = mheap s) s.
Proof.
  revert depth removed held s l. induction fuel as [|fuel IH]; intros depth removed held s l I Hf Hrem; [lia|].
  assert (Hl : registered (layerMap s) l) by (apply (inv_held _ _ _ _ _ _ _ I); by left).
  destruct (Inv_deref _ _ _ I Hl) as (rl & Hrl & Hc).
  simpl. wp_step. apply wp_deref with rl; [done|].
  rewrite decide_False by (pose proof (inv_held_count _ _ _ _ _ _ _ _ _ I Hrl); lia).
  wp_step. apply wp_update. apply inv_decr in I as I1.
  set (s1 := set_heap (alter (set_referenceCount Z.pred) l) s).
  assert (Hrl1 : heap s1 !! l = Some (set_referenceCount Z.pred rl)).
  { simpl. by rewrite lookup_alter_eq, Hrl. }
  assert (K1 : same_handles s s1) by (by apply handles_update).
  assert (S1 : shrinks s s1) by (by apply shrinks_update).
  wp_step. apply wp_deref with (set_referenceCount Z.pred rl); [done|].
  case_decide as Hcnt; [done|].
  rewrite decide_False by (destruct Hrem, removed; naive_solver lia).
  destruct (inv_count_zero _ _ _ _ _ _ _ _ _ I1 Hl Hrl1 Hcnt) as (Hrefs & _).
  unfold hasReferences. rewrite Hrefs, size_empty, bool_decide_false by lia.
  wp_step. wp_apply deleteLayer_spec; [exact I1|done|].
  intros [metadata|e] s2 H2; [|split_and!; [by rewrite <-H2|by rewrite K1, H2|by etransitivity; [|by apply same_core_shrinks]
    |by destruct H2 as (?&?&?&?&?)..]].
  wp_steps. assert (I2 : Inv good (released (rl_parent rl) held) (set_layerMap (delete (rl_chainID rl)) s2)).
  { unfold Inv. simpl. destruct H2 as (->&->&->&->&->).
    apply (inv_remove _ _ _ _ _ _ _ _ l (set_referenceCount Z.pred rl)); done. }
  assert (K2 : same_handles s (set_layerMap (delete (rl_chainID rl)) s2)).
  { rewrite K1, H2. destruct H2 as (E1&E2&_).
    apply (handles_remove _ l (set_referenceCount Z.pred rl)); by rewrite ?E1, ?E2. }
  assert (S2 : shrinks s (set_layerMap (delete (rl_chainID rl)) s2)).
  { transitivity s2; [by etransitivity; [|by apply same_core_shrinks]|]. split; [|done]. apply delete_subseteq. }
  destruct H2 as (Eh&El&Em&Ems&_).
  destruct (rl_parent rl) as [p|] eqn:Hp; [|done].
  destruct (inv_parent _ _ _ _ _ _ _ I l rl p Hl Hrl Hp) as [_ Hlt].
  wp_apply IH; [exact I2|lia|by right; destruct removed|].
  intros r s3 (?&[K3 S3]&->&->).
  split_and!; [done|by transitivity (set_layerMap (delete (rl_chainID rl)) s2)..|done|done].
Qed.

Lemma releaseLayer_spec held s l :
  Inv good (l :: held) s →
  wp (releaseLayer l) (λ _ s',
    Inv good held s' ∧ (same_handles s s' ∧ shrinks s s') ∧ mounts s' = mounts s ∧ mheap s' = mheap s) s.
Proof. intros I. apply releaseLayer_loop_spec; [done..|by left]. Qed.

(** ** The operations on read-only layers *)

Lemma Get_spec held s c :
  Inv good held s →
  wp (Get c) (λ r s', Inv good held s' ∧ keeps s s' ∧ mounts s' = mounts s ∧ mheap s' = mheap s ∧
    match r with
    | Ok ref => ∃ r l id, ref = RefLayer r l ∧ layerMap s !! c = Some l ∧ id.1.1.1.1 = c ∧ handle s' r l id
    | Err e => e = ErrLayerDoesNotExist ∧ layerMap s !! c = None ∧ s' = s
    end) s.
Proof.
  intros I. unfold Get. wp_step. wp_apply getWithoutLock_spec; [done|].
  intros [l|] s1 (El1 & Em1 & Ems1 & H1); [|by destruct H1 as [? ->]].
  destruct H1 as (Hc & I1 & K1 & Eh1).
  destruct (inv_layer _ _ _ _ _ _ _ I c l Hc) as (rl & Hrl & Hch).
  wp_step. wp_apply (getReference_spec held s1 l (set_referenceCount Z.succ rl)); [done| |].
  { by rewrite Eh1, lookup_alter_eq, Hrl. }
  intros r s2 (-> & I2 & El2 & Em2 & Ems2 & K2 & Hh & Eh2). wp_step.
  split_and!; [done|by rewrite K1, K2|congruence|congruence|]. by eexists _, l, (ident (set_referenceCount Z.succ rl)).
Qed.

(** A value of the interface the caller may have been given: its layer object
    exists, registered or not. *)
Definition layer_valid (s : ls) (ref : Layer) : Prop :=
  match ref with RefLayer _ l | BareLayer l => is_Some (heap s !! l) | ForeignLayer _ => True end.

Lemma layer_ChainID_spec s ref :
  layer_valid s ref → wp (layer_ChainID ref) (λ c s', s' = s ∧
    match ref with
    | RefLayer _ l | BareLayer l => ∃ rl, heap s !! l = Some rl ∧ rl_chainID rl = c
    | ForeignLayer c' => c = c'
    end) s.
Proof.
  destruct ref as [r l|l|c]; simpl; [| |done];
    intros [rl Hl]; wp_step; (apply wp_deref with rl; [done|]); wp_step; eauto.
Qed.

(** [s'] has the handles of [s] but the handle [r] of the layer at [l]. *)
Definition release_only (r l : loc) (s s' : ls) : Prop :=
  ∀ r' l' id, handle s' r' l' id ↔ handle s r' l' id ∧ ¬ (r' = r ∧ l' = l).

Lemma handles_delref s l r :
  release_only r l s (set_heap (alter (set_references (λ refs, refs ∖ {[r]})) l) s).
Proof.
  intros r' l' id. unfold handle. simpl. destruct (decide (l = l')) as [<-|Hne].
  - rewrite lookup_alter_eq. split.
    + intros (rl' & Hl & Hc & Hin & Hid). destruct (heap s !! l) as [rl|] eqn:Hrl; simplify_eq/=.
      split; [exists rl; set_solver|]. set_solver.
    + intros [(rl & -> & Hc & Hin & Hid) Hr]. eexists. split_and!; [done|done| |done].
      simpl. set_solver.
  - rewrite lookup_alter_ne by done. naive_solver.
Qed.

Lemma Release_spec held s ref :
  Inv good held s → layer_valid s ref →
  wp (Release ref) (λ res s', Inv good held s' ∧ mounts s' = mounts s ∧ mheap s' = mheap s ∧
    ((s' = s ∧ (res = Ok [] ∨ res = Err ErrLayerNotRetained) ∧
      ∀ r l id, ref = RefLayer r l → ¬ handle s r l id) ∨
     ∃ r l0 l, ref = RefLayer r l0 ∧ (∃ id, handle s r l id) ∧ release_only r l s s' ∧ shrinks s s' ∧
      ∃ rl0, heap s !! l0 = Some rl0 ∧ layerMap s !! rl_chainID rl0 = Some l)) s.
Proof.
  intros I Hv. unfold Release. wp_step. wp_apply layer_ChainID_spec; [done|].
  intros c s0 [-> Hc]. wp_steps. destruct (layerMap s !! c) as [l|] eqn:Hl.
  2: { wp_step. split_and!; [done..|]. left. split_and!; [done|by left|]. intros r l id -> (rl & Hrl & Hch & _).
       destruct Hc as (? & ? & ?). congruence. }
  assert (Hreg : registered (layerMap s) l) by (by exists c).
  destruct (Inv_deref _ _ _ I Hreg) as (rl & Hrl & Hch). wp_step. apply wp_deref with rl; [done|].
  destruct (hasReference rl ref) eqn:Hhas; simpl.
  2: { wp_step. split_and!; [done..|]. left. split_and!; [done|by right|].
       intros r l' id -> (rl' & Hrl' & Hch' & Hr & _). destruct Hc as (rl0 & ? & ?). simplify_eq.
       simpl in Hhas. by apply bool_decide_eq_false in Hhas. }
  destruct ref as [r l0|?|?]; simpl in Hhas; try done. apply bool_decide_eq_true in Hhas. simpl.
  wp_step. apply wp_update. wp_apply releaseLayer_spec; [by apply (inv_delref I l rl)|].
  intros res s' (I' & [Hs Hsh] & -> & ->). split_and!; [done..|]. right. exists r, l0, l.
  split_and!; [done|by exists (ident rl), rl| |etransitivity; [|exact Hsh]; by apply shrinks_update|].
  - intros r' l' id. rewrite <-(Hs r' l' id). apply handles_delref.
  - destruct Hc as (rl0 & ? & <-). eauto.
Qed.

(** ** Registration *)

(** The object at [l] is a layer under construction on top of [p]. *)
Definition building (p : option loc) (l : loc) (s : ls) : Prop :=
  ∃ rl, heap s !! l = Some rl ∧ rl_parent rl = p ∧ rl_referenceCount rl = 1%Z ∧
    rl_references rl = ∅ ∧ ¬ registered (layerMap s) l ∧
    ∀ p', p = Some p' → (p' < l)%positive ∧ registered (layerMap s) p' ∧
      ∀ ds, chain (heap s) p' ds → length ds < maxLayerDepth.

#[export] Instance building_proper p l : Proper (same_core ==> iff) (building p l).
Proof. intros s s' (E1&E2&_). unfold building. by rewrite E1, E2. Qed.

(** A change of a layer under construction. *)
Lemma building_update held s p l f :
  Inv good held s → building p l s →
  (∀ rl, rl_parent (f rl) = rl_parent rl ∧ rl_referenceCount (f rl) = rl_referenceCount rl ∧
         rl_references (f rl) = rl_references rl) →
  let s' := set_heap (alter f l) s in Inv good held s' ∧ building p l s' ∧ same_handles s s'.
Proof.
  intros I (rl & Hl & Hp & Hcnt & Hrefs & Hnot & Hpar) Hf s'. destruct (Hf rl) as (Hf1 & Hf2 & Hf3).
  assert (E : heap s' = <[l:=f rl]> (heap s)).
  { simpl. apply map_eq. intros l'. destruct (decide (l = l')) as [<-|?].
    - by rewrite lookup_alter_eq, lookup_insert_eq, Hl.
    - by rewrite lookup_alter_ne, lookup_insert_ne. }
  split_and!.
  - unfold Inv. rewrite E. apply (inv_local _ _ _ _ _ _ _ _ _ _ I); [done|done| |congruence].
    exact (proj1 (inv_fresh _ _ _ _ _ _ _ I l rl Hl)).
  - exists (f rl). rewrite E, lookup_insert_eq. split_and!; [done|congruence..|done|].
    intros p' Hp'. destruct (Hpar p' Hp') as (? & ? & Hds). split_and!; [done..|].
    intros ds Hc. by apply Hds, (chain_insert I l (f rl)).
  - intros r l' id. unfold handle. rewrite E. simpl. destruct (decide (l = l')) as [<-|?].
    + split; intros (? & _ & Hc & _); destruct Hnot; by eexists.
    + by rewrite lookup_insert_ne.
Qed.

(** The diff ID of the layer under construction is the digest of [ts]. *)
Definition digested (ts : string) (l : loc) (s : ls) : Prop :=
  ∃ rl, heap s !! l = Some rl ∧ rl_diffID rl = FromBytes ts.

#[export] Instance digested_proper ts l : Proper (same_core ==> iff) (digested ts l).
Proof. intros s s' (E1&_). unfold digested. by rewrite E1. Qed.

(** What the steps of a registration that work on its own objects keep. *)
Definition build_step (held : list loc) (p : option loc) (l : loc) (s0 s : ls) : Prop :=
  Inv good held s ∧ building p l s ∧ same_handles s0 s ∧ layerMap s = layerMap s0 ∧
  mounts s = mounts s0 ∧ mheap s = mheap s0.

#[export] Instance build_step_proper held p l s0 : Proper (same_core ==> iff) (build_step held p l s0).
Proof.
  intros s s' Hs. unfold build_step.
  assert (Inv good held s ↔ Inv good held s') as -> by (by rewrite Hs).
  assert (building p l s ↔ building p l s') as -> by (by rewrite Hs).
  assert (same_handles s0 s ↔ same_handles s0 s') as -> by (split; intros ->; by rewrite Hs).
  by destruct Hs as (_&->&->&->&_).
Qed.

Lemma build_step_update held p l s0 s f :
  build_step held p l s0 s →
  (∀ rl, rl_parent (f rl) = rl_parent rl ∧ rl_referenceCount (f rl) = rl_referenceCount rl ∧
         rl_references (f rl) = rl_references rl) →
  build_step held p l s0 (set_heap (alter f l) s).
Proof.
  intros (I & B & K & R) Hf. destruct (building_update _ _ _ _ f I B Hf) as (I' & B' & K').
  split_and!; [done|done|by rewrite K|apply R..].
Qed.

Lemma applyTar_spec held s0 s p l tx ts pid :
  build_step held p l s0 s →
  wp (applyTar tx ts pid l) (λ r s', build_step held p l s0 s' ∧ (r = Ok () → digested ts l s')) s.
Proof.
  intros P. unfold applyTar.
  wp_step. wp_apply backend_store_call. intros [|e] s1 H1; rewrite H1 in P; [|done].
  wp_step. eapply wp_mono with (λ r s', build_step held p l s0 s' ∧ (r = Ok () → digested ts l s')).
  2: { intros r s2 P2. wp_step. wp_apply backend_store. intros _ s3 H3. rewrite H3 in P2. by wp_step. }
  wp_steps. destruct (asm_accepts ts) as [|e]; [|done]. simpl.
  pose proof P as (_ & (rl & Hrl & _) & _). wp_step. apply wp_deref with rl; [done|].
  wp_step. wp_apply backend_driver. intros [applied consumed] s2 H2. rewrite H2 in P.
  wp_step. wp_apply backend_store. intros _ s3 H3. rewrite H3 in P.
  wp_steps. destruct applied as [sz|e]; [|done]. simpl.
  wp_step. wp_apply backend_store. intros _ s4 H4. rewrite H4 in P.
  wp_step. apply wp_update. wp_step. split; [by apply build_step_update|]. intros _.
  destruct P as (_ & (rl4 & Hrl4 & _) & _). eexists. simpl. by rewrite lookup_alter_eq, Hrl4.
Qed.

(** The laws of [good] that the registration of a layer relies on. *)
Definition good_closed : Prop :=
  (∀ d, good [d] d) ∧
  ∀ ds c d, good ds c → length ds < maxLayerDepth → good (ds ++ [d]) (createChainIDFromParent c [d]).

Lemma computeChainID_spec held s p l :
  good_closed → Inv good held s → building p l s →
  wp (computeChainID l) (λ c s', s' = s ∧ ∀ ds, chain (heap s) l ds → good ds c) s.
Proof.
  intros [Groot Gchild] I (rl & Hrl & Hp & _ & _ & _ & Hpar). unfold computeChainID.
  wp_step. apply wp_deref with rl; [done|]. rewrite Hp. destruct p as [p'|].
  - destruct (Hpar p' eq_refl) as (_ & Hreg & Hds). destruct (Inv_deref _ _ _ I Hreg) as (prl & Hprl & _).
    wp_step. apply wp_deref with prl; [done|]. wp_step. split; [done|]. intros ds Hc.
    inversion Hc; simplify_eq. apply Gchild; [|by apply Hds]. by apply (inv_good _ _ _ _ _ _ _ I p').
  - wp_step. split; [done|]. intros ds Hc. inversion Hc; simplify_eq. apply Groot.
Qed.

Lemma storeLayer_spec held s p l tx :
  Inv good held s → building p l s → wp (storeLayer tx l) (λ _ s', same_core s s') s.
Proof.
  intros I (rl & Hrl & Hp & _ & _ & _ & Hpar). unfold storeLayer. wp_step. apply wp_deref with rl; [done|].
  rewrite Hp.
  apply core_try; [done|apply backend_store_call|]. intros _ s1 H1.
  apply core_try; [done|apply backend_store_call|]. intros _ s2 H2.
  apply core_try; [done|apply backend_store_call|]. intros _ s3 H3.
  apply core_try; [done|case_decide; [apply backend_ret|apply backend_store_call]|]. intros _ s4 H4.
  destruct p as [p'|]; [|by wp_step].
  destruct (Hpar p' eq_refl) as (_ & Hreg & _). destruct (Inv_deref _ _ _ I Hreg) as (prl & Hprl & _).
  wp_step. apply wp_deref with prl; [by destruct H4 as (->&_)|].
  apply core_last; [done|apply backend_store_call].
Qed.

(** The layer under construction has the chain ID its diffs call for. *)
Definition named (c : ChainID) (l : loc) (s : ls) : Prop :=
  ∃ rl, heap s !! l = Some rl ∧ rl_chainID rl = c ∧ ∀ ds, chain (heap s) l ds → good ds c.

(** What a registration returns: unless the deferred cleanup has work to do,
    the reference on the parent has gone into the new layer. *)
Definition registered_out (held : list loc) (p : option loc) (s0 : ls)
    (out : result error Layer * bool) (s' : ls) : Prop :=
  Inv good (if out.2 then released p held else held) s' ∧ keeps s0 s' ∧
  mounts s' = mounts s0 ∧ mheap s' = mheap s0 ∧
  (∀ ref, out.1 = Ok ref → ∃ r l id, ref = RefLayer r l ∧ handle s' r l id) ∧
  (out.2 = false → ∃ ref, out.1 = Ok ref).

Lemma registerCommit_spec held s0 s p l tx c :
  build_step (released p held) p l s0 s → named c l s →
  wp (registerCommit tx l) (λ out s', registered_out held p s0 out s' ∧ is_Some (heap s' !! l)) s.
Proof.
  intros (I & (rl & Hrl & Hp & Hone & Hrefs & Hnot & Hpar) & K & El & Em & Emh) (rl' & Hrl' & Hc & Hg).
  simplify_eq. unfold registerCommit. wp_step. apply wp_deref with rl; [done|].
  wp_step. wp_apply getWithoutLock_spec; [exact I|].
  intros [e|] s1 (El1 & Em1 & Ems1 & H1).
  - destruct H1 as (He & I1 & K1 & Eh1).
    destruct (inv_layer _ _ _ _ _ _ _ I _ e He) as (rle & Hrle & _).
    wp_step. wp_apply (getReference_spec _ s1 e (set_referenceCount Z.succ rle)); [done| |].
    { by rewrite Eh1, lookup_alter_eq, Hrle. }
    intros r s2 (-> & I2 & El2 & Em2 & Ems2 & K2 & Hh & Eh2). wp_step. split.
    + split_and!; simpl; [done|by rewrite K, K1, K2|congruence..| |done]. intros ref [= <-]. eauto.
    + rewrite Eh2, Eh1. rewrite !lookup_alter_ne; [by eexists|intros ->..];
        apply Hnot; by exists (rl_chainID rl).
  - destruct H1 as [Hnone ->]. wp_step. wp_apply backend_store_call. intros [|e] s2 H2.
    + wp_steps. destruct H2 as (Eh2 & El2 & Em2 & Ems2 & En2).
      assert (I2 : Inv good (l :: held) (set_layerMap (insert (rl_chainID rl) l) s2)).
      { unfold Inv. simpl. rewrite Eh2, El2, Em2, Ems2, En2. apply inv_register; try done.
        intros p Hp. by destruct (Hpar p Hp). }
      wp_apply (getReference_spec _ _ l rl); [exact I2|by rewrite <-Hrl, <-Eh2|].
      intros r s3 (-> & I3 & El3 & Em3 & Ems3 & K3 & Hh & Eh3). wp_step. split.
      * split_and!; simpl; [done| |simpl in *; congruence..| |by eauto]; [|intros ref [= <-]; eauto].
        rewrite K, <-K3. intros r' l' id (rl' & Hl' & Hc' & Hr' & Hid). exists rl'. simpl.
        rewrite Eh2, El2. split_and!; [done| |done..]. rewrite lookup_insert_ne; [done|congruence].
      * rewrite Eh3. simpl. rewrite lookup_alter_eq, Eh2, Hrl. by eexists.
    + wp_step. split; [|by destruct H2 as (->&_); eexists].
      split_and!; simpl; [by rewrite <-H2|rewrite K; by apply same_core_keeps|destruct H2 as (_&_&_&->&_); done
        |destruct H2 as (_&_&->&_); done|done..].
Qed.

Lemma registered_out_core held p s0 out s1 s2 :
  same_core s1 s2 → registered_out held p s0 out s1 → registered_out held p s0 out s2.
Proof.
  intros Hs (I & K & Em & Emh & Hok & Hf). split_and!; [by rewrite <-Hs|rewrite K; by apply same_core_keeps| | | |done].
  - destruct Hs as (_&_&_&->&_). done.
  - destruct Hs as (_&_&->&_). done.
  - intros ref Href. destruct (Hok ref Href) as (r & l & id & -> & Hh). exists r, l, id. split; [done|].
    by apply (same_core_handles _ _ Hs).
Qed.

Lemma registerTransaction_spec held s0 s p l tx ts pid :
  good_closed → build_step (released p held) p l s0 s →
  wp (registerTransaction tx ts pid l) (λ out s', registered_out held p s0 out s') s.
Proof.
  intros G P. unfold registerTransaction.
  wp_step. eapply wp_mono with (λ r s', build_step (released p held) p l s0 s' ∧ (r = Ok () → ∃ c, named c l s')).
  { wp_step. wp_apply applyTar_spec; [exact P|]. intros [|e] s1 [P1 Hd]; [|done]. clear P Hd.
    pose proof P1 as (I1 & B1 & _). wp_step. wp_apply computeChainID_spec; [done|exact I1|exact B1|].
    intros c s2 [-> Hg]. wp_step. apply wp_update.
    assert (P2 : build_step (released p held) p l s0 (set_heap (alter (set_chainID c) l) s1)).
    { by apply build_step_update. }
    assert (N2 : named c l (set_heap (alter (set_chainID c) l) s1)).
    { destruct B1 as (rl & Hrl & _). eexists. simpl. rewrite lookup_alter_eq, Hrl. split_and!; [done..|].
      intros ds Hc. apply Hg. by apply chain_alter in Hc. }
    pose proof P2 as (I2 & B2 & _). wp_apply storeLayer_spec; [exact I2|exact B2|].
    intros r s3 H3. rewrite H3 in P2. split; [done|]. intros _. exists c.
    unfold named in *. by destruct H3 as (->&_). }
  clear P. intros r s1 [P Hn]. wp_step.
  eapply wp_mono with (λ out s', registered_out held p s0 out s' ∧ is_Some (heap s' !! l)).
  { destruct r as [[]|e].
    - destruct (Hn eq_refl) as [c Hc]. by eapply registerCommit_spec.
    - wp_step. destruct P as (I & (rl & Hrl & _) & K & ? & ? & ?). split; [|by eexists].
      by split_and!; [|rewrite K|..]. }
  clear P Hn. intros out s2 [P [rl Hrl]]. wp_step. destruct (out.2) eqn:Eout; [|by wp_steps].
  wp_step. apply wp_deref with rl; [done|].
  wp_step. wp_apply backend_driver_call. intros ? s3 H3.
  wp_step. wp_apply backend_store_call. intros ? s4 H4. wp_steps.
  eapply registered_out_core; [by transitivity s3|done].
Qed.

Lemma registerBody_spec held s p cacheID ts pid descriptor :
  good_closed → Inv good (released p held) s →
  (∀ p' ds, p = Some p' → chain (heap s) p' ds → length ds < maxLayerDepth) →
  wp (registerBody cacheID ts p pid descriptor) (λ out s', registered_out held p s out s') s.
Proof.
  intros G I Hds. unfold registerBody. wp_step. apply wp_alloc. wp_steps.
  set (rl0 := mkRoLayer "" "" p cacheID 0 descriptor 1 ∅).
  set (s1 := set_heap (insert (next s) rl0) (set_next (Pos.succ (next s)) s)).
  pose proof (fresh_unregistered _ _ _ _ _ _ _ I) as Hnot.
  assert (Hpreg : ∀ p', p = Some p' → registered (layerMap s) p').
  { intros p' ->. apply (inv_held _ _ _ _ _ _ _ I). by left. }
  assert (P1 : build_step (released p held) p (next s) s s1).
  { split_and!; try done.
    - apply (inv_local _ _ _ _ _ _ _ _ _ _ I); [done|simpl; lia..|done].
    - exists rl0. simpl. rewrite lookup_insert_eq. split_and!; [done..|]. intros p' Hp'.
      split_and!; [|by apply Hpreg|].
      + destruct (Inv_deref _ _ _ I (Hpreg p' Hp')) as (prl & Hprl & _).
        by apply (inv_fresh _ _ _ _ _ _ _ I) in Hprl as [? _].
      + intros ds Hc. apply (Hds p' ds Hp'). by eapply (chain_insert I); [|apply Hpreg|].
    - intros r l id. unfold handle. simpl. destruct (decide (next s = l)) as [<-|?].
      + split; intros (? & _ & Hc & _); destruct Hnot; by eexists.
      + by rewrite lookup_insert_ne. }
  assert (Herr : ∀ e s', same_core s1 s' → registered_out held p s (Err e, true) s').
  { intros e s' Hs'. eapply registered_out_core; [done|]. destruct P1 as (?&?&K&?&?&?).
    by split_and!; [|rewrite K|..]. }
  wp_apply backend_driver_call. intros [|e] s2 H2; [|by apply Herr].
  wp_step. wp_apply backend_store_call. intros [tx|e] s3 H3; [|apply Herr; by transitivity s2].
  apply registerTransaction_spec; [done|]. by rewrite <-H3, <-H2.
Qed.

(** [registerWithDescriptor] keeps the invariant and every handle; it returns a
    handle on a layer of the store. *)
Lemma registerWithDescriptor_spec held s cacheID ts parent descriptor :
  good_closed → Inv good held s →
  wp (registerWithDescriptor cacheID ts parent descriptor) (λ res s', Inv good held s' ∧ keeps s s' ∧
    mounts s' = mounts s ∧ mheap s' = mheap s ∧
    ∀ ref, res = Ok ref → ∃ r l id, ref = RefLayer r l ∧ handle s' r l id) s.
Proof.
  intros G I. unfold registerWithDescriptor. case_decide as Hparent.
  { wp_step. wp_apply (registerBody_spec held s None); [done|done|done|].
    intros [r err] s' (I' & K & Em & Emh & Hok & Hf). wp_step. by destruct err. }
  wp_step. wp_apply getWithoutLock_spec; [exact I|].
  intros [p|] s1 (El1 & Em1 & Ems1 & H1); [|destruct H1 as [_ ->]; by wp_step].
  destruct H1 as (Hc & I1 & K1 & Eh1). assert (Hreg : registered (layerMap s1) p) by (rewrite El1; by eexists).
  destruct (Inv_deref _ _ _ I1 Hreg) as (prl & Hprl & _).
  wp_step. apply wp_deref with prl; [done|].
  wp_step. wp_apply depth_loop_returns; [exact I1|done|done|]. intros n s2 (-> & ds & Hch & ->).
  wp_step. eapply wp_mono with (λ out s', registered_out held (Some p) s1 out s').
  { case_decide; [wp_step; by split_and!|]. apply registerBody_spec; [done..|].
    intros p' ds' [= <-] Hch'. rewrite (chain_functional _ _ _ _ Hch' Hch). lia. }
  intros [r err] s2 (I2 & K2 & Em2 & Emh2 & Hok & Hf). simpl in *. wp_step. destruct err; simpl in *.
  - wp_step. wp_apply releaseLayer_spec; [exact I2|]. intros r' s3 (I3 & [K3 _] & Em3 & Emh3).
    wp_steps. split_and!; [done|by rewrite K1, K2, K3|congruence..|].
    intros ref Href. destruct (Hok ref Href) as (r0 & l & id & -> & Hh). exists r0, l, id. split; [done|].
    by apply K3.
  - wp_steps. split_and!; [done|by rewrite K1, K2|congruence..|done].
Qed.
End specs.
