(* ===== verification/LayerMounts.v ===== *)
(** The writable layers of the layer store: the specifications of the
    operations on mounts, in the setting of LayerProofs. *)

From S2P Require Import Prelude Layer LayerStore LayerInv LayerProofs.

(** The handle at [r] retains the mount at [m], which is in the store. *)
Definition rwhandle {D MS} (s : layerStore D MS) (r m : loc) (name : string) (p : option loc) : Prop :=
  ∃ ml, mounts s !! name = Some m ∧ mheap s !! m = Some ml ∧ ml_parent ml = p ∧ r ∈ ml_references ml.

Definition mkeeps {D MS} (s s' : layerStore D MS) : Prop :=
  ∀ r m n p, rwhandle s r m n p → rwhandle s' r m n p.

#[export] Instance mkeeps_preorder {D MS} : PreOrder (@mkeeps D MS).
Proof. split; unfold mkeeps; [by intros s|naive_solver]. Qed.

Lemma mkeeps_same {D MS} (s s' : layerStore D MS) :
  mounts s' = mounts s → mheap s' = mheap s → mkeeps s s'.
Proof. intros E1 E2 r m n p. unfold rwhandle. by rewrite E1, E2. Qed.

Lemma keeps_same {D MS} (s s' : layerStore D MS) :
  heap s' = heap s → layerMap s' = layerMap s → keeps s s'.
Proof. intros E1 E2 r l id. unfold handle. by rewrite E1, E2. Qed.

Section specs.
Context {D MS Tx : Type} `{!GraphDriver D} `{!MetadataStore MS Tx}.
Abbreviation ls := (layerStore D MS).
Context (good : list DiffID → ChainID → Prop).
Implicit Types (s : ls) (held : list loc).

Lemma wp_mupdate m f (Q : unit → ls → Prop) s : Q () (set_mheap (alter f m) s) → wp (mupdate m f) Q s.
Proof. done. Qed.

(** A registered mount is an object of the heap of mounts. *)
Lemma Inv_mderef held s n m : Inv good held s → mounts s !! n = Some m →
  ∃ ml, mheap s !! m = Some ml ∧ ml_name ml = n ∧ ∀ p, ml_parent ml = Some p → registered (layerMap s) p.
Proof. intros I. apply (inv_mount _ _ _ _ _ _ _ I). Qed.

Lemma initMount_backend graphID parent label f opts :
  backend_only (initMount graphID parent label f opts : M ls _).
Proof.
  unfold initMount. apply backend_try; [apply backend_driver_call|]. intros _.
  apply backend_try; [apply backend_driver_call|]. intros dir. destruct (f dir) as [|e].
  - apply backend_try; [apply backend_driver_call|]. intros _. apply backend_ret.
  - apply backend_bind; [apply backend_driver_call|]. intros _. apply backend_ret.
Qed.

(** A mount under construction. *)
Definition mbuilding (name : string) (p : option loc) (m : loc) (s : ls) : Prop :=
  mounts s !! name = None ∧
  ∃ ml, mheap s !! m = Some ml ∧ ml_name ml = name ∧ ml_parent ml = p.

#[export] Instance mbuilding_proper name p m : Proper (same_core ==> iff) (mbuilding name p m).
Proof. intros s s' (_&_&E3&E4&_). unfold mbuilding. by rewrite E3, E4. Qed.

Lemma saveMount_spec held s name p m :
  Inv good (released p held) s → mbuilding name p m s →
  wp (saveMount m) (λ r s', heap s' = heap s ∧ layerMap s' = layerMap s ∧
    mheap s' = mheap s ∧ next s' = next s ∧
    match r with
    | Ok _ => Inv good held s' ∧ mounts s' = <[name:=m]> (mounts s)
    | Err _ => Inv good (released p held) s' ∧ mounts s' = mounts s
    end) s.
Proof.
  intros I (Hnone & ml & Hm & <- & <-). unfold saveMount. wp_step. apply wp_mderef with ml; [done|].
  assert (Herr : ∀ s', same_core s s' → heap s' = heap s ∧ layerMap s' = layerMap s ∧
    mheap s' = mheap s ∧ next s' = next s ∧ Inv good (released (ml_parent ml) held) s' ∧ mounts s' = mounts s).
  { intros s' Hs'. rewrite Hs' in I. by destruct Hs' as (?&?&?&?&?). }
  wp_step. wp_apply backend_store_call. intros [|e] s1 H1; [|by apply Herr].
  wp_step. eapply wp_mono with (λ _ s', same_core s s').
  { case_decide; [by wp_step|]. apply core_last; [done|apply backend_store_call]. }
  intros [|e] s2 H2; [|by apply Herr].
  wp_step. eapply wp_mono with (λ _ s', same_core s s').
  { destruct (ml_parent ml) as [p|] eqn:Hp; [|by wp_step].
    assert (Hreg : registered (layerMap s2) p).
    { destruct H2 as (_&->&_). apply (inv_held _ _ _ _ _ _ _ I). by left. }
    assert (I2 : Inv good (released (Some p) held) s2) by (by rewrite <-H2).
    destruct (Inv_deref _ _ _ _ I2 Hreg) as (prl & Hprl & _).
    wp_step. apply wp_deref with prl; [done|]. apply core_last; [done|apply backend_store_call]. }
  intros [|e] s3 H3; [|by apply Herr].
  wp_steps. destruct (Herr s3 H3) as (E1 & E2 & E3 & E4 & I3 & E5). split_and!; try done.
  - unfold Inv. simpl. rewrite E1, E2, E3, E4, E5. by apply inv_mount_add.
  - by rewrite E5.
Qed.

Lemma mgetReference_spec held s n m ml :
  Inv good held s → mounts s !! n = Some m → mheap s !! m = Some ml →
  wp (mgetReference m) (λ r s', r = RefRW (next s) m ∧ Inv good held s' ∧ heap s' = heap s ∧
    layerMap s' = layerMap s ∧ mkeeps s s' ∧ rwhandle s' (next s) m n (ml_parent ml)) s.
Proof.
  intros I Hn Hm. unfold mgetReference. wp_step. apply wp_alloc. wp_step. apply wp_mupdate. wp_step.
  split_and!; try done.
  - apply (inv_mupdate _ _ _ _ _ _ _ _ _ _ I); simpl; [lia|done|].
    intros ml' r Hml'. rewrite elem_of_union, elem_of_singleton. intros [->|Hr]; [lia|].
    apply (inv_mfresh _ _ _ _ _ _ _ I) in Hml' as [_ Hml']. specialize (Hml' r Hr). lia.
  - intros r m' n' p (ml' & Hn' & Hm' & Hp & Hr). unfold rwhandle. simpl.
    destruct (decide (m = m')) as [<-|?]; [|exists ml'; by rewrite lookup_alter_ne].
    rewrite lookup_alter_eq, Hm'. eexists. split_and!; [done..|simpl; set_solver].
  - eexists. simpl. rewrite lookup_alter_eq, Hm. split_and!; [done..|simpl; set_solver].
Qed.

Lemma createRWBody_spec held s name mountID p pid label f opts :
  Inv good (released p held) s → mounts s !! name = None →
  wp (createRWBody name mountID p pid label f opts) (λ r s',
    heap s' = heap s ∧ layerMap s' = layerMap s ∧ mkeeps s s' ∧
    match r with
    | Ok ref => Inv good held s' ∧ ∃ r m, ref = RefRW r m ∧ rwhandle s' r m name p
    | Err _ => Inv good (released p held) s'
    end) s.
Proof.
  intros I Hnone. unfold createRWBody. wp_step. apply wp_alloc. wp_steps.
  set (ml0 := mkMountedLayer name mountID "" p "" ∅).
  set (m := next s). set (s1 := set_mheap (insert m ml0) (set_next (Pos.succ m) s)).
  (* the state is that of [s] with a mount under construction at [m] *)
  set (building s' := heap s' = heap s ∧ layerMap s' = layerMap s ∧ mkeeps s s' ∧
    Inv good (released p held) s' ∧ mbuilding name p m s').
  assert (Hcore : ∀ s' s'', same_core s' s'' → building s' → building s'').
  { intros s' s'' Hs (E1 & E2 & K & I' & B). rewrite Hs in I'. rewrite Hs in B.
    destruct Hs as (F1&F2&F3&F4&F5). split_and!; try done; [congruence..|].
    etransitivity; [done|]. by apply mkeeps_same. }
  assert (B1 : building s1).
  { assert (Hfresh : ∀ m' ml', mheap s !! m' = Some ml' → m' ≠ m).
    { intros m' ml' Hm' ->. apply (inv_mfresh _ _ _ _ _ _ _ I) in Hm' as [? _]. unfold m in *. lia. }
    split_and!; try done.
    - intros r m' n' p' (ml' & Hn' & Hm' & Hp & Hr). exists ml'. simpl.
      rewrite lookup_insert_ne; [done|]. by intros <-; eapply Hfresh.
    - by apply inv_mnew.
    - split; [done|]. exists ml0. simpl. by rewrite lookup_insert_eq. }
  eapply wp_mono with (λ _ s', building s').
  { destruct f as [f|]; [|done]. wp_step. wp_apply initMount_backend.
    intros [i|e] s2 H2; [|by eapply Hcore]. wp_step. apply wp_mupdate. wp_step.
    destruct (Hcore _ _ H2 B1) as (E1 & E2 & K & I' & Hn & ml & Hm & Hname & Hp).
    split_and!; try done.
    - intros r m' n' p' (ml' & Hn' & Hm' & Hp' & Hr)%K. unfold rwhandle. simpl. rewrite lookup_alter.
      case_decide; subst; [|by exists ml']. rewrite Hm'. by eexists.
    - apply (inv_mupdate _ _ _ _ _ _ _ _ _ _ I'); [done|done|]. intros ml' r Hml'.
      exact (proj2 (inv_mfresh _ _ _ _ _ _ _ I' m ml' Hml') r).
    - split; [done|]. eexists. simpl. by rewrite lookup_alter_eq, Hm. }
  intros [pid'|e] s2 B2; [|destruct B2 as (?&?&?&?&_); by split_and!].
  wp_step. wp_apply backend_driver_call. intros [|e] s3 H3; apply (Hcore _ _ H3) in B2;
    destruct B2 as (E1 & E2 & K & I3 & M3); [|by split_and!].
  pose proof M3 as (Hn3 & ml & Hm & Hname & Hp).
  wp_step. wp_apply saveMount_spec; [exact I3|exact M3|].
  intros [|e] s4 (F1 & F2 & F3 & F4 & F5).
  2: { destruct F5 as [I4 F5]. split_and!; [congruence|congruence| |done]. rewrite K. by apply mkeeps_same. }
  destruct F5 as [I4 F5]. wp_step.
  wp_apply (mgetReference_spec held s4 name m ml); [done|by rewrite F5, lookup_insert_eq|by rewrite F3|].
  intros ref s5 (-> & I5 & G1 & G2 & K5 & Hh). wp_step. split_and!; [congruence..| |done|].
  - rewrite K, <-K5. intros r m' n' p' (ml' & Hn' & Hm' & Hp' & Hr). exists ml'.
    rewrite F5, F3, lookup_insert_ne; [done|congruence].
  - rewrite Hp in Hh. eauto.
Qed.

Lemma CreateRWLayer_spec held s name mountID parent label f opts :
  Inv good held s →
  wp (CreateRWLayer name mountID parent label f opts) (λ r s', Inv good held s' ∧ keeps s s' ∧ mkeeps s s' ∧
    ∀ ref, r = Ok ref → ∃ r m p, ref = RefRW r m ∧ rwhandle s' r m name p) s.
Proof.
  intros I. unfold CreateRWLayer. wp_steps. destruct (mounts s !! name) as [m|] eqn:Hn; [by wp_step|].
  case_decide as Hparent.
  { wp_apply (createRWBody_spec held s name mountID None); [done|done|].
    intros r s' (E1 & E2 & K & Hr). split_and!; [by destruct r; destruct Hr|by apply keeps_same|done|].
    intros ref ->. destruct Hr as (_ & r & m & -> & Hh). eauto. }
  wp_step. wp_apply getWithoutLock_spec; [exact I|].
  intros [p|] s1 (El1 & Emh1 & Ems1 & H1); [|destruct H1 as [_ ->]; by wp_step].
  destruct H1 as (Hc & I1 & K1 & _).
  destruct (Inv_deref _ _ _ p I1) as (prl & Hprl & _); [rewrite El1; by eexists|].
  wp_step. apply wp_deref with prl; [done|].
  wp_step. wp_apply (createRWBody_spec held s1 name mountID (Some p)); [done|by rewrite Ems1|].
  intros r s2 (E1 & E2 & K2 & Hr).
  assert (K12 : keeps s s2) by (rewrite K1; by apply keeps_same).
  assert (M12 : mkeeps s s2) by (rewrite <-K2; by apply mkeeps_same).
  destruct r as [ref|e].
  - destruct Hr as (I2 & r & m & -> & Hh). wp_step. split_and!; [done..|]. intros ref [= <-]. eauto.
  - wp_step. wp_apply releaseLayer_spec; [exact Hr|]. intros r' s3 (I3 & [K3 _] & Em3 & Emh3).
    wp_step. split_and!; [done|by rewrite K12, K3|rewrite M12; by apply mkeeps_same|done].
Qed.

Lemma GetRWLayer_spec held s id :
  Inv good held s →
  wp (GetRWLayer id) (λ r s', Inv good held s' ∧ keeps s s' ∧ mkeeps s s' ∧
    match r with
    | Ok ref => ∃ r m p, ref = RefRW r m ∧ rwhandle s' r m id p
    | Err e => e = ErrMountDoesNotExist ∧ mounts s !! id = None
    end) s.
Proof.
  intros I. unfold GetRWLayer. wp_steps. destruct (mounts s !! id) as [m|] eqn:Hm; [|by wp_step].
  destruct (Inv_mderef _ _ _ _ I Hm) as (ml & Hml & _).
  wp_step. wp_apply mgetReference_spec; [exact I|done|done|].
  intros ref s' (-> & I' & E1 & E2 & K & Hh). wp_step. split_and!; [done|by apply keeps_same|done|eauto].
Qed.

Lemma GetMountID_spec held s id :
  Inv good held s →
  wp (GetMountID id) (λ r s', s' = s ∧
    match mounts s !! id with
    | Some m => ∃ ml, mheap s !! m = Some ml ∧ r = Ok (ml_mountID ml)
    | None => r = Err ErrMountDoesNotExist
    end) s.
Proof.
  intros I. unfold GetMountID. wp_steps. destruct (mounts s !! id) as [m|] eqn:Hm; [|by wp_step].
  destruct (Inv_mderef _ _ _ _ I Hm) as (ml & Hml & _). wp_step. apply wp_mderef with ml; [done|]. wp_step. eauto.
Qed.

(** ** Releasing a mount *)

Definition rw_valid (s : ls) (ref : RWLayer) : Prop :=
  match ref with RefRW _ m => is_Some (mheap s !! m) | ForeignRW _ => True end.

(** Every handle of [s] at an address other than that of [ref] is one of [s']. *)
Definition mkeeps_but (ref : RWLayer) (s s' : ls) : Prop :=
  ∀ r m n p, (∀ m', ref ≠ RefRW r m') → rwhandle s r m n p → rwhandle s' r m n p.

(** The teardown of the mount at [m]: its last handle [r] has been deleted. *)
Definition dying (held : list loc) (s0 : ls) (r m : loc) (ml : mountedLayer) (s : ls) : Prop :=
  Inv good held s ∧ heap s = heap s0 ∧ layerMap s = layerMap s0 ∧ mounts s = mounts s0 ∧
  mheap s = alter (set_mreferences (λ refs, refs ∖ {[r]})) m (mheap s0) ∧
  mheap s !! m = Some ml ∧ (r < next s)%positive.

Lemma dying_core held s0 r m ml s s' : same_core s s' → dying held s0 r m ml s → dying held s0 r m ml s'.
Proof.
  intros Hs (I & E1 & E2 & E3 & E4 & E5 & E6). rewrite Hs in I. destruct Hs as (F1&F2&F3&F4&F5).
  split_and!; congruence || (rewrite ?F5; done).
Qed.

(** What [ReleaseRWLayer] promises, whatever it returns. *)
Definition mrelease_post (held : list loc) (ref : RWLayer) (s s' : ls) : Prop :=
  Inv good held s' ∧ keeps s s' ∧ mkeeps_but ref s s'.

Lemma mrelease_post_refl held ref s : Inv good held s → mrelease_post held ref s s.
Proof. intros I. split_and!; [done|done|]. by intros r m n p _. Qed.

Lemma orRetake_spec held s0 s r m m0 ml call :
  backend_only call → dying held s0 r m ml s →
  wp (orRetake m (RefRW r m0) call) (λ res s',
    match res with
    | Ok _ => dying held s0 r m ml s'
    | Err _ => mrelease_post held (RefRW r m0) s0 s'
    end) s.
Proof.
  intros Hb Hd. unfold orRetake. wp_step. wp_apply Hb. intros [|e] s1 H1; apply (dying_core _ _ _ _ _ _ _ H1) in Hd.
  { by wp_step. }
  destruct Hd as (I & E1 & E2 & E3 & E4 & E5 & E6). simpl. wp_step. apply wp_mupdate. wp_step. split_and!.
  - apply (inv_mupdate _ _ _ _ _ _ _ _ _ _ I); [done|done|]. intros ml' r' Hml'. simpl.
    rewrite elem_of_union, elem_of_singleton. intros [->|Hr']; [done|].
    exact (proj2 (inv_mfresh _ _ _ _ _ _ _ I m ml' Hml') r' Hr').
  - by apply keeps_same.
  - intros r' m' n p Hne (ml' & Hn & Hm' & Hp & Hr'). unfold rwhandle. simpl. rewrite E3, E4.
    destruct (decide (m = m')) as [<-|?]; [|exists ml'; by rewrite !lookup_alter_ne].
    rewrite !lookup_alter_eq, Hm'. eexists. split_and!; [done..|]. simpl.
    apply elem_of_union_r, elem_of_difference. split; [done|].
    rewrite elem_of_singleton. intros ->. by apply (Hne m0).
Qed.

Lemma ReleaseRWLayer_spec held s ref :
  Inv good held s → rw_valid s ref →
  wp (ReleaseRWLayer ref) (λ _ s', mrelease_post held ref s s') s.
Proof.
  intros I Hv. unfold ReleaseRWLayer.
  wp_step. eapply wp_mono with (λ _ s', s' = s).
  { destruct ref as [r m|n]; simpl; [|done]. destruct Hv as [ml Hml].
    wp_step. apply wp_mderef with ml; [done|]. by wp_step. }
  intros name s' ->. wp_steps. destruct (mounts s !! name) as [m|] eqn:Hm; [|wp_step; by apply mrelease_post_refl].
  destruct (Inv_mderef _ _ _ _ I Hm) as (ml & Hml & Hname & Hpar).
  wp_step. unfold mdeleteReference. wp_step. apply wp_mderef with ml; [done|].
  destruct ref as [r m0|n]; [|wp_step; by apply mrelease_post_refl].
  case_decide as Hr; [|wp_step; by apply mrelease_post_refl].
  wp_step. apply wp_mupdate. wp_step. simpl.
  set (ml1 := set_mreferences (λ refs, refs ∖ {[r]}) ml).
  set (s1 := set_mheap (alter (set_mreferences (λ refs, refs ∖ {[r]})) m) s).
  assert (Hml1 : mheap s1 !! m = Some ml1) by (simpl; by rewrite lookup_alter_eq, Hml).
  assert (D1 : dying held s r m ml1 s1).
  { split_and!; try done.
    - apply (inv_mupdate _ _ _ _ _ _ _ _ _ _ I); [done|done|]. intros ml' r' Hml' [Hr' _]%elem_of_difference.
      exact (proj2 (inv_mfresh _ _ _ _ _ _ _ I m ml' Hml') r' Hr').
    - exact (proj2 (inv_mfresh _ _ _ _ _ _ _ I m ml Hml) r Hr). }
  wp_step. apply wp_mderef with ml1; [done|].
  destruct (mhasReferences ml1) eqn:Hrefs.
  { wp_step. destruct D1 as (I1 & _). split_and!; [done|by apply keeps_same|].
    intros r' m' n p Hne (ml' & Hn & Hm' & Hp & Hr'). unfold rwhandle. simpl.
    destruct (decide (m = m')) as [<-|?]; [|exists ml'; by rewrite lookup_alter_ne].
    rewrite lookup_alter_eq, Hm'. eexists. split_and!; [done..|]. simpl.
    apply elem_of_difference. split; [done|]. rewrite elem_of_singleton. intros ->. by apply (Hne m0). }
  assert (Hempty : ml_references ml1 = ∅).
  { unfold mhasReferences in Hrefs. apply bool_decide_eq_false in Hrefs.
    apply leibniz_equiv, size_empty_inv. lia. }
  wp_step. wp_apply orRetake_spec; [apply backend_driver_call|exact D1|]. intros [|e] s2 D2; [|done].
  wp_step. eapply wp_mono with (λ res s', match res with
    | Ok _ => dying held s r m ml1 s' | Err _ => mrelease_post held (RefRW r m0) s s' end).
  { case_decide; [by wp_step|]. apply orRetake_spec; [apply backend_driver_call|done]. }
  intros [|e] s3 D3; [|done].
  wp_step. wp_apply orRetake_spec; [apply backend_store_call|exact D3|]. intros [|e] s4 D4; [|done].
  wp_steps. destruct D4 as (I4 & E1 & E2 & E3 & E4 & E5 & E6).
  assert (Hn1 : mounts s4 !! ml_name ml1 = Some m) by (rewrite E3; simpl; by rewrite Hname).
  pose proof (inv_mount_delete _ _ _ _ _ _ _ _ _ I4 Hn1 E5) as I5.
  assert (K5 : mkeeps_but (RefRW r m0) s (set_mounts (delete (ml_name ml1)) s4)).
  { intros r' m' n p Hne (ml' & Hn & Hm' & Hp & Hr'). unfold rwhandle. simpl. rewrite E3, E4.
    destruct (decide (m = m')) as [<-|Hmm].
    - exfalso. assert (r' ∈ ml_references ml1); [|set_solver]. simplify_eq. simpl.
      apply elem_of_difference. split; [done|]. rewrite elem_of_singleton. intros ->. by apply (Hne m0).
    - exists ml'. rewrite lookup_alter_ne by done. split_and!; [|done..].
      rewrite lookup_delete_ne; [done|]. congruence. }
  change (ml_parent ml1) with (ml_parent ml) in I5.
  destruct (ml_parent ml) as [p|] eqn:Hp; [|wp_step; split_and!; [exact I5|by apply keeps_same|done]].
  wp_apply releaseLayer_spec; [exact I5|].
  intros res s5 (I6 & [K6 _] & F1 & F2). split_and!; [done| |].
  - transitivity (set_mounts (delete (ml_name ml)) s4); [by apply keeps_same|by apply same_handles_keeps].
  - intros r' m' n p' Hne Hh. apply (mkeeps_same (set_mounts (delete (ml_name ml1)) s4)); [done..|]. by apply K5.
Qed.
End specs.
