(* ===== verification/LayerSystem.v ===== *)
(** The layer store as a transition system: clients call its operations while
    other calls, between two of their critical sections, hold references on
    layers. The theorems are about every state that can be reached from the
    empty store. *)

From S2P Require Import Prelude Layer LayerStore LayerInv LayerProofs LayerMounts.

Section system.
Context {D MS Tx : Type} `{!GraphDriver D} `{!MetadataStore MS Tx} {DG : Digester} `{!TarSplit}.
Abbreviation ls := (layerStore D MS).

(** The calls of a client of [layer.Store]. *)
Inductive op : Type :=
| OpGet (c : ChainID)
| OpRelease (ref : Layer)
| OpRegister (cacheID ts : string) (parent : ChainID) (descriptor : Descriptor)
| OpCreateRW (name mountID : string) (parent : ChainID) (label : string)
    (initFunc : option (string → result string unit)) (opts : gmap string string)
| OpGetRW (id : string)
| OpGetMountID (id : string)
| OpReleaseRW (ref : RWLayer).

Definition exec (o : op) : M ls unit :=
  match o with
  | OpGet c => _ ← Get c; mret ()
  | OpRelease ref => _ ← Release ref; mret ()
  | OpRegister cacheID ts parent d => _ ← registerWithDescriptor cacheID ts parent d; mret ()
  | OpCreateRW name mountID parent label f opts => _ ← CreateRWLayer name mountID parent label f opts; mret ()
  | OpGetRW id => _ ← GetRWLayer id; mret ()
  | OpGetMountID id => _ ← GetMountID id; mret ()
  | OpReleaseRW ref => _ ← ReleaseRWLayer ref; mret ()
  end.

(** A client passes interface values whose objects exist. *)
Definition valid (s : ls) (o : op) : Prop :=
  match o with
  | OpRelease ref => layer_valid s ref
  | OpReleaseRW ref => rw_valid s ref
  | _ => True
  end.

(** Steps: a call of a client; the first critical section of a registration or
    of the creation of a mount, which retains its parent ([step_retain]) and
    the one that gives the parent up on an error ([step_drop]); and work on
    the backends outside the locks. *)
Inductive step : ls * list loc → ls * list loc → Prop :=
| step_op o s s' held : valid s o → exec o s = Ret () s' → step (s, held) (s', held)
| step_retain c l s s' held : get c s = Ret (Some l) s' → step (s, held) (s', l :: held)
| step_drop l r s s' held held' : held ≡ₚ l :: held' → releaseLayer l s = Ret r s' →
    step (s, held) (s', held')
| step_backend s s' held : same_core s s' → step (s, held) (s', held).

(** The states of a store that was empty. *)
Definition reachable (c : ls * list loc) : Prop :=
  ∃ st d, rtc step (emptyStore st d, []) c.

(** The chain ID of a layer is the digest of its chain, which is at most
    [maxLayerDepth] long. *)
Definition addressed (ds : list DiffID) (c : ChainID) : Prop :=
  c = CreateChainID ds ∧ length ds ≤ maxLayerDepth.

Lemma addressed_closed : good_closed addressed.
Proof.
  split.
  - intros d. split; [done|]. unfold maxLayerDepth. simpl. lia.
  - intros ds c d [-> Hlen] Hlt. split; [by rewrite CreateChainID_snoc|].
    rewrite length_app. simpl. lia.
Qed.

Lemma Inv_empty good st d : Inv good [] (emptyStore st d : ls).
Proof.
  split; simpl; intros; simplify_map_eq; try done; try set_solver.
  all: match goal with H : registered _ _ |- _ => destruct H as [? ?]; simplify_map_eq end.
Qed.

Lemma Inv_perm good held held' (s : ls) : held ≡ₚ held' → Inv good held s → Inv good held' s.
Proof.
  intros Hp [IL IP IM IC IG IH IF IMF]. split; try done.
  - intros l rl Hr Hl. by rewrite (IC l rl Hr Hl), Hp.
  - intros l. rewrite <-Hp. apply IH.
Qed.

(** A call that starts in a state of the invariant returns in one, and keeps
    every handle but the one it releases. *)
Lemma exec_spec good held (s : ls) o :
  good_closed good → Inv good held s → valid s o →
  wp (exec o) (λ _ s', Inv good held s' ∧
    (∀ r l id, handle s r l id → (∀ l0, o ≠ OpRelease (RefLayer r l0)) → handle s' r l id) ∧
    (∀ r m n p, rwhandle s r m n p → (∀ m0, o ≠ OpReleaseRW (RefRW r m0)) → rwhandle s' r m n p)) s.
Proof.
  intros G I Hv. destruct o; simpl; wp_step.
  - wp_apply Get_spec; [done|]. intros r s' (I' & K & Em & Emh & _). wp_step. split_and!; [done|eauto|].
    intros ? ? ? ? Hh _. by apply (mkeeps_same s).
  - wp_apply Release_spec; [done|done|]. intros r s' (I' & Em & Emh & Hr). wp_step. split_and!; [done| |].
    + intros r' l id Hh Hne. destruct Hr as [[-> _]|(r0 & l0 & l1 & -> & _ & Hrel & _)]; [done|].
      apply Hrel. split; [done|]. intros [-> _]. by apply (Hne l0).
    + intros ? ? ? ? Hh _. by apply (mkeeps_same s).
  - wp_apply registerWithDescriptor_spec; [done|done|]. intros r s' (I' & K & Em & Emh & _).
    wp_step. split_and!; [done|eauto|]. intros ? ? ? ? Hh _. by apply (mkeeps_same s).
  - wp_apply CreateRWLayer_spec; [done|]. intros r s' (I' & K & Mk & _). wp_step. eauto.
  - wp_apply GetRWLayer_spec; [done|]. intros r s' (I' & K & Mk & _). wp_step. eauto.
  - wp_apply GetMountID_spec; [done|]. intros r s' [-> _]. wp_step. eauto.
  - wp_apply ReleaseRWLayer_spec; [done|done|]. intros r s' (I' & K & Mk). wp_step. split_and!; [done|eauto|].
    intros r' m n p Hh Hne. apply Mk; [|done]. intros m' ->. by apply (Hne m').
Qed.

Lemma step_Inv good c c' :
  good_closed good → step c c' → Inv good c.2 c.1 → Inv good c'.2 c'.1.
Proof.
  intros G Hs I. destruct Hs as [o s s' held Hv He|c l s s' held Hg|l r s s' held held' Hp Hr|s s' held Hs]; simpl in *.
  - pose proof (exec_spec _ _ _ _ G I Hv) as W. unfold wp in W. rewrite He in W. apply W.
  - pose proof (getWithoutLock_spec _ _ _ c I) as W. unfold wp, get in *. rewrite Hg in W.
    by destruct W as (_ & _ & _ & _ & ? & _).
  - apply (Inv_perm _ _ _ _ Hp) in I. pose proof (releaseLayer_spec _ _ _ _ I) as W.
    unfold wp in W. rewrite Hr in W. apply W.
  - by rewrite <-Hs.
Qed.

Lemma reachable_Inv c : reachable c → Inv addressed c.2 c.1.
Proof.
  intros (st & d & Hr). cut (Inv addressed [] (emptyStore st d : ls)); [|apply Inv_empty].
  intros I. change (Inv addressed (emptyStore st d : ls, @nil loc).2 (emptyStore st d : ls, @nil loc).1) in I.
  induction Hr as [|c1 c2 c3 Hs Hr IH]; [done|]. apply IH.
  eapply step_Inv; [apply addressed_closed|done|done].
Qed.

(** ** Properties *)

(** C1. In every reachable state, while calls in progress hold [held], the
    reference count of each layer of the store is exactly the number of its
    handles, of the registered layers on top of it, of the mounts on top of it
    and of the references in [held]; its parent is a layer of the store. *)
Theorem layer_refcounts_exact s held l rl :
  reachable (s, held) → registered (layerMap s) l → heap s !! l = Some rl →
  rl_referenceCount rl =
    Z.of_nat (size (rl_references rl) + nchildren (heap s) (layerMap s) l +
              nmounts (mheap s) (mounts s) l + occ l held) ∧
  ∀ p, rl_parent rl = Some p → registered (layerMap s) p.
Proof.
  intros I%reachable_Inv Hl Hrl. simpl in I. split; [by apply (inv_count _ _ _ _ _ _ _ I)|].
  intros p Hp. by apply (inv_parent _ _ _ _ _ _ _ I l rl).
Qed.

(** C2. No call of a client panics or loops in a reachable state, whatever the
    driver and the metadata store do, and neither does the release of a parent
    by a call in progress: the panics of [releaseLayer] are unreachable. *)
Theorem layer_store_no_panic s held :
  reachable (s, held) →
  (∀ o, valid s o → ∃ s', exec o s = Ret () s') ∧
  (∀ l, l ∈ held → ∃ r s', releaseLayer l s = Ret r s').
Proof.
  intros I%reachable_Inv. simpl in I. split.
  - intros o Hv. destruct (wp_inv _ _ _ (exec_spec _ _ _ _ addressed_closed I Hv)) as ([] & s' & He & _). by exists s'.
  - intros l Hin. apply list_elem_of_split in Hin as (h1 & h2 & ->).
    apply (Inv_perm _ _ (l :: h1 ++ h2)) in I; [|by rewrite Permutation_middle].
    destruct (wp_inv _ _ _ (releaseLayer_spec _ _ _ _ I)) as (r & s' & He & _). eauto.
Qed.

(** C3. A layer a client has a handle on stays in the store, with the same
    content and the same parent, through every call but the release of that
    handle; the same holds of mounts. *)
Theorem retained_layers_survive s held o s' r l id r2 m n p :
  reachable (s, held) → valid s o → exec o s = Ret () s' →
  (handle s r l id → (∀ l0, o ≠ OpRelease (RefLayer r l0)) → handle s' r l id) ∧
  (rwhandle s r2 m n p → (∀ m0, o ≠ OpReleaseRW (RefRW r2 m0)) → rwhandle s' r2 m n p).
Proof.
  intros I%reachable_Inv Hv He. pose proof (exec_spec _ _ _ _ addressed_closed I Hv) as W.
  unfold wp in W. simpl in W. rewrite He in W. destruct W as (_ & W1 & W2). eauto.
Qed.

(** C4. Content addressing: the chain ID under which a layer is stored is the
    digest of the diff IDs from the root of its chain up to it, and no chain
    is longer than [maxLayerDepth]. *)
Theorem layers_content_addressed s held c l ds :
  reachable (s, held) → layerMap s !! c = Some l → chain (heap s) l ds →
  c = CreateChainID ds ∧ length ds ≤ maxLayerDepth.
Proof.
  intros I%reachable_Inv Hc Hch. simpl in I.
  destruct (inv_layer _ _ _ _ _ _ _ I c l Hc) as (rl & Hrl & <-).
  apply (inv_good _ _ _ _ _ _ _ I l rl ds); [by eexists|done..].
Qed.

(** Releasing a handle gives up that handle and no other one, and a second
    release of it is refused or finds no layer, without any effect. *)
Theorem release_exactly_once s held r l id :
  reachable (s, held) → handle s r l id →
  ∃ res s', Release (RefLayer r l) s = Ret res s' ∧
    (∀ r' l' id', handle s' r' l' id' ↔ handle s r' l' id' ∧ ¬ (r' = r ∧ l' = l)) ∧
    ∃ res', Release (RefLayer r l) s' = Ret res' s' ∧ (res' = Ok [] ∨ res' = Err ErrLayerNotRetained).
Proof.
  intros I%reachable_Inv Hh. simpl in I. pose proof Hh as (rl & Hrl & Hc & Hr & Hid).
  assert (Hv : layer_valid s (RefLayer r l)) by (by exists rl).
  destruct (wp_inv _ _ _ (Release_spec _ _ _ _ I Hv)) as (res & s' & He & I' & _ & _ & Hres).
  destruct Hres as [(_ & _ & Hno)|(r1 & l0 & l1 & [= <- <-] & _ & Hrel & Hsh & rl0 & Hrl0 & Hl1)].
  { by destruct (Hno r l id eq_refl). }
  assert (rl0 = rl) as -> by congruence. assert (l1 = l) as -> by congruence.
  exists res, s'. split_and!; [done..|].
  destruct Hsh as [Hsub Hsid]. specialize (Hsid l). rewrite Hrl in Hsid.
  destruct (heap s' !! l) as [rl1|] eqn:Hrl1; simpl in Hsid; [|done]. injection Hsid as Hch _ _ _ _.
  assert (Hv' : layer_valid s' (RefLayer r l)) by (by exists rl1).
  destruct (wp_inv _ _ _ (Release_spec _ _ _ _ I' Hv')) as (res' & s'' & He' & _ & _ & _ & Hres').
  destruct Hres' as [(-> & ? & _)|(r1 & l0 & l2 & [= <- <-] & (id' & Hh') & _ & _ & rl0' & Hrl0' & Hl2)]; [eauto|].
  exfalso. assert (rl0' = rl1) as -> by congruence. rewrite Hch in Hl2.
  apply (lookup_weaken _ (layerMap s)) in Hl2; [|done]. assert (l2 = l) as -> by congruence.
  apply Hrel in Hh' as [_ []]. done.
Qed.
End system.

(** ** A concrete store

    A driver and a metadata store that accept every call, and a digester that
    records what it has hashed: with them the operations evaluate. *)
Module Concrete.
#[export] Instance driver_unit : GraphDriver unit := {|
  driver_Create _ _ _ _ d := (Ok (), d);
  driver_CreateReadWrite _ _ _ _ d := (Ok (), d);
  driver_Remove _ d := (Ok (), d);
  driver_Get id _ d := (Ok ("/mnt/" +:+ id), d);
  driver_Put _ d := (Ok (), d);
  driver_ApplyDiff _ _ diff d := ((Ok (Z.of_nat (String.length diff)), diff), d) |}.

#[export] Instance store_unit : MetadataStore unit unit := {|
  StartTransaction s := (Ok (), s);
  tx_SetSize _ _ s := (Ok (), s);
  tx_SetParent _ _ s := (Ok (), s);
  tx_SetDiffID _ _ s := (Ok (), s);
  tx_SetCacheID _ _ s := (Ok (), s);
  tx_SetDescriptor _ _ s := (Ok (), s);
  tx_TarSplitWriter _ _ s := (Ok (), s);
  tx_TarSplitWrite _ _ s := s;
  tx_TarSplitClose _ s := s;
  tx_Commit _ _ s := (Ok (), s);
  tx_Cancel _ s := (Ok (), s);
  st_GetSize _ _ := Err "no such layer";
  st_GetParent _ _ := Err "no such layer";
  st_GetDiffID _ _ := Err "no such layer";
  st_GetCacheID _ _ := Err "no such layer";
  st_GetDescriptor _ _ := Err "no such layer";
  st_SetMountID _ _ s := (Ok (), s);
  st_SetInitID _ _ s := (Ok (), s);
  st_SetMountParent _ _ s := (Ok (), s);
  st_GetMountID _ _ := Err "no such mount";
  st_GetInitID _ _ := Err "no such mount";
  st_GetMountParent _ _ := Err "no such mount";
  st_List _ := Ok ([], []);
  st_Remove _ s := (Ok (), s);
  st_RemoveMount _ s := (Ok (), s) |}.

#[export] Instance digester_text : Digester := λ s, "h(" +:+ s +:+ ")".
#[export] Instance tar_any : TarSplit := {| asm_accepts _ := Ok (); asm_pack s := s |}.

Abbreviation cls := (layerStore unit unit).

(** The state after a list of calls without a handle among their arguments. *)
Definition no_handle (o : op) : bool :=
  match o with OpRelease _ | OpReleaseRW _ => false | _ => true end.

Fixpoint run (ops : list op) (s : cls) : option cls :=
  match ops with
  | [] => Some s
  | o :: ops => if no_handle o then match exec o s with Ret _ s' => run ops s' | _ => None end else None
  end.

Lemma run_steps ops s s' : run ops s = Some s' → rtc step (s, []) (s', []).
Proof.
  revert s. induction ops as [|o ops IH]; intros s Hr; simpl in Hr; [by simplify_eq|].
  destruct (no_handle o) eqn:Ho; [|done]. destruct (exec o s) as [[] s1| |] eqn:He; try done.
  eapply rtc_l; [|by apply IH]. apply (step_op o); [by destruct o|done].
Qed.

Lemma run_reachable ops s : run ops (emptyStore () ()) = Some s → reachable (s, []).
Proof. intros Hr. exists (), (). by eapply run_steps. Qed.

(** A base layer, a layer on top of it and a mount on that one. *)
Definition ops : list op :=
  [OpRegister "cache-a" "tar-a" "" emptyDescriptor;
   OpRegister "cache-b" "tar-b" "h(tar-a)" emptyDescriptor;
   OpCreateRW "web" "mount-1" "h(h(tar-a) h(tar-b))" "" None ∅].
Definition state : cls :=
  Eval vm_compute in default (emptyStore () ()) (run ops (emptyStore () ())).
Definition held_state : cls :=
  Eval vm_compute in match get "h(tar-a)" state with Ret _ s => s | _ => state end.

Lemma state_reachable : reachable (state, []).
Proof. apply (run_reachable ops). by vm_compute. Qed.

Lemma held_reachable : reachable (held_state, [1%positive]).
Proof.
  destruct state_reachable as (st & d & Hr). exists st, d. eapply rtc_r; [exact Hr|].
  apply (step_retain "h(tar-a)"). by vm_compute.
Qed.

Definition object (s : cls) (l : loc) : roLayer :=
  default (mkRoLayer "" "" None "" 0 emptyDescriptor 0 ∅) (heap s !! l).
Definition base : roLayer := Eval vm_compute in object held_state 1.

(** The base layer has a handle, a child and a reference of a call. *)
Lemma layer_refcounts_exact_witness :
  rl_referenceCount base = 3%Z ∧
  rl_referenceCount base =
    Z.of_nat (size (rl_references base) + nchildren (heap held_state) (layerMap held_state) 1 +
              nmounts (mheap held_state) (mounts held_state) 1 + occ 1%positive [1%positive]).
Proof.
  split; [by vm_compute|].
  apply (layer_refcounts_exact held_state [1%positive] 1 base held_reachable); [by exists "h(tar-a)"|by vm_compute].
Defined.

Lemma layer_store_no_panic_witness :
  (∃ s', exec (OpReleaseRW (RefRW 6 5)) held_state = Ret () s') ∧ ∃ r s', releaseLayer 1 held_state = Ret r s'.
Proof.
  destruct (layer_store_no_panic held_state [1%positive] held_reachable) as [Hop Hdrop]. split.
  - apply Hop. vm_compute. by eexists.
  - apply Hdrop, list_elem_of_here.
Defined.

Lemma retained_layers_survive_witness :
  ∃ (s' : cls) id, handle s' 4 3 id ∧ rwhandle s' 6 5 "web" (Some 3%positive).
Proof.
  destruct (exec (OpRelease (RefLayer 2 1)) state) as [[] s'| |] eqn:He; [|by vm_compute in He..].
  exists s', ("h(h(tar-a) h(tar-b))", "h(tar-b)", Some 1%positive, "cache-b", 5%Z).
  destruct (retained_layers_survive state [] (OpRelease (RefLayer 2 1)) s' 4 3
    ("h(h(tar-a) h(tar-b))", "h(tar-b)", Some 1%positive, "cache-b", 5%Z) 6 5 "web" (Some 3%positive)
    state_reachable) as [H1 H2]; [vm_compute; by eexists|done|].
  split.
  - apply H1; [|done]. eexists. split_and!; by vm_compute.
  - apply H2; [|done]. eexists. split_and!; by vm_compute.
Defined.

Lemma layers_content_addressed_witness :
  "h(h(tar-a) h(tar-b))" = CreateChainID ["h(tar-a)"; "h(tar-b)"] ∧ 2 ≤ maxLayerDepth.
Proof.
  apply (layers_content_addressed state [] _ 3 ["h(tar-a)"; "h(tar-b)"] state_reachable); [by vm_compute|].
  apply (chain_child _ 3 (object state 3) 1 ["h(tar-a)"]); [by vm_compute..|].
  apply (chain_root _ 1 (object state 1)); by vm_compute.
Defined.

Lemma release_exactly_once_witness :
  ∃ res (s' : cls), Release (RefLayer 2 1) state = Ret res s' ∧
    ∃ res', Release (RefLayer 2 1) s' = Ret res' s' ∧ (res' = Ok [] ∨ res' = Err ErrLayerNotRetained).
Proof.
  destruct (release_exactly_once state [] 2 1 ("h(tar-a)", "h(tar-a)", None, "cache-a", 5%Z) state_reachable)
    as (res & s' & H1 & _ & H2); [eexists; split_and!; by vm_compute|eauto].
Defined.
End Concrete.
