(* ===== verification/FileStore.v ===== *)
(** The file-backed metadata store of layer/filestore.go, on a model of the
    directory below its root: an instance of the interface the layer store is
    written against, with the laws the layer store's restart relies on. *)

From Stdlib Require Import Ascii.
From stdpp Require Import sorting pretty.
From S2P Require Import Prelude GoStrings GoFS Digest Layer.

Local Open Scope string_scope.

(** ** Identifiers *)

(** The store is its directory: the metadata of every layer and mount is in files. *)
Definition fileMetadataStore : Type := dirTree.

(** The regular expression [^[a-f0-9]{64}(-init)?$]. *)
Definition stringIDRegexp (s : string) : bool :=
  match cut "-" s with
  | None => bool_decide (String.length s = 64) && string_forallb IsHex s
  | Some (a, b) => bool_decide (String.length a = 64) && string_forallb IsHex a && bool_decide (b = "init")
  end.

(** ** The store *)

(** [encoding/json] on descriptors and [compress/gzip], as the store uses them. *)
Class DescriptorJSON := {
  json_Marshal : Descriptor → result string string;
  json_Unmarshal : string → result string Descriptor }.
Class Gzip := gzip : string → string.

Section store.
Context `{!DescriptorJSON} `{!Gzip}.

Definition getLayerDirectory (layer : ChainID) : path :=
  [(digest_parts layer).1; (digest_parts layer).2].
Definition getMountDirectory (mount : string) : path := ["mounts"; mount].

(** A transaction is named by its temporary directory. *)
Definition tmpDir : path := ["tmp"].

Definition fs_StartTransaction (s : fileMetadataStore) : result string path * fileMetadataStore :=
  let td := ["tmp"; "layer-" +:+ pretty (seed s)] in
  let s' := MkdirAll td (MkdirAll tmpDir s) in
  (Ok td, mkFMS (dirs s') (S (seed s))).

Definition fs_SetSize (root : path) (size : Z) := WriteFile root "size" (Itoa size).
Definition fs_SetParent (root : path) (parent : ChainID) := WriteFile root "parent" parent.
Definition fs_SetDiffID (root : path) (diff : DiffID) := WriteFile root "diff" diff.
Definition fs_SetCacheID (root : path) (cacheID : string) := WriteFile root "cache-id" cacheID.
Definition fs_SetDescriptor (root : path) (ref : Descriptor) (s : fileMetadataStore)
    : result string unit * fileMetadataStore :=
  match json_Marshal ref with
  | Err e => (Err e, s)
  | Ok jsonRef => WriteFile root "descriptor.json" jsonRef s
  end.

Definition fs_TarSplitWriter (root : path) (compressInput : bool) := WriteFile root "tar-split.json.gz" "".
Definition fs_TarSplitWrite (root : path) (entries : string) (s : fileMetadataStore) : fileMetadataStore :=
  (WriteFile root "tar-split.json.gz" (gzip entries) s).2.

Definition fs_Commit (root : path) (layer : ChainID) (s : fileMetadataStore)
    : result string unit * fileMetadataStore :=
  let finalDir := getLayerDirectory layer in
  Rename root finalDir (MkdirAll (removelast finalDir) s).

Definition fs_Cancel (root : path) (s : fileMetadataStore) : result string unit * fileMetadataStore :=
  (Ok (), RemoveAll root s).

Definition read_error (e : os_error) : string :=
  match e with NotExist => "no such file or directory" | OtherError => "input/output error" end.

Definition fs_GetSize (layer : ChainID) (s : fileMetadataStore) : result string Z :=
  match ReadFile (getLayerDirectory layer) "size" s with
  | Err e => Err (read_error e)
  | Ok content => ParseInt64 content
  end.

(** A digest kept in a file that may be absent. *)
Definition read_digest (p : path) (name : string) (s : fileMetadataStore) : result string string :=
  match ReadFile p name s with
  | Err NotExist => Ok ""
  | Err e => Err (read_error e)
  | Ok content => ParseDigest (TrimSpace content)
  end.

Definition fs_GetParent (layer : ChainID) := read_digest (getLayerDirectory layer) "parent".

Definition fs_GetDiffID (layer : ChainID) (s : fileMetadataStore) : result string DiffID :=
  match ReadFile (getLayerDirectory layer) "diff" s with
  | Err e => Err (read_error e)
  | Ok content => ParseDigest (TrimSpace content)
  end.

(** The trimmed content of a file, which must be an identifier. *)
Definition check_id (what content : string) : result string string :=
  let content := TrimSpace content in
  if stringIDRegexp content then Ok content else Err ("invalid " +:+ what +:+ " id value").

Definition fs_GetCacheID (layer : ChainID) (s : fileMetadataStore) : result string string :=
  match ReadFile (getLayerDirectory layer) "cache-id" s with
  | Err e => Err (read_error e)
  | Ok content => check_id "cache" content
  end.

Definition fs_GetDescriptor (layer : ChainID) (s : fileMetadataStore) : result string Descriptor :=
  match ReadFile (getLayerDirectory layer) "descriptor.json" s with
  | Err NotExist => Ok emptyDescriptor
  | Err e => Err (read_error e)
  | Ok content => json_Unmarshal content
  end.

Definition fs_SetMountID (mount mountID : string) (s : fileMetadataStore) :=
  WriteFile (getMountDirectory mount) "mount-id" mountID (MkdirAll (getMountDirectory mount) s).
Definition fs_SetInitID (mount init : string) (s : fileMetadataStore) :=
  WriteFile (getMountDirectory mount) "init-id" init (MkdirAll (getMountDirectory mount) s).
Definition fs_SetMountParent (mount : string) (parent : ChainID) (s : fileMetadataStore) :=
  WriteFile (getMountDirectory mount) "parent" parent (MkdirAll (getMountDirectory mount) s).

Definition fs_GetMountID (mount : string) (s : fileMetadataStore) : result string string :=
  match ReadFile (getMountDirectory mount) "mount-id" s with
  | Err e => Err (read_error e)
  | Ok content => check_id "mount" content
  end.

Definition fs_GetInitID (mount : string) (s : fileMetadataStore) : result string string :=
  match ReadFile (getMountDirectory mount) "init-id" s with
  | Err NotExist => Ok ""
  | Err e => Err (read_error e)
  | Ok content => check_id "init" content
  end.

Definition fs_GetMountParent (mount : string) := read_digest (getMountDirectory mount) "parent".

Definition fs_List (s : fileMetadataStore) : result string (list ChainID * list string) :=
  let ids :=
    match ReadDir ["sha256"] s with
    | Err _ => []
    | Ok names =>
        filter (λ d, Validate d = true) ((λ name, "sha256:" +:+ name) <$> filter (λ n, n ≠ "mounts") names)
    end in
  match ReadDir ["mounts"] s with
  | Err _ => Ok (ids, [])
  | Ok mounts => Ok (ids, mounts)
  end.

Definition fs_Remove (layer : ChainID) (s : fileMetadataStore) : result string unit * fileMetadataStore :=
  (Ok (), RemoveAll (getLayerDirectory layer) s).
Definition fs_RemoveMount (mount : string) (s : fileMetadataStore) : result string unit * fileMetadataStore :=
  (Ok (), RemoveAll (getMountDirectory mount) s).

#[export] Instance file_store : MetadataStore fileMetadataStore (list string) := {
  StartTransaction := fs_StartTransaction;
  tx_SetSize := fs_SetSize;
  tx_SetParent := fs_SetParent;
  tx_SetDiffID := fs_SetDiffID;
  tx_SetCacheID := fs_SetCacheID;
  tx_SetDescriptor := fs_SetDescriptor;
  tx_TarSplitWriter := fs_TarSplitWriter;
  tx_TarSplitWrite := fs_TarSplitWrite;
  tx_TarSplitClose := λ _ s, s;
  tx_Commit := fs_Commit;
  tx_Cancel := fs_Cancel;
  st_GetSize := fs_GetSize;
  st_GetParent := fs_GetParent;
  st_GetDiffID := fs_GetDiffID;
  st_GetCacheID := fs_GetCacheID;
  st_GetDescriptor := fs_GetDescriptor;
  st_SetMountID := fs_SetMountID;
  st_SetInitID := fs_SetInitID;
  st_SetMountParent := fs_SetMountParent;
  st_GetMountID := fs_GetMountID;
  st_GetInitID := fs_GetInitID;
  st_GetMountParent := fs_GetMountParent;
  st_List := fs_List;
  st_Remove := fs_Remove;
  st_RemoveMount := fs_RemoveMount }.
End store.

(** ** Lemmas *)

(** The temporary directories still to be drawn do not exist. *)
Definition wf (s : fileMetadataStore) : Prop :=
  ∀ n : nat, (seed s ≤ n)%nat → dirs s !! ["tmp"; "layer-" +:+ pretty n] = None.

Lemma tmp_inj (n m : nat) : ["tmp"; "layer-" +:+ pretty n] = ["tmp"; "layer-" +:+ pretty m] → n = m.
Proof. intros [= H]. exact (inj pretty n m H). Qed.

Lemma getLayerDirectory_inj d d' :
  Validate d = true → Validate d' = true → getLayerDirectory d = getLayerDirectory d' → d = d'.
Proof.
  intros (alg & hex & E & -> & _)%Validate_parts (alg' & hex' & E' & -> & _)%Validate_parts.
  unfold getLayerDirectory. rewrite E, E'. simpl. by intros [= -> ->].
Qed.

Lemma stringID_trim s : stringIDRegexp s = true → TrimSpace s = s.
Proof.
  intros Hv. apply TrimSpace_id. unfold stringIDRegexp in Hv.
  assert (Hhex : ∀ t, string_forallb IsHex t = true → string_forallb (negb ∘ IsSpace) t = true).
  { intros t. apply string_forallb_impl. intros c Hc. unfold compose. rewrite hex_no_space; [done|]. unfold IsXDigit. by rewrite Hc. }
  destruct (cut "-" s) as [[a b]|] eqn:E; rewrite ?andb_true_iff, ?bool_decide_eq_true in Hv.
  - apply cut_Some in E as ->. destruct Hv as [[_ Ha] ->]. by rewrite string_forallb_app, Hhex.
  - by apply Hhex, Hv.
Qed.

Section laws.
Context `{!DescriptorJSON} `{!Gzip}.

(** The transaction of a layer: what [storeLayer] and [Commit] write. *)
Definition write_layer (layer : ChainID) (diff : DiffID) (sz : Z) (cacheID : string) (parent : option ChainID)
    (s : fileMetadataStore) : result string unit * fileMetadataStore :=
  match fs_StartTransaction s with
  | (Err e, s) => (Err e, s)
  | (Ok tx, s) =>
      let s := (fs_SetDiffID tx diff s).2 in
      let s := (fs_SetSize tx sz s).2 in
      let s := (fs_SetCacheID tx cacheID s).2 in
      let s := match parent with Some p => (fs_SetParent tx p s).2 | None => s end in
      fs_Commit tx layer s
  end.

Definition layer_files (diff : DiffID) (sz : Z) (cacheID : string) (parent : option ChainID) : gmap string string :=
  let m := <["cache-id":=cacheID]> (<["size":=Itoa sz]> (<["diff":=diff]> ∅)) in
  match parent with Some p => <["parent":=p]> m | None => m end.

(** The state a committed transaction leaves. *)
Lemma write_layer_dirs layer diff sz cacheID parent s :
  wf s → Validate layer = true → dirs s !! getLayerDirectory layer = None →
  ∃ s', write_layer layer diff sz cacheID parent s = (Ok (), s') ∧ wf s' ∧
    dirs s' !! getLayerDirectory layer = Some (layer_files diff sz cacheID parent) ∧
    ∀ q, length q = 2 → q ≠ getLayerDirectory layer → dirs s' !! q = dirs s !! q.
Proof.
  intros Hwf (alg & hex & Eh & -> & Halg)%Validate_parts Hnone. unfold getLayerDirectory in *.
  rewrite Eh in *. simpl in Hnone.
  assert (Htmp : alg ≠ "tmp") by (intros ->; set_solver).
  unfold write_layer, fs_StartTransaction. set (td := ["tmp"; "layer-" +:+ pretty (seed s)]).
  set (s0 := MkdirAll td (MkdirAll tmpDir s)).
  assert (Htd : dirs s0 !! td = Some ∅).
  { unfold s0. rewrite !MkdirAll_lookup. unfold td at 1 2. rewrite (Hwf (seed s)) by done.
    rewrite (decide_False (P := _ ∈ prefixes tmpDir)) by (unfold tmpDir; by rewrite elem_of_prefixes1).
    rewrite decide_True; [done|]. apply elem_of_prefixes2. by right. }
  assert (Hother : ∀ q, length q = 2 → q ≠ td → dirs s0 !! q = dirs s !! q).
  { intros q Hq Hne. unfold s0. rewrite !MkdirAll_lookup. destruct (dirs s !! q); [done|].
    assert (q ∉ prefixes tmpDir) by (unfold tmpDir; rewrite elem_of_prefixes1; by intros ->).
    assert (q ∉ prefixes td) by (unfold td; rewrite elem_of_prefixes2; by intros [->| ->]).
    by rewrite !decide_False. }
  set (s1 := mkFMS (dirs s0) (S (seed s))).
  unfold fs_SetDiffID. rewrite (WriteFile_dirs td "diff" diff s1 ∅ Htd). simpl.
  unfold fs_SetSize. erewrite WriteFile_dirs by (simpl; apply lookup_insert_eq). simpl. rewrite insert_insert_eq.
  unfold fs_SetCacheID. erewrite WriteFile_dirs by (simpl; apply lookup_insert_eq). simpl. rewrite insert_insert_eq.
  set (s2 := match parent with Some p => _ | None => _ end).
  assert (E2 : s2 = mkFMS (<[td:=layer_files diff sz cacheID parent]> (dirs s0)) (S (seed s))).
  { unfold s2. destruct parent as [p|]; [|done]. unfold fs_SetParent.
    erewrite WriteFile_dirs by (simpl; apply lookup_insert_eq). simpl. by rewrite insert_insert_eq. }
  rewrite E2. clear s2 E2. unfold fs_Commit, getLayerDirectory. rewrite Eh. cbn [fst snd removelast].
  set (s3 := MkdirAll [alg] _). set (fin := [alg; hex]).
  assert (Hfin : td ≠ fin) by (unfold td, fin; congruence).
  assert (Hs3 : ∀ q, length q = 2 → dirs s3 !! q = <[td:=layer_files diff sz cacheID parent]> (dirs s0) !! q).
  { intros q Hq. unfold s3. rewrite MkdirAll_lookup. simpl. destruct (_ !! q); [done|].
    rewrite decide_False; [done|]. rewrite elem_of_prefixes1. by intros ->. }
  unfold Rename. rewrite (Hs3 td) by done. rewrite lookup_insert_eq.
  rewrite (Hs3 fin) by done. rewrite lookup_insert_ne by done. rewrite (Hother fin) by done. fold fin in Hnone. rewrite Hnone.
  eexists. split; [done|]. split_and!.
  - intros n Hn. simpl in Hn.
    assert (Hne : td ≠ ["tmp"; "layer-" +:+ pretty n]) by (intros ?%tmp_inj; lia).
    assert (fin ≠ ["tmp"; "layer-" +:+ pretty n]) by (unfold fin; congruence).
    simpl. rewrite lookup_insert_ne, lookup_delete_ne, Hs3, lookup_insert_ne by done.
    rewrite Hother by done. apply Hwf. lia.
  - simpl. by rewrite lookup_insert_eq.
  - intros q Hq Hne. simpl. rewrite lookup_insert_ne by done.
    destruct (decide (q = td)) as [->|Htdne].
    + rewrite lookup_delete_eq. symmetry. by apply Hwf.
    + rewrite lookup_delete_ne, Hs3, lookup_insert_ne by done. by apply Hother.
Qed.

(** What is read back depends on the directory of the layer only. *)
Definition reads_as (layer : ChainID) (diff : DiffID) (sz : Z) (cacheID : string) (parent : option ChainID)
    (s : fileMetadataStore) : Prop :=
  fs_GetDiffID layer s = Ok diff ∧ fs_GetSize layer s = Ok sz ∧ fs_GetCacheID layer s = Ok cacheID ∧
  fs_GetParent layer s = Ok (default "" parent).

Lemma files_read_as layer diff sz cacheID parent s :
  Validate diff = true → (min_int64 ≤ sz ≤ max_int64)%Z → stringIDRegexp cacheID = true →
  (∀ p, parent = Some p → Validate p = true) →
  dirs s !! getLayerDirectory layer = Some (layer_files diff sz cacheID parent) →
  reads_as layer diff sz cacheID parent s.
Proof.
  intros Hdiff Hsz Hcache Hpar Hf. unfold reads_as, fs_GetDiffID, fs_GetSize, fs_GetCacheID, fs_GetParent, read_digest, ReadFile.
  rewrite Hf. unfold layer_files. split_and!.
  - destruct parent; simplify_map_eq; by rewrite Validate_trim, Validate_ParseDigest.
  - destruct parent; simplify_map_eq; by apply ParseInt64_Itoa.
  - destruct parent; simplify_map_eq; unfold check_id; by rewrite stringID_trim, Hcache.
  - destruct parent as [p|]; simplify_map_eq; [|done].
    by rewrite Validate_trim, Validate_ParseDigest by auto.
Qed.

(** A layer that is listed has a directory. *)
Lemma listed_exists s ids ms layer :
  fs_List s = Ok (ids, ms) → layer ∈ ids → is_Some (dirs s !! getLayerDirectory layer).
Proof.
  unfold fs_List. intros HL Hin.
  set (l := match ReadDir ["sha256"] s with Ok _ => _ | Err _ => _ end) in HL.
  assert (ids = l) as -> by (by destruct (ReadDir ["mounts"] s); simplify_eq).
  unfold l, ReadDir in Hin. destruct (dirs s !! ["sha256"]); [|by apply not_elem_of_nil in Hin].
  apply list_elem_of_filter in Hin as [Hv Hin]. apply list_elem_of_fmap in Hin as (name & -> & Hin).
  apply list_elem_of_filter in Hin as [_ Hin]. rewrite merge_sort_Permutation in Hin.
  apply list_elem_of_omap in Hin as (q & Hq & Hsub). unfold subdir in Hsub.
  apply list_elem_of_fmap in Hq as ([q' f] & -> & Hq). apply elem_of_map_to_list in Hq. simpl in Hsub.
  destruct q' as [|a [|b [|? ?]]]; try done. case_decide; simplify_eq/=.
  by exists f.
Qed.

(** C37. The metadata of a layer survives the disk: after the transaction of a
    layer that was not stored, every getter returns the value that was set,
    and the metadata of every other layer reads as before. *)
Theorem layer_metadata_roundtrip layer diff sz cacheID parent s :
  wf s → Validate layer = true → dirs s !! getLayerDirectory layer = None →
  Validate diff = true → (min_int64 ≤ sz ≤ max_int64)%Z → stringIDRegexp cacheID = true →
  (∀ p, parent = Some p → Validate p = true) →
  ∃ s', write_layer layer diff sz cacheID parent s = (Ok (), s') ∧ wf s' ∧
    reads_as layer diff sz cacheID parent s' ∧
    ∀ layer', Validate layer' = true → layer' ≠ layer →
      fs_GetDiffID layer' s' = fs_GetDiffID layer' s ∧ fs_GetSize layer' s' = fs_GetSize layer' s ∧
      fs_GetCacheID layer' s' = fs_GetCacheID layer' s ∧ fs_GetParent layer' s' = fs_GetParent layer' s.
Proof.
  intros Hwf Hl Hnone Hdiff Hsz Hcache Hpar.
  destruct (write_layer_dirs layer diff sz cacheID parent s Hwf Hl Hnone) as (s' & E & Hwf' & Hf & Hother).
  exists s'. split_and!; [done|done|by apply files_read_as|]. intros layer' Hl' Hne.
  assert (Hd : dirs s' !! getLayerDirectory layer' = dirs s !! getLayerDirectory layer').
  { apply Hother; [done|]. intros ?%getLayerDirectory_inj; done. }
  unfold fs_GetDiffID, fs_GetSize, fs_GetCacheID, fs_GetParent, read_digest, ReadFile. by rewrite Hd.
Qed.

Lemma layer_dir_prefix layer layer' :
  getLayerDirectory layer `prefix_of` getLayerDirectory layer' → getLayerDirectory layer = getLayerDirectory layer'.
Proof. intros Hp. by apply prefix_length_eq. Qed.

(** [Remove] makes a layer disappear from the store and leaves every other
    layer and every mount as it was. *)
Theorem remove_layer_isolated layer s :
  Validate layer = true →
  ∃ s', fs_Remove layer s = (Ok (), s') ∧
    fs_GetDiffID layer s' = Err "no such file or directory" ∧
    (∀ ids ms, fs_List s' = Ok (ids, ms) → layer ∉ ids) ∧
    (∀ layer', Validate layer' = true → layer' ≠ layer →
      fs_GetDiffID layer' s' = fs_GetDiffID layer' s ∧ fs_GetSize layer' s' = fs_GetSize layer' s ∧
      fs_GetCacheID layer' s' = fs_GetCacheID layer' s ∧ fs_GetParent layer' s' = fs_GetParent layer' s) ∧
    ∀ m, fs_GetMountID m s' = fs_GetMountID m s ∧ fs_GetInitID m s' = fs_GetInitID m s ∧
      fs_GetMountParent m s' = fs_GetMountParent m s.
Proof.
  intros Hl. eexists. split; [done|]. split_and!.
  - unfold fs_GetDiffID, ReadFile. rewrite RemoveAll_lookup. by rewrite decide_True.
  - intros ids ms HL Hin. apply (listed_exists _ _ _ _ HL) in Hin as [f Hf].
    rewrite RemoveAll_lookup in Hf. by rewrite decide_True in Hf.
  - intros layer' Hl' Hne.
    assert (Hd : dirs (RemoveAll (getLayerDirectory layer) s) !! getLayerDirectory layer' =
                 dirs s !! getLayerDirectory layer').
    { rewrite RemoveAll_lookup, decide_False; [done|].
      intros Hp%layer_dir_prefix. symmetry in Hp. by apply getLayerDirectory_inj in Hp. }
    unfold fs_GetDiffID, fs_GetSize, fs_GetCacheID, fs_GetParent, read_digest, ReadFile. by rewrite Hd.
  - intros m.
    assert (Hd : dirs (RemoveAll (getLayerDirectory layer) s) !! getMountDirectory m = dirs s !! getMountDirectory m).
    { rewrite RemoveAll_lookup, decide_False; [done|]. apply Validate_parts in Hl as (alg & hex & E & _ & Halg).
      unfold getLayerDirectory. rewrite E. simpl. intros [? [= Hm _]]. subst alg. set_solver. }
    unfold fs_GetMountID, fs_GetInitID, fs_GetMountParent, read_digest, ReadFile. by rewrite Hd.
Qed.
End laws.

(** ** A concrete store *)

Module ConcreteFiles.
#[export] Instance json_none : DescriptorJSON :=
  {| json_Marshal d := Ok (Digest d); json_Unmarshal s := Ok (mkDescriptor "" 0 s []) |}.
#[export] Instance gzip_id : Gzip := λ s, s.

Definition hex (c : ascii) : string := Nat.iter 64 (String c) "".
Definition empty : fileMetadataStore := mkFMS ∅ 0.

Lemma layer_metadata_roundtrip_witness :
  ∃ s', write_layer ("sha256:" +:+ hex "a") ("sha256:" +:+ hex "b") 42 (hex "c")
          (Some ("sha256:" +:+ hex "d")) empty = (Ok (), s') ∧
    reads_as ("sha256:" +:+ hex "a") ("sha256:" +:+ hex "b") 42 (hex "c") (Some ("sha256:" +:+ hex "d")) s'.
Proof.
  destruct (layer_metadata_roundtrip ("sha256:" +:+ hex "a") ("sha256:" +:+ hex "b") 42 (hex "c")
    (Some ("sha256:" +:+ hex "d")) empty) as (s' & E & _ & Hr & _); [done|by vm_compute..| |eauto].
  intros p [= <-]. by vm_compute.
Defined.

Definition stored : fileMetadataStore :=
  (write_layer ("sha256:" +:+ hex "a") ("sha256:" +:+ hex "b") 42 (hex "c") None empty).2.

Lemma remove_layer_isolated_witness :
  fs_GetDiffID ("sha256:" +:+ hex "a") stored = Ok ("sha256:" +:+ hex "b") ∧
  ∃ s', fs_Remove ("sha256:" +:+ hex "a") stored = (Ok (), s') ∧
    fs_GetDiffID ("sha256:" +:+ hex "a") s' = Err "no such file or directory".
Proof.
  split; [by vm_compute|].
  destruct (remove_layer_isolated ("sha256:" +:+ hex "a") stored) as (s' & E & Hg & _); [by vm_compute|eauto].
Defined.
End ConcreteFiles.
