(* ===== verification/ImageFS.v ===== *)
(** The files of the images: [StoreBackend] and its implementation in image/fs.go.
    The configuration of an image is a file named by its digest, and small
    files of metadata lie in a directory of the same name. *)

From Stdlib Require Import Ascii.
From stdpp Require Import sorting.
From S2P Require Import Prelude GoStrings Digest GoFS Layer.

Local Open Scope string_scope.

(** ** The interface *)

(** [StoreBackend], on a state [F]; [fs_Walk] gives the IDs that [Walk] visits. *)
Class StoreBackend (F : Type) := {
  fs_Walk : M F (result string (list string));
  fs_Get : string → M F (result string string);
  fs_Set : string → M F (result string string);
  fs_Delete : string → M F (result string unit);
  fs_SetMetadata : string → string → string → M F (result string unit);
  fs_GetMetadata : string → string → M F (result string string);
  fs_DeleteMetadata : string → string → M F (result string unit) }.

(** What the image store relies on, for IDs that are digests: a call returns,
    contents are named by their digest, and reading changes nothing. *)
Class StoreBackendLaws (F : Type) `{!StoreBackend F} {DG : Digester} := {
  law_Walk f : wp fs_Walk (λ r f', f' = f ∧ ∀ ids, r = Ok ids → NoDup ids ∧ Forall (λ id, Validate id = true) ids) f;
  law_Get id f : Validate id = true → wp (fs_Get id) (λ r f', f' = f ∧ ∀ data, r = Ok data → FromBytes data = id) f;
  law_Set data f : wp (fs_Set data) (λ r _, ∀ id, r = Ok id → id = FromBytes data) f;
  law_Delete id f : Validate id = true → wp (fs_Delete id) (λ _ _, True) f;
  law_SetMetadata id k v f : Validate id = true → wp (fs_SetMetadata id k v) (λ _ _, True) f;
  law_GetMetadata id k f : Validate id = true → wp (fs_GetMetadata id k) (λ _ f', f' = f) f;
  law_DeleteMetadata id k f : Validate id = true → wp (fs_DeleteMetadata id k) (λ _ _, True) f }.

(** ** The files *)

(** A file of a directory: [os.Remove] and [os.RemoveAll]. *)
Definition RemoveFile (p : list string) (name : string) (t : dirTree) : dirTree :=
  match dirs t !! p with
  | Some files => mkFMS (<[p:=delete name files]> (dirs t)) (seed t)
  | None => t
  end.

(** The names of the files and the subdirectories of [p], sorted. *)
Definition ReadNames (p : list string) (t : dirTree) : result os_error (list string) :=
  match dirs t !! p with
  | None => Err NotExist
  | Some files =>
      Ok (merge_sort string_le (elements (dom files ∪ list_to_set (omap (subdir p) (map_to_list (dirs t)).*1))))
  end.

Definition contentDirName : string := "content".
Definition metadataDirName : string := "metadata".
Definition Canonical : string := "sha256".

(** [Algorithm] and [Hex] panic on a string without a colon. *)
Definition idParts (id : string) : M dirTree (string * string) :=
  match cut ":" id with
  | Some p => mret p
  | None => panic ("could not find ':' in digest: " +:+ id)
  end.

Definition newFSStore (t : dirTree) : dirTree :=
  MkdirAll [metadataDirName; Canonical] (MkdirAll [contentDirName; Canonical] t).

(** [contentFile] and [metadataDir]: the directory and the name of the file, and
    the directory. *)
Definition contentFile (id : string) : M dirTree (list string * string) :=
  p ← idParts id; mret ([contentDirName; p.1], p.2).
Definition metadataDir (id : string) : M dirTree (list string) :=
  p ← idParts id; mret [metadataDirName; p.1; p.2].

Section files.
Context {DG : Digester}.

Definition osErr (e : os_error) : string :=
  match e with NotExist => "no such file or directory" | OtherError => "input/output error" end.

Definition readFile (p : list string) (name : string) : M dirTree (result string string) :=
  read (λ t, match ReadFile p name t with Ok c => Ok c | Err e => Err (osErr e) end).
Definition writeFile (p : list string) (name data : string) : M dirTree (result string unit) :=
  λ t, let '(r, t') := WriteFile p name data t in Ret r t'.

Definition Walk : M dirTree (result string (list string)) :=
  r ← read (ReadNames [contentDirName; Canonical]);
  mret (match r with
        | Err e => Err (osErr e)
        | Ok names => Ok (filter (λ d, Validate d = true) ((λ n, Canonical +:+ ":" +:+ n) <$> names))
        end).

Definition get (id : string) : M dirTree (result string string) :=
  p ← contentFile id;
  content ←? readFile p.1 p.2;
  if decide (FromBytes content ≠ id) then mret (Err ("failed to verify image: " +:+ id)) else mret (Ok content).

Definition Set_ (data : string) : M dirTree (result string string) :=
  if decide (data = "") then mret (Err "Invalid empty data")
  else
    let id := FromBytes data in
    p ← contentFile id;
    _ ←? writeFile p.1 p.2 data;
    mret (Ok id).

Definition Delete (id : string) : M dirTree (result string unit) :=
  md ← metadataDir id;
  _ ← modify (RemoveAll md);
  p ← contentFile id;
  _ ←? readFile p.1 p.2;
  _ ← modify (RemoveFile p.1 p.2);
  mret (Ok ()).

Definition SetMetadata (id key data : string) : M dirTree (result string unit) :=
  _ ←? get id;
  baseDir ← metadataDir id;
  _ ← modify (MkdirAll baseDir);
  writeFile baseDir key data.

Definition GetMetadata (id key : string) : M dirTree (result string string) :=
  _ ←? get id;
  md ← metadataDir id;
  readFile md key.

Definition DeleteMetadata (id key : string) : M dirTree (result string unit) :=
  md ← metadataDir id;
  _ ← modify (RemoveFile md key);
  mret (Ok ()).

#[export] Instance fs_backend : StoreBackend dirTree := {
  fs_Walk := Walk;
  fs_Get := get;
  fs_Set := Set_;
  fs_Delete := Delete;
  fs_SetMetadata := SetMetadata;
  fs_GetMetadata := GetMetadata;
  fs_DeleteMetadata := DeleteMetadata }.
End files.

(** ** The files keep their promise *)

(** [digest.FromBytes] gives a digest of the canonical algorithm. *)
Class DigesterLaws {DG : Digester} :=
  law_FromBytes data : Validate (FromBytes data) = true ∧ (digest_parts (FromBytes data)).1 = Canonical.
Arguments DigesterLaws {DG}.

Lemma idParts_ok id t : Validate id = true → idParts id t = Ret (digest_parts id) t.
Proof. intros (alg & hex & E & _)%Validate_cut. unfold idParts, digest_parts. by rewrite E. Qed.

Lemma contentFile_ok id t : Validate id = true →
  contentFile id t = Ret ([contentDirName; (digest_parts id).1], (digest_parts id).2) t.
Proof. intros Hv. unfold contentFile, mbind, M_bind. by rewrite idParts_ok. Qed.
Lemma metadataDir_ok id t : Validate id = true →
  metadataDir id t = Ret [metadataDirName; (digest_parts id).1; (digest_parts id).2] t.
Proof. intros Hv. unfold metadataDir, mbind, M_bind. by rewrite idParts_ok. Qed.

Section laws.
Context {DG : Digester} {DL : DigesterLaws}.

Lemma get_law id t : Validate id = true → wp (get id) (λ r t', t' = t ∧ ∀ data, r = Ok data → FromBytes data = id) t.
Proof.
  intros Hv. unfold get, wp, try_bind, mbind, M_bind. rewrite contentFile_ok by done. unfold readFile, read.
  destruct (ReadFile _ _ t) as [c|e]; simpl; [|by split]. case_decide as Hd; simpl; split; try done.
  intros data [= <-]. destruct (decide (FromBytes c = id)); tauto.
Qed.

#[export] Instance fs_laws : StoreBackendLaws dirTree.
Proof using DL.
  split.
  - intros t. unfold fs_Walk; simpl. unfold Walk. wp_step. wp_step. wp_step. split; [done|]. intros ids Hids.
    unfold ReadNames in Hids. destruct (dirs t !! _) as [files|]; simplify_eq/=. split.
    + assert (Inj (=) (=) (λ n : string, Canonical +:+ ":" +:+ n)) by (intros a b E; by simplify_eq/=).
      apply list.NoDup_filter, NoDup_fmap_2; [done|].
      rewrite merge_sort_Permutation. apply NoDup_elements.
    + apply list.Forall_forall. intros id. by rewrite list_elem_of_filter; intros [? _].
  - apply get_law.
  - intros data t. simpl. unfold Set_. case_decide; [by wp_step|]. destruct (law_FromBytes data) as [Hv _].
    unfold wp, mbind, M_bind. rewrite contentFile_ok by done. unfold try_bind, writeFile, WriteFile, mbind, M_bind.
    simpl. destruct (dirs t !! _); simpl; naive_solver.
  - intros id t Hv. simpl. unfold Delete, wp, try_bind, mbind, M_bind. rewrite metadataDir_ok by done. simpl.
    rewrite contentFile_ok by done. unfold readFile, read. by destruct (ReadFile _ _ _).
  - intros id k v t Hv. simpl. unfold SetMetadata. wp_step. wp_apply get_law; [done|]. intros [c|e] t' [-> _]; [|done].
    unfold wp, mbind, M_bind. rewrite metadataDir_ok by done. simpl. unfold writeFile. by destruct (WriteFile _ _ _ _).
  - intros id k t Hv. simpl. unfold GetMetadata. wp_step. wp_apply get_law; [done|]. intros [c|e] t' [-> _]; [|done].
    unfold wp, mbind, M_bind. by rewrite metadataDir_ok by done.
  - intros id k t Hv. simpl. unfold DeleteMetadata, wp, mbind, M_bind. by rewrite metadataDir_ok by done.
Qed.
End laws.

(** ** What the files hold *)

(** The configuration of an image, and its metadata under a key. *)
Definition cont (t : dirTree) (id : string) : option string :=
  dirs t !! [contentDirName; (digest_parts id).1] ≫= (.!! (digest_parts id).2).
Definition meta (t : dirTree) (id key : string) : option string :=
  dirs t !! [metadataDirName; (digest_parts id).1; (digest_parts id).2] ≫= (.!! key).

(** The directory of the configurations exists. *)
Definition has_content (t : dirTree) : Prop := is_Some (dirs t !! [contentDirName; Canonical]).

Section views.
Context {DG : Digester} {DL : DigesterLaws}.

Lemma digest_parts_inj id id' : Validate id = true → Validate id' = true → digest_parts id = digest_parts id' → id = id'.
Proof.
  intros (a & h & E & -> & _)%Validate_parts (a' & h' & E' & -> & _)%Validate_parts Hp. rewrite E, E' in Hp. congruence.
Qed.

Lemma get_run id t : Validate id = true →
  get id t = Ret (match cont t id with
                  | Some c => if decide (FromBytes c = id) then Ok c else Err ("failed to verify image: " +:+ id)
                  | None => Err (osErr NotExist) end) t.
Proof.
  intros Hv. unfold get, try_bind, mbind, M_bind. rewrite contentFile_ok by done. unfold readFile, ReadFile, read, cont. simpl.
  destruct (dirs t !! _) as [files|]; [|done]. simpl. destruct (files !! _) as [c|]; [|done]. simpl.
  destruct (decide (FromBytes c = id)); [by rewrite decide_False by tauto|by rewrite decide_True].
Qed.

Lemma GetMetadata_run id key c t : Validate id = true → cont t id = Some c → FromBytes c = id →
  GetMetadata id key t = Ret (match meta t id key with Some p => Ok p | None => Err (osErr NotExist) end) t.
Proof.
  intros Hv Hc Hid. unfold GetMetadata, try_bind, mbind, M_bind. rewrite get_run, Hc, decide_True by done. simpl.
  rewrite metadataDir_ok by done. unfold readFile, ReadFile, read, meta. simpl.
  destruct (dirs t !! _) as [files|]; [|done]. simpl. by destruct (files !! key).
Qed.

Lemma Set_run data t : data ≠ "" → has_content t → ∃ t',
  Set_ data t = Ret (Ok (FromBytes data)) t' ∧ has_content t' ∧
  (∀ id, Validate id = true → cont t' id = if decide (id = FromBytes data) then Some data else cont t id) ∧
  ∀ id key, meta t' id key = meta t id key.
Proof using DL.
  intros Hne [files Hf]. destruct (law_FromBytes data) as [Hv Ha]. unfold Set_. rewrite decide_False by done.
  unfold try_bind, mbind, M_bind. rewrite contentFile_ok by done. unfold writeFile. simpl. rewrite Ha.
  rewrite (WriteFile_dirs _ _ _ _ files) by done. eexists. split_and!; [done| | |].
  - unfold has_content. simpl. by rewrite lookup_insert_eq.
  - intros id Hid. unfold cont. simpl. case_decide as Hd; [subst; by rewrite Ha, lookup_insert_eq; simpl; rewrite lookup_insert_eq|].
    destruct (decide ((digest_parts id).1 = Canonical)) as [Hc|Hc]; [|rewrite lookup_insert_ne by congruence; done].
    rewrite Hc, lookup_insert_eq, Hf. simpl. rewrite lookup_insert_ne; [done|]. intros E. apply Hd, digest_parts_inj; [done..|].
    destruct (digest_parts id), (digest_parts (FromBytes data)); simpl in *; congruence.
  - intros id key. unfold meta. simpl. by rewrite lookup_insert_ne.
Qed.

Lemma SetMetadata_run id key data c t : Validate id = true → cont t id = Some c → FromBytes c = id → ∃ t',
  SetMetadata id key data t = Ret (Ok ()) t' ∧ (has_content t → has_content t') ∧
  (∀ id', cont t id' = cont t' id') ∧
  ∀ id' key', Validate id' = true → meta t' id' key' = if decide (id' = id ∧ key' = key) then Some data else meta t id' key'.
Proof.
  intros Hv Hc Hid. unfold SetMetadata, try_bind, mbind, M_bind. rewrite get_run, Hc, decide_True by done. simpl.
  rewrite metadataDir_ok by done. unfold modify, writeFile, M_bind.
  set (md := [metadataDirName; (digest_parts id).1; (digest_parts id).2]).
  assert (∀ q, dirs (MkdirAll md t) !! q = match dirs t !! q with Some f => Some f | None => if decide (q ∈ prefixes md) then Some ∅ else None end) as Hmk
    by (intros; apply MkdirAll_lookup).
  assert (is_Some (dirs (MkdirAll md t) !! md)) as [files Hfiles].
  { rewrite Hmk. destruct (dirs t !! md); [done|]. rewrite decide_True; [done|].
    unfold prefixes, md. simpl. do 2 right. by left. }
  rewrite (WriteFile_dirs _ _ _ _ files) by done. eexists. split_and!; [done| | |].
  - intros [f Hf]. exists f. simpl. rewrite lookup_insert_ne by done. by rewrite Hmk, Hf.
  - intros id'. unfold cont. simpl. rewrite lookup_insert_ne by done. rewrite Hmk.
    destruct (dirs t !! _); [done|]. rewrite decide_False; [done|].
    unfold prefixes, md. simpl. rewrite !elem_of_cons, elem_of_nil. intros [?|[?|[?|[]]]]; simplify_eq.
  - intros id' key' Hv'. unfold meta. simpl. destruct (decide (id' = id)) as [->|Hne].
    + fold md. rewrite lookup_insert_eq. simpl. destruct (decide (key' = key)) as [->|Hk].
      * by rewrite lookup_insert_eq, decide_True.
      * rewrite lookup_insert_ne, decide_False by naive_solver. rewrite Hmk in Hfiles.
        destruct (dirs t !! md) as [f|]; simplify_eq/=; [done|]. case_decide; by simplify_eq.
    + rewrite decide_False by naive_solver. rewrite lookup_insert_ne.
      2: { unfold md. intros [= E1 E2]. apply Hne, digest_parts_inj; [done..|]. destruct (digest_parts id), (digest_parts id'); simpl in *; congruence. }
      rewrite Hmk. destruct (dirs t !! _); [done|]. case_decide; [|done]. done.
Qed.

Lemma DeleteMetadata_run id key t : Validate id = true → ∃ t',
  DeleteMetadata id key t = Ret (Ok ()) t' ∧ (has_content t → has_content t') ∧
  (∀ id', cont t' id' = cont t id') ∧
  ∀ id' key', Validate id' = true → meta t' id' key' = if decide (id' = id ∧ key' = key) then None else meta t id' key'.
Proof.
  intros Hv. unfold DeleteMetadata, mbind, M_bind. rewrite metadataDir_ok by done. unfold modify, RemoveFile. simpl.
  set (md := [metadataDirName; (digest_parts id).1; (digest_parts id).2]). eexists. split; [done|].
  destruct (dirs t !! md) as [files|] eqn:Hf.
  - split_and!.
    + intros [f Hf']. exists f. simpl. by rewrite lookup_insert_ne.
    + intros id'. unfold cont. simpl. by rewrite lookup_insert_ne.
    + intros id' key' Hv'. unfold meta. simpl. destruct (decide (id' = id)) as [->|Hne].
      * fold md. rewrite lookup_insert_eq, Hf. simpl. destruct (decide (key' = key)) as [->|Hk].
        { by rewrite lookup_delete_eq, decide_True. }
        rewrite lookup_delete_ne by done. by rewrite decide_False by naive_solver.
      * rewrite decide_False by naive_solver. rewrite lookup_insert_ne; [done|].
        unfold md. intros [= E1 E2]. apply Hne, digest_parts_inj; [done..|]. destruct (digest_parts id), (digest_parts id'); simpl in *; congruence.
  - split_and!; [done..|]. intros id' key' Hv'. case_decide as Hd; [|done]. destruct Hd as [-> ->]. unfold meta. fold md. by rewrite Hf.
Qed.

Lemma Delete_run id t : Validate id = true → ∃ r t',
  Delete id t = Ret r t' ∧ (has_content t → has_content t') ∧
  (∀ id', Validate id' = true → cont t' id' = if decide (id' = id) then None else cont t id') ∧
  ∀ id' key', Validate id' = true → meta t' id' key' = if decide (id' = id) then None else meta t id' key'.
Proof.
  intros Hv. unfold Delete, mbind, M_bind, try_bind. rewrite metadataDir_ok by done. unfold modify. simpl.
  rewrite contentFile_ok by done. simpl. set (md := [metadataDirName; (digest_parts id).1; (digest_parts id).2]).
  set (t1 := RemoveAll md t).
  assert (∀ q, dirs t1 !! q = if decide (md `prefix_of` q) then None else dirs t !! q) as Hrm by (intros; apply RemoveAll_lookup).
  assert (∀ id', cont t1 id' = cont t id') as Hc1.
  { intros id'. unfold cont. rewrite Hrm, decide_False; [done|]. unfold md. intros [k Hk]. simplify_eq/=. }
  assert (∀ id' key', Validate id' = true → meta t1 id' key' = if decide (id' = id) then None else meta t id' key') as Hm1.
  { intros id' key' Hv'. unfold meta. rewrite Hrm. case_decide as Hp; case_decide as Hd; try done.
    - destruct Hp as [k Hk]. destruct k; simplify_eq/=. destruct Hd. apply digest_parts_inj; [done..|].
      destruct (digest_parts id), (digest_parts id'); simpl in *; congruence.
    - subst. destruct Hp. by exists []. }
  assert (has_content t → has_content t1) as Hh1.
  { intros [f Hf]. exists f. rewrite Hrm, decide_False; [done|]. intros [k Hk]. simplify_eq/=. }
  clearbody t1. unfold readFile, ReadFile, read, mbind, M_bind. cbv beta. pose proof (Hc1 id) as Hcid. unfold cont in Hcid at 1.
  destruct (dirs t1 !! [contentDirName; (digest_parts id).1]) as [files|] eqn:Hf; [simpl in Hcid|]; [destruct (files !! (digest_parts id).2) as [c|] eqn:Hfc|].
  - eexists _, _. split; [done|]. unfold RemoveFile. rewrite Hf. split_and!.
    + intros [f Hf']%Hh1. unfold has_content. simpl. destruct (decide ([contentDirName; (digest_parts id).1] = [contentDirName; Canonical])) as [->|].
      { by rewrite lookup_insert_eq. }
      rewrite lookup_insert_ne by done. by exists f.
    + intros id' Hv'. rewrite <-Hc1. unfold cont. simpl. destruct (decide (id' = id)) as [->|Hne].
      { rewrite lookup_insert_eq. simpl. by rewrite lookup_delete_eq. }
      destruct (decide ((digest_parts id').1 = (digest_parts id).1)) as [E|E]; [|by rewrite lookup_insert_ne by congruence].
      rewrite E, lookup_insert_eq, Hf. simpl. rewrite lookup_delete_ne; [done|]. intros E'. apply Hne, digest_parts_inj; [done..|].
      destruct (digest_parts id), (digest_parts id'); simpl in *; congruence.
    + intros id' key' Hv'. rewrite <-Hm1 by done. unfold meta. simpl. by rewrite lookup_insert_ne.
  - eexists _, t1. split; [done|]. split_and!; [done| |done]. intros id' _. rewrite <-Hc1. case_decide; [subst; by rewrite Hc1|done].
  - eexists _, t1. split; [done|]. split_and!; [done| |done]. intros id' _. rewrite <-Hc1. case_decide; [subst; by rewrite Hc1|done].
Qed.
End views.
