(* ===== verification/ImageStore.v ===== *)
(** The image store of image/store.go: the images, each with the layer it
    retains and its children, the files behind them (ImageFS) and the set of
    their IDs (DigestSet).  The layer store is behind an interface of two
    methods, [LayerGetReleaser]; the theorems need only the laws of the
    interface, which ImageSystem.v shows for the layer store. *)

From Stdlib Require Import Ascii.
From S2P Require Import Prelude GoStrings Digest DigestSet GoFS Layer ImageFS.

Local Open Scope string_scope.

(** ** Images *)

(** The fields of [Image] that the store looks at; [History] is the list of the
    flags [EmptyLayer]. *)
Record Image := mkImg {
  Parent : string;
  RootFS : option (list DiffID);
  History : list bool;
  rawJSON : string;
  computedID : string }.

(** [json.Unmarshal] of a configuration into an [Image]. *)
Class ImageJSON := Unmarshal : string → result string Image.

(** ** The layers *)

(** [LayerGetReleaser], on a state [L] and with handles [H]. *)
Class LayerGetReleaser (L H : Type) := {
  ls_Get : ChainID → M L (result error H);
  ls_Release : H → M L (result error (list Metadata)) }.

(** What it promises: [Get] succeeds on the layers that the store has; the handle
    it returns is a new one and retains the layer it was asked for, until it is
    released; releasing it does not touch other handles. *)
Class LayerLaws (L H : Type) `{!LayerGetReleaser L H} := {
  ls_inv : L → Prop;
  ls_has : L → ChainID → Prop;
  holds : L → H → ChainID → Prop;
  law_ls_Get l c : ls_inv l →
    wp (ls_Get c) (λ r l', ls_inv l' ∧ (∀ c', ls_has l' c' ↔ ls_has l c') ∧
      match r with
      | Ok h => ls_has l c ∧ (∀ c', ¬ holds l h c') ∧ ∀ h' c', holds l' h' c' ↔ holds l h' c' ∨ h' = h ∧ c' = c
      | Err _ => ¬ ls_has l c ∧ l' = l
      end) l;
  law_Release l h c : ls_inv l → holds l h c →
    wp (ls_Release h) (λ _ l', ls_inv l' ∧ ∀ h' c', holds l' h' c' ↔ holds l h' c' ∧ h' ≠ h) l }.

(** ** The store *)

Record imageMeta (H : Type) := mkMeta {
  layer : option H;
  children : gset string }.
Arguments mkMeta {H}.
Arguments layer {H} _.
Arguments children {H} _.

Record store (L H F : Type) := mkStore {
  ls : L;
  images : gmap string (imageMeta H);
  fs : F;
  digestSet : list digestEntry }.
Arguments mkStore {L H F}.
Arguments ls {L H F} _.
Arguments images {L H F} _.
Arguments fs {L H F} _.
Arguments digestSet {L H F} _.

Section store.
Context {L H F : Type} `{!LayerGetReleaser L H, !StoreBackend F, !ImageJSON} {DG : Digester}.
Abbreviation st := (store L H F).

Definition set_ls (l : L) (s : st) : st := mkStore l (images s) (fs s) (digestSet s).
Definition set_images (f : gmap string (imageMeta H) → gmap string (imageMeta H)) (s : st) : st :=
  mkStore (ls s) (f (images s)) (fs s) (digestSet s).
Definition set_fs (f : F) (s : st) : st := mkStore (ls s) (images s) f (digestSet s).
Definition set_digestSet (d : list digestEntry) (s : st) : st := mkStore (ls s) (images s) (fs s) d.

(** Calls of the files and of the layer store. *)
Definition on_fs {A} (m : M F (result string A)) : M st (result error A) :=
  λ s, match m (fs s) with
       | Ret (Ok a) f => Ret (Ok a) (set_fs f s)
       | Ret (Err e) f => Ret (Err (EOther e)) (set_fs f s)
       | Panic msg => Panic msg
       | OutOfFuel => OutOfFuel
       end.
Definition on_ls {A} (m : M L (result error A)) : M st (result error A) :=
  λ s, match m (ls s) with
       | Ret r l => Ret r (set_ls l s)
       | Panic msg => Panic msg
       | OutOfFuel => OutOfFuel
       end.

(** The children of an image that is in the store. *)
Definition upd_children (id : string) (f : gset string → gset string) (s : st) : st :=
  set_images (alter (λ m, mkMeta (layer m) (f (children m))) id) s.

Definition GetParent (id : string) : M st (result error string) := on_fs (fs_GetMetadata id "parent").

Definition ChainID_ (img : Image) : ChainID := CreateChainID (default [] (RootFS img)).

(** [NewFromJSON]. *)
Definition NewFromJSON (src : string) : result error Image :=
  match Unmarshal src with
  | Err e => Err (EOther e)
  | Ok img =>
      match RootFS img with
      | None => Err (EOther "Invalid image JSON, no RootFS key.")
      | Some _ => Ok (mkImg (Parent img) (RootFS img) (History img) src (computedID img))
      end
  end.

Definition Get (id : string) : M st (result error Image) :=
  config ←? on_fs (fs_Get id);
  match NewFromJSON config with
  | Err e => mret (Err e)
  | Ok img =>
      p ← GetParent id;
      let parent := match p with Ok p => p | Err _ => "" end in
      mret (Ok (mkImg parent (RootFS img) (History img) (rawJSON img) id))
  end.

(** The layer of an image, if it has any. *)
Definition getLayer (img : Image) : M st (result error (option H)) :=
  let chainID := ChainID_ img in
  if decide (chainID = "") then mret (Ok None)
  else h ←? on_ls (ls_Get chainID); mret (Ok (Some h)).

(** ** Restoring the store *)

(** The function that [restore] passes to [Walk]. *)
Definition restoreOne (id : string) : M st (result error unit) :=
  r ← Get id;
  match r with
  | Err _ => mret (Ok ())
  | Ok img =>
      l ←? getLayer img;
      ds ← read digestSet;
      match Add id ds with
      | Err e => mret (Err (EOther e))
      | Ok ds =>
          _ ← modify (set_digestSet ds);
          _ ← modify (set_images <[id := mkMeta l ∅]>);
          mret (Ok ())
      end
  end.
Fixpoint restoreAll (ids : list string) : M st (result error unit) :=
  match ids with
  | [] => mret (Ok ())
  | id :: ids => _ ←? restoreOne id; restoreAll ids
  end.

(** The second pass, which fills in the children. *)
Fixpoint fillChildren (ids : list string) : M st (result error unit) :=
  match ids with
  | [] => mret (Ok ())
  | id :: ids =>
      p ← GetParent id;
      _ ← match p with
          | Ok parent => modify (upd_children parent ({[id]} ∪.))
          | Err _ => mret ()
          end;
      fillChildren ids
  end.

Definition restore : M st (result error unit) :=
  ids ←? on_fs fs_Walk;
  _ ←? restoreAll ids;
  known ← read (λ s, (map_to_list (images s)).*1);
  fillChildren known.

Definition NewImageStore (f : F) (l : L) : outcome st (result error unit) := restore (mkStore l ∅ f []).

(** ** Operations *)

Definition nilDereference : string := "runtime error: invalid memory address or nil pointer dereference".

(** [Create] up to where it takes the lock: the configuration is written. *)
Definition createSet (config : string) : M st (result error (string * Image)) :=
  match Unmarshal config with
  | Err e => mret (Err (EOther e))
  | Ok img =>
      match RootFS img with
      | None => panic nilDereference
      | Some diffIDs =>
          let layerCounter := length (filter (λ empty : bool, empty = false) (History img)) in
          if decide (length diffIDs < layerCounter)%nat
          then mret (Err (EOther "too many non-empty layers in History section"))
          else id ←? on_fs (fs_Set config); mret (Ok (id, img))
      end
  end.

(** The rest of [Create]. *)
Definition createRegister (imageID : string) (img : Image) : M st (result error string) :=
  known ← read (λ s, images s !! imageID);
  match known with
  | Some _ => mret (Ok imageID)
  | None =>
      l ←? getLayer img;
      _ ← modify (set_images <[imageID := mkMeta l ∅]>);
      ds ← read digestSet;
      match Add imageID ds with
      | Err e => _ ← modify (set_images (delete imageID)); mret (Err (EOther e))
      | Ok ds => _ ← modify (set_digestSet ds); mret (Ok imageID)
      end
  end.
Definition Create (config : string) : M st (result error string) :=
  p ←? createSet config; createRegister p.1 p.2.

Definition Search (term : string) : M st (result error string) :=
  ds ← read digestSet;
  mret (match Lookup term ds with
        | Ok dgst => Ok dgst
        | Err ErrDigestNotFound => Err (EOther ("No such image: " +:+ term))
        | Err ErrDigestAmbiguous => Err (EOther "ambiguous digest string")
        end).

Fixpoint forgetParents (ids : list string) : M st unit :=
  match ids with
  | [] => mret ()
  | id :: ids => _ ← on_fs (fs_DeleteMetadata id "parent"); forgetParents ids
  end.

(** The image stops being a child of its parent, if that is in the store. *)
Definition leaveParent (id : string) : M st unit :=
  p ← GetParent id;
  match p with
  | Ok parent => modify (upd_children parent (.∖ {[id]}))
  | Err _ => mret ()
  end.

Definition Delete (id : string) : M st (result error (list Metadata)) :=
  known ← read (λ s, images s !! id);
  match known with
  | None => mret (Err (EOther ("unrecognized image ID " +:+ id)))
  | Some meta =>
      _ ← forgetParents (elements (children meta));
      _ ← leaveParent id;
      ds ← read digestSet;
      _ ← match Remove id ds with Ok ds => modify (set_digestSet ds) | Err _ => mret () end;
      _ ← modify (set_images (delete id));
      _ ← on_fs (fs_Delete id);
      match layer meta with
      | Some h => on_ls (ls_Release h)
      | None => mret (Ok [])
      end
  end.

Definition SetParent (id parent : string) : M st (result error unit) :=
  known ← read (λ s, images s !! parent);
  match known with
  | None => mret (Err (EOther ("unknown parent image ID " +:+ parent)))
  | Some _ =>
      _ ← leaveParent id;
      _ ← modify (upd_children parent ({[id]} ∪.));
      on_fs (fs_SetMetadata id "parent" parent)
  end.

Definition Children (id : string) (s : st) : gset string := from_option children ∅ (images s !! id).

(** [imagesMap]: the images that can be read, all of them or those without
    children. *)
Fixpoint collect (all : bool) (ids : list string) : M st (gmap string Image) :=
  match ids with
  | [] => mret ∅
  | id :: ids =>
      kids ← read (Children id);
      if negb all && bool_decide (kids ≠ ∅) then collect all ids
      else
        r ← Get id;
        m ← collect all ids;
        mret (match r with Ok img => <[id := img]> m | Err _ => m end)
  end.
Definition imagesMap (all : bool) : M st (gmap string Image) :=
  ids ← read (λ s, (map_to_list (images s)).*1); collect all ids.
Definition Heads : M st (gmap string Image) := imagesMap false.
Definition Map : M st (gmap string Image) := imagesMap true.
End store.

(** ** The layers of the images *)

Section layers.
Context {L H F : Type} `{!LayerGetReleaser L H, !LayerLaws L H, !StoreBackend F, !ImageJSON} {DG : Digester}.
Context `{!StoreBackendLaws F} {DL : DigesterLaws} `{!EqDecision H}.
Abbreviation st := (store L H F).

(** The ID is that of a configuration with these layers. *)
Definition describes (id : string) (chain : ChainID) : Prop :=
  ∃ config img, FromBytes config = id ∧ Unmarshal config = Ok img ∧ is_Some (RootFS img) ∧ ChainID_ img = chain.

(** Every image retains the layers of its configuration with a handle of its
    own; [o] are the handles of other clients of the layer store. *)
Record layers_ok (o : H → ChainID → Prop) (s : st) : Prop := {
  lo_inv : ls_inv (ls s);
  lo_image id m : images s !! id = Some m →
    ∃ c, describes id c ∧ match layer m with Some h => holds (ls s) h c | None => c = "" end;
  lo_inj id1 id2 m1 m2 h : images s !! id1 = Some m1 → images s !! id2 = Some m2 →
    layer m1 = Some h → layer m2 = Some h → id1 = id2;
  lo_held h c : holds (ls s) h c → o h c ∨ ∃ id m, images s !! id = Some m ∧ layer m = Some h;
  lo_other h c : o h c → holds (ls s) h c ∧ ∀ id m, images s !! id = Some m → layer m ≠ Some h;
  lo_set : set_ok Canonical (digestSet s);
  lo_ids id : id ∈ All (digestSet s) ↔ is_Some (images s !! id) }.

Lemma describes_valid id c : describes id c → Validate id = true ∧ (digest_parts id).1 = Canonical.
Proof using DL. intros (config & img & <- & _). apply law_FromBytes. Qed.

Lemma image_valid o s id m : layers_ok o s → images s !! id = Some m → Validate id = true ∧ (digest_parts id).1 = Canonical.
Proof using DL. intros I (c & Hd & _)%(lo_image _ _ I). by eapply describes_valid. Qed.

Lemma wp_on_fs {A} (m : M F (result string A)) (Q : result error A → st → Prop) s :
  wp m (λ r f, Q (match r with Ok a => Ok a | Err e => Err (EOther e) end) (set_fs f s)) (fs s) → wp (on_fs m) Q s.
Proof. unfold wp, on_fs. by destruct (m (fs s)) as [[a|e] f| |]. Qed.
Lemma wp_on_ls {A} (m : M L (result error A)) (Q : result error A → st → Prop) s :
  wp m (λ r l, Q r (set_ls l s)) (ls s) → wp (on_ls m) Q s.
Proof. unfold wp, on_ls. by destruct (m (ls s)). Qed.

(** The children are digests. *)
Definition kids_ok (s : st) : Prop :=
  ∀ id m c, images s !! id = Some m → c ∈ children m → Validate c = true.

(** A call that changes the files and the children only. *)
Definition quiet (s s' : st) : Prop :=
  ls s' = ls s ∧ digestSet s' = digestSet s ∧ (∀ id, layer <$> images s' !! id = layer <$> images s !! id) ∧
  (kids_ok s → kids_ok s').
#[local] Instance quiet_preorder : PreOrder quiet.
Proof.
  split; [done|]. intros s1 s2 s3 (E1 & E2 & E3 & K1) (E4 & E5 & E6 & K2). split_and!; [congruence..| |auto]. intros id. by rewrite E6.
Qed.

Lemma quiet_fs s f : quiet s (set_fs f s).
Proof. done. Qed.
Lemma quiet_children s id f : (∀ X c, c ∈ f X → c ∈ X ∨ Validate c = true) → quiet s (upd_children id f s).
Proof.
  intros Hf. split_and!; [done..| |].
  - intros id'. simpl. destruct (decide (id = id')) as [->|]; [|by rewrite lookup_alter_ne].
    rewrite lookup_alter_eq. by destruct (images s !! id').
  - intros K id' m' c Hm' Hc. simpl in Hm'. apply lookup_alter_Some in Hm' as [(<- & m & Hm & ->)|[_ Hm]]; [|by eapply K].
    simpl in Hc. destruct (Hf _ _ Hc) as [Hc'|]; [by eapply K|done].
Qed.

Lemma layers_ok_quiet o s s' : quiet s s' → layers_ok o s → layers_ok o s'.
Proof.
  intros (El & Ed & Ei & _) I.
  assert (∀ id m', images s' !! id = Some m' → ∃ m, images s !! id = Some m ∧ layer m = layer m') as Hb.
  { intros id m' Hm. specialize (Ei id). rewrite Hm in Ei. destruct (images s !! id) as [m|]; simplify_eq/=. eauto. }
  assert (∀ id m, images s !! id = Some m → ∃ m', images s' !! id = Some m' ∧ layer m' = layer m) as Hf.
  { intros id m Hm. specialize (Ei id). rewrite Hm in Ei. destruct (images s' !! id) as [m'|]; simplify_eq/=. eauto. }
  destruct I as [I1 I2 I3 I4 I5 I6 I7]. split; rewrite ?El, ?Ed; try done.
  - intros id' m' (m & Hm & <-)%Hb. eauto.
  - intros id1 id2 m1 m2 h (? & ? & <-)%Hb (? & ? & <-)%Hb. eauto.
  - intros h c [?|(id' & m & (m' & ? & <-)%Hf & ?)]%I4; [by left|right; eauto].
  - intros h c [? Ho]%I5. split; [done|]. intros id' m' (m & Hm & <-)%Hb. eauto.
  - intros id'. rewrite I7. split; intros [m Hm]; [destruct (Hf _ _ Hm) as (? & ? & _)|destruct (Hb _ _ Hm) as (? & ? & _)]; eauto.
Qed.

Lemma leaveParent_quiet s id : Validate id = true → wp (leaveParent id) (λ _ s', quiet s s') s.
Proof using All.
  intros Hv. unfold leaveParent, GetParent. wp_step. apply wp_on_fs. wp_apply law_GetMetadata; [done|].
  intros [p|e] f' ->; [|by apply wp_ret]. apply wp_modify.
  etransitivity; [apply (quiet_fs s (fs s))|apply quiet_children]. set_solver.
Qed.

Lemma forgetParents_quiet s ids : Forall (λ id, Validate id = true) ids → wp (forgetParents ids) (λ _ s', quiet s s') s.
Proof using All.
  intros Hids. revert s. induction Hids as [|id ids Hid _ IH]; intros s; [by apply wp_ret|]. cbn [forgetParents].
  wp_step. apply wp_on_fs. wp_apply law_DeleteMetadata; [done|]. intros r f' _. wp_apply IH. by intros _ s' Hq.
Qed.

Lemma SetParent_quiet s id parent : Validate id = true → wp (SetParent id parent) (λ _ s', quiet s s') s.
Proof using All.
  intros Hv. unfold SetParent. wp_steps. destruct (images s !! parent); [|by wp_step]. wp_step.
  wp_apply leaveParent_quiet; [done|]. intros _ s1 Hq. wp_step. wp_step. apply wp_on_fs.
  wp_apply law_SetMetadata; [done|]. intros r f' _. etransitivity; [exact Hq|]. apply (quiet_children s1). set_solver.
Qed.

(** ** Taking a layer *)

(** Where an image takes its layer: a new handle, or none. *)
Definition took (s : st) (img : Image) (l : option H) (s' : st) : Prop :=
  ls_inv (ls s') ∧ images s' = images s ∧ fs s' = fs s ∧ digestSet s' = digestSet s ∧
  (∀ c, ls_has (ls s') c ↔ ls_has (ls s) c) ∧
  match l with
  | Some h => ls_has (ls s) (ChainID_ img) ∧ (∀ c, ¬ holds (ls s) h c) ∧ ∀ h' c, holds (ls s') h' c ↔ holds (ls s) h' c ∨ h' = h ∧ c = ChainID_ img
  | None => ChainID_ img = "" ∧ ls s' = ls s
  end.

Lemma getLayer_spec s img : ls_inv (ls s) →
  wp (getLayer img) (λ r s', match r with
    | Ok l => took s img l s'
    | Err _ => s' = s ∧ ChainID_ img ≠ "" ∧ ¬ ls_has (ls s) (ChainID_ img) end) s.
Proof using All.
  intros I. unfold getLayer. case_decide as Hc; [by wp_step|]. wp_step. apply wp_on_ls.
  wp_apply law_ls_Get; [done|]. intros [h|e] l' (I' & Hhas & Hh); [|destruct Hh as [? ->]; by destruct s].
  wp_step. split_and!; try done; by apply Hh.
Qed.

(** Registering an image that has its layer. *)
Lemma register_ok o s s1 img l id ds :
  layers_ok o s → images s !! id = None → describes id (ChainID_ img) → took s img l s1 → Add id (digestSet s) = Ok ds →
  layers_ok o (set_images <[id := mkMeta l ∅]> (set_digestSet ds s1)).
Proof using DL.
  intros I Hid Hd (I1 & Ei & Ef & Ed & _ & Hl) Hadd. destruct I as [J1 J2 J3 J4 J5 J6 J7].
  destruct (describes_valid _ _ Hd) as [Hv Ha].
  destruct (Add_spec Canonical id (digestSet s) J6 Hv Ha) as (ds' & Hadd' & Hok & Hall). rewrite Hadd in Hadd'. injection Hadd' as <-.
  assert (∀ h c, holds (ls s) h c → holds (ls s1) h c) as Hkeep.
  { intros h c Hh. destruct l as [h'|]; [apply Hl; by left|]. destruct Hl as [_ ->]. done. }
  assert (∀ h id' m', l = Some h → images s !! id' = Some m' → layer m' ≠ Some h) as Hfresh.
  { intros h id' m' -> Hm Elm. destruct (J2 id' m' Hm) as (c & _ & Hh). rewrite Elm in Hh. by destruct Hl as (_ & Hn & _); apply (Hn c). }
  split; simpl; rewrite ?Ei; try done.
  - intros id' m' [[<- <-]|[Hne Hm]]%lookup_insert_Some.
    + exists (ChainID_ img). split; [done|]. simpl. destruct l as [h|]; [apply Hl; by right|by destruct Hl].
    + destruct (J2 id' m' Hm) as (c & Hc & Hh). exists c. split; [done|]. destruct (layer m'); [by apply Hkeep|done].
  - intros id1 id2 m1 m2 h [[<- <-]|[? Hm1]]%lookup_insert_Some [[<- <-]|[? Hm2]]%lookup_insert_Some; simpl; try done; intros E1 E2.
    + by destruct (Hfresh h id2 m2 E1 Hm2).
    + by destruct (Hfresh h id1 m1 E2 Hm1).
    + eauto.
  - intros h c Hh.
    assert (holds (ls s) h c ∨ l = Some h) as [Hh'|Hh'].
    { destruct l as [h'|]; [|left; by destruct Hl as [_ <-]]. destruct Hl as (_ & _ & Hl). apply Hl in Hh as [?|[-> _]]; auto. }
    + destruct (J4 h c Hh') as [?|(id' & m & Hm & Em)]; [by left|right]. exists id', m. split; [|done].
      rewrite lookup_insert_ne; [done|congruence].
    + right. exists id, (mkMeta l ∅). by rewrite lookup_insert_eq.
  - intros h c Ho. destruct (J5 h c Ho) as [Hh Hn]. split; [by apply Hkeep|].
    intros id' m' [[<- <-]|[_ Hm]]%lookup_insert_Some; simpl; [|eauto]. intros ->. destruct Hl as (_ & Hnew & _). by apply (Hnew c).
  - intros id'. rewrite Hall, J7. destruct (decide (id' = id)) as [->|]; [rewrite lookup_insert_eq; naive_solver|].
    rewrite lookup_insert_ne by done. naive_solver.
Qed.

Lemma createSet_quiet s config :
  (∃ img, Unmarshal config = Ok img ∧ RootFS img = None) ∨
  wp (createSet config) (λ r s', quiet s s' ∧ match r with Ok (id, img) => describes id (ChainID_ img) | Err _ => True end) s.
Proof using All.
  unfold createSet. destruct (Unmarshal config) as [img|e] eqn:Eu; [|right; by wp_step].
  destruct (RootFS img) as [diffs|] eqn:Er; [right|left; eauto]. case_decide; [by wp_step|].
  wp_step. apply wp_on_fs. wp_apply law_Set. intros [id|e] f' Hid; [|done]. wp_step. split; [done|].
  exists config, img. split_and!; [symmetry; by apply Hid|done|by rewrite Er|done].
Qed.

Lemma createRegister_ok o s id img : layers_ok o s → kids_ok s → describes id (ChainID_ img) →
  wp (createRegister id img) (λ _ s', layers_ok o s' ∧ kids_ok s') s.
Proof using All.
  intros I K Hd. unfold createRegister. wp_steps. destruct (images s !! id) eqn:Hid; [by wp_step|].
  wp_step. wp_apply getLayer_spec; [apply I|]. intros [l|e] s1; [|by intros [-> _]]. intros Ht.
  destruct (describes_valid _ _ Hd) as [Hv Ha].
  destruct (Add_spec Canonical id (digestSet s) (lo_set _ _ I) Hv Ha) as (ds & Hadd & _).
  pose proof Ht as (_ & Ei & _ & Ed & _). wp_steps. rewrite Ed, Hadd. wp_steps. split.
  - by apply (register_ok o s s1 img l id ds).
  - intros id' m c. simpl. intros [[<- <-]|[_ Hm]]%lookup_insert_Some; simpl; [set_solver|]. rewrite Ei in Hm. by apply (K id').
Qed.

(** Giving the layer back. *)
Definition gave (l : L) (h : option H) (l' : L) : Prop :=
  ls_inv l' ∧ match h with Some h => ∀ h' c, holds l' h' c ↔ holds l h' c ∧ h' ≠ h | None => l' = l end.

Lemma unregister_ok o s id m l' f ds : layers_ok o s → images s !! id = Some m →
  Remove id (digestSet s) = Ok ds → gave (ls s) (layer m) l' → layers_ok o (mkStore l' (delete id (images s)) f ds).
Proof using DL.
  intros I Hm Hrem [I' Hg]. destruct (image_valid _ _ _ _ I Hm) as [Hv Ha]. destruct I as [J1 J2 J3 J4 J5 J6 J7].
  destruct (Remove_spec Canonical id (digestSet s) J6 Hv Ha) as (ds' & Hrem' & Hok & Hall). rewrite Hrem in Hrem'. injection Hrem' as <-.
  assert (∀ h c, holds l' h c ↔ holds (ls s) h c ∧ layer m ≠ Some h) as Hl.
  { intros h c. destruct (layer m) as [h0|]; [rewrite Hg; naive_solver|subst; naive_solver]. }
  split; simpl; try done.
  - intros id' m' [Hne Hm']%lookup_delete_Some. destruct (J2 id' m' Hm') as (c & Hc & Hh). exists c. split; [done|].
    destruct (layer m') as [h|] eqn:El; [|done]. apply Hl. split; [done|]. intros E. apply Hne. by eapply J3.
  - intros id1 id2 m1 m2 h [_ ?]%lookup_delete_Some [_ ?]%lookup_delete_Some. eauto.
  - intros h c [Hh Hne]%Hl. destruct (J4 h c Hh) as [?|(id' & m' & Hm' & El)]; [by left|right].
    exists id', m'. split; [|done]. rewrite lookup_delete_ne; [done|congruence].
  - intros h c Ho. destruct (J5 h c Ho) as [Hh Hn]. split; [apply Hl; eauto|]. intros id' m' [_ ?]%lookup_delete_Some. eauto.
  - intros id'. rewrite Hall, J7. destruct (decide (id' = id)) as [->|]; [rewrite lookup_delete_eq|rewrite lookup_delete_ne by done]; split.
    + by intros [? _].
    + by intros [? ?].
    + by intros [_ ?].
    + done.
Qed.

Lemma Delete_ok o s id : layers_ok o s → kids_ok s → wp (Delete id) (λ _ s', layers_ok o s' ∧ kids_ok s') s.
Proof using All.
  intros I K. unfold Delete. wp_steps. destruct (images s !! id) as [m|] eqn:Hm; [|by wp_step].
  destruct (image_valid _ _ _ _ I Hm) as [Hv Ha].
  wp_step. wp_apply forgetParents_quiet. { apply list.Forall_forall. intros c Hc%elem_of_elements. by eapply K. }
  intros _ s1 Q1. wp_step. wp_apply leaveParent_quiet; [done|]. intros _ s2 Q2.
  assert (quiet s s2) as Q by (by etransitivity). clear s1 Q1 Q2.
  pose proof (layers_ok_quiet _ _ _ Q I) as I2. destruct Q as (El & Ed & Ei & Hk). specialize (Hk K).
  specialize (Ei id). rewrite Hm in Ei. destruct (images s2 !! id) as [m2|] eqn:Hm2; simplify_eq/=.
  destruct (Remove_spec Canonical id (digestSet s2) (lo_set _ _ I2) Hv Ha) as (ds & Hrem & _).
  wp_steps. rewrite Hrem. wp_steps. apply wp_on_fs. wp_apply law_Delete; [done|]. intros r f' _.
  assert (∀ l', gave (ls s2) (layer m2) l' → layers_ok o (mkStore l' (delete id (images s2)) f' ds) ∧
    kids_ok (mkStore l' (delete id (images s2)) f' ds)) as Hend.
  { intros l' Hg. split; [by eapply unregister_ok|]. intros id' m' c. simpl. intros [_ ?]%lookup_delete_Some. by apply (Hk id'). }
  rewrite <-Ei. destruct (layer m2) as [h|] eqn:El2; [|by wp_step; apply Hend; split; [apply I2|]].
  destruct (lo_image _ _ I2 id m2 Hm2) as (c & _ & Hh). rewrite El2 in Hh.
  apply wp_on_ls. wp_apply law_Release; [apply I2|exact Hh|]. intros r' l' [I' Hg]. by apply Hend.
Qed.

(** ** Restoring *)

Lemma image_Get_spec s id : Validate id = true →
  wp (Get id) (λ r s', quiet s s' ∧ images s' = images s ∧
    match r with Ok img => describes id (ChainID_ img) | Err _ => True end) s.
Proof using All.
  intros Hv. unfold Get. wp_step. apply wp_on_fs. wp_apply law_Get; [done|]. intros [config|e] f' [-> Hid]; [|done].
  unfold NewFromJSON. destruct (Unmarshal config) as [img|] eqn:Eu; [|by wp_step].
  destruct (RootFS img) as [diffs|] eqn:Er; [|by wp_step]. unfold GetParent. wp_step. apply wp_on_fs.
  wp_apply law_GetMetadata; [done|]. intros p f' ->. wp_step. split_and!; [done..|].
  exists config, img. split_and!; [by apply Hid|done|by rewrite Er|]. unfold ChainID_. simpl. by rewrite Er.
Qed.

Lemma restoreOne_ok o s id : layers_ok o s → kids_ok s → Validate id = true → images s !! id = None →
  wp (restoreOne id) (λ r s', match r with
    | Ok _ => layers_ok o s' ∧ kids_ok s' ∧ ∀ id', id' ≠ id → images s' !! id' = images s !! id'
    | Err _ => True end) s.
Proof using All.
  intros I K Hv Hid. unfold restoreOne. wp_step. wp_apply image_Get_spec; [done|]. intros [img|e] s0 (Q & Ei & Hd).
  2: { wp_step. split_and!; [by eapply layers_ok_quiet|by apply Q|by rewrite Ei]. }
  apply (layers_ok_quiet _ _ _ Q) in I. apply Q in K. clear Q. rewrite <-Ei in *. clear Ei s.
  wp_step. wp_apply getLayer_spec; [apply I|]. intros [l|e] s1; [|done]. intros Ht.
  destruct (describes_valid _ _ Hd) as [_ Ha].
  destruct (Add_spec Canonical id (digestSet s0) (lo_set _ _ I) Hv Ha) as (ds & Hadd & _).
  pose proof Ht as (_ & Ei & _ & Ed & _). wp_steps. rewrite Ed, Hadd. wp_steps. split_and!.
  - by apply (register_ok o s0 s1 img l id ds).
  - intros id' m c. simpl. intros [[<- <-]|[_ Hm]]%lookup_insert_Some; simpl; [set_solver|]. rewrite Ei in Hm. by apply (K id').
  - intros id' Hne. simpl. by rewrite Ei, lookup_insert_ne.
Qed.

Lemma restoreAll_ok o s ids : layers_ok o s → kids_ok s → Forall (λ id, Validate id = true) ids → NoDup ids →
  (∀ id, id ∈ ids → images s !! id = None) →
  wp (restoreAll ids) (λ r s', match r with Ok _ => layers_ok o s' ∧ kids_ok s' | Err _ => True end) s.
Proof using All.
  intros I K Hv Hn. revert s I K. induction Hn as [|id ids Hid Hn IH]; intros s I K Hnew; [by apply wp_ret|].
  apply list.Forall_cons in Hv as [Hv Hvs]. cbn [restoreAll]. wp_step. wp_apply restoreOne_ok; [done..|apply Hnew; by left|].
  intros [[]|e] s'; [|done]. intros (I' & K' & Hs). apply IH; try done. intros id' Hid'. rewrite Hs; [by apply Hnew; right|congruence].
Qed.

Lemma fillChildren_quiet s ids : Forall (λ id, Validate id = true) ids → wp (fillChildren ids) (λ r s', r = Ok () ∧ quiet s s') s.
Proof using All.
  intros Hv. revert s. induction Hv as [|id ids Hid _ IH]; intros s; [by apply wp_ret|]. cbn [fillChildren].
  unfold GetParent. wp_step. apply wp_on_fs. wp_apply law_GetMetadata; [done|]. intros [p|e] f' ->; wp_steps.
  - wp_apply IH. intros r s' [-> Hq]. split; [done|]. etransitivity; [apply (quiet_fs s (fs s))|].
    etransitivity; [apply (quiet_children _ p ({[id]} ∪.)); set_solver|done].
  - wp_apply IH. by intros r s' [-> Hq].
Qed.

Lemma restore_ok l f : ls_inv l →
  wp restore (λ r s', match r with Ok _ => layers_ok (holds l) s' ∧ kids_ok s' | Err _ => True end) (mkStore l ∅ f []).
Proof using All.
  intros I. unfold restore. wp_step. apply wp_on_fs. wp_apply law_Walk. intros [ids|e] f' [-> Hids]; [|done].
  destruct (Hids ids eq_refl) as [Hn Hv]. wp_step. wp_apply (restoreAll_ok (holds l)); try done.
  { split; simpl; try done.
    - by intros h c ?; left.
    - split; constructor.
    - intros id. rewrite lookup_empty. split; [by intros ?%elem_of_nil|by intros []]. }
  intros [[]|e] s'; [|done]. intros [I' K']. wp_steps. wp_apply fillChildren_quiet.
  { apply list.Forall_forall. intros id ([id' m] & -> & Hm%elem_of_map_to_list)%list_elem_of_fmap. by eapply image_valid. }
  intros r s2 [-> Q]. split; [by eapply layers_ok_quiet|by apply Q].
Qed.
(** ** The store as a transition system *)

(** Calls take effect at the lock of the store; between the two critical sections
    of [Create] other calls may run, so the configurations that are written but
    not registered are part of the state.  Other clients of the layer store do
    what they like, except with the handles of the images. *)
Definition others (l : L) (s : st) (h : H) (c : ChainID) : Prop :=
  holds l h c ∧ ∀ id m, images s !! id = Some m → layer m ≠ Some h.
Inductive istep : (H → ChainID → Prop) * st * list (string * Image) → (H → ChainID → Prop) * st * list (string * Image) → Prop :=
| istep_set o s P config id img s' :
    createSet config s = Ret (Ok (id, img)) s' → istep (o, s, P) (o, s', (id, img) :: P)
| istep_refused o s P config e s' :
    createSet config s = Ret (Err e) s' → istep (o, s, P) (o, s', P)
| istep_register o s P P' id img r s' :
    createRegister id img s = Ret r s' → istep (o, s, (P ++ (id, img) :: P')%list) (o, s', (P ++ P')%list)
| istep_delete o s P id r s' : Delete id s = Ret r s' → istep (o, s, P) (o, s', P)
| istep_parent o s P id parent r s' :
    Validate id = true → SetParent id parent s = Ret r s' → istep (o, s, P) (o, s', P)
| istep_layers o s P l' :
    ls_inv l' →
    (∀ id m h c, images s !! id = Some m → layer m = Some h → holds (ls s) h c → holds l' h c) →
    istep (o, s, P) (others l' s, set_ls l' s, P).

Definition ireachable (o : H → ChainID → Prop) (s : st) (P : list (string * Image)) : Prop :=
  ∃ l f s0, ls_inv l ∧ NewImageStore f l = Ret (Ok ()) s0 ∧ rtc istep (holds l, s0, []) (o, s, P).

Definition sys_ok (x : (H → ChainID → Prop) * st * list (string * Image)) : Prop :=
  let '(o, s, P) := x in layers_ok o s ∧ kids_ok s ∧ Forall (λ p, describes p.1 (ChainID_ p.2)) P.

Lemma layers_env_ok o s l' : layers_ok o s → ls_inv l' →
  (∀ id m h c, images s !! id = Some m → layer m = Some h → holds (ls s) h c → holds l' h c) →
  layers_ok (others l' s) (set_ls l' s).
Proof using All.
  intros [J1 J2 J3 J4 J5 J6 J7] I' Hk. split; simpl; try done.
  - intros id m Hm. destruct (J2 id m Hm) as (c & Hc & Hh). exists c. split; [done|]. destruct (layer m) eqn:El; [by eapply Hk|done].
  - intros h c Hh. destruct (decide (map_Exists (λ _ m, layer m = Some h) (images s))) as [Hd|Hd].
    + right. destruct Hd as (id & m & ? & ?). eauto.
    + left. split; [done|]. intros id m Hm El. apply Hd. by exists id, m.
Qed.

Lemma istep_ok x y : istep x y → sys_ok x → sys_ok y.
Proof using All.
  intros Hst. destruct Hst as [o s P config id img s' E|o s P config e s' E|o s P P' id img r s' E|o s P id r s' E|o s P id parent r s' Hv E|o s P l' I' Hk];
    intros (I & K & HP).
  - destruct (createSet_quiet s config) as [(img' & Eu & Er)|Hwp].
    { unfold createSet in E. by rewrite Eu, Er in E. }
    apply (wp_run _ _ _ _ _ Hwp) in E as [Q Hd]. split_and!; [by eapply layers_ok_quiet|by apply Q|by constructor].
  - destruct (createSet_quiet s config) as [(img' & Eu & Er)|Hwp].
    { unfold createSet in E. by rewrite Eu, Er in E. }
    apply (wp_run _ _ _ _ _ Hwp) in E as [Q _]. split_and!; [by eapply layers_ok_quiet|by apply Q|done].
  - apply Forall_app in HP as [HP [Hd HP']%list.Forall_cons].
    apply (wp_run _ _ _ _ _ (createRegister_ok o s id img I K Hd)) in E as [? ?]. split_and!; [done..|by apply Forall_app].
  - by apply (wp_run _ _ _ _ _ (Delete_ok o s id I K)) in E as [? ?].
  - apply (wp_run _ _ _ _ _ (SetParent_quiet s id parent Hv)) in E as Q.
    split_and!; [by eapply layers_ok_quiet|by apply Q|done].
  - split_and!; [by apply (layers_env_ok o)|done..].
Qed.

Lemma Search_run o s term : layers_ok o s → ∃ r, Search term s = Ret r s ∧ ∀ id, r = Ok id ↔
  is_Some (images s !! id) ∧ names term id ∧ ∀ id', is_Some (images s !! id') → names term id' → id' = id.
Proof.
  intros I. eexists. split; [done|]. intros id. setoid_rewrite <-(lo_ids _ _ I).
  rewrite <-(Lookup_exact Canonical) by (done || apply I).
  destruct (Lookup term (digestSet s)) as [d|[]]; simpl; [|done..]. split; by intros [= ->].
Qed.

Lemma ireachable_ok o s P : ireachable o s P → sys_ok (o, s, P).
Proof using All.
  intros (l & f & s0 & I & E & Hr).
  apply (wp_run _ _ _ _ _ (restore_ok l f I)) in E as [? ?].
  assert (∀ x y, rtc istep x y → sys_ok x → sys_ok y) as Hrtc.
  { induction 1 as [|x y z Hxy _ IH]; [done|]. intros Hx. by eapply IH, istep_ok. }
  by apply (Hrtc _ _ Hr).
Qed.
End layers.

(** C7: images retain their layers.  In every state of the image store, whatever
    its files answer and whatever other clients do with the layer store, an image
    holds one handle of its own on the layer that its configuration describes,
    and no handle is held but those of the images and of the other clients; no
    two images share one.  [Search] finds an image exactly when it is the only
    one whose ID the term abbreviates.  [Delete] returns on every ID, [SetParent]
    on every ID that is a digest, and [Create] on every configuration but those
    that are valid JSON without the key rootfs: on these it panics. *)
Theorem images_retain_layers {L H F} `{!LayerGetReleaser L H, !LayerLaws L H, !StoreBackend F, !ImageJSON} {DG : Digester}
    `{!StoreBackendLaws F} {DL : DigesterLaws} `{!EqDecision H} o (s : store L H F) P :
  ireachable o s P →
  (∀ id m, images s !! id = Some m →
    ∃ c, describes id c ∧ match layer m with Some h => holds (ls s) h c ∧ ¬ o h c | None => c = "" end) ∧
  (∀ id1 id2 m1 m2 h, images s !! id1 = Some m1 → images s !! id2 = Some m2 → layer m1 = Some h → layer m2 = Some h → id1 = id2) ∧
  (∀ h c, holds (ls s) h c → o h c ∨ ∃ id m, images s !! id = Some m ∧ layer m = Some h) ∧
  (∀ h c, o h c → holds (ls s) h c) ∧
  (∀ term, ∃ r, Search term s = Ret r s ∧ ∀ id, r = Ok id ↔
    is_Some (images s !! id) ∧ names term id ∧ ∀ id', is_Some (images s !! id') → names term id' → id' = id) ∧
  (∀ id, ∃ r s', Delete id s = Ret r s') ∧
  (∀ id parent, Validate id = true → ∃ r s', SetParent id parent s = Ret r s') ∧
  (∀ config, (∀ img, Unmarshal config = Ok img → is_Some (RootFS img)) → ∃ r s', Create config s = Ret r s') ∧
  (∀ config img, Unmarshal config = Ok img → RootFS img = None → Create config s = Panic nilDereference).
Proof.
  intros (I & K & _)%ireachable_ok. split_and!.
  - intros id m Hm. destruct (lo_image _ _ I id m Hm) as (c & Hd & Hh). exists c. split; [done|].
    destruct (layer m) as [h|] eqn:El; [|done]. split; [done|]. intros [_ Ho]%(lo_other _ _ I). by apply (Ho id m Hm).
  - apply (lo_inj _ _ I).
  - apply (lo_held _ _ I).
  - intros h c Ho. by apply (lo_other _ _ I).
  - intros term. apply (Search_run o s term I).
  - intros id. destruct (wp_inv _ _ _ (Delete_ok o s id I K)) as (r & s' & E & _). eauto.
  - intros id parent Hv. destruct (wp_inv _ _ _ (SetParent_quiet s id parent Hv)) as (r & s' & E & _). eauto.
  - intros config Hroot. destruct (createSet_quiet s config) as [(img & Eu & Er)|Hset].
    { destruct (Hroot img Eu). congruence. }
    assert (wp (Create config) (λ _ _, True) s) as Hwp.
    { unfold Create. wp_step. wp_apply Hset. intros [[id img]|e] s1 [Q Hd]; [|done].
      wp_apply createRegister_ok; [by eapply layers_ok_quiet|by apply Q|done|done]. }
    destruct (wp_inv _ _ _ Hwp) as (r & s' & E & _). eauto.
  - intros config img Eu Er. unfold Create, createSet, try_bind, mbind, M_bind. by rewrite Eu, Er.
Qed.
