(* ===== verification/ImageTree.v ===== *)
(** The parents and children of images (image/store.go) over the files of
    image/fs.go: what the store keeps in memory agrees with what it has written,
    also after a restart. *)

From Stdlib Require Import Ascii.
From stdpp Require Import sorting.
From S2P Require Import Prelude GoStrings Digest DigestSet GoFS Layer ImageFS ImageStore.

Local Open Scope string_scope.

Section tree.
Context {L H : Type} `{!LayerGetReleaser L H, !LayerLaws L H, !ImageJSON} {DG : Digester} {DL : DigesterLaws} `{!EqDecision H}.
Abbreviation st := (store L H dirTree).
Implicit Types (s : st) (t : dirTree).

(** The file of an image is its configuration. *)
Definition readable t (id : string) (img : Image) : Prop :=
  ∃ c, cont t id = Some c ∧ FromBytes c = id ∧ Unmarshal c = Ok img ∧ is_Some (RootFS img).
Definition canonical (id : string) : Prop := Validate id = true ∧ (digest_parts id).1 = Canonical.
Abbreviation parent t id := (meta t id "parent").

Record tree_ok s : Prop := {
  to_content : has_content (fs s);
  to_image id : is_Some (images s !! id) → canonical id ∧ ∃ img, readable (fs s) id img;
  to_kids p m id : images s !! p = Some m → id ∈ children m ↔ is_Some (images s !! id) ∧ parent (fs s) id = Some p;
  to_parent id p : is_Some (images s !! id) → parent (fs s) id = Some p → is_Some (images s !! p);
  to_stale id : Validate id = true → images s !! id = None → parent (fs s) id = None }.

Lemma set_fs_id s : set_fs (fs s) s = s.
Proof. by destruct s. Qed.

(** ** Reading *)

Lemma GetParent_run s id img : Validate id = true → readable (fs s) id img →
  GetParent id s = Ret (match parent (fs s) id with Some p => Ok p | None => Err (EOther (osErr NotExist)) end) s.
Proof.
  intros Hv (c & Hc & Hid & _). unfold GetParent, on_fs. simpl. rewrite (GetMetadata_run id "parent" c) by done.
  destruct (parent _ _); by rewrite set_fs_id.
Qed.

Lemma Get_run s id img : Validate id = true → readable (fs s) id img → ∃ img', ChainID_ img' = ChainID_ img ∧ computedID img' = id ∧
  Parent img' = default "" (parent (fs s) id) ∧ Get id s = Ret (Ok img') s.
Proof.
  intros Hv Hr. pose proof Hr as (c & Hc & Hid & Eu & [diffs Er]).
  unfold Get, try_bind, mbind, M_bind, on_fs. simpl. rewrite get_run, Hc, decide_True by done. simpl. rewrite set_fs_id.
  unfold NewFromJSON. rewrite Eu, Er. unfold mbind, M_bind. erewrite GetParent_run by done. eexists. split_and!; [| | |done].
  - unfold ChainID_. simpl. by rewrite Er.
  - done.
  - simpl. by destruct (parent _ _).
Qed.

Lemma leaveParent_run s id : tree_ok s → is_Some (images s !! id) →
  leaveParent id s = Ret () (match parent (fs s) id with Some p => upd_children p (.∖ {[id]}) s | None => s end).
Proof.
  intros I Hid. destruct (to_image _ I id Hid) as ([Hv _] & img & Hr). unfold leaveParent, mbind, M_bind.
  rewrite (GetParent_run s id img) by done. by destruct (parent _ _).
Qed.

(** ** Creating *)

(** Writing a configuration. *)
Lemma Set_tree s data img t' : tree_ok s → Unmarshal data = Ok img → is_Some (RootFS img) →
  has_content t' → (∀ id, Validate id = true → cont t' id = if decide (id = FromBytes data) then Some data else cont (fs s) id) →
  (∀ id key, meta t' id key = meta (fs s) id key) → tree_ok (set_fs t' s) ∧ readable t' (FromBytes data) img.
Proof using DL.
  intros [J1 J2 J3 J4 J5] Eu Er Hc Hcont Hmeta. destruct (law_FromBytes data) as [Hv Ha].
  assert (readable t' (FromBytes data) img) as Hr by (exists data; by rewrite Hcont, decide_True).
  split; [|done]. split; simpl; try done.
  - intros id Hid. destruct (J2 id Hid) as ([Hv' Ha'] & img' & c & Hc' & Hrest). split; [done|].
    destruct (decide (id = FromBytes data)) as [->|Hne]; [by exists img|]. exists img', c. by rewrite Hcont, decide_False.
  - intros p m id. rewrite Hmeta. apply J3.
  - intros id p. rewrite Hmeta. apply J4.
  - intros id. rewrite Hmeta. apply J5.
Qed.

(** Registering an image. *)
Lemma register_tree s id img l ds l' : tree_ok s → images s !! id = None → canonical id → readable (fs s) id img →
  tree_ok (mkStore l' (<[id := mkMeta l ∅]> (images s)) (fs s) ds).
Proof.
  intros [J1 J2 J3 J4 J5] Hid Hcan Hr. pose proof (J5 id (proj1 Hcan) Hid) as Hst.
  assert (∀ x, is_Some (<[id := mkMeta l ∅]> (images s) !! x) ↔ x = id ∨ is_Some (images s !! x)) as His.
  { intros x. rewrite lookup_insert_is_Some. split; [intros [<-|[_ ?]]; auto|].
    intros [->|?]; [by left|]. destruct (decide (id = x)); auto. }
  split; simpl; try done.
  - intros x [->|Hx]%His; [split; [done|by exists img]|by apply J2].
  - intros p m x [[<- <-]|[Hne Hp]]%lookup_insert_Some; rewrite His; simpl.
    + rewrite elem_of_empty. split; [done|]. intros [[->|Hx] Hpar]; [congruence|]. destruct (J4 x id Hx Hpar). congruence.
    + rewrite (J3 p m x Hp). split; [naive_solver|]. intros [[->|Hx] Hpar]; [congruence|done].
  - intros x p [->|Hx]%His Hpar; [congruence|]. apply His. right. by eapply J4.
  - intros x Hv Hx. apply lookup_insert_None in Hx as [? ?]. by apply J5.
Qed.

(** The two parts of [Create]: the configuration is written before the lock of the
    store is taken, and registered under it. *)
Definition pending_ok t (id : string) : Prop := canonical id ∧ ∃ img, readable t id img.

Lemma createSet_tree s config : tree_ok s →
  (∃ img, Unmarshal config = Ok img ∧ RootFS img = None) ∨
  wp (createSet config) (λ r s', tree_ok s' ∧ images s' = images s ∧
    (∀ id, pending_ok (fs s) id → pending_ok (fs s') id) ∧
    match r with Ok (id, _) => pending_ok (fs s') id | Err _ => True end) s.
Proof using DL.
  intros T. unfold createSet. destruct (Unmarshal config) as [img|e] eqn:Eu; [|right; by wp_step].
  destruct (RootFS img) as [diffs|] eqn:Er; [right|left; eauto]. case_decide; [by wp_step|].
  destruct (decide (config = "")) as [->|Hne].
  { wp_step. apply wp_on_fs. simpl. unfold Set_. rewrite decide_True by done. by destruct s. }
  destruct (Set_run config (fs s) Hne (to_content _ T)) as (t' & Erun & Hc & Hcont & Hmeta).
  destruct (Set_tree s config img t' T Eu) as [T' Hr]; try done. destruct (law_FromBytes config) as [Hv Ha].
  assert (pending_ok t' (FromBytes config)) as Hp by (split; [done|by exists img]).
  wp_step. apply wp_on_fs. apply (wp_ran _ _ _ _ _ Erun). wp_step. split_and!; try done.
  intros id [Hcan (img' & c & Hcid & Hid & Hrest)]. simpl. destruct (decide (id = FromBytes config)) as [->|]; [done|].
  split; [done|]. exists img', c. by rewrite Hcont, decide_False by (done || apply Hcan).
Qed.

Lemma createRegister_tree o s id img : layers_ok o s → tree_ok s → pending_ok (fs s) id →
  wp (createRegister id img) (λ r s', tree_ok s' ∧ fs s' = fs s ∧
    match r with Ok _ => is_Some (images s' !! id) | Err _ => images s' = images s end) s.
Proof using All.
  intros I T ([Hv Ha] & img' & Hr). unfold createRegister. wp_steps.
  destruct (images s !! id) as [m|] eqn:Hm; [wp_step; split_and!; [done..|by exists m]|].
  wp_step. wp_apply getLayer_spec; [apply I|]. intros [l|e] s1; [|by intros [-> _]]. intros (_ & Ei & Ef & Ed & _).
  wp_steps. rewrite Ed. destruct (Add_spec Canonical id (digestSet s) (lo_set _ _ I) Hv Ha) as (ds & Hadd & _).
  simpl. rewrite Hadd. wp_steps. split_and!; [|done|].
  - unfold set_digestSet, set_images. simpl. rewrite Ei, Ef. by eapply register_tree.
  - rewrite lookup_insert_eq. by eexists.
Qed.

(** ** Deleting *)

Lemma forgetParents_run s ids : Forall (λ id, Validate id = true) ids → ∃ t',
  forgetParents ids s = Ret () (set_fs t' s) ∧ (has_content (fs s) → has_content t') ∧
  (∀ x, cont t' x = cont (fs s) x) ∧
  ∀ x, Validate x = true → parent t' x = if decide (x ∈ ids) then None else parent (fs s) x.
Proof.
  intros Hids. revert s. induction Hids as [|id ids Hv _ IH]; intros s.
  { exists (fs s). rewrite set_fs_id. by split_and!. }
  destruct (DeleteMetadata_run id "parent" (fs s) Hv) as (t1 & E1 & Hh1 & Hc1 & Hm1).
  destruct (IH (set_fs t1 s)) as (t2 & E2 & Hh2 & Hc2 & Hm2). exists t2. split_and!.
  - cbn [forgetParents]. unfold mbind, M_bind, on_fs. simpl. rewrite E1. exact E2.
  - auto.
  - intros x. rewrite Hc2. apply Hc1.
  - intros x Hx. rewrite (Hm2 x Hx). simpl. rewrite (Hm1 x "parent" Hx).
    destruct (decide (x ∈ ids)); [by rewrite (decide_True (P := x ∈ id :: ids)) by by right|].
    destruct (decide (x = id)) as [->|]; [by rewrite !decide_True by (done || by left)|].
    by rewrite !decide_False by (rewrite ?elem_of_cons; naive_solver).
Qed.

(** The state that [Delete] leaves. *)
Lemma remove_tree s id m t' l' ds : tree_ok s → images s !! id = Some m →
  (has_content (fs s) → has_content t') →
  (∀ x, Validate x = true → cont t' x = if decide (x = id) then None else cont (fs s) x) →
  (∀ x, Validate x = true → parent t' x = if decide (x = id ∨ x ∈ children m) then None else parent (fs s) x) →
  tree_ok (mkStore l' (delete id (match parent (fs s) id with
                                  | Some p => if decide (id ∈ children m) then images s
                                              else alter (λ m, mkMeta (layer m) (children m ∖ {[id]})) p (images s)
                                  | None => images s end)) t' ds).
Proof using DL.
  intros [J1 J2 J3 J4 J5] Hm Hh Hc Hp. set (ims := match parent (fs s) id with Some _ => _ | None => _ end).
  assert (∀ x, is_Some (delete id ims !! x) ↔ x ≠ id ∧ is_Some (images s !! x)) as His.
  { intros x. rewrite lookup_delete_is_Some. unfold ims.
    destruct (parent (fs s) id); [case_decide|]; rewrite ?lookup_alter_is_Some; naive_solver. }
  assert (∀ x, is_Some (images s !! x) → Validate x = true) as Hv by (intros x Hx; by apply (J2 x)).
  assert (∀ p m', delete id ims !! p = Some m' → p ≠ id ∧ ∃ m0, images s !! p = Some m0 ∧
    ∀ x, x ∈ children m' ↔ x ∈ children m0 ∧ x ≠ id) as Hkids.
  { intros p m' [Hne Hp']%lookup_delete_Some. split; [done|].
    assert (∀ m0, images s !! p = Some m0 → id ∈ children m0 → parent (fs s) id = Some p ∧ id ∉ children m) as Hid.
    { intros m0 Hm0 Hin. apply (J3 _ _ _ Hm0) in Hin as [_ Hpar]. split; [done|]. intros [_ ?]%(J3 _ _ _ Hm). congruence. }
    unfold ims in Hp'. destruct (parent (fs s) id) as [q|] eqn:Eq; [case_decide as Hin|].
    - exists m'. split; [done|]. intros x. split; [|naive_solver]. intros Hx. split; [done|]. intros ->. by destruct (Hid m' Hp' Hx).
    - apply lookup_alter_Some in Hp' as [(<- & m0 & Hm0 & ->)|[Hqp Hp']]; [exists m0; simpl; set_solver|].
      exists m'. split; [done|]. intros x. split; [|naive_solver]. intros Hx. split; [done|]. intros ->.
      destruct (Hid m' Hp' Hx). congruence.
    - exists m'. split; [done|]. intros x. split; [|naive_solver]. intros Hx. split; [done|]. intros ->. by destruct (Hid m' Hp' Hx). }
  split; simpl; try done.
  - auto.
  - intros x [Hne Hx]%His. destruct (J2 x Hx) as (Hcan & img & c & Hcx & Hrest). split; [done|]. exists img, c.
    by rewrite Hc, decide_False by (done || apply Hcan).
  - intros p m' x Hp'. destruct (Hkids p m' Hp') as (Hne & m0 & Hm0 & Hx). rewrite Hx, His, (J3 p m0 x Hm0). split.
    + intros [[Hxs Hpar] Hxid]. split; [done|]. rewrite Hp by auto. rewrite decide_False; [done|].
      intros [?|[_ ?]%(J3 _ _ _ Hm)]; congruence.
    + intros [[Hxid Hxs] Hpar]. rewrite Hp in Hpar by auto. case_decide; [done|]. done.
  - intros x p [Hxid Hxs]%His Hpar. rewrite Hp in Hpar by auto. case_decide as Hd; [done|]. apply His. split; [|by eapply J4].
    intros ->. apply Hd. right. by apply (J3 _ _ _ Hm).
  - intros x Hvx Hx. rewrite Hp by done. case_decide as Hd; [done|]. apply J5; [done|].
    destruct (images s !! x) eqn:E; [|done]. assert (is_Some (delete id ims !! x)) as [??]; [|congruence].
    apply His. split; [|by eexists]. intros ->. apply Hd. by left.
Qed.
Lemma Delete_tree o s id : layers_ok o s → tree_ok s →
  wp (Delete id) (λ _ s', tree_ok s' ∧
    ∀ x, x ≠ id ∨ images s !! id = None → pending_ok (fs s) x → pending_ok (fs s') x) s.
Proof using All.
  intros I T. unfold Delete. wp_steps. destruct (images s !! id) as [m|] eqn:Hm; [|wp_step; by auto].
  destruct (to_image _ T id) as ([Hv Ha] & img & Hr); [by eexists|].
  destruct (forgetParents_run s (elements (children m))) as (t1 & E1 & Hh1 & Hc1 & Hp1).
  { apply list.Forall_forall. intros c Hc%elem_of_elements. apply (to_kids _ T _ _ _ Hm) in Hc as [Hc _]. by apply (to_image _ T). }
  wp_step. apply (wp_ran _ _ _ _ _ E1). wp_step.
  assert (leaveParent id (set_fs t1 s) = Ret () (match parent t1 id with Some p => upd_children p (.∖ {[id]}) (set_fs t1 s) | None => set_fs t1 s end)) as E2.
  { unfold leaveParent, mbind, M_bind. rewrite (GetParent_run (set_fs t1 s) id img); [simpl; by destruct (parent t1 id)|done|].
    destruct Hr as (c & Hc & Hrest). exists c. simpl. by rewrite Hc1. }
  apply (wp_ran _ _ _ _ _ E2). rewrite (Hp1 id Hv) in *. clear E1 E2.
  set (s2 := match (if decide _ then _ else _) with Some _ => _ | None => _ end).
  assert (images s2 = match parent (fs s) id with
                      | Some p => if decide (id ∈ children m) then images s
                                  else alter (λ m, mkMeta (layer m) (children m ∖ {[id]})) p (images s)
                      | None => images s end ∧ fs s2 = t1 ∧ ls s2 = ls s ∧ digestSet s2 = digestSet s) as (Ei & Ef & El & Ed).
  { unfold s2. destruct (decide (id ∈ elements (children m))) as [Hin|Hin]; rewrite elem_of_elements in Hin.
    - destruct (parent (fs s) id); by rewrite ?decide_True.
    - destruct (parent (fs s) id); by rewrite ?decide_False. }
  clearbody s2. destruct (Remove_spec Canonical id (digestSet s) (lo_set _ _ I) Hv Ha) as (ds & Hrem & _).
  wp_steps. rewrite Ed, Hrem. wp_steps. apply wp_on_fs. simpl. rewrite Ef.
  destruct (Delete_run id t1 Hv) as (r & t2 & E2 & Hh2 & Hc2 & Hp2). apply (wp_ran _ _ _ _ _ E2).
  assert (∀ l', tree_ok (mkStore l' (delete id (images s2)) t2 ds)) as Hend.
  { intros l'. rewrite Ei. apply remove_tree; try done; [auto|..].
    - intros x Hx. rewrite (Hc2 x Hx). by rewrite Hc1.
    - intros x Hx. rewrite (Hp2 x "parent" Hx), (Hp1 x Hx). repeat case_decide; try done; set_solver. }
  assert (∀ x, x ≠ id ∨ Some m = None → pending_ok (fs s) x → pending_ok t2 x) as Hpend.
  { intros x [Hne|?] (Hcan & img' & c & Hcx & Hrest); [|done]. split; [done|]. exists img', c.
    by rewrite Hc2, decide_False, Hc1 by (done || apply Hcan). }
  destruct (layer m) as [h|] eqn:Elm; [|wp_step; by split; [apply Hend|]].
  destruct (lo_image _ _ I id m Hm) as (c & _ & Hh). rewrite Elm in Hh.
  apply wp_on_ls. simpl. rewrite El. wp_apply law_Release; [apply I|exact Hh|]. intros r' l' _. split; [apply Hend|done].
Qed.

(** ** Setting the parent *)

Lemma SetParent_tree s id p : tree_ok s → is_Some (images s !! id) →
  wp (SetParent id p) (λ r s', tree_ok s' ∧ (r = Ok () ↔ is_Some (images s !! p)) ∧ ∀ x, pending_ok (fs s) x → pending_ok (fs s') x) s.
Proof using All.
  intros T Hid. unfold SetParent. wp_steps. destruct (images s !! p) as [mp|] eqn:Hp; [|wp_step; split_and!; [done|split; [done|by intros []]|done]].
  destruct (to_image _ T id Hid) as ([Hv Ha] & img & c & Hc & Hidc & Hrest).
  wp_step. apply (wp_ran _ _ _ _ _ (leaveParent_run s id T Hid)). wp_steps. apply wp_on_fs.
  set (s1 := match parent (fs s) id with Some _ => _ | None => _ end).
  assert (fs s1 = fs s) as Ef by (unfold s1; by destruct (parent (fs s) id)).
  simpl. rewrite Ef. destruct (SetMetadata_run id "parent" p c (fs s)) as (t' & E' & Hh' & Hc' & Hm'); try done.
  apply (wp_ran _ _ _ _ _ E'). split_and!; [|split; [by eexists|done]|].
  2: { intros x (Hcan & img' & c' & Hcx & Hr'). split; [done|]. exists img', c'. simpl. by rewrite <-Hc'. }
  assert (∀ x, is_Some (images (upd_children p ({[id]} ∪.) s1) !! x) ↔ is_Some (images s !! x)) as His.
  { intros x. unfold s1. simpl. rewrite lookup_alter_is_Some. destruct (parent (fs s) id); simpl; by rewrite ?lookup_alter_is_Some. }
  assert (∀ q m', images (upd_children p ({[id]} ∪.) s1) !! q = Some m' → ∃ m, images s !! q = Some m ∧
    ∀ x, x ∈ children m' ↔ if decide (x = id) then q = p else x ∈ children m) as Hkids.
  { intros q m' Hq. assert (∃ m1, images s1 !! q = Some m1 ∧ children m' = if decide (q = p) then {[id]} ∪ children m1 else children m1) as (m1 & Hm1 & ->).
    { simpl in Hq. apply lookup_alter_Some in Hq as [(<- & m1 & ? & ->)|[? ?]]; [exists m1; by rewrite decide_True|exists m'; by rewrite decide_False]. }
    assert (∃ m, images s !! q = Some m ∧ children m1 ≡ children m ∖ {[id]}) as (m & Hm & Hch).
    { unfold s1 in Hm1. destruct (parent (fs s) id) as [q'|] eqn:Eq.
      - simpl in Hm1. apply lookup_alter_Some in Hm1 as [(<- & m & ? & ->)|[Hne ?]]; [by exists m|]. exists m1. split; [done|].
        assert (id ∉ children m1); [|set_solver]. intros [_ ?]%(to_kids _ T q m1); [congruence|done].
      - exists m1. split; [done|]. assert (id ∉ children m1); [|set_solver]. intros [_ ?]%(to_kids _ T q m1); [congruence|done]. }
    exists m. split; [done|]. intros x. repeat case_decide; subst; set_solver. }
  clearbody s1. destruct T as [J1 J2 J3 J4 J5].
  assert (∀ x, is_Some (images s !! x) → Validate x = true) as Hval by (intros x Hx; by apply (J2 x)).
  split; simpl in *.
  - auto.
  - intros x Hx%His. destruct (J2 x Hx) as (Hcan & img' & c' & Hcx & Hr'). split; [done|]. exists img', c'. by rewrite <-Hc'.
  - intros q m' x Hq. destruct (Hkids q m' Hq) as (m & Hm & Hx). rewrite Hx, His. destruct (decide (x = id)) as [->|Hne].
    + rewrite (Hm' id "parent" Hv), decide_True by done. split; [intros ->; done|]. intros [_ [= ->]]. done.
    + rewrite (J3 q m x Hm). split; intros [Hxs Hpar]; (split; [done|]).
      * rewrite Hm', decide_False by (naive_solver || auto). done.
      * rewrite Hm', decide_False in Hpar by (naive_solver || auto). done.
  - intros x q Hx%His Hpar. apply His. rewrite Hm' in Hpar by auto. case_decide; simplify_eq; [by eexists|by eapply J4].
  - intros x Hvx Hx. assert (images s !! x = None) as Hx'.
    { destruct (images s !! x) eqn:E; [|done]. destruct (proj2 (His x)) as [? ?]; [by eexists|]. congruence. }
    rewrite Hm', decide_False; [by apply J5|intros [-> _]; destruct Hid; congruence|done].
Qed.
(** ** Restarting *)

Lemma readable_fun t id img img' : readable t id img → readable t id img' → img = img'.
Proof. intros (c & ? & _ & ? & _) (c' & ? & _ & ? & _). congruence. Qed.

Lemma readable_dec t id : (∃ img, readable t id img) ∨ ∀ img, ¬ readable t id img.
Proof.
  destruct (cont t id) as [c|] eqn:Hc; [|right; intros img (c & ? & _); congruence].
  destruct (decide (FromBytes c = id)); [|right; intros img (c' & ? & ? & _); congruence].
  destruct (Unmarshal c) as [img|] eqn:Hu; [|right; intros img (c' & ? & ? & ? & _); congruence].
  destruct (RootFS img) eqn:Hr; [left; exists img, c; by rewrite Hr|].
  right. intros img' (c' & ? & ? & ? & [? ?]). congruence.
Qed.

Lemma Get_unreadable s id : Validate id = true → (∀ img, ¬ readable (fs s) id img) → ∃ e, Get id s = Ret (Err e) s.
Proof.
  intros Hv Hn. unfold Get, try_bind, mbind, M_bind, on_fs. simpl. rewrite get_run by done.
  destruct (cont (fs s) id) as [c|] eqn:Hc; simpl; [|rewrite set_fs_id; by eexists].
  destruct (decide (FromBytes c = id)) as [Hid|]; simpl; rewrite set_fs_id; [|by eexists].
  unfold NewFromJSON. destruct (Unmarshal c) as [img|] eqn:Eu; [|by eexists].
  destruct (RootFS img) as [diffs|] eqn:Er; [|by eexists].
  destruct (Hn img). exists c. by rewrite Er.
Qed.

(** What [restore] has read of the configurations [ids]. *)
Definition restored s (ids : list string) s' : Prop :=
  (∀ x, is_Some (images s' !! x) ↔ is_Some (images s !! x) ∨ x ∈ ids ∧ ∃ img, readable (fs s) x img) ∧
  (∀ x m, images s' !! x = Some m → images s !! x = Some m ∨ children m = ∅) ∧
  (∀ x img, x ∈ ids → readable (fs s) x img → ChainID_ img = "" ∨ ls_has (ls s) (ChainID_ img)).
(** An image whose layer is not there. *)
Definition missing (l : L) t (id : string) : Prop :=
  ∃ img, readable t id img ∧ ChainID_ img ≠ "" ∧ ¬ ls_has l (ChainID_ img).
Definition same_files s s' : Prop := ls_inv (ls s') ∧ fs s' = fs s ∧ ∀ c, ls_has (ls s') c ↔ ls_has (ls s) c.

Lemma restoreOne_tree s id : ls_inv (ls s) → Validate id = true →
  wp (restoreOne id) (λ r s', same_files s s' ∧
    match r with Ok _ => restored s [id] s' | Err _ => missing (ls s) (fs s) id end) s.
Proof using All.
  intros I Hv. unfold restoreOne. wp_step. destruct (readable_dec (fs s) id) as [[img Hr]|Hn].
  2: { destruct (Get_unreadable s id Hv Hn) as [e E]. apply (wp_ran _ _ _ _ _ E). wp_step. split; [done|].
       split_and!; [|by left|].
       - intros x. split; [by left|]. intros [?|[->%list_elem_of_singleton [img ?]]]; [done|by destruct (Hn img)].
       - intros x img ->%list_elem_of_singleton ?. by destruct (Hn img). }
  destruct (Get_run s id img Hv Hr) as (img' & Ec & _ & _ & E). apply (wp_ran _ _ _ _ _ E).
  wp_step. wp_apply getLayer_spec; [done|]. intros [l|e] s1; [|intros (-> & ? & ?); split; [done|]; exists img; by rewrite <-Ec].
  intros (I1 & Ei & Ef & Ed & Hhas & Hl). wp_steps. unfold Add at 1. rewrite (Validate_ParseDigest id Hv).
  destruct (match digestSet s1 !! _ with Some _ => _ | None => _ end) as [ds|e] eqn:Eds; [|by repeat case_match].
  wp_steps. split; [done|]. unfold restored. simpl. rewrite Ei. split_and!.
  - intros x. rewrite lookup_insert_is_Some, list_elem_of_singleton. destruct (decide (id = x)) as [<-|]; naive_solver.
  - intros x m [[<- <-]|[_ ?]]%lookup_insert_Some; auto.
  - intros x img0 ->%list_elem_of_singleton Hr0. rewrite (readable_fun _ _ _ _ Hr0 Hr), <-Ec.
    destruct l as [h|]; [right|left]; apply Hl.
Qed.

Lemma restored_trans s s1 s2 id ids : fs s1 = fs s → (∀ c, ls_has (ls s1) c ↔ ls_has (ls s) c) →
  restored s [id] s1 → restored s1 ids s2 → restored s (id :: ids) s2.
Proof.
  intros Ef Hhas (A1 & A2 & A3) (B1 & B2 & B3). rewrite Ef in *. split_and!.
  - intros x. rewrite B1, A1, list_elem_of_singleton, elem_of_cons. naive_solver.
  - intros x m [Hm|?]%B2; [by apply A2|by right].
  - intros x img [->|Hx]%elem_of_cons Hr; [apply (A3 id img); [by apply list_elem_of_singleton|done]|]. rewrite <-Hhas. by apply (B3 x img).
Qed.

Lemma restoreAll_tree s ids : ls_inv (ls s) → Forall (λ id, Validate id = true) ids →
  wp (restoreAll ids) (λ r s', same_files s s' ∧
    match r with Ok _ => restored s ids s' | Err _ => ∃ x, x ∈ ids ∧ missing (ls s) (fs s) x end) s.
Proof using All.
  intros I Hv. revert s I. induction Hv as [|id ids Hid _ IH]; intros s I.
  { apply wp_ret. split; [done|]. split_and!; [|by left|by intros ? ? ?%elem_of_nil].
    intros x. split; [by left|]. by intros [?|[?%elem_of_nil _]]. }
  cbn [restoreAll]. wp_step. wp_apply restoreOne_tree; [done..|]. intros [[]|e] s1 [(I1 & Ef1 & Hh1) R1].
  2: { split; [done|]. exists id. split; [by left|done]. }
  wp_apply IH; [done|]. intros r s2 [(I2 & Ef2 & Hh2) R2]. split.
  - split_and!; [done|congruence|]. intros c. by rewrite Hh2, Hh1.
  - destruct r; [by eapply restored_trans|]. destruct R2 as (x & Hx & img & Hr & Hc & Hn). exists x. split; [by right|].
    exists img. rewrite <-Ef1, <-Hh1. done.
Qed.

(** The children that the second pass fills in. *)
Lemma fillChildren_tree s ids : (∀ x, x ∈ ids → Validate x = true ∧ ∃ img, readable (fs s) x img) →
  wp (fillChildren ids) (λ r s', r = Ok () ∧ ls s' = ls s ∧ fs s' = fs s ∧ (∀ x, is_Some (images s' !! x) ↔ is_Some (images s !! x)) ∧
    ∀ p m', images s' !! p = Some m' → ∃ m, images s !! p = Some m ∧
      ∀ x, x ∈ children m' ↔ x ∈ children m ∨ x ∈ ids ∧ parent (fs s) x = Some p) s.
Proof using All.
  revert s. induction ids as [|id ids IH]; intros s Hids.
  { apply wp_ret. split_and!; try done. intros p m' Hm. exists m'. split; [done|]. intros x.
    split; [by left|]. by intros [?|[?%elem_of_nil _]]. }
  cbn [fillChildren]. destruct (Hids id) as (Hv & img & Hr); [by left|]. wp_step.
  apply (wp_ran _ _ _ _ _ (GetParent_run s id img Hv Hr)). wp_step.
  set (s1 := match parent (fs s) id with Some p => upd_children p ({[id]} ∪.) s | None => s end).
  assert (fs s1 = fs s ∧ ls s1 = ls s ∧ (∀ x, is_Some (images s1 !! x) ↔ is_Some (images s !! x)) ∧
    ∀ p m', images s1 !! p = Some m' → ∃ m, images s !! p = Some m ∧
      ∀ x, x ∈ children m' ↔ x ∈ children m ∨ x = id ∧ parent (fs s) id = Some p) as (Ef & El & His & Hk).
  { unfold s1. destruct (parent (fs s) id) as [q|]; split_and!; try done; simpl.
    - intros x. by rewrite lookup_alter_is_Some.
    - intros p m' [(<- & m & Hm & ->)|[Hne Hm]]%lookup_alter_Some; [exists m|exists m']; (split; [done|]); intros x; simpl.
      + rewrite elem_of_union, elem_of_singleton. tauto.
      + split; [by left|]. intros [?|[_ ?]]; [done|congruence].
    - intros p m' Hm. exists m'. split; [done|]. intros x. split; [by left|]. by intros [?|[_ ?]]. }
  assert (wp (fillChildren ids) (λ r s', r = Ok () ∧ ls s' = ls s1 ∧ fs s' = fs s1 ∧ (∀ x, is_Some (images s' !! x) ↔ is_Some (images s1 !! x)) ∧
    ∀ p m', images s' !! p = Some m' → ∃ m, images s1 !! p = Some m ∧
      ∀ x, x ∈ children m' ↔ x ∈ children m ∨ x ∈ ids ∧ parent (fs s1) x = Some p) s1) as Hrest.
  { apply IH. intros x Hx. rewrite Ef. apply Hids. by right. }
  apply (wp_mono _ _ (λ r s', r = Ok () ∧ ls s' = ls s ∧ fs s' = fs s ∧ (∀ x, is_Some (images s' !! x) ↔ is_Some (images s !! x)) ∧
    ∀ p m', images s' !! p = Some m' → ∃ m, images s !! p = Some m ∧
      ∀ x, x ∈ children m' ↔ x ∈ children m ∨ x ∈ id :: ids ∧ parent (fs s) x = Some p)) in Hrest.
  2: { intros r s2 (-> & El2 & Ef2 & His2 & Hk2). split_and!; [done|congruence..| |].
       - intros x. by rewrite His2, His.
       - intros p m2 (m1 & Hm1 & Hx1)%Hk2. destruct (Hk p m1 Hm1) as (m & Hm & Hx). exists m. split; [done|].
         intros x. rewrite Hx1, Hx, Ef, elem_of_cons. clear. naive_solver. }
  unfold s1 in Hrest. by destruct (parent (fs s) id).
Qed.
(** The configurations that [Walk] finds. *)
Lemma Walk_tree t : has_content t → wp fs_Walk (λ r t', t' = t ∧ ∃ ids, r = Ok ids ∧
  (∀ x, x ∈ ids → canonical x) ∧ ∀ x c, canonical x → cont t x = Some c → x ∈ ids) t.
Proof.
  intros [files Hf]. simpl. unfold Walk. wp_steps. split; [done|]. unfold ReadNames. rewrite Hf. eexists. split; [done|].
  assert (∀ n, digest_parts (Canonical +:+ ":" +:+ n) = (Canonical, n)) as Hparts by done.
  split.
  - intros x [Hv (n & -> & _)%list_elem_of_fmap]%list_elem_of_filter. split; [done|]. by rewrite Hparts.
  - intros x c [Hv Ha] Hc. apply list_elem_of_filter. split; [done|]. apply list_elem_of_fmap.
    destruct (Validate_parts x Hv) as (a & h & E & -> & _). rewrite E in Ha. simpl in Ha. subst a. exists h. split; [done|].
    rewrite merge_sort_Permutation. apply elem_of_elements, elem_of_union_l, elem_of_dom.
    unfold cont in Hc. rewrite E in Hc. simpl in Hc. rewrite Hf in Hc. by exists c.
Qed.

(** A restart: it fails when the layer of an image is missing; otherwise the
    images are those that can be read, with their children. *)
Lemma NewImageStore_tree t l : has_content t → ls_inv l → ∃ r s', NewImageStore t l = Ret r s' ∧
  match r with
  | Ok _ => fs s' = t ∧ (∀ x, is_Some (images s' !! x) ↔ canonical x ∧ ∃ img, readable t x img) ∧
      (∀ p m x, images s' !! p = Some m → x ∈ children m ↔ is_Some (images s' !! x) ∧ parent t x = Some p) ∧
      ∀ x, canonical x → ¬ missing l t x
  | Err _ => ∃ x, canonical x ∧ missing l t x
  end.
Proof using All.
  intros Hc I. unfold NewImageStore. apply wp_inv. unfold restore. wp_step. apply wp_on_fs. wp_apply Walk_tree; [done|].
  intros r t' (-> & ids & -> & Hids & Hall). wp_step. wp_apply restoreAll_tree; [done|..].
  { apply list.Forall_forall. intros x Hx. by apply Hids. }
  intros [[]|e] s1 [(I1 & Ef & Hh) R]; [|destruct R as (x & Hx & Hm); exists x; split; [by apply Hids|done]].
  simpl in Ef. destruct R as (A1 & A2 & A3). simpl in A1, A2, A3.
  assert (∀ x, is_Some (images s1 !! x) ↔ canonical x ∧ ∃ img, readable t x img) as His.
  { intros x. rewrite A1, lookup_empty. split.
    - intros [[]|[Hx ?]]; [done|]. split; [by apply Hids|done].
    - intros [Hcan [img Hr]]. right. split; [|by exists img]. destruct Hr as (c & Hcx & _). by eapply Hall. }
  wp_steps. wp_apply fillChildren_tree.
  { intros x ([x' m] & -> & Hm%elem_of_map_to_list)%list_elem_of_fmap. simpl.
    destruct (proj1 (His x')) as [[Hv _] Hr]; [by eexists|]. split; [done|]. by rewrite Ef. }
  intros r s2 (-> & El2 & Ef2 & His2 & Hk). split_and!.
  - congruence.
  - intros x. by rewrite His2.
  - intros p m x Hm. destruct (Hk p m Hm) as (m1 & Hm1 & ->). rewrite His2, Ef.
    destruct (A2 p m1 Hm1) as [E| ->]; [by rewrite lookup_empty in E|].
    rewrite elem_of_empty, list_elem_of_fmap. split.
    + intros [[]|[Hx ?]]. destruct Hx as ([x' m'] & -> & Hm'%elem_of_map_to_list). split; [by eexists|done].
    + intros [[m' Hm'] ?]. right. split; [|done]. exists (x, m'). split; [done|]. by apply elem_of_map_to_list.
  - intros x Hcan (img & Hr & Hch & Hn). destruct Hr as (c & Hcx & Hrest).
    destruct (A3 x img) as [?|?]; [by eapply Hall|by exists c|done..].
Qed.
(** ** The store over its life *)

(** Calls, what other clients do to the layers, and restarts on the same files
    with any layer store; [P] are the configurations that a [Create] has written and
    not yet registered.  Two things clients do not do: they do not delete an image
    while a [Create] of its configuration is between its two parts, and they do not
    call [SetParent] for an ID that is no image.  ImageSystem.v shows what becomes
    of the store when they do. *)
Inductive tstep : st * list (string * Image) → st * list (string * Image) → Prop :=
| tstep_set s P config id img s' :
    createSet config s = Ret (Ok (id, img)) s' → tstep (s, P) (s', (id, img) :: P)
| tstep_refused s P config e s' :
    createSet config s = Ret (Err e) s' → tstep (s, P) (s', P)
| tstep_register s P P' id img r s' :
    createRegister id img s = Ret r s' → tstep (s, (P ++ (id, img) :: P')%list) (s', (P ++ P')%list)
| tstep_delete s P id r s' : images s !! id = None ∨ id ∉ P.*1 → Delete id s = Ret r s' → tstep (s, P) (s', P)
| tstep_parent s P id p r s' : is_Some (images s !! id) → SetParent id p s = Ret r s' → tstep (s, P) (s', P)
| tstep_layers s P l' : ls_inv l' →
    (∀ id m h c, images s !! id = Some m → layer m = Some h → holds (ls s) h c → holds l' h c) → tstep (s, P) (set_ls l' s, P)
| tstep_restart s P l' s' : ls_inv l' → NewImageStore (fs s) l' = Ret (Ok ()) s' → tstep (s, P) (s', []).

Definition emptyTree : dirTree := newFSStore (mkFMS ∅ 0).
Definition treachable s (P : list (string * Image)) : Prop :=
  ∃ l s0, ls_inv l ∧ NewImageStore emptyTree l = Ret (Ok ()) s0 ∧ rtc tstep (s0, []) (s, P).

Definition all_ok s : Prop := (∃ o, layers_ok o s) ∧ kids_ok s ∧ tree_ok s.
Definition life_ok (x : st * list (string * Image)) : Prop :=
  all_ok x.1 ∧ Forall (λ p, describes p.1 (ChainID_ p.2) ∧ pending_ok (fs x.1) p.1) x.2.

Lemma restarted_tree t l s' : has_content t → ls_inv l → NewImageStore t l = Ret (Ok ()) s' →
  (∀ x p, canonical x → (∃ img, readable t x img) → parent t x = Some p → canonical p ∧ ∃ img, readable t p img) →
  (∀ x, Validate x = true → (¬ canonical x ∨ ∀ img, ¬ readable t x img) → parent t x = None) → all_ok s'.
Proof using All.
  intros Hc I E Hpar Hst. destruct (NewImageStore_tree t l Hc I) as (r & s1 & E1 & Hr). rewrite E in E1. simplify_eq.
  destruct Hr as (Ef & His & Hk & _). pose proof (wp_run _ _ _ _ _ (restore_ok l t I) E) as [Hl Hkids].
  split_and!; [by eexists|done|]. split; rewrite ?Ef; try done.
  - intros id Hid%His. done.
  - intros id p [Hcan Hr]%His Hp. by apply His, (Hpar id).
  - intros id Hv Hid. apply Hst; [done|]. destruct (readable_dec t id) as [Hr|Hn]; [left|by right].
    intros Hcan. destruct (proj2 (His id)) as [??]; [done|congruence].
Qed.

Lemma createSet_life o s P config r s' : layers_ok o s → kids_ok s → tree_ok s →
  Forall (λ p, describes p.1 (ChainID_ p.2) ∧ pending_ok (fs s) p.1) P → createSet config s = Ret r s' →
  life_ok (s', match r with Ok p => p :: P | Err _ => P end).
Proof using All.
  intros I K T HP E. destruct (createSet_quiet s config) as [(img & Eu & Er)|Hq].
  { unfold createSet in E. by rewrite Eu, Er in E. }
  destruct (createSet_tree s config T) as [(img & Eu & Er)|Ht].
  { unfold createSet in E. by rewrite Eu, Er in E. }
  apply (wp_run _ _ _ _ _ Hq) in E as HQ. destruct HQ as [Q Hd].
  apply (wp_run _ _ _ _ _ Ht) in E as (T' & _ & Hkeep & Hnew).
  split; [split_and!; [exists o; by eapply layers_ok_quiet|by apply Q|done]|].
  assert (Forall (λ p, describes p.1 (ChainID_ p.2) ∧ pending_ok (fs s') p.1) P) as HP'.
  { eapply list.Forall_impl; [exact HP|]. intros p [? ?]. split; [done|by apply Hkeep]. }
  destruct r as [[id img]|e]; [by constructor|done].
Qed.

Lemma tstep_ok x y : tstep x y → life_ok x → life_ok y.
Proof using All.
  intros Hst. destruct Hst as [s P config id img s' E|s P config e s' E|s P P' id img r s' E|s P id r s' Hid E|s P id p r s' Hid E|s P l' I' Hk|s P l' s' I' E];
    intros [([o I] & K & T) HP]; simpl in *.
  - by apply (createSet_life o s P config (Ok (id, img)) s').
  - by apply (createSet_life o s P config (Err e) s').
  - apply Forall_app in HP as [HP [[Hd Hpe] HP']%list.Forall_cons].
    apply (wp_run _ _ _ _ _ (createRegister_ok o s id img I K Hd)) in E as HI. destruct HI.
    apply (wp_run _ _ _ _ _ (createRegister_tree o s id img I T Hpe)) in E as (T' & Ef & _).
    split; [split_and!; [by eexists|done..]|]. simpl. rewrite Ef. by apply Forall_app.
  - apply (wp_run _ _ _ _ _ (Delete_ok o s id I K)) in E as HI. destruct HI.
    apply (wp_run _ _ _ _ _ (Delete_tree o s id I T)) in E as [T' Hkeep].
    split; [split_and!; [by eexists|done..]|]. apply list.Forall_forall. intros p Hp.
    destruct (proj1 (list.Forall_forall _ _) HP p Hp) as [? Hpe]. split; [done|]. apply Hkeep; [|done].
    destruct Hid as [?|Hid]; [by right|left]. intros <-. apply Hid, list_elem_of_fmap. by exists p.
  - destruct (to_image _ T id Hid) as ([Hv _] & _). apply (wp_run _ _ _ _ _ (SetParent_quiet s id p Hv)) in E as Q.
    apply (wp_run _ _ _ _ _ (SetParent_tree s id p T Hid)) in E as (T' & _ & Hkeep).
    split; [split_and!; [exists o; by eapply layers_ok_quiet|by apply Q|done]|].
    eapply list.Forall_impl; [exact HP|]. intros q [? ?]. split; [done|by apply Hkeep].
  - split; [|done]. split_and!; [eexists; by apply (layers_env_ok o)|done|]. by destruct T.
  - split; [|by constructor]. apply (restarted_tree (fs s) l'); try done; [apply T|..].
    + intros x q Hcan Hr Hp. apply (to_image _ T). destruct (images s !! x) eqn:Hx; [by eapply (to_parent _ T); [eexists|]|].
      rewrite (to_stale _ T x (proj1 Hcan) Hx) in Hp. done.
    + intros x Hv Hn. apply (to_stale _ T); [done|]. destruct (images s !! x) eqn:Hx; [|done].
      destruct (to_image _ T x) as [Hcan [img Hr]]; [by eexists|]. by destruct Hn as [?|Hn]; [|destruct (Hn img)].
Qed.

Lemma emptyTree_ok : has_content emptyTree ∧ (∀ id, cont emptyTree id = None) ∧ ∀ id key, meta emptyTree id key = None.
Proof.
  assert (∀ q f, dirs emptyTree !! q = Some f → f = ∅) as Hd.
  { intros q f. unfold emptyTree, newFSStore. rewrite !MkdirAll_lookup. cbn [dirs]. rewrite lookup_empty.
    repeat case_decide; by intros [= <-]. }
  split_and!.
  - unfold has_content. by vm_compute; eexists.
  - intros id. unfold cont. destruct (dirs emptyTree !! _) as [f|] eqn:E; [|done]. by rewrite (Hd _ _ E).
  - intros id key. unfold meta. destruct (dirs emptyTree !! _) as [f|] eqn:E; [|done]. by rewrite (Hd _ _ E).
Qed.

Lemma treachable_ok s P : treachable s P → all_ok s.
Proof using All.
  intros (l & s0 & I & E & Hr). destruct emptyTree_ok as (Hc & Hcont & Hmeta).
  assert (all_ok s0) as Hs0.
  { revert E Hc Hcont Hmeta. generalize emptyTree. intros t E Hc Hcont Hmeta. apply (restarted_tree t l s0 Hc I E).
    - intros x p _ [img (c & Hx & _)]. by rewrite Hcont in Hx.
    - intros x _ _. apply Hmeta. }
  assert (∀ x y, rtc tstep x y → life_ok x → life_ok y) as Hrtc.
  { induction 1 as [|x y z Hxy _ IH]; [done|]. intros Hx. by eapply IH, tstep_ok. }
  apply (Hrtc _ _ Hr). split; [done|by constructor].
Qed.

(** ** Heads *)

Lemma collect_run s all ids : (∀ x, x ∈ ids → Validate x = true ∧ ∃ img, readable (fs s) x img) → ∃ m,
  collect all ids s = Ret m s ∧ ∀ x, is_Some (m !! x) ↔ x ∈ ids ∧ (all = true ∨ Children x s = ∅).
Proof.
  induction ids as [|id ids IH]; intros Hids.
  { exists ∅. split; [done|]. intros x. rewrite lookup_empty. split; [by intros []|by intros [?%elem_of_nil _]]. }
  destruct IH as (m & Em & Hm); [intros x Hx; apply Hids; by right|]. destruct (Hids id) as (Hv & img & Hr); [by left|].
  cbn [collect]. unfold mbind, M_bind, read. destruct (negb all && _) eqn:Ekeep.
  - exists m. split; [exact Em|]. intros x. rewrite Hm, elem_of_cons.
    apply andb_true_iff in Ekeep as [Ea%negb_true_iff Ek%bool_decide_eq_true]. split; [naive_solver|].
    intros [[->|?] Ho]; [|done]. destruct Ho; congruence.
  - destruct (Get_run s id img Hv Hr) as (img' & _ & _ & _ & E). rewrite E, Em. exists (<[id := img']> m). split; [done|].
    intros x. rewrite lookup_insert_is_Some, Hm, elem_of_cons.
    assert (all = true ∨ Children id s = ∅).
    { destruct all; [by left|]. right. simpl in Ekeep. apply bool_decide_eq_false in Ekeep. by apply dec_stable. }
    destruct (decide (id = x)) as [<-|]; naive_solver.
Qed.
End tree.

