(* ===== verification/ImageSystem.v ===== *)
(** The image store on top of the layer store: the layer store keeps the promise
    of [LayerGetReleaser], and a concrete system of both, with files and a
    digester, on which the theorems about images are evaluated. *)

From Stdlib Require Import Ascii.
From S2P Require Import Prelude GoStrings Digest DigestSet GoFS Layer LayerStore LayerInv LayerProofs LayerMounts LayerSystem.
From S2P Require Import ImageFS ImageStore ImageTree.

Local Open Scope string_scope.

#[export] Instance Layer_eq_dec : EqDecision Layer.
Proof. solve_decision. Defined.

Section instance.
Context {D MS Tx : Type} `{!GraphDriver D} `{!MetadataStore MS Tx} {DG : Digester} `{!TarSplit}.
Abbreviation lstore := (layerStore D MS).

#[export] Instance layer_get_releaser : LayerGetReleaser lstore Layer := {
  ls_Get := LayerStore.Get;
  ls_Release := LayerStore.Release }.

(** A handle on the layer with the chain ID [c]. *)
Definition retains (s : lstore) (ref : Layer) (c : ChainID) : Prop :=
  match ref with
  | RefLayer r l => ∃ id, handle s r l id ∧ id.1.1.1.1 = c
  | _ => False
  end.

Lemma retains_fresh good held (s : lstore) l c : Inv good held s → ¬ retains s (RefLayer (next s) l) c.
Proof.
  intros I (id & (rl & Hrl & _ & Hr & _) & _). destruct (inv_fresh _ _ _ _ _ _ _ I l rl Hrl) as [_ Hf].
  specialize (Hf _ Hr). lia.
Qed.

(** What [Get] does to the handles. *)
Lemma Get_handles good held (s : lstore) c : Inv good held s →
  wp (LayerStore.Get c) (λ r s', layerMap s' = layerMap s ∧
    match r with
    | Ok h => is_Some (layerMap s !! c) ∧ (∀ c', ¬ retains s h c') ∧
        ∀ h' c', retains s' h' c' ↔ retains s h' c' ∨ h' = h ∧ c' = c
    | Err _ => layerMap s !! c = None ∧ s' = s
    end) s.
Proof.
  intros I. unfold LayerStore.Get. wp_step. wp_apply getWithoutLock_spec; [done|].
  intros [l|] s1 (El1 & Em1 & Ems1 & H1); [|by destruct H1 as [? ->]].
  destruct H1 as (Hc & I1 & Hs1 & Eh1).
  destruct (inv_layer _ _ _ _ _ _ _ I c l Hc) as (rl & Hrl & Hch).
  assert (heap s1 !! l = Some (set_referenceCount Z.succ rl)) as Hrl1 by (by rewrite Eh1, lookup_alter_eq, Hrl).
  wp_step. wp_apply (getReference_spec good held s1 l); [done|exact Hrl1|].
  intros r s2 (-> & I2 & El2 & Em2 & Ems2 & K2 & Hh & Eh2). wp_step. split; [congruence|]. split; [by eexists|].
  assert (∀ h' c', retains s1 h' c' ↔ retains s h' c') as Hr1.
  { intros [r' l'|?|?] c'; [|done..]. simpl. split; intros (id & Hid & ?); exists id; (split; [by apply Hs1|done]). }
  split; [intros c' Hr%Hr1; exact (retains_fresh _ _ s1 l c' I1 Hr)|].
  intros [r' l'|l'|c0] c'; rewrite <-Hr1; simpl; [|naive_solver..]. split.
  - intros (id & (rl' & Hrl' & Hc' & Hr' & Hid) & Hcc). rewrite Eh2 in Hrl'. rewrite El2 in Hc'.
    destruct (decide (l = l')) as [<-|Hne].
    + rewrite lookup_alter_eq, Hrl1 in Hrl'. simplify_eq/=. apply elem_of_union in Hr' as [->%elem_of_singleton|Hr']; [by right|].
      left. eexists. split; [exists (set_referenceCount Z.succ rl); by split_and!|done].
    + rewrite lookup_alter_ne in Hrl' by done. left. exists id. split; [by exists rl'|done].
  - intros [(id & Hid & Hcc)|[[= -> ->] ->]]; [exists id; split; [by apply K2|done]|].
    eexists. split; [exact Hh|]. by rewrite <-Hch.
Qed.

#[export] Program Instance layer_laws : LayerLaws lstore Layer := {
  ls_inv s := ∃ held, reachable (s, held);
  ls_has s c := is_Some (layerMap s !! c);
  holds := retains }.
Next Obligation.
  intros s c (held & Hr). pose proof (reachable_Inv _ Hr) as I. simpl in I.
  destruct (wp_inv _ _ _ (Get_handles _ _ _ c I)) as (r & s' & E & El & Hres). apply (wp_ran _ _ _ _ _ E).
  split; [exists held; destruct Hr as (st & d & Hr); exists st, d; eapply rtc_r; [exact Hr|]|].
  { apply (step_op (OpGet c)); [done|]. simpl. unfold mbind, M_bind. by rewrite E. }
  split; [by rewrite El|]. destruct r as [h|e]; [done|]. destruct Hres as [Hn ->]. split; [|done].
  rewrite Hn. by intros [].
Qed.
Next Obligation.
  intros s [r l|l|c0] c (held & Hr) Hh; [|done..]. pose proof (reachable_Inv _ Hr) as I. simpl in I.
  destruct Hh as (id & Hid & Hc). pose proof Hid as (rl & Hrl & Hlm & _).
  assert (layer_valid s (RefLayer r l)) as Hv by by exists rl.
  destruct (wp_inv _ _ _ (Release_spec _ _ _ _ I Hv)) as (res & s' & E & _ & _ & _ & Hres). apply (wp_ran _ _ _ _ _ E). split.
  { exists held. destruct Hr as (st & d & Hr). exists st, d. eapply rtc_r; [exact Hr|].
    apply (step_op (OpRelease (RefLayer r l))); [done|]. simpl. unfold mbind, M_bind. by rewrite E. }
  destruct Hres as [(_ & _ & Hno)|(r1 & l0 & l1 & [= <- <-] & _ & Hrel & _ & rl0 & Hrl0 & Hl1)]; [by destruct (Hno r l id eq_refl)|].
  assert (rl0 = rl) as -> by congruence. assert (l1 = l) as -> by congruence.
  intros [r' l'|l'|c'] c'0; [|naive_solver..]. simpl. split.
  - intros (id' & [Hh' Hne]%Hrel & ?). split; [by exists id'|]. intros [= -> ->]. by apply Hne.
  - intros [(id' & Hh' & ?) Hne]. exists id'. split; [|done]. apply Hrel. split; [done|]. intros [-> ->]. done.
Qed.
End instance.

(** ** A concrete system *)

(** A digester that writes the bytes of the text as hexadecimal digits, modulo
    the size of a digest. *)
Fixpoint hexdigits (n : nat) (z : Z) : string :=
  match n with
  | O => ""
  | S n =>
      let k := Z.to_N (z `mod` 16) in
      String (ascii_of_N (if (k <? 10)%N then 48 + k else 87 + k)) (hexdigits n (z / 16))
  end.
Fixpoint bytes_value (s : string) : Z :=
  match s with "" => 0 | String c s => Z.of_N (N_of_ascii c) + 256 * bytes_value s end.

Lemma hexdigits_ok n z : String.length (hexdigits n z) = n ∧ string_forallb IsXDigit (hexdigits n z) = true.
Proof.
  revert z. induction n as [|n IH]; intros z; [done|]. cbn [hexdigits String.length string_forallb].
  destruct (IH (z / 16)%Z) as [-> ->]. split; [done|]. rewrite andb_true_r.
  pose proof (Z.mod_pos_bound z 16 ltac:(lia)) as Hk. set (k := Z.to_N (z `mod` 16)). assert (k < 16)%N as Hlt by lia.
  clearbody k. clear Hk. unfold IsXDigit, IsHex, IsDigit, code.
  destruct (N.ltb_spec k 10); rewrite N_ascii_embedding by lia; apply orb_true_iff; left; apply orb_true_iff;
    [left|right]; apply bool_decide_eq_true; lia.
Qed.

Module ConcreteImages.
#[export] Instance digester_hex : Digester := λ s, "sha256:" +:+ hexdigits 64 (bytes_value s).
#[export] Instance digester_laws : DigesterLaws.
Proof.
  intros data. unfold FromBytes, digester_hex. destruct (hexdigits_ok 64 (bytes_value data)) as [Hl Hx].
  set (h := hexdigits 64 _) in *. clearbody h. split; [|done].
  unfold Validate, ParseDigest, DigestRegexpAnchored.
  change (cut ":" ("sha256:" +:+ h)) with (Some ("sha256", h)). cbv beta iota. rewrite Hx.
  rewrite (bool_decide_eq_false_2 (h = "")) by (intros ->; done). simpl.
  rewrite decide_False by (intros ->; done). by rewrite decide_True.
Qed.

(** A configuration is the diff ID of the only layer, or empty. *)
#[export] Instance plain_json : ImageJSON := λ s,
  Ok (mkImg "" (Some (if decide (s = "{}") then [] else [s])) [] "" "").

#[local] Existing Instances LayerSystem.Concrete.driver_unit LayerSystem.Concrete.store_unit LayerSystem.Concrete.tar_any.

Abbreviation layers := (layerStore unit unit).
Definition ran {S A} (d : S) (o : outcome S A) : S := match o with Ret _ s => s | _ => d end.

(** A layer store with one layer, whose handle another client holds. *)
Definition register : M layers unit := exec (OpRegister "cache-a" "tar-a" "" emptyDescriptor).
Definition layers0 : layers := Eval vm_compute in ran (emptyStore () ()) (register (emptyStore () ())).
Definition chain0 : ChainID := Eval vm_compute in FromBytes "tar-a".

Lemma layers0_inv : ls_inv layers0.
Proof.
  exists [], (), (). apply rtc_once, (step_op (OpRegister "cache-a" "tar-a" "" emptyDescriptor)); [exact I|]. by_vm.
Qed.

(** An image without layers, an image of that layer, and the first made the
    parent of the second. *)
Abbreviation system := (store layers Layer dirTree).
Definition base : string := Eval vm_compute in FromBytes "{}".
Definition top : string := Eval vm_compute in FromBytes chain0.
Definition empty0 : system := mkStore layers0 ∅ emptyTree [].
Definition s0 : system := Eval vm_compute in ran empty0 (NewImageStore emptyTree layers0).
Definition s1 : system := Eval vm_compute in ran s0 (Create "{}" s0).
Definition s2 : system := Eval vm_compute in ran s1 (Create chain0 s1).
Definition s3 : system := Eval vm_compute in ran s2 (SetParent top base s2).
Definition restart : system := Eval vm_compute in ran s3 (NewImageStore (fs s3) layers0).

(** The configuration of the second image, written and not yet registered. *)
Definition image0 : Image := Eval vm_compute in mkImg "" (Some [chain0]) [] "" "".
Definition set2 : system := Eval vm_compute in ran s0 (createSet chain0 s0).
Definition r2 : system := Eval vm_compute in ran set2 (createRegister top image0 set2).

Definition meta0 : imageMeta Layer := Eval vm_compute in default (mkMeta None ∅) (images r2 !! top).

Lemma r2_reachable : ireachable (holds layers0) r2 [].
Proof.
  exists layers0, emptyTree, s0. refine (conj layers0_inv (conj _ _)); [by_vm|].
  eapply rtc_l; [apply (istep_set _ s0 [] chain0 top image0 set2); by_vm|].
  apply rtc_once, (istep_register _ set2 [] [] top image0 (Ok top) r2). by_vm.
Qed.

(** The image holds a handle of its own on the layer; its ID can be abbreviated
    and it can be deleted. *)
Lemma images_retain_layers_witness :
  (∃ m c, images r2 !! top = Some m ∧ describes top c ∧
    match layer m with Some h => holds (ls r2) h c ∧ ¬ holds layers0 h c | None => c = "" end) ∧
  ∃ r s', Delete top r2 = Ret r s'.
Proof.
  destruct (images_retain_layers (holds layers0) r2 [] r2_reachable) as (H1 & _ & _ & _ & _ & H6 & _).
  assert (images r2 !! top = Some meta0) as Hm by by_vm.
  destruct (H1 top meta0 Hm) as (c & Hd & Hh). split; [|exact (H6 top)].
  exists meta0, c. exact (conj Hm (conj Hd Hh)).
Defined.

(** The two calls of [Create] overlap. *)
Definition image1 : Image := Eval vm_compute in mkImg "" (Some []) [] "" "".
Definition set1 : system := Eval vm_compute in ran s0 (createSet "{}" s0).
Definition set12 : system := Eval vm_compute in ran set1 (createSet chain0 set1).
Definition r1 : system := Eval vm_compute in ran set12 (createRegister base image1 set12).
Lemma restart_reachable : treachable restart [].
Proof.
  exists layers0, s0. refine (conj layers0_inv (conj _ _)); [by_vm|].
  eapply rtc_l; [apply (tstep_set s0 [] "{}" base image1 set1); by_vm|].
  eapply rtc_l; [apply (tstep_set set1 [(base, image1)] chain0 top image0 set12); by_vm|].
  eapply rtc_l; [apply (tstep_register set12 [(top, image0)] [] base image1 (Ok base) r1); by_vm|].
  eapply rtc_l; [apply (tstep_register r1 [] [] top image0 (Ok top) s2); by_vm|].
  eapply rtc_l; [apply (tstep_parent s2 [] top base (Ok ()) s3); [exists meta0; by_vm|by_vm]|].
  apply rtc_once, (tstep_restart s3 [] layers0 restart); [exact layers0_inv|by_vm].
Qed.

Definition metaOf (id : string) : imageMeta Layer := default (mkMeta None ∅) (images restart !! id).


(** What clients must not do.  An image that is deleted between the two parts of a
    second [Create] of its configuration is registered again, without its file. *)
Definition s1' : system := Eval vm_compute in ran s1 (createSet "{}" s1).
Definition deleted : system := Eval vm_compute in ran s1' (Delete base s1').
Definition unreadable : system := Eval vm_compute in ran deleted (createRegister base image1 deleted).
Example create_delete_race :
  createSet "{}" s1 = Ret (Ok (base, image1)) s1' ∧ Delete base s1' = Ret (Ok []) deleted ∧
  createRegister base image1 deleted = Ret (Ok base) unreadable ∧ bool_decide (is_Some (images unreadable !! base)) = true ∧
  match Get base unreadable with Ret (Err _) _ => true | _ => false end = true.
Proof. split_and!; by_vm. Qed.

(** [SetParent] of a digest that is no image fails, but only after it has become a
    child of the parent. *)
Definition phantom : system := Eval vm_compute in ran s1 (SetParent top base s1).
Example set_parent_phantom :
  match SetParent top base s1 with Ret (Err _) _ => true | _ => false end = true ∧
  images phantom !! top = None ∧ bool_decide (top ∈ Children base phantom) = true.
Proof. split_and!; by_vm. Qed.
End ConcreteImages.
