(* ===== verification/BytesPipe.v ===== *)
(** The in-memory pipe of pkg/ioutils: [fixedBuffer] (buffer.go) and
    [BytesPipe] (bytespipe.go), which carries the output of containers to the
    log drivers and to attached clients. The pipe is a queue of byte buffers
    taken from pools shared by all pipes; readers and writers block on one
    condition variable. The operations are cut at the points where they give
    up the lock, and the system interleaves any number of threads at them. *)

From Stdlib Require Import Strings.Byte.
From S2P Require Import Prelude GoIO.

(** ** fixedBuffer *)

(** [fb_buf] is the whole array under the slice: its length is the capacity. *)
Record fixedBuffer := mkFB {
  fb_buf : list byte;
  fb_pos : nat;
  fb_lastRead : nat }.

Definition Cap (b : fixedBuffer) : nat := length (fb_buf b).
Definition Len (b : fixedBuffer) : nat := fb_pos b - fb_lastRead b.

(** [b.buf[i:j]]; [None] is the panic of a slice out of range. *)
Definition slice (i j : nat) (l : list byte) : option (list byte) :=
  if decide (i ≤ j ∧ j ≤ length l) then Some (take (j - i) (drop i l)) else None.

(** The number of bytes written, the error and the buffer afterwards. *)
Definition fb_Write (p : list byte) (b : fixedBuffer) : option (nat * option io_error * fixedBuffer) :=
  room ← slice (fb_pos b) (Cap b) (fb_buf b);
  let n := min (length room) (length p) in
  let b' := mkFB (take (fb_pos b) (fb_buf b) ++ take n p ++ drop (fb_pos b + n) (fb_buf b))
                 (fb_pos b + n) (fb_lastRead b) in
  mret (n,
        if decide (n < length p) then
          if decide (fb_pos b' = Cap b') then Some errBufferFull else Some ErrShortWrite
        else None,
        b').

(** The bytes copied into a slice of length [k]. *)
Definition fb_Read (k : nat) (b : fixedBuffer) : option (list byte * fixedBuffer) :=
  d ← slice (fb_lastRead b) (fb_pos b) (fb_buf b);
  let n := min k (length d) in
  mret (take n d, mkFB (fb_buf b) (fb_pos b) (fb_lastRead b + n)).

Definition fb_Reset (b : fixedBuffer) : fixedBuffer := mkFB (fb_buf b) 0 0.

Definition fb_String (b : fixedBuffer) : option (list byte) :=
  slice (fb_lastRead b) (fb_pos b) (fb_buf b).

(** ** BytesPipe *)

Definition maxCap : nat := Z.to_nat 1000000.
Definition minCap : nat := 64.
Definition blockThreshold : Z := 1000000.

(** The pipe, the pools of the package and the threads that sleep on the
    condition variable of the pipe. *)
Record BytesPipe := mkBP {
  bp_buf : list fixedBuffer;
  bp_bufLen : Z;
  bp_closeErr : option io_error;
  bufPools : gmap nat (list fixedBuffer);
  bp_wait : gset nat }.

(** [sync.Pool]: [Get] hands out one of the objects that were put, or none. *)
Class SyncPool := {
  pool_Get : list fixedBuffer → option (fixedBuffer * list fixedBuffer);
  pool_Get_elem l b l' : pool_Get l = Some (b, l') → l ≡ₚ b :: l' }.

Section pipe.
Context `{!SyncPool}.

Definition set_buf (f : list fixedBuffer → list fixedBuffer) (s : BytesPipe) : BytesPipe :=
  mkBP (f (bp_buf s)) (bp_bufLen s) (bp_closeErr s) (bufPools s) (bp_wait s).
Definition set_bufLen (f : Z → Z) (s : BytesPipe) : BytesPipe :=
  mkBP (bp_buf s) (f (bp_bufLen s)) (bp_closeErr s) (bufPools s) (bp_wait s).
Definition set_closeErr (e : option io_error) (s : BytesPipe) : BytesPipe :=
  mkBP (bp_buf s) (bp_bufLen s) e (bufPools s) (bp_wait s).
Definition set_pools (f : gmap nat (list fixedBuffer) → gmap nat (list fixedBuffer)) (s : BytesPipe) : BytesPipe :=
  mkBP (bp_buf s) (bp_bufLen s) (bp_closeErr s) (f (bufPools s)) (bp_wait s).
Definition set_wait (f : gset nat → gset nat) (s : BytesPipe) : BytesPipe :=
  mkBP (bp_buf s) (bp_bufLen s) (bp_closeErr s) (bufPools s) (f (bp_wait s)).

Definition Broadcast : M BytesPipe unit := modify (set_wait (λ _, ∅)).

Definition getBuffer (size : nat) : M BytesPipe fixedBuffer := λ s,
  let pool := default [] (bufPools s !! size) in
  match pool_Get pool with
  | Some (b, pool') => Ret b (set_pools <[size:=pool']> s)
  | None => Ret (mkFB (replicate size x00) 0 0) (set_pools <[size:=pool]> s)
  end.

Definition returnBuffer (b : fixedBuffer) : M BytesPipe unit :=
  let b := fb_Reset b in
  modify (set_pools (λ pools,
    match pools !! Cap b with
    | Some pool => <[Cap b := b :: pool]> pools
    | None => pools
    end)).

Definition appendBuffer (size : nat) : M BytesPipe unit :=
  b ← getBuffer size; modify (set_buf (λ l, l ++ [b])).

Definition NewBytesPipe (pools : gmap nat (list fixedBuffer)) : outcome BytesPipe unit :=
  appendBuffer minCap (mkBP [] 0 None pools ∅).

(** How a stretch of [Write] ends: it returns, or it sleeps with the rest of
    its argument, the count so far and the capacity of its last buffer. *)
Inductive write_end : Type :=
| WReturn (written : nat) (err : option io_error)
| WWait (rest : list byte) (written cap : nat).

Definition index_panic : string := "index out of range".

(** [b.Write(p)] on the last buffer. *)
Definition writeLast (p : list byte) : M BytesPipe (nat * option io_error * nat) := λ s,
  match list.last (bp_buf s) with
  | None => Panic index_panic
  | Some b =>
      match fb_Write p b with
      | None => Panic "slice bounds out of range"
      | Some (n, err, b') => Ret (n, err, Cap b') (set_buf (<[pred (length (bp_buf s)) := b']>) s)
      end
  end.

Definition nextCap (cap : nat) : nat :=
  if decide (maxCap < cap * 2) then maxCap else cap * 2.

(** The body of [loop0] up to the next point where the lock is given up. Every
    round but the first one writes a byte. *)
Fixpoint Write_loop (fuel : nat) (p : list byte) (written : nat) : M BytesPipe write_end :=
  match fuel with
  | O => out_of_fuel
  | S fuel =>
      closed ← read bp_closeErr;
      match closed with
      | Some _ => mret (WReturn written (Some ErrClosed))
      | None =>
          buf ← read bp_buf;
          (if decide (length buf = 0) then appendBuffer 64 else mret ());;
          '(n, err, cap) ← writeLast p;
          let written := written + n in
          modify (set_bufLen (λ len, len + Z.of_nat n)%Z);;
          if decide (err ≠ None ∧ err ≠ Some errBufferFull) then
            Broadcast;; mret (WReturn written err)
          else if decide (length p = n) then
            Broadcast;; mret (WReturn written None)
          else
            let p := drop n p in
            len ← read bp_bufLen;
            if decide (blockThreshold ≤ len)%Z then mret (WWait p written cap)
            else appendBuffer (nextCap cap);; Write_loop fuel p written
      end
  end.

Definition write_fuel (p : list byte) : nat := length p + 2.
Definition Write (p : list byte) : M BytesPipe write_end := Write_loop (write_fuel p) p 0.

(** What [Write] does when its sleep ends. *)
Definition Write_resume (p : list byte) (written cap : nat) : M BytesPipe write_end :=
  closed ← read bp_closeErr;
  match closed with
  | Some _ => Write_loop (write_fuel p) p written
  | None =>
      len ← read bp_bufLen;
      if decide (blockThreshold ≤ len)%Z then mret (WWait p written cap)
      else appendBuffer (nextCap cap);; Write_loop (write_fuel p) p written
  end.

Definition CloseWithError (err : option io_error) : M BytesPipe unit :=
  modify (set_closeErr (Some (match err with Some e => e | None => EOF end)));;
  Broadcast.

Definition Close : M BytesPipe unit := CloseWithError None.

(** How a stretch of [Read] ends: with the bytes it has copied, or asleep. *)
Inductive read_end : Type :=
| RReturn (data : list byte) (err : option io_error)
| RWait.

(** [b.Read(p)] on the first buffer, and the return of the buffer to its pool
    when it is empty. *)
Definition readFirst (k : nat) : M BytesPipe (list byte) :=
  buf ← read bp_buf;
  match buf with
  | [] => panic index_panic
  | b :: rest =>
      match fb_Read k b with
      | None => panic "slice bounds out of range"
      | Some (d, b') =>
          modify (set_bufLen (λ len, len - Z.of_nat (length d))%Z);;
          (if decide (Len b' = 0) then returnBuffer b';; modify (set_buf (λ _, rest))
           else modify (set_buf (λ _, b' :: rest)));;
          mret d
      end
  end.

(** The loop of [Read] on a slice of length [k]; [data] is what it has copied. *)
Fixpoint Read_loop (fuel : nat) (k : nat) (data : list byte) : M BytesPipe (list byte) :=
  match fuel with
  | O => out_of_fuel
  | S fuel =>
      len ← read bp_bufLen;
      if decide (0 < len)%Z then
        d ← readFirst k;
        if decide (k = length d) then mret (data ++ d)
        else Read_loop fuel (k - length d) (data ++ d)
      else mret data
  end.

Definition Read_rest (k : nat) : M BytesPipe read_end :=
  buf ← read bp_buf;
  d ← Read_loop (S (length buf)) k [];
  Broadcast;;
  mret (RReturn d None).

Definition Read (k : nat) : M BytesPipe read_end :=
  len ← read bp_bufLen;
  if decide (len = 0)%Z then
    closed ← read bp_closeErr;
    match closed with
    | Some e => mret (RReturn [] (Some e))
    | None => mret RWait
    end
  else Read_rest k.

(** What [Read] does when its sleep ends. *)
Definition Read_resume (k : nat) : M BytesPipe read_end :=
  len ← read bp_bufLen;
  closed ← read bp_closeErr;
  match closed with
  | Some e => if decide (len = 0)%Z then mret (RReturn [] (Some e)) else Read_rest k
  | None => Read_rest k
  end.

(** ** Threads *)

(** A thread that sleeps in [Write] or in [Read]. *)
Inductive thread : Type :=
| Writing (rest : list byte) (written cap : nat)
| Reading (k : nat).

(** The pipe with its sleeping threads; [sent] and [received] are the bytes
    the calls have put in and taken out, in the order of their stretches. *)
Record system := mkSystem {
  pipe : BytesPipe;
  threads : gmap nat thread;
  sent : list byte;
  received : list byte }.

Definition wcount (w : write_end) : nat :=
  match w with WReturn n _ => n | WWait _ n _ => n end.

(** The system after a stretch of [Write] by [t] that started with [p] left
    to write and [from] bytes written. *)
Definition wrote (t : nat) (p : list byte) (from : nat) (w : write_end) (bp : BytesPipe) (σ : system) : system :=
  let sent' := sent σ ++ take (wcount w - from) p in
  match w with
  | WReturn _ _ => mkSystem bp (delete t (threads σ)) sent' (received σ)
  | WWait rest n cap =>
      mkSystem (set_wait (λ ws, {[t]} ∪ ws) bp) (<[t:=Writing rest n cap]> (threads σ)) sent' (received σ)
  end.

Definition got (t k : nat) (r : read_end) (bp : BytesPipe) (σ : system) : system :=
  match r with
  | RReturn d _ => mkSystem bp (delete t (threads σ)) (sent σ) (received σ ++ d)
  | RWait => mkSystem (set_wait (λ ws, {[t]} ∪ ws) bp) (<[t:=Reading k]> (threads σ)) (sent σ) (received σ)
  end.

(** A thread that was woken runs on. *)
Inductive resume (t : nat) (σ : system) : system → Prop :=
| resume_write p written cap w bp :
    threads σ !! t = Some (Writing p written cap) → t ∉ bp_wait (pipe σ) →
    Write_resume p written cap (pipe σ) = Ret w bp → resume t σ (wrote t p written w bp σ)
| resume_read k r bp :
    threads σ !! t = Some (Reading k) → t ∉ bp_wait (pipe σ) →
    Read_resume k (pipe σ) = Ret r bp → resume t σ (got t k r bp σ).

(** Every pooled buffer is reset and has the size of its pool. *)
Definition pools_ok (pools : gmap nat (list fixedBuffer)) : Prop :=
  ∀ size pool b, pools !! size = Some pool → b ∈ pool → Cap b = size ∧ fb_pos b = 0 ∧ fb_lastRead b = 0.

Inductive step (σ : system) : system → Prop :=
| step_write t p w bp :
    threads σ !! t = None → Write p (pipe σ) = Ret w bp → step σ (wrote t p 0 w bp σ)
| step_read t k r bp :
    threads σ !! t = None → Read k (pipe σ) = Ret r bp → step σ (got t k r bp σ)
| step_close e bp :
    CloseWithError e (pipe σ) = Ret () bp → step σ (mkSystem bp (threads σ) (sent σ) (received σ))
| step_pools pools :
    pools_ok pools → step σ (mkSystem (set_pools (λ _, pools) (pipe σ)) (threads σ) (sent σ) (received σ))
| step_resume t σ' : resume t σ σ' → step σ σ'.

Definition reachable (σ : system) : Prop :=
  ∃ pools bp, pools_ok pools ∧ NewBytesPipe pools = Ret () bp ∧ rtc step (mkSystem bp ∅ [] []) σ.
End pipe.

(** ** Buffers *)

Definition content (b : fixedBuffer) : list byte := take (Len b) (drop (fb_lastRead b) (fb_buf b)).

Definition fb_ok (b : fixedBuffer) : Prop :=
  fb_lastRead b ≤ fb_pos b ∧ fb_pos b ≤ Cap b ∧ 0 < Cap b ∧ Cap b ≤ maxCap.

Lemma content_length b : fb_ok b → length (content b) = Len b.
Proof. intros (?&?&_). unfold content, Len, Cap in *. rewrite length_take, length_drop. lia. Qed.

Lemma take_min {A} k (l : list A) : take (min k (length l)) l = take k l.
Proof. destruct (decide (k ≤ length l)); [by rewrite Nat.min_l|]. by rewrite !take_ge by lia. Qed.
Lemma drop_min {A} k (l : list A) : drop (min k (length l)) l = drop k l.
Proof. destruct (decide (k ≤ length l)); [by rewrite Nat.min_l|]. by rewrite !drop_ge by lia. Qed.

Lemma fb_Write_spec p b :
  fb_ok b →
  ∃ err b', fb_Write p b = Some (min (Cap b - fb_pos b) (length p), err, b') ∧ fb_ok b' ∧ Cap b' = Cap b ∧
    content b' = content b ++ take (min (Cap b - fb_pos b) (length p)) p ∧
    err = (if decide (Cap b - fb_pos b < length p) then Some errBufferFull else None).
Proof.
  intros (H1&H2&H3&H4). unfold fb_Write, slice, Cap in *. rewrite decide_True by lia. simpl.
  rewrite length_take, length_drop.
  replace (min (length (fb_buf b) - fb_pos b) (length (fb_buf b) - fb_pos b)) with (length (fb_buf b) - fb_pos b) by lia.
  set (n := min _ (length p)).
  assert (Hlen : length (take (fb_pos b) (fb_buf b) ++ take n p ++ drop (fb_pos b + n) (fb_buf b)) = length (fb_buf b)).
  { rewrite !length_app, !length_take, length_drop. lia. }
  eexists _, _. split; [done|]. unfold fb_ok, content, Len, Cap. simpl. rewrite Hlen. split_and!; [lia..|done| |].
  - rewrite drop_app_le by (rewrite length_take; lia).
    replace (fb_pos b + n - fb_lastRead b) with ((fb_pos b - fb_lastRead b) + n) by lia.
    rewrite take_app_ge by (rewrite length_drop, length_take; lia). rewrite length_drop, length_take.
    replace (fb_pos b - fb_lastRead b + n - (min (fb_pos b) (length (fb_buf b)) - fb_lastRead b)) with n by lia.
    f_equal; [by rewrite take_drop_commute; replace (fb_lastRead b + (fb_pos b - fb_lastRead b)) with (fb_pos b) by lia|].
    rewrite take_app_le by (rewrite length_take; lia). by rewrite take_take, Nat.min_id.
  - repeat case_decide; try done; lia.
Qed.

Lemma fb_Read_spec k b :
  fb_ok b →
  ∃ b', fb_Read k b = Some (take k (content b), b') ∧ fb_ok b' ∧ content b' = drop k (content b).
Proof.
  intros (H1&H2&H3&H4). unfold fb_Read, slice, Cap in *. rewrite decide_True by lia.
  change (take (fb_pos b - fb_lastRead b) (drop (fb_lastRead b) (fb_buf b))) with (content b). simpl.
  assert (Hl : length (content b) = fb_pos b - fb_lastRead b) by (by apply content_length).
  rewrite take_min. eexists. split; [done|]. unfold fb_ok, Cap. simpl. split; [lia|].
  rewrite <-(drop_min k (content b)). set (n := min k (length (content b))). unfold content, Len. simpl.
  rewrite skipn_firstn_comm, drop_drop. f_equal. lia.
Qed.

(** ** The pipe as a queue *)

Definition queue (l : list fixedBuffer) : list byte := concat (content <$> l).
Definition contents (s : BytesPipe) : list byte := queue (bp_buf s).

Lemma queue_snoc l b : queue (l ++ [b]) = queue l ++ content b.
Proof. unfold queue. rewrite fmap_app, concat_app. simpl. by rewrite app_nil_r. Qed.

(** The invariant: sound buffers, an exact count, and less than the threshold
    in all the buffers but the last one. *)
Record pipe_ok (s : BytesPipe) : Prop := mkPipeOk {
  ok_buf : Forall fb_ok (bp_buf s);
  ok_len : bp_bufLen s = Z.of_nat (length (contents s));
  ok_bound l b : bp_buf s = l ++ [b] → (Z.of_nat (length (queue l)) < blockThreshold)%Z;
  ok_pools : pools_ok (bufPools s) }.

(** A pipe never holds two million bytes. *)
Lemma pipe_bounded s : pipe_ok s → (bp_bufLen s < 2 * blockThreshold)%Z.
Proof.
  intros [Hb Hl Hbd _]. rewrite Hl. unfold contents. remember (bp_buf s) as bs eqn:E. destruct bs as [|b l _] using rev_ind; [done|].
  rewrite queue_snoc, length_app. specialize (Hbd l b eq_refl).
  apply Forall_app in Hb as [_ Hbb]. rewrite Forall_singleton in Hbb. rewrite (content_length b Hbb).
  destruct Hbb as (?&?&?&?). unfold Len, maxCap, blockThreshold in *. lia.
Qed.

Lemma pools_insert pools size pool :
  pools_ok pools → (∀ b, b ∈ pool → Cap b = size ∧ fb_pos b = 0 ∧ fb_lastRead b = 0) →
  pools_ok (<[size:=pool]> pools).
Proof.
  intros Hp Hb n q b Hq. destruct (decide (size = n)) as [->|Hne].
  - rewrite lookup_insert_eq in Hq. simplify_eq. apply Hb.
  - rewrite lookup_insert_ne in Hq by done. by apply Hp.
Qed.

Section specs.
Context `{!SyncPool}.

Lemma getBuffer_spec size s :
  pools_ok (bufPools s) →
  wp (getBuffer size) (λ b s', Cap b = size ∧ fb_pos b = 0 ∧ fb_lastRead b = 0 ∧
    ∃ pools, s' = set_pools (λ _, pools) s ∧ pools_ok pools) s.
Proof.
  intros Hp. unfold wp, getBuffer.
  assert (Hpool : ∀ b, b ∈ default [] (bufPools s !! size) → Cap b = size ∧ fb_pos b = 0 ∧ fb_lastRead b = 0).
  { intros b Hb. destruct (bufPools s !! size) as [pool|] eqn:E; [by apply (Hp size pool)|by apply not_elem_of_nil in Hb]. }
  destruct (pool_Get _) as [[b pool']|] eqn:E.
  - apply pool_Get_elem in E.
    split_and!; [by apply Hpool; rewrite E; constructor..|]. eexists. split; [done|].
    apply pools_insert; [done|]. intros b' Hb'. apply Hpool. rewrite E. by constructor.
  - unfold Cap. simpl. rewrite length_replicate. split_and!; [done..|]. eexists. split; [done|]. by apply pools_insert.
Qed.

(** A new buffer at the end of the queue changes nothing else. *)
Definition grown (size : nat) (s s' : BytesPipe) : Prop :=
  pipe_ok s' ∧ contents s' = contents s ∧ bp_closeErr s' = bp_closeErr s ∧ bp_wait s' = bp_wait s ∧
  bp_bufLen s' = bp_bufLen s ∧ ∃ b, bp_buf s' = bp_buf s ++ [b] ∧ Cap b = size ∧ fb_pos b = 0.

Lemma appendBuffer_spec size s :
  pipe_ok s → 0 < size → size ≤ maxCap → (bp_bufLen s < blockThreshold)%Z →
  wp (appendBuffer size) (λ _ s', grown size s s') s.
Proof.
  intros [Hb Hl Hbd Hp] Hs1 Hs2 Hlt. unfold appendBuffer. wp_step. wp_apply getBuffer_spec; [done|].
  intros b s' (Hc & Hpos & Hlast & pools & -> & Hpo). wp_step.
  assert (Hnew : content b = []) by (unfold content, Len; by rewrite Hpos).
  assert (Hcont : queue (bp_buf s ++ [b]) = queue (bp_buf s)) by (by rewrite queue_snoc, Hnew, app_nil_r).
  unfold grown. split_and!; [|done|done|done|done|by exists b]. split; simpl.
  - apply Forall_app. split; [done|]. constructor; [|done]. unfold fb_ok. lia.
  - unfold contents. simpl. by rewrite Hcont.
  - intros l b' [<- <-]%app_inj_tail. fold (contents s). by rewrite <-Hl.
  - done.
Qed.

Lemma nextCap_ok cap : 0 < cap → 0 < nextCap cap ∧ nextCap cap ≤ maxCap.
Proof. unfold nextCap, maxCap. case_decide; lia. Qed.

(** A write into the last buffer appends to the queue. *)
Lemma writeLast_spec p l b s :
  pipe_ok s → bp_buf s = l ++ [b] →
  wp (writeLast p) (λ '(n, err, cap) s1,
    n = min (Cap b - fb_pos b) (length p) ∧ cap = Cap b ∧ 0 < cap ∧ cap ≤ maxCap ∧
    err = (if decide (Cap b - fb_pos b < length p) then Some errBufferFull else None) ∧
    pipe_ok (set_bufLen (λ len, len + Z.of_nat n)%Z s1) ∧ contents s1 = contents s ++ take n p ∧
    bp_closeErr s1 = bp_closeErr s ∧ bp_wait s1 = bp_wait s) s.
Proof.
  intros [Hb Hl Hbd Hp] Hbuf. unfold wp, writeLast. rewrite Hbuf, list.last_snoc.
  rewrite Hbuf in Hb. apply Forall_app in Hb as [Hbl Hbb]. rewrite Forall_singleton in Hbb.
  destruct (fb_Write_spec p b Hbb) as (err & b' & -> & Hok & Hcap & Hcont & ->).
  assert (Hnew : <[pred (length (l ++ [b])) := b']> (l ++ [b]) = l ++ [b']).
  { rewrite length_app. simpl. replace (pred (length l + 1)) with (length l + 0) by lia. by rewrite insert_app_r. }
  set (n := min _ _) in *. pose proof Hbb as (_ & _ & Hc0 & Hcm). rewrite Hcap. split_and!; try done.
  - assert (Hq : length (queue (l ++ [b'])) = length (contents s) + n).
    { unfold contents. rewrite Hbuf, !queue_snoc, Hcont, !length_app, length_take. lia. }
    split; simpl; rewrite ?Hbuf, ?Hnew.
    + apply Forall_app. split; [done|]. by rewrite Forall_singleton.
    + rewrite Hl. unfold contents at 2. simpl. rewrite Hbuf, Hnew, Hq. lia.
    + intros l' b'' [<- _]%app_inj_tail. by apply (Hbd l b).
    + done.
  - unfold contents. simpl. rewrite Hbuf, Hnew, !queue_snoc, Hcont. by rewrite (assoc_L (++)).
Qed.

(** What one stretch of [Write] does with [p]. *)
Definition write_post (p : list byte) (written : nat) (w : write_end) (s s' : BytesPipe) : Prop :=
  pipe_ok s' ∧ bp_closeErr s' = bp_closeErr s ∧
  ∃ q, contents s' = contents s ++ q ∧ wcount w = written + length q ∧
    match w with
    | WReturn _ None => q = p ∧ bp_wait s' = ∅ ∧ bp_closeErr s = None
    | WReturn _ (Some e) => e = ErrClosed ∧ q = [] ∧ is_Some (bp_closeErr s) ∧ bp_wait s' = bp_wait s
    | WWait rest _ cap => p = q ++ rest ∧ rest ≠ [] ∧ 0 < cap ∧ cap ≤ maxCap ∧
        (blockThreshold ≤ bp_bufLen s')%Z ∧ bp_closeErr s = None ∧ bp_wait s' = bp_wait s
    end.

Definition fuel_ok (fuel : nat) (p : list byte) (s : BytesPipe) : Prop :=
  length p + 2 ≤ fuel ∨ (length p + 1 ≤ fuel ∧ ∃ l b, bp_buf s = l ++ [b] ∧ fb_pos b < Cap b).

Lemma write_post_trans p q written w s s1 s' :
  contents s1 = contents s ++ take q p → q ≤ length p → bp_closeErr s1 = bp_closeErr s →
  bp_closeErr s = None → bp_wait s1 = bp_wait s →
  write_post (drop q p) (written + q) w s1 s' → write_post p written w s s'.
Proof.
  intros Hc Hq He Hn Hw (Hok & He' & r & Hr & Hcnt & Hm). split_and!; [done|congruence|].
  exists (take q p ++ r). rewrite Hr, Hc, (assoc_L (++)), length_app, length_take, Hcnt.
  split_and!; [done|lia|]. rewrite He, Hn, ?Hw in Hm. destruct w as [n [e|]|rest n cap].
  - by destruct Hm as (_ & _ & [? [=]] & _).
  - destruct Hm as (-> & ? & _). by rewrite take_drop.
  - destruct Hm as (Hd & ? & ? & ? & ? & _ & ?). split_and!; try done.
    by rewrite <-(assoc_L (++)), <-Hd, take_drop.
Qed.

Lemma Write_loop_spec fuel p written s :
  pipe_ok s → fuel_ok fuel p s →
  wp (Write_loop fuel p written) (λ w s', write_post p written w s s') s.
Proof.
  revert p written s. induction fuel as [|fuel IH]; intros p written s Hok Hf; [destruct Hf; lia|].
  simpl. wp_steps. destruct (bp_closeErr s) as [e|] eqn:Hcl.
  { wp_step. split_and!; [done..|]. exists []. rewrite app_nil_r. simpl. rewrite Hcl. split_and!; [done|lia|done..]. }
  wp_steps. apply wp_mono with (λ _ s1, pipe_ok s1 ∧ contents s1 = contents s ∧ bp_closeErr s1 = None ∧
    bp_wait s1 = bp_wait s ∧ fuel_ok (S fuel) p s1 ∧ ∃ l b, bp_buf s1 = l ++ [b]).
  { case_decide as Hlen.
    - apply length_zero_iff_nil in Hlen. wp_apply appendBuffer_spec; [done|unfold maxCap; lia..| |].
      { rewrite (ok_len s Hok). unfold contents. by rewrite Hlen. }
      intros _ s1 (? & ? & ? & ? & ? & b & Hb & Hc & Hpos). rewrite Hlen in Hb.
      split_and!; [done|done|congruence|done| |by exists [], b]. right. split; [destruct Hf; lia|].
      exists [], b. split; [done|lia].
    - wp_step. split_and!; try done. destruct (bp_buf s) as [|b l _] using rev_ind; [done|eauto]. }
  intros _ s1 (Hok1 & Hc1 & Hcl1 & Hw1 & Hf1 & l & b & Hb). wp_step. wp_apply writeLast_spec; [done..|].
  intros [[n err] cap] s2 (-> & -> & Hcap1 & Hcap2 & -> & Hok2 & Hc2 & Hcl2 & Hw2). set (n := min _ _) in *.
  wp_steps. rewrite decide_False by (case_decide; naive_solver). case_decide as Hn.
  { unfold Broadcast. wp_steps. split_and!; [by destruct Hok2|simpl; congruence|]. exists p.
    rewrite Hc1 in Hc2. rewrite (take_ge p n) in Hc2 by lia. by rewrite Hcl, Hn. }
  wp_steps. set (s3 := set_bufLen _ _) in *.
  assert (Hc3 : contents s3 = contents s ++ take n p) by (rewrite <-Hc1; exact Hc2).
  eapply wp_mono; [|intros w s' Hw; eapply (write_post_trans p n written w s s3);
    [done|lia|simpl; congruence|done|simpl; congruence|exact Hw]].
  assert (Hn' : n = Cap b - fb_pos b) by lia.
  case_decide as Hfull.
  { wp_step. split_and!; [done..|]. exists []. rewrite app_nil_r. simpl.
    rewrite Hcl2, Hcl1. split_and!; try done. intros Hd%(f_equal length). rewrite length_drop in Hd. simpl in Hd. lia. }
  destruct (nextCap_ok (Cap b)) as [Hnc1 Hnc2]; [done|].
  wp_step. wp_apply appendBuffer_spec; [done..|simpl in *; lia|].
  intros _ s4 (Hok4 & Hc4 & Hcl4 & Hw4 & _ & b4 & Hb4 & Hcap4 & Hpos4).
  eapply wp_mono; [apply IH; [done|]|].
  - right. split; [|exists (bp_buf s3), b4; split; [done|lia]]. rewrite length_drop.
    destruct Hf1 as [?|[? (l' & b' & Hb' & ?)]]; [lia|]. rewrite Hb in Hb'. apply app_inj_tail in Hb' as [_ <-]. lia.
  - intros w s' Hw. apply (write_post_trans _ 0 _ w s3 s4); [|lia|done|simpl; congruence|done|].
    + rewrite Hc4. simpl. by rewrite app_nil_r.
    + by rewrite drop_0, Nat.add_0_r.
Qed.

Lemma write_fuel_ok p s : fuel_ok (write_fuel p) p s.
Proof. left. unfold write_fuel. lia. Qed.

Lemma Write_spec p s : pipe_ok s → wp (Write p) (λ w s', write_post p 0 w s s') s.
Proof. intros Hok. apply Write_loop_spec; [done|apply write_fuel_ok]. Qed.

Lemma Write_resume_spec p written cap s :
  pipe_ok s → p ≠ [] → 0 < cap → cap ≤ maxCap →
  wp (Write_resume p written cap) (λ w s', write_post p written w s s') s.
Proof.
  intros Hok Hp Hc1 Hc2. unfold Write_resume. wp_steps. destruct (bp_closeErr s) as [e|] eqn:Hcl.
  { apply Write_loop_spec; [done|apply write_fuel_ok]. }
  wp_steps. case_decide as Hfull.
  { wp_step. split_and!; [done..|]. exists []. rewrite app_nil_r. simpl. split_and!; done. }
  destruct (nextCap_ok cap) as [Hn1 Hn2]; [done|].
  wp_step. wp_apply appendBuffer_spec; [done..|lia|]. intros _ s1 (Hok1 & Hc & Hcl1 & Hw1 & _).
  eapply wp_mono; [apply Write_loop_spec; [done|apply write_fuel_ok]|]. intros w s' Hw.
  apply (write_post_trans _ 0 _ w s s1); [|lia|done|done|done|by rewrite drop_0, Nat.add_0_r].
  rewrite Hc. simpl. by rewrite app_nil_r.
Qed.

Lemma returnBuffer_ok b pools :
  pools_ok pools →
  pools_ok (match pools !! Cap b with Some pool => <[Cap b := fb_Reset b :: pool]> pools | None => pools end).
Proof.
  intros Hp. destruct (pools !! Cap b) as [pool|] eqn:E; [|done]. apply pools_insert; [done|].
  intros b' [->|Hb']%elem_of_cons; [done|]. by apply (Hp _ pool).
Qed.

(** What a read takes from the front of the queue. *)
Definition read_post (k : nat) (d : list byte) (s s' : BytesPipe) : Prop :=
  pipe_ok s' ∧ contents s = d ++ contents s' ∧ bp_closeErr s' = bp_closeErr s ∧ length d = min k (length (contents s)).

Lemma readFirst_spec k s :
  pipe_ok s → (0 < bp_bufLen s)%Z →
  wp (readFirst k) (λ d s', pipe_ok s' ∧ contents s = d ++ contents s' ∧ bp_closeErr s' = bp_closeErr s ∧
    length d ≤ k ∧ (length d = k ∨ length (bp_buf s') < length (bp_buf s))) s.
Proof.
  intros [Hb Hl Hbd Hp] Hpos. unfold readFirst. wp_steps. unfold contents in *.
  destruct (bp_buf s) as [|b rest] eqn:Hbuf; [simpl in Hl; lia|].
  apply Forall_cons_1 in Hb as [Hbb Hrest].
  destruct (fb_Read_spec k b Hbb) as (b' & -> & Hok' & Hcont). pose proof (content_length b' Hok') as Hlen'.
  assert (Hd : content b = take k (content b) ++ content b') by (by rewrite Hcont, take_drop).
  assert (Hcnt : length (content b) = length (take k (content b)) + length (content b')) by (rewrite Hd at 1; apply length_app).
  change (queue (b :: rest)) with (content b ++ queue rest) in *. rewrite length_app in Hl.
  wp_steps. case_decide as Hz.
  - unfold returnBuffer. wp_steps. rewrite Hz in Hlen'. apply nil_length_inv in Hlen'.
    rewrite Hlen' in Hd, Hcnt. rewrite app_nil_r in Hd. simpl in Hcnt. rewrite <-Hd in *.
    split_and!; [split; simpl|done|done|rewrite Hd, length_take; lia|right; simpl; lia].
    + done.
    + unfold contents. simpl. lia.
    + intros l b0 Hr. specialize (Hbd (b :: l) b0). rewrite Hr in Hbd. specialize (Hbd eq_refl).
      change (queue (b :: l)) with (content b ++ queue l) in Hbd. rewrite length_app in Hbd. lia.
    + by apply (returnBuffer_ok b').
  - wp_steps. rewrite Hcont in Hlen'.
    assert (k < length (content b)) by (rewrite length_drop in Hlen'; unfold Len in *; lia).
    change (queue (b' :: rest)) with (content b' ++ queue rest).
    split_and!; [split; simpl|by rewrite (assoc_L (++)), <-Hd|done|rewrite length_take; lia|left; rewrite length_take; lia].
    + by constructor.
    + unfold contents. simpl. change (queue (b' :: rest)) with (content b' ++ queue rest). rewrite length_app. lia.
    + intros l b0 Hr. destruct l as [|b1 l]; [done|]. simplify_eq/=. specialize (Hbd (b :: l) b0 eq_refl).
      change (queue (b :: l)) with (content b ++ queue l) in Hbd.
      change (queue (b1 :: l)) with (content b1 ++ queue l). rewrite length_app in *. lia.
    + done.
Qed.

Lemma Read_loop_spec fuel k data s :
  pipe_ok s → length (bp_buf s) < fuel →
  wp (Read_loop fuel k data) (λ d s', ∃ q, d = data ++ q ∧ read_post k q s s') s.
Proof.
  revert k data s. induction fuel as [|fuel IH]; intros k data s Hok Hf; [lia|]. simpl. wp_steps.
  pose proof (ok_len s Hok) as Hl. case_decide as Hlen.
  2: { wp_step. exists []. rewrite app_nil_r. split_and!; [done..|]. split_and!; [done..|]. simpl. lia. }
  wp_step. wp_apply readFirst_spec; [done..|]. intros d s1 (Hok1 & Hc & Hcl & Hdk & Hprog).
  pose proof (f_equal length Hc) as Hcl'. rewrite length_app in Hcl'. case_decide as Hk.
  { wp_step. exists d. split; [done|]. split_and!; [done..|lia]. }
  eapply wp_mono; [apply IH; [done|lia]|]. intros d' s' (q & -> & Hok' & Hc' & Hcl2 & Hq).
  exists (d ++ q). split; [by rewrite (assoc_L (++))|]. split_and!; [done| |congruence|].
  - by rewrite Hc, Hc', (assoc_L (++)).
  - rewrite length_app. lia.
Qed.

Lemma Read_rest_spec k s :
  pipe_ok s → wp (Read_rest k) (λ r s', ∃ d, r = RReturn d None ∧ read_post k d s s' ∧ bp_wait s' = ∅) s.
Proof.
  intros Hok. unfold Read_rest. do 3 wp_step. wp_apply Read_loop_spec; [done|lia|].
  intros d s1 (q & -> & Hok1 & Hc & Hcl & Hq). unfold Broadcast. wp_steps.
  exists q. split_and!; [done| |done]. split_and!; try done. by destruct Hok1.
Qed.

(** ** The invariant of the system *)

Definition system_ok (σ : system) : Prop :=
  pipe_ok (pipe σ) ∧ sent σ = received σ ++ contents (pipe σ) ∧
  ∀ t p n cap, threads σ !! t = Some (Writing p n cap) → p ≠ [] ∧ 0 < cap ∧ cap ≤ maxCap.

Lemma set_wait_ok f s : pipe_ok s → pipe_ok (set_wait f s).
Proof. by intros []. Qed.

Lemma wrote_ok t p from w bp σ :
  system_ok σ → write_post p from w (pipe σ) bp → system_ok (wrote t p from w bp σ).
Proof.
  intros (Hok & Hs & Ht) (Hok' & _ & q & Hq & Hn & Hm).
  assert (Hsent : sent σ ++ take (wcount w - from) p = received σ ++ contents bp).
  { rewrite Hs, Hq, (assoc_L (++)), Hn. f_equal. replace (from + length q - from) with (length q) by lia.
    destruct w as [n [e|]|rest n cap].
    - by destruct Hm as (_ & -> & _).
    - destruct Hm as (-> & _). by rewrite take_ge.
    - destruct Hm as (-> & _). by rewrite take_app_length. }
  destruct w as [n e|rest n cap]; split_and!; simpl; try done.
  - intros t' p' n' cap' [_ Hl]%lookup_delete_Some. by apply (Ht t' _ n').
  - by apply set_wait_ok.
  - intros t' p' n' cap' Hl. destruct (decide (t = t')) as [<-|Hne].
    + rewrite lookup_insert_eq in Hl. simplify_eq. by destruct Hm as (_ & ? & ? & ? & _).
    + rewrite lookup_insert_ne in Hl by done. by apply (Ht t' _ n').
Qed.

(** What one stretch of [Read] into a slice of length [k] does. *)
Definition read_end_post (k : nat) (r : read_end) (s s' : BytesPipe) : Prop :=
  match r with
  | RReturn d None => read_post k d s s' ∧ bp_wait s' = ∅
  | RReturn d (Some e) => d = [] ∧ s' = s ∧ contents s = [] ∧ bp_closeErr s = Some e
  | RWait => s' = s ∧ contents s = [] ∧ bp_closeErr s = None
  end.

Lemma empty_contents s : pipe_ok s → bp_bufLen s = 0%Z → contents s = [].
Proof. intros Hok Hz. apply nil_length_inv. pose proof (ok_len s Hok). lia. Qed.

Lemma Read_spec k s : pipe_ok s → wp (Read k) (λ r s', read_end_post k r s s') s.
Proof.
  intros Hok. unfold Read. wp_steps. case_decide as Hz.
  - apply empty_contents in Hz; [|done]. wp_steps. by destruct (bp_closeErr s) eqn:E; wp_step.
  - wp_apply Read_rest_spec; [done|]. by intros r s' (d & -> & Hr & Hw).
Qed.

Lemma Read_resume_spec k s : pipe_ok s → wp (Read_resume k) (λ r s', read_end_post k r s s') s.
Proof.
  intros Hok. unfold Read_resume. wp_steps. destruct (bp_closeErr s) as [e|] eqn:E; [case_decide as Hz|].
  - apply empty_contents in Hz; [|done]. by wp_step.
  - wp_apply Read_rest_spec; [done|]. by intros r s' (d & -> & Hr & Hw).
  - wp_apply Read_rest_spec; [done|]. by intros r s' (d & -> & Hr & Hw).
Qed.

Lemma got_ok t k r bp σ :
  system_ok σ → read_end_post k r (pipe σ) bp → system_ok (got t k r bp σ).
Proof.
  intros (Hok & Hs & Ht) Hr.
  assert (Hdel : ∀ t' p' n' cap', delete t (threads σ) !! t' = Some (Writing p' n' cap') →
    p' ≠ [] ∧ 0 < cap' ∧ cap' ≤ maxCap).
  { intros t' p' n' cap' [_ Hl]%lookup_delete_Some. by apply (Ht t' _ n'). }
  destruct r as [d [e|]|]; simpl in *.
  - destruct Hr as (-> & -> & Hc & _). split_and!; simpl; try done. by rewrite app_nil_r.
  - destruct Hr as [(Hok' & Hc & _) _]. split_and!; simpl; try done. by rewrite <-(assoc_L (++)), <-Hc.
  - destruct Hr as (-> & Hc & _). split_and!; simpl; [by apply set_wait_ok|done|].
    intros t' p' n' cap' Hl. destruct (decide (t = t')) as [<-|Hne].
    + by rewrite lookup_insert_eq in Hl.
    + rewrite lookup_insert_ne in Hl by done. by apply (Ht t' _ n').
Qed.

Lemma pipe_step_ok σ σ' : step σ σ' → system_ok σ → system_ok σ'.
Proof.
  intros Hst Hok. pose proof Hok as (Hp & Hs & Ht).
  destruct Hst as [t p w bp _ Hw|t k r bp _ Hr|e bp Hc|pools Hpo|t σ' Hres].
  - apply wrote_ok; [done|]. exact (wp_run _ _ _ _ _ (Write_spec p _ Hp) Hw).
  - apply got_ok; [done|]. exact (wp_run _ _ _ _ _ (Read_spec k _ Hp) Hr).
  - injection Hc as <-. split_and!; simpl; try done. by destruct Hp.
  - split_and!; simpl; try done. by destruct Hp.
  - destruct Hres as [p n cap w bp Hth _ Hw|k r bp _ _ Hr].
    + apply wrote_ok; [done|]. destruct (Ht _ _ _ _ Hth) as (Hne & Hc1 & Hc2).
      exact (wp_run _ _ _ _ _ (Write_resume_spec p n cap _ Hp Hne Hc1 Hc2) Hw).
    + apply got_ok; [done|]. exact (wp_run _ _ _ _ _ (Read_resume_spec k _ Hp) Hr).
Qed.

Lemma reachable_ok σ : reachable σ → system_ok σ.
Proof.
  intros (pools & bp & Hpools & Hnew & Hr).
  assert (Hinit : pipe_ok (mkBP [] 0 None pools ∅)).
  { split; simpl; [done..| |done]. intros l b Hl. by destruct l. }
  assert (grown minCap (mkBP [] 0 None pools ∅) bp) as (Hok & Hc & _).
  { refine (wp_run _ _ _ _ _ (appendBuffer_spec minCap _ Hinit _ _ _) Hnew); [unfold minCap, maxCap; lia..|done]. }
  assert (H0 : system_ok (mkSystem bp ∅ [] [])) by (split_and!; simpl; [done|by rewrite Hc|done]).
  induction Hr as [|σ1 σ2 σ3 Hst _ IH]; [done|]. apply IH. by eapply pipe_step_ok.
Qed.

(** ** Properties *)

(** C8. The pipe is a bounded queue: whatever the interleaving of its readers,
    writers and closers and the reuse of pooled buffers, the bytes read so far
    followed by the bytes in the pipe are the bytes written so far, in order
    and each exactly once; [bufLen] counts them and stays under two million. *)
Theorem bytespipe_fifo σ :
  reachable σ →
  received σ ++ contents (pipe σ) = sent σ ∧
  bp_bufLen (pipe σ) = Z.of_nat (length (contents (pipe σ))) ∧
  (bp_bufLen (pipe σ) < 2 * blockThreshold)%Z.
Proof.
  intros (Hok & Hs & _)%reachable_ok. split_and!; [done|by apply ok_len|by apply pipe_bounded].
Qed.

(** A write that starts, or goes on after [written] bytes, with [p] left: on a closed
    pipe it stops at once and changes nothing; on an open pipe it appends all of [p]
    and wakes everybody, or it appends a part of [p] and sleeps, wakes nobody, and
    has filled the pipe up to the threshold.  So it does not sleep when the pipe has
    room for [p] below the threshold, and it does when there would be two million
    bytes. *)
Definition writes (p : list byte) (written : nat) (m : M BytesPipe write_end) (s : BytesPipe) : Prop :=
  match bp_closeErr s with
  | Some _ => m s = Ret (WReturn written (Some ErrClosed)) s
  | None =>
      (∃ s', m s = Ret (WReturn (written + length p) None) s' ∧ contents s' = contents s ++ p ∧
        bp_closeErr s' = None ∧ bp_wait s' = ∅ ∧ (Z.of_nat (length (contents s) + length p) < 2 * blockThreshold)%Z) ∨
      (∃ n cap s', m s = Ret (WWait (drop n p) (written + n) cap) s' ∧ n < length p ∧ contents s' = contents s ++ take n p ∧
        bp_closeErr s' = None ∧ bp_wait s' = bp_wait s ∧ (blockThreshold ≤ Z.of_nat (length (contents s) + n))%Z)
  end.

(** A read of at most [k] bytes, on a pipe on which it does not sleep: it takes the
    longest prefix that fits and wakes everybody. *)
Definition takes (k : nat) (m : M BytesPipe read_end) (s : BytesPipe) : Prop :=
  ∃ s', m s = Ret (RReturn (take k (contents s)) None) s' ∧ contents s' = drop k (contents s) ∧
    bp_closeErr s' = bp_closeErr s ∧ bp_wait s' = ∅.

Lemma write_post_writes p written m s : pipe_ok s → wp m (λ w s', write_post p written w s s') s →
  (∀ e, bp_closeErr s = Some e → m s = Ret (WReturn written (Some ErrClosed)) s) → writes p written m s.
Proof.
  intros Hok (w & s' & E & Hok' & Hcl & q & Hq & Hn & Hm)%wp_inv Hclosed. unfold writes.
  destruct (bp_closeErr s) as [e|] eqn:Hs; [by apply (Hclosed e)|].
  pose proof (pipe_bounded s' Hok') as Hb. pose proof (ok_len s' Hok') as Hl. rewrite Hq, length_app in Hl. rewrite Hl in *.
  destruct w as [n [e|]|rest n cap]; simpl in *; subst n.
  - by destruct Hm as (_ & _ & [? ?] & _).
  - left. exists s'. destruct Hm as (-> & ? & _). by split_and!.
  - right. destruct Hm as (-> & Hne & _ & _ & Hfull & _ & Hw).
    exists (length q), cap, s'. rewrite drop_app_length, take_app_length, length_app. split_and!; try done.
    destruct rest; [done|simpl; lia].
Qed.

Lemma Write_loop_closed fuel p written s e : bp_closeErr s = Some e →
  Write_loop (S fuel) p written s = Ret (WReturn written (Some ErrClosed)) s.
Proof. intros E. simpl. unfold mbind, M_bind, read. by rewrite E. Qed.
Lemma write_fuel_S p : write_fuel p = S (S (length p)).
Proof. unfold write_fuel. lia. Qed.

Lemma read_post_takes k m s : wp m (λ r s', ∃ d, r = RReturn d None ∧ read_post k d s s' ∧ bp_wait s' = ∅) s → takes k m s.
Proof.
  intros (r & s' & E & d & -> & (_ & Hc & Hcl & Hd) & Hw)%wp_inv. exists s'. rewrite Hc in *. rewrite length_app in Hd.
  assert (d = take k (d ++ contents s') ∧ contents s' = drop k (d ++ contents s')) as [E1 E2].
  { destruct (decide (length d = k)) as [<-|Hne]; [by rewrite take_app_length, drop_app_length|].
    assert (contents s' = []) as -> by (apply nil_length_inv; lia). rewrite app_nil_r. rewrite take_ge, drop_ge by lia. done. }
  rewrite <-E1, <-E2. done.
Qed.

(** C9. Calls on a pipe never panic and never loop, and what they do is a function of
    the pipe.  [Write] refuses a closed pipe; on an open one it appends all of its
    argument, or fills the pipe up to the threshold and sleeps with the rest; when it
    is woken it does the same again with the rest.  [Read] takes as much as fits from
    the front of a pipe with data, closed or not; on an empty pipe it returns the
    error of the close, or sleeps if the pipe is open; when it is woken it returns,
    with data, with the error of the close, or with nothing. *)
Theorem bytespipe_calls σ :
  reachable σ →
  let s := pipe σ in
  (∀ p, writes p 0 (Write p) s) ∧
  (∀ t p n cap, threads σ !! t = Some (Writing p n cap) →
    (bp_closeErr s = None → (blockThreshold ≤ bp_bufLen s)%Z → Write_resume p n cap s = Ret (WWait p n cap) s) ∧
    writes p n (Write_resume p n cap) s) ∧
  (∀ k, match contents s, bp_closeErr s with
        | [], Some e => Read k s = Ret (RReturn [] (Some e)) s
        | [], None => Read k s = Ret RWait s
        | _, _ => takes k (Read k) s
        end) ∧
  (∀ k, match contents s, bp_closeErr s with
        | [], Some e => Read_resume k s = Ret (RReturn [] (Some e)) s
        | _, _ => takes k (Read_resume k) s
        end).
Proof.
  intros (Hok & _ & Hth)%reachable_ok s. fold s in Hok. pose proof (ok_len s Hok) as Hl. split_and!.
  - intros p. apply write_post_writes; [done|by apply Write_spec|]. intros e He. unfold Write. rewrite write_fuel_S.
    by eapply Write_loop_closed.
  - intros t p n cap Ht. destruct (Hth t p n cap Ht) as (Hp & Hc1 & Hc2). split.
    + intros Hcl Hfull. unfold Write_resume, mbind, M_bind, read. rewrite Hcl. by rewrite decide_True.
    + apply write_post_writes; [done|by apply Write_resume_spec|]. intros e He. unfold Write_resume, mbind, M_bind, read.
      rewrite He, write_fuel_S. by eapply Write_loop_closed.
  - intros k. unfold Read, takes, mbind, M_bind, read. destruct (contents s) as [|x l] eqn:Hc; rewrite Hl.
    + simpl. by destruct (bp_closeErr s).
    + rewrite decide_False by done. rewrite <-Hc. destruct (read_post_takes k _ _ (Read_rest_spec k s Hok)) as (s' & ?). by exists s'.
  - intros k. unfold Read_resume, takes, mbind, M_bind, read. pose proof (read_post_takes k _ _ (Read_rest_spec k s Hok)) as Ht.
    unfold takes in Ht. destruct (contents s) as [|x l] eqn:Hc; rewrite Hl; destruct (bp_closeErr s); done.
Qed.

(** A write of two million bytes into an open pipe without data goes to sleep
    and wakes nobody. *)
Lemma big_write_sleeps (p : list byte) s :
  pipe_ok s → bp_closeErr s = None → (2 * blockThreshold ≤ Z.of_nat (length p))%Z →
  ∃ rest n cap s', Write p s = Ret (WWait rest n cap) s' ∧ bp_wait s' = bp_wait s ∧
    (blockThreshold ≤ bp_bufLen s')%Z ∧ bp_closeErr s' = None.
Proof.
  intros Hok Hcl Hp. destruct (wp_inv _ _ _ (Write_spec p s Hok)) as (w & s' & E & Hok' & Hcl' & q & Hq & Hn & Hm).
  rewrite Hcl in Hcl'. destruct w as [n [e|]|rest n cap].
  - destruct Hm as (_ & _ & [e' He] & _). congruence.
  - destruct Hm as (-> & _). pose proof (pipe_bounded s' Hok') as Hb. pose proof (ok_len s' Hok') as Hl.
    rewrite Hq, length_app in Hl. lia.
  - destruct Hm as (_ & _ & _ & _ & Hfull & _ & Hw). by exists rest, n, cap, s'.
Qed.

(** C10. Lost wakeup: a reader that sleeps on the empty pipe and a writer of
    more than the bound reach a state in which both sleep, the pipe is open
    and holds at least the threshold, and neither of them can run on; the
    writer went to sleep without waking the reader. *)
Theorem bytespipe_lost_wakeup (p : list byte) k :
  (2 * blockThreshold ≤ Z.of_nat (length p))%Z →
  ∃ σ rest n cap, reachable σ ∧ threads σ = <[1:=Writing rest n cap]> {[0:=Reading k]} ∧
    (blockThreshold ≤ bp_bufLen (pipe σ))%Z ∧ bp_closeErr (pipe σ) = None ∧
    ∀ t σ', ¬ resume t σ σ'.
Proof.
  intros Hp.
  assert (Hinit : pipe_ok (mkBP [] 0 None ∅ ∅)).
  { split; simpl; [done..| |done]. intros l b Hl. by destruct l. }
  destruct (wp_inv _ _ _ (appendBuffer_spec minCap _ Hinit ltac:(unfold minCap; lia)
    ltac:(unfold minCap, maxCap; lia) eq_refl)) as ([] & bp & Hnew & Hok & Hc & Hcl & Hw & Hlen & _).
  simpl in Hcl, Hw, Hlen.
  set (σ1 := mkSystem (set_wait (λ ws, {[0]} ∪ ws) bp) {[0:=Reading k]} [] []).
  destruct (big_write_sleeps p (pipe σ1)) as (rest & n & cap & bp' & Hwr & Hw' & Hfull & Hcl');
    [by apply set_wait_ok|done|done|].
  exists (wrote 1 p 0 (WWait rest n cap) bp' σ1), rest, n, cap. split_and!; try done.
  - exists ∅, bp. split_and!; [done..|].
    apply (rtc_l _ _ σ1); [|apply rtc_once, (step_write σ1 1 p (WWait rest n cap)); [done|exact Hwr]].
    apply (step_read (mkSystem bp ∅ [] []) 0 k RWait bp); [done|].
    unfold Read. simpl. unfold mbind, M_bind, read. rewrite Hlen. simpl. by rewrite Hcl.
  - intros t σ' Hres. simpl in Hw'. rewrite Hw in Hw'.
    assert (Hin : is_Some ((<[1:=Writing rest n cap]> {[0:=Reading k]} : gmap nat thread) !! t) → t ∈ ({[1]} ∪ bp_wait bp' : gset nat)).
    { rewrite Hw', lookup_insert_is_Some, lookup_singleton_is_Some. set_solver. }
    destruct Hres as [p' n' cap' w bp2 Hth Hnin _|k' r bp2 Hth Hnin _]; apply Hnin, Hin; simpl in Hth; by rewrite Hth.
Qed.
End specs.

(** ** A concrete pool *)

Module ConcretePool.
#[export] Instance lifo : SyncPool.
Proof.
  refine {| pool_Get l := match l with [] => None | b :: l' => Some (b, l') end |}.
  intros l b l' E. destruct l; by simplify_eq.
Defined.

(** A write of three bytes and a read of two. *)
Definition fresh : BytesPipe := Eval vm_compute in
  match NewBytesPipe ∅ with Ret _ bp => bp | _ => mkBP [] 0 None ∅ ∅ end.
Definition abc : list byte := [x61; x62; x63].
Definition end_of {A} (o : outcome BytesPipe A) : BytesPipe := match o with Ret _ bp => bp | _ => fresh end.
Definition full : system :=
  wrote 0 abc 0 (WReturn 3 None) (end_of (Write abc fresh)) (mkSystem fresh ∅ [] []).
Definition after : system := got 0 2 (RReturn [x61; x62] None) (end_of (Read 2 (pipe full))) full.

Lemma full_reachable : reachable full.
Proof.
  exists ∅, fresh. split_and!; [done|by vm_compute|]. eapply rtc_once.
  apply (step_write (mkSystem fresh ∅ [] []) 0 abc (WReturn 3 None)); by vm_compute.
Qed.

Lemma after_reachable : reachable after.
Proof.
  destruct full_reachable as (pools & bp & H1 & H2 & H3). exists pools, bp. split_and!; [done..|].
  eapply rtc_r; [exact H3|]. apply (step_read full 0 2 (RReturn [x61; x62] None)); by vm_compute.
Qed.

Lemma bytespipe_fifo_witness : received after = [x61; x62] ∧ received after ++ contents (pipe after) = abc.
Proof. split; [by vm_compute|]. apply (bytespipe_fifo after after_reachable). Defined.

Lemma bytespipe_calls_witness :
  (∃ s', Read 2 (pipe full) = Ret (RReturn [x61; x62] None) s' ∧ contents s' = [x63]) ∧ writes abc 0 (Write abc) (pipe full).
Proof.
  destruct (bytespipe_calls full full_reachable) as (Hw & _ & Hr & _). split; [|exact (Hw abc)].
  destruct (Hr 2) as (s' & E & Hc & _). exists s'. split; [exact E|exact Hc].
Defined.

Lemma bytespipe_lost_wakeup_witness : ∃ σ, reachable σ ∧ bp_closeErr (pipe σ) = None ∧ ∀ t σ', ¬ resume t σ σ'.
Proof.
  destruct (bytespipe_lost_wakeup (replicate (Z.to_nat 2000000) x00) 1) as (σ & rest & n & cap & H1 & _ & _ & H2 & H3).
  - rewrite length_replicate, Z2Nat.id; [done|lia].
  - by exists σ.
Defined.
End ConcretePool.
