(* ===== verification/StdCopy.v ===== *)
(** The multiplexing of pkg/stdcopy/stdcopy.go: [stdWriter] puts the frames of
    several streams on one connection, [StdCopy] takes them apart again. The
    copy loop is shown to compute the same as a decoder of the whole stream,
    whatever the sizes of the reads, and to undo the writers. *)

From Stdlib Require Import Strings.Byte.
From S2P Require Import Prelude GoStrings GoIO.

Inductive StdType : Type := Stdin | Stdout | Stderr.
#[export] Instance StdType_eq_dec : EqDecision StdType.
Proof. solve_decision. Defined.

Definition stdWriterPrefixLen : nat := 8.
Definition stdWriterFdIndex : nat := 0.
Definition stdWriterSizeIndex : nat := 4.
Definition startingBufLen : nat := 32 * 1024 + stdWriterPrefixLen + 1.

Definition byte_of_StdType (t : StdType) : byte :=
  match t with Stdin => x00 | Stdout => x01 | Stderr => x02 end.

(** ** The writer *)

Record stdWriter (W : Type) := mkStdWriter { sw_Writer : option W; sw_prefix : byte }.
Arguments mkStdWriter {W}.
Arguments sw_Writer {W}.
Arguments sw_prefix {W}.

Definition header (prefix : byte) (len : nat) : list byte :=
  [prefix; x00; x00; x00] ++ PutUint32 (uint32 (Z.of_nat len)).

Definition NewStdWriter {W} (w : W) (t : StdType) : stdWriter W := mkStdWriter (Some w) (byte_of_StdType t).

(** [None] is a nil pointer to a writer, or a nil slice. *)
Definition stdWriter_Write `{Writer W} (w : option (stdWriter W)) (p : option (list byte))
    : Z * option io_error * option (stdWriter W) :=
  match w with
  | Some (mkStdWriter (Some u) prefix) =>
      match p with
      | None => (0%Z, None, w)
      | Some p =>
          let '(n, err, u') := io_Write (header prefix (length p) ++ p) u in
          let n := (n - Z.of_nat stdWriterPrefixLen)%Z in
          (if decide (n < 0)%Z then 0%Z else n, err, Some (mkStdWriter (Some u') prefix))
      end
  | _ => (0%Z, Some (OtherIO "Writer not instantiated"), w)
  end.

(** ** The copy loop *)

(** The variables of [StdCopy]. *)
Record copying (R W : Type) := mkCopying {
  src : R;
  dstout : W;
  dsterr : W;
  buf : list byte;
  nr : nat;
  written : Z }.
Arguments mkCopying {R W}.
Arguments src {R W}.
Arguments dstout {R W}.
Arguments dsterr {R W}.
Arguments buf {R W}.
Arguments nr {R W}.
Arguments written {R W}.

Section copy.
Context {R W : Type} `{!Reader R} `{!Writer W}.
Abbreviation st := (copying R W).

Definition set_src (r : R) (s : st) : st := mkCopying r (dstout s) (dsterr s) (buf s) (nr s) (written s).
Definition set_dst (o e : W) (s : st) : st := mkCopying (src s) o e (buf s) (nr s) (written s).
Definition set_buf (b : list byte) (n : nat) (s : st) : st := mkCopying (src s) (dstout s) (dsterr s) b n (written s).
Definition set_written (w : Z) (s : st) : st := mkCopying (src s) (dstout s) (dsterr s) (buf s) (nr s) w.

Definition bounds_panic : string := "slice bounds out of range".

(** [src.Read(buf[nr:])]; [nr += nr2]. *)
Definition readMore : M st (option io_error) := λ s,
  if decide (nr s ≤ length (buf s)) then
    let '(d, er, r') := io_Read (length (buf s) - nr s) (src s) in
    Ret er (set_buf (take (nr s) (buf s) ++ d ++ drop (nr s + length d) (buf s)) (nr s + length d) (set_src r' s))
  else Panic bounds_panic.

Inductive fill_end : Type :=
| Filled
| Short
| ReadError (e : io_error).

(** Both inner loops: read until [n] bytes are in the buffer. *)
Fixpoint fill (fuel : nat) (n : nat) : M st fill_end :=
  match fuel with
  | O => out_of_fuel
  | S fuel =>
      have ← read nr;
      if decide (have < n) then
        er ← readMore;
        have ← read nr;
        match er with
        | Some EOF => mret (if decide (have < n) then Short else Filled)
        | Some e => mret (ReadError e)
        | None => fill fuel n
        end
      else mret Filled
  end.

Definition selectOut (b : byte) : option StdType :=
  if decide (Z_of_byte b = 0)%Z then Some Stdin
  else if decide (Z_of_byte b = 1)%Z then Some Stdout
  else if decide (Z_of_byte b = 2)%Z then Some Stderr
  else None.

Definition unrecognized (b : byte) : io_error := OtherIO ("Unrecognized input header: " +:+ Itoa (Z_of_byte b)).

(** [out.Write(...)]. *)
Definition writeFrame (t : StdType) (frame : list byte) : M st (Z * option io_error) := λ s,
  match t with
  | Stdin | Stdout => let '(n, e, w) := io_Write frame (dstout s) in Ret (n, e) (set_dst w (dsterr s) s)
  | Stderr => let '(n, e, w) := io_Write frame (dsterr s) in Ret (n, e) (set_dst (dstout s) w s)
  end.

(** The buffer is extended when the frame does not fit. *)
Definition extend (frameSize : nat) (b : list byte) : list byte :=
  if decide (length b < frameSize + stdWriterPrefixLen) then
    b ++ replicate (frameSize + stdWriterPrefixLen - length b + 1) x00
  else b.

(** [copy(buf, buf[k:])]. *)
Definition shift (k : nat) (b : list byte) : list byte := drop k b ++ drop (length b - k) b.

(** What is done with a whole frame of [frameSize] bytes for [t]. [None] goes on. *)
Definition deliver (t : StdType) (frameSize : nat) : M st (option (Z * option io_error)) :=
  b ← read buf;
  (if decide (frameSize + stdWriterPrefixLen ≤ length b) then mret () else panic bounds_panic);;
  '(nw, ew) ← writeFrame t (take frameSize (drop stdWriterPrefixLen b));
  match ew with
  | Some e => mret (Some (0%Z, Some e))
  | None =>
      if decide (nw ≠ Z.of_nat frameSize) then mret (Some (0%Z, Some ErrShortWrite))
      else
        modify (λ s, set_written (wrap64 (written s + nw)) s);;
        modify (λ s, set_buf (shift (frameSize + stdWriterPrefixLen) (buf s)) (nr s - (frameSize + stdWriterPrefixLen)) s);;
        mret None
  end.

(** One round of the outer loop, after the header has been read. *)
Definition copyFrame (fuel : nat) : M st (option (Z * option io_error)) :=
  b ← read buf;
  match b !! stdWriterFdIndex, Uint32 (take 4 (drop stdWriterSizeIndex b)) with
  | Some fd, Some size =>
      match selectOut fd with
      | None => mret (Some (0%Z, Some (unrecognized fd)))
      | Some t =>
          let frameSize := Z.to_nat size in
          modify (λ s, set_buf (extend frameSize (buf s)) (nr s) s);;
          r ← fill fuel (frameSize + stdWriterPrefixLen);
          match r with
          | Short => w ← read written; mret (Some (w, None))
          | ReadError e => mret (Some (0%Z, Some e))
          | Filled => deliver t frameSize
          end
      end
  | _, _ => panic bounds_panic
  end.

(** The outer loop; [fuel] also bounds the number of reads of one frame. *)
Fixpoint StdCopy_loop (rounds fuel : nat) : M st (Z * option io_error) :=
  match rounds with
  | O => out_of_fuel
  | S rounds =>
      r ← fill fuel stdWriterPrefixLen;
      match r with
      | Short => w ← read written; mret (w, None)
      | ReadError e => mret (0%Z, Some e)
      | Filled =>
          e ← copyFrame fuel;
          match e with
          | Some res => mret res
          | None => StdCopy_loop rounds fuel
          end
      end
  end.

Definition StdCopy (rounds fuel : nat) (out err : W) (r : R) : outcome st (Z * option io_error) :=
  StdCopy_loop rounds fuel (mkCopying r out err (replicate startingBufLen x00) 0 0).
End copy.

(** ** The decoder of a whole stream *)

Inductive decoded : Type :=
| Frame (t : StdType) (payload rest : list byte)
| Truncated
| BadHeader (fd : byte).

(** The first frame of a stream. *)
Definition next_frame (bs : list byte) : decoded :=
  if decide (length bs < stdWriterPrefixLen) then Truncated
  else match bs !! stdWriterFdIndex, Uint32 (take 4 (drop stdWriterSizeIndex bs)) with
  | Some fd, Some size =>
      match selectOut fd with
      | None => BadHeader fd
      | Some t =>
          let frameSize := Z.to_nat size in
          if decide (length bs < frameSize + stdWriterPrefixLen) then Truncated
          else Frame t (take frameSize (drop stdWriterPrefixLen bs)) (drop (frameSize + stdWriterPrefixLen) bs)
      end
  | _, _ => Truncated
  end.

(** The frames up to the end of the stream, or up to a header that is not one. *)
Fixpoint demux (fuel : nat) (bs : list byte) : list (StdType * list byte) * option byte :=
  match fuel with
  | O => ([], None)
  | S fuel =>
      match next_frame bs with
      | Frame t p rest => let '(fs, v) := demux fuel rest in ((t, p) :: fs, v)
      | Truncated => ([], None)
      | BadHeader fd => ([], Some fd)
      end
  end.

(** The bytes of one destination. *)
Definition payloads (err : bool) (fs : list (StdType * list byte)) : list byte :=
  concat (filter (λ f, bool_decide (f.1 = Stderr) = err) fs).*2.
Definition total (fs : list (StdType * list byte)) : Z := Z.of_nat (length (concat fs.*2)).

Lemma next_frame_shorter bs t p rest : next_frame bs = Frame t p rest → length rest < length bs.
Proof.
  unfold next_frame, stdWriterPrefixLen. case_decide; [done|]. destruct (bs !! _); [|done].
  destruct (Uint32 _); [|done]. destruct (selectOut _); [|done]. case_decide; [done|].
  intros [= <- <- <-]. rewrite length_drop. lia.
Qed.

(** ** The copy loop decodes *)

Section refinement.
Context {R : Type} `{!Reader R, !GoodReader R}.
Abbreviation st := (copying R (list byte)).

(** [bs] is still to be decoded: it is in the buffer or still to be read. *)
Definition pending (bs : list byte) (s : st) : Prop :=
  nr s ≤ length (buf s) ∧ take (nr s) (buf s) ++ stream (src s) = bs.

(** Reading more changes the source and the buffer only. *)
Definition reading (bs : list byte) (s s' : st) : Prop :=
  pending bs s' ∧ length (buf s') = length (buf s) ∧ budget (src s') ≤ budget (src s) ∧
  dstout s' = dstout s ∧ dsterr s' = dsterr s ∧ written s' = written s.

Lemma fill_spec fuel n bs s :
  pending bs s → n ≤ length (buf s) → budget (src s) < fuel →
  wp (fill fuel n) (λ r s', reading bs s s' ∧
    match r with Filled => n ≤ nr s' | Short => length bs < n | ReadError _ => False end) s.
Proof.
  revert s. induction fuel as [|fuel IH]; intros s [Hnr Hbs] Hn Hf; [lia|]. simpl. wp_steps.
  case_decide as Hlt; [|wp_step; split; [by split_and!|lia]].
  unfold wp, mbind, M_bind, readMore, read. rewrite decide_True by done.
  pose proof (good_Read (length (buf s) - nr s) (src s) ltac:(lia)) as Hgood.
  destruct (io_Read _ _) as [[d e] r']. destruct Hgood as (Hst & Hd & He).
  set (s1 := StdCopy.set_buf _ _ _).
  assert (Hlen : length (buf s1) = length (buf s)).
  { simpl. rewrite !length_app, length_take, length_drop. lia. }
  assert (Hp : pending bs s1).
  { split; [rewrite Hlen; simpl; lia|]. simpl. rewrite <-Hbs, Hst, !(assoc_L (++)). f_equal.
    rewrite take_app_le, take_ge; [done|rewrite length_app, length_take; lia..]. }
  destruct e as [e|].
  - destruct He as (-> & Hend & Hbu). case_decide as Hshort; (split; [by split_and!|]); [|lia].
    destruct Hp as [_ <-]. rewrite length_app, length_take. simpl. rewrite Hend. simpl. simpl in Hshort. lia.
  - eapply wp_mono; [apply (IH s1 Hp); [lia|simpl; lia]|]. intros r s' [(Hp' & Hl' & Hb' & Ho & He' & Hw) Hm].
    split; [|done]. split_and!; [done|lia|simpl in *; lia|done..].
Qed.

Lemma Uint32_Some l : 4 ≤ length l → ∃ v, Uint32 l = Some v.
Proof. destruct l as [|? [|? [|? [|? ?]]]]; simpl; [lia..|eauto]. Qed.

(** The bytes in the buffer are the first ones of the stream. *)
Lemma pending_take bs s k : pending bs s → k ≤ nr s → take k (buf s) = take k bs.
Proof.
  intros [Hnr <-] Hk. rewrite take_app_le by (rewrite length_take; lia).
  by rewrite take_take, Nat.min_l.
Qed.

Lemma pending_length bs s : pending bs s → nr s ≤ length bs.
Proof. intros [Hnr <-]. rewrite length_app, length_take. lia. Qed.

Lemma take_drop_eq {A} (l l' : list A) i j :
  take (i + j) l = take (i + j) l' → take j (drop i l) = take j (drop i l').
Proof. intros E. by rewrite !take_drop_commute, E. Qed.

Lemma pending_header bs s :
  pending bs s → 8 ≤ nr s →
  buf s !! 0 = bs !! 0 ∧ take 4 (drop 4 (buf s)) = take 4 (drop 4 bs) ∧ is_Some (bs !! 0) ∧
  ∃ v, Uint32 (take 4 (drop 4 bs)) = Some v.
Proof.
  intros Hp Hnr. pose proof (pending_length _ _ Hp) as Hl. pose proof (pending_take _ _ 8 Hp Hnr) as Ht. split_and!.
  - rewrite <-(lookup_take_lt (buf s) 8 0), Ht, lookup_take_lt by lia. done.
  - by apply (take_drop_eq _ _ 4 4).
  - apply lookup_lt_is_Some. lia.
  - apply Uint32_Some. rewrite length_take, length_drop. lia.
Qed.

Lemma extend_pending bs k s : pending bs s → pending bs (StdCopy.set_buf (extend k (buf s)) (nr s) s).
Proof.
  intros [Hnr Hb]. unfold extend. case_decide; [|done]. split; simpl; [rewrite length_app; lia|].
  by rewrite take_app_le.
Qed.

Lemma extend_length k b : k + stdWriterPrefixLen ≤ length (extend k b) ∧ length b ≤ length (extend k b).
Proof. unfold extend. case_decide; [rewrite length_app, length_replicate|]; lia. Qed.

(** Where the payload of a frame goes. *)
Definition out_of (t : StdType) (err : bool) (p : list byte) : list byte :=
  if decide (bool_decide (t = Stderr) = err) then p else [].

Definition delivered (t : StdType) (p rest : list byte) (s s' : st) : Prop :=
  pending rest s' ∧ length (buf s') = length (buf s) ∧ budget (src s') = budget (src s) ∧
  dstout s' = dstout s ++ out_of t false p ∧ dsterr s' = dsterr s ++ out_of t true p ∧
  written s' = wrap64 (written s + Z.of_nat (length p)).

Lemma deliver_spec t k bs s :
  pending bs s → k + stdWriterPrefixLen ≤ nr s →
  wp (deliver t k) (λ r s', r = None ∧
    delivered t (take k (drop stdWriterPrefixLen bs)) (drop (k + stdWriterPrefixLen) bs) s s') s.
Proof.
  intros Hp Hk. pose proof (pending_length _ _ Hp) as Hl. pose proof Hp as [Hnr Hbs]. unfold deliver.
  wp_steps. rewrite decide_True by lia. wp_steps.
  assert (Hf : take k (drop stdWriterPrefixLen (buf s)) = take k (drop stdWriterPrefixLen bs)).
  { apply take_drop_eq, (pending_take _ _ _ Hp). lia. }
  rewrite Hf. set (p := take k _). assert (Hlen : length p = k) by (unfold p; rewrite length_take, length_drop; lia).
  apply wp_mono with (λ a s1, a = (Z.of_nat k, None) ∧ buf s1 = buf s ∧ nr s1 = nr s ∧ src s1 = src s ∧
    written s1 = written s ∧ dstout s1 = dstout s ++ out_of t false p ∧ dsterr s1 = dsterr s ++ out_of t true p).
  { unfold wp, writeFrame, io_Write, sink. rewrite Hlen. by destruct t; simpl; rewrite app_nil_r. }
  intros [nw ew] s1 ([= -> ->] & Eb & En & Es & Ew & Eo & Ee). rewrite decide_False by naive_solver.
  wp_steps. split; [done|]. unfold delivered, pending, shift. simpl. rewrite Eb, En, Es, Ew, Eo, Ee, Hlen.
  split_and!; try done; rewrite ?length_app, ?length_drop; try lia.
  rewrite take_app_le by (rewrite length_drop; lia). rewrite <-skipn_firstn_comm.
  rewrite <-drop_app_le by (rewrite length_take; lia). by rewrite Hbs.
Qed.

(** One round of the outer loop takes the next frame off the stream. *)
Definition frame_post (bs : list byte) (res : option (Z * option io_error)) (s s' : st) : Prop :=
  match next_frame bs with
  | Frame t p rest => res = None ∧ pending rest s' ∧ length (buf s) ≤ length (buf s') ∧
      budget (src s') ≤ budget (src s) ∧
      dstout s' = dstout s ++ out_of t false p ∧ dsterr s' = dsterr s ++ out_of t true p ∧
      written s' = wrap64 (written s + Z.of_nat (length p))
  | Truncated => res = Some (written s, None) ∧ dstout s' = dstout s ∧ dsterr s' = dsterr s
  | BadHeader fd => res = Some (0%Z, Some (unrecognized fd)) ∧ dstout s' = dstout s ∧ dsterr s' = dsterr s
  end.

Lemma copyFrame_spec fuel bs s :
  pending bs s → stdWriterPrefixLen ≤ nr s → budget (src s) < fuel →
  wp (copyFrame fuel) (λ res s', frame_post bs res s s') s.
Proof.
  intros Hp Hnr Hf. destruct (pending_header _ _ Hp Hnr) as (E1 & E2 & [fd Hfd] & v & Hv).
  pose proof (pending_length _ _ Hp) as Hl. unfold copyFrame. wp_steps.
  unfold frame_post, next_frame, stdWriterFdIndex, stdWriterSizeIndex. rewrite decide_False by lia.
  rewrite E1, E2, Hfd, Hv. destruct (selectOut fd) as [t|]; [|by wp_step].
  wp_steps. set (k := Z.to_nat v). destruct (extend_length k (buf s)) as [Hx1 Hx2].
  apply (extend_pending bs k) in Hp. set (s1 := StdCopy.set_buf _ _ _) in *.
  wp_apply fill_spec; [done|done|done|]. intros r s2 [(Hp2 & Hb2 & Hbu2 & Ho2 & He2 & Hw2) Hr].
  destruct r as [| |e]; [|wp_steps; rewrite decide_True by done; by rewrite Hw2, Ho2, He2|done].
  pose proof (pending_length _ _ Hp2) as Hl2. rewrite decide_False by lia.
  wp_apply deliver_spec; [done|done|]. intros r s3 (-> & Hp3 & Hb3 & Hbu3 & Ho3 & He3 & Hw3).
  simpl in *. split_and!; try done; [lia|lia|..].
  - by rewrite Ho3, Ho2.
  - by rewrite He3, He2.
  - by rewrite Hw3, Hw2.
Qed.

Lemma payloads_cons err t p fs : payloads err ((t, p) :: fs) = out_of t err p ++ payloads err fs.
Proof. unfold payloads, out_of. rewrite filter_cons. simpl. by case_decide. Qed.

Lemma total_cons t p fs : total ((t, p) :: fs) = (Z.of_nat (length p) + total fs)%Z.
Proof. unfold total. rewrite fmap_cons. cbn [concat snd]. rewrite length_app, Nat2Z.inj_add. done. Qed.

(** What the copy of the stream [bs] has written and returned in the end. *)
Definition copied (n : nat) (bs : list byte) (res : Z * option io_error) (s s' : st) : Prop :=
  let '(fs, v) := demux n bs in
  dstout s' = dstout s ++ payloads false fs ∧ dsterr s' = dsterr s ++ payloads true fs ∧
  res = match v with
        | None => (wrap64 (written s + total fs), None)
        | Some fd => (0%Z, Some (unrecognized fd))
        end.

Lemma StdCopy_loop_spec rounds fuel bs s :
  pending bs s → stdWriterPrefixLen ≤ length (buf s) → budget (src s) < fuel → length bs < rounds →
  wrap64 (written s) = written s →
  wp (StdCopy_loop rounds fuel) (λ res s', copied rounds bs res s s') s.
Proof.
  revert bs s. induction rounds as [|rounds IH]; intros bs s Hp Hb Hf Hr Hw; [lia|]. simpl.
  wp_step. wp_apply fill_spec; [done..|]. intros r s1 [(Hp1 & Hb1 & Hbu1 & Ho1 & He1 & Hw1) Hm].
  destruct r as [| |e]; [| |done].
  2: { wp_steps. unfold copied. simpl. unfold next_frame. rewrite decide_True by done.
       unfold payloads, total. simpl. by rewrite !app_nil_r, Ho1, He1, Hw1, Z.add_0_r, Hw. }
  wp_step. wp_apply copyFrame_spec; [done|done|lia|]. intros res s2 Hpost.
  unfold copied. simpl. unfold frame_post in Hpost. destruct (next_frame bs) as [t p rest| |fd] eqn:Hnext.
  - destruct Hpost as (-> & Hp2 & Hb2 & Hbu2 & Ho2 & He2 & Hw2). apply next_frame_shorter in Hnext.
    eapply wp_mono; [apply (IH rest); [done|lia|lia|lia|]|].
    { rewrite Hw2. apply wrap64_idemp. }
    intros res s' Hc. unfold copied in Hc. destruct (demux rounds rest) as [fs v].
    destruct Hc as (Ho & He & ->). rewrite !payloads_cons, total_cons, Ho, He, Ho2, He2, Ho1, He1, Hw2, Hw1, wrap64_add.
    rewrite <-!(assoc_L (++)), Z.add_assoc. by destruct v.
  - destruct Hpost as (-> & Ho2 & He2). wp_step. unfold payloads, total. simpl.
    by rewrite !app_nil_r, Ho2, He2, Ho1, He1, Hw1, Z.add_0_r, Hw.
  - destruct Hpost as (-> & Ho2 & He2). wp_step. unfold payloads. simpl.
    by rewrite !app_nil_r, Ho2, He2, Ho1, He1.
Qed.
End refinement.

(** ** Multiplexing *)

(** The connection after the frames have been written to it, each one through
    the writer of its stream. *)
Definition mux_frame (conn : list byte) (f : StdType * list byte) : list byte :=
  match stdWriter_Write (Some (NewStdWriter conn f.1)) (Some f.2) with
  | (_, _, Some (mkStdWriter (Some conn') _)) => conn'
  | _ => conn
  end.
Definition mux (fs : list (StdType * list byte)) : list byte := foldl mux_frame [] fs.

Definition encode (f : StdType * list byte) : list byte :=
  header (byte_of_StdType f.1) (length f.2) ++ f.2.

Lemma mux_encode fs : mux fs = concat (encode <$> fs).
Proof.
  unfold mux. assert (H : ∀ c, foldl mux_frame c fs = c ++ concat (encode <$> fs)).
  { induction fs as [|f fs IH]; intros c; [by rewrite app_nil_r|].
    rewrite fmap_cons. cbn [foldl concat]. rewrite IH. change (mux_frame c f) with (c ++ encode f). by rewrite (assoc_L (++)). }
  by rewrite H.
Qed.

Lemma selectOut_StdType t : selectOut (byte_of_StdType t) = Some t.
Proof. by destruct t. Qed.

Lemma next_frame_encode t p rest :
  (Z.of_nat (length p) < 2 ^ 32)%Z → next_frame (encode (t, p) ++ rest) = Frame t p rest.
Proof.
  intros Hp. unfold encode, header, uint32. simpl fst. simpl snd. rewrite Z.mod_small by lia.
  rewrite <-!(assoc_L (++)).
  set (sz := PutUint32 (Z.of_nat (length p))). assert (Hsz : length sz = 4) by done.
  unfold next_frame, stdWriterPrefixLen, stdWriterFdIndex, stdWriterSizeIndex.
  rewrite decide_False by (rewrite !length_app, Hsz; simpl; lia).
  change (([byte_of_StdType t; x00; x00; x00] ++ sz ++ p ++ rest) !! 0) with (Some (byte_of_StdType t)).
  change (drop 4 ([byte_of_StdType t; x00; x00; x00] ++ sz ++ p ++ rest)) with (sz ++ p ++ rest).
  assert (Hu : Uint32 sz = Some (Z.of_nat (length p))).
  { rewrite <-(app_nil_r sz). apply Uint32_PutUint32. lia. }
  rewrite take_app_length' by done. rewrite Hu, selectOut_StdType, Nat2Z.id.
  rewrite decide_False by (rewrite !length_app, Hsz; simpl; lia). rewrite (Nat.add_comm _ 8).
  change (drop 8 ([byte_of_StdType t; x00; x00; x00] ++ sz ++ p ++ rest)) with (p ++ rest).
  change (drop (8 + length p) ([byte_of_StdType t; x00; x00; x00] ++ sz ++ p ++ rest))
    with (drop (length p) (p ++ rest)).
  by rewrite take_app_length, drop_app_length.
Qed.

(** Frames decode to themselves, and a frame that is cut off is dropped. *)
Lemma demux_mux n fs tail :
  Forall (λ f, Z.of_nat (length f.2) < 2 ^ 32)%Z fs → next_frame tail = Truncated →
  length (mux fs ++ tail) < n → demux n (mux fs ++ tail) = (fs, None).
Proof.
  rewrite mux_encode. revert n. induction fs as [|[t p] fs IH]; intros n Hfs Ht Hn; (destruct n as [|n]; [lia|]).
  - simpl. by rewrite Ht.
  - apply Forall_cons_1 in Hfs as [Hp Hfs]. rewrite fmap_cons in Hn |- *. cbn [concat] in Hn |- *.
    rewrite <-(assoc_L (++)) in Hn |- *. cbn [demux]. rewrite next_frame_encode by done. rewrite IH; [done..|].
    unfold encode at 1, header in Hn. rewrite !length_app in Hn. rewrite length_app. simpl in Hn. lia.
Qed.

Section properties.
Context {R : Type} `{!Reader R, !GoodReader R}.

Lemma StdCopy_spec rounds fuel (out err : list byte) (r : R) :
  length (stream r) < rounds → budget r < fuel →
  ∃ res s', StdCopy rounds fuel out err r = Ret res s' ∧
    copied rounds (stream r) res (mkCopying r out err (replicate startingBufLen x00) 0 0) s'.
Proof.
  intros Hr Hf. unfold StdCopy. apply wp_inv with (m := StdCopy_loop rounds fuel).
  apply StdCopy_loop_spec; try done.
  - split; [cbn [nr]; lia|done].
  - cbn [buf]. rewrite length_replicate. unfold startingBufLen. lia.
Qed.

(** C11. The copy loop refines the decoder of the whole stream: however a
    well-behaved reader cuts the stream, [StdCopy] ends, has written the
    payloads of the decoded frames to the two destinations in order, and
    returns their total size, or the error of the first bad header. *)
Theorem stdcopy_refines_demux rounds fuel (out err : list byte) (r : R) :
  length (stream r) < rounds → budget r < fuel →
  ∃ res s', StdCopy rounds fuel out err r = Ret res s' ∧
    let '(fs, v) := demux rounds (stream r) in
    dstout s' = out ++ payloads false fs ∧ dsterr s' = err ++ payloads true fs ∧
    res = match v with
          | None => (wrap64 (total fs), None)
          | Some fd => (0%Z, Some (unrecognized fd))
          end.
Proof.
  intros Hr Hf. destruct (StdCopy_spec rounds fuel out err r Hr Hf) as (res & s' & E & Hc).
  exists res, s'. split; [done|]. exact Hc.
Qed.

(** C12. Round trip: what the writers of any interleaving of streams have put
    on a connection comes out again, standard error apart from the others,
    each in order; a last frame that was cut off is dropped without an error. *)
Theorem stdcopy_roundtrip rounds fuel (out err : list byte) (r : R) fs tail :
  Forall (λ f, Z.of_nat (length f.2) < 2 ^ 32)%Z fs → next_frame tail = Truncated →
  stream r = mux fs ++ tail → length (stream r) < rounds → budget r < fuel →
  ∃ s', StdCopy rounds fuel out err r = Ret (wrap64 (total fs), None) s' ∧
    dstout s' = out ++ payloads false fs ∧ dsterr s' = err ++ payloads true fs.
Proof.
  intros Hfs Ht Hs Hr Hf. destruct (StdCopy_spec rounds fuel out err r Hr Hf) as (res & s' & E & Hc).
  unfold copied in Hc. rewrite Hs in Hc. rewrite demux_mux in Hc; [|done..|by rewrite <-Hs].
  destruct Hc as (Ho & He & ->). by exists s'.
Qed.
End properties.

(** ** A concrete connection *)

Module ConcreteCopy.
(** Two frames for two streams and a frame that is cut off, in odd chunks. *)
Definition frames : list (StdType * list byte) := [(Stdout, [x61; x62]); (Stderr, [x63]); (Stdin, [])].
Definition tail : list byte := [x01; x00; x00].
Definition conn : list byte := mux frames ++ tail.
Definition chunks : list (list byte) := [take 3 conn; []; take 10 (drop 3 conn); drop 13 conn].

Lemma stdcopy_refines_demux_witness :
  ∃ res (s' : copying (list (list byte)) (list byte)), StdCopy 100 100 [] [] chunks = Ret res s' ∧ dstout s' = [x61; x62].
Proof.
  destruct (stdcopy_refines_demux 100 100 [] [] chunks) as (res & s' & E & H).
  - apply Nat.ltb_lt. by vm_compute.
  - apply Nat.ltb_lt. by vm_compute.
  - exists res, s'. split; [exact E|]. vm_compute (demux 100 (stream chunks)) in H. apply H.
Defined.

Lemma stdcopy_roundtrip_witness :
  ∃ s' : copying (list (list byte)) (list byte), StdCopy 100 100 [] [] chunks = Ret (3%Z, None) s' ∧ dsterr s' = [x63].
Proof.
  destruct (stdcopy_roundtrip 100 100 [] [] chunks frames tail) as (s' & E & _ & He).
  - by repeat constructor.
  - by vm_compute.
  - by vm_compute.
  - apply Nat.ltb_lt. by vm_compute.
  - apply Nat.ltb_lt. by vm_compute.
  - exists s'. split; [exact E|exact He].
Defined.
End ConcreteCopy.
