(* ===== verification/RestartManager.v ===== *)
(** The restart manager of restartmanager/restartmanager.go: it decides whether
    a container that has exited is started again, and after which pause. The
    calls of its clients, the goroutine that waits for the pause and the
    cancellation interleave at the points where its lock is free. *)

From S2P Require Import Prelude.

(** container.RestartPolicy, of the vendored package engine-api. *)
Record RestartPolicy := mkPolicy {
  Name : string;
  MaximumRetryCount : Z }.

Definition IsNone (rp : RestartPolicy) : bool := bool_decide (Name rp = "no") || bool_decide (Name rp = "").
Definition IsAlways (rp : RestartPolicy) : bool := bool_decide (Name rp = "always").
Definition IsOnFailure (rp : RestartPolicy) : bool := bool_decide (Name rp = "on-failure").
Definition IsUnlessStopped (rp : RestartPolicy) : bool := bool_decide (Name rp = "unless-stopped").
Definition IsSame (rp tp : RestartPolicy) : bool :=
  bool_decide (Name rp = Name tp) && bool_decide (MaximumRetryCount rp = MaximumRetryCount tp).

(** Durations are in nanoseconds. *)
Definition backoffMultiplier : Z := 2.
Definition defaultTimeout : Z := 100 * 1000000.
Definition resetAfter : Z := 10 * 1000000000.

Inductive rm_error : Type :=
| ErrRestartCanceled
| ErrActive.

(** The goroutine of a granted restart: before its [select], or in it, with
    the pause its timer was set to. *)
Inductive waiter : Type :=
| Spawned
| Armed (pause : Z).

(** [rm_waiters] maps the channel of a granted restart to its goroutine, and
    [rm_results] the channel to what its receiver gets ([None] is nil). *)
Record restartManager := mkRM {
  rm_policy : RestartPolicy;
  rm_restartCount : Z;
  rm_timeout : Z;
  rm_active : bool;
  rm_canceled : bool;
  rm_cancelClosed : bool;
  rm_onceDone : bool;
  rm_nextChan : nat;
  rm_waiters : gmap nat waiter;
  rm_results : gmap nat (option rm_error) }.

Definition New (policy : RestartPolicy) (restartCount : Z) : restartManager :=
  mkRM policy restartCount 0 false false false false 0 ∅ ∅.

Definition SetPolicy (policy : RestartPolicy) : M restartManager unit :=
  modify (λ rm, mkRM policy (rm_restartCount rm) (rm_timeout rm) (rm_active rm) (rm_canceled rm)
    (rm_cancelClosed rm) (rm_onceDone rm) (rm_nextChan rm) (rm_waiters rm) (rm_results rm)).

(** The pause after one more exit, when the container ran for [executionDuration]. *)
Definition nextTimeout (timeout executionDuration : Z) : Z :=
  let timeout := if decide (resetAfter ≤ executionDuration)%Z then 0%Z else timeout in
  if decide (timeout = 0)%Z then defaultTimeout else wrap64 (timeout * backoffMultiplier).

(** What the policy says. *)
Definition wantsRestart (policy : RestartPolicy) (restartCount exitCode : Z) (hasBeenManuallyStopped : bool) : bool :=
  if IsAlways policy then true
  else if IsUnlessStopped policy && negb hasBeenManuallyStopped then true
  else if IsOnFailure policy then
    (bool_decide (MaximumRetryCount policy = 0%Z) || bool_decide (restartCount < MaximumRetryCount policy)%Z) &&
    bool_decide (exitCode ≠ 0%Z)
  else false.

Definition set_timeout (t : Z) (rm : restartManager) : restartManager :=
  mkRM (rm_policy rm) (rm_restartCount rm) t (rm_active rm) (rm_canceled rm)
    (rm_cancelClosed rm) (rm_onceDone rm) (rm_nextChan rm) (rm_waiters rm) (rm_results rm).
Definition set_active (b : bool) (rm : restartManager) : restartManager :=
  mkRM (rm_policy rm) (rm_restartCount rm) (rm_timeout rm) b (rm_canceled rm)
    (rm_cancelClosed rm) (rm_onceDone rm) (rm_nextChan rm) (rm_waiters rm) (rm_results rm).
Definition set_waiter (ch : nat) (w : waiter) (rm : restartManager) : restartManager :=
  mkRM (rm_policy rm) (rm_restartCount rm) (rm_timeout rm) (rm_active rm) (rm_canceled rm)
    (rm_cancelClosed rm) (rm_onceDone rm) (rm_nextChan rm) (<[ch:=w]> (rm_waiters rm)) (rm_results rm).
Definition finish (ch : nat) (r : option rm_error) (rm : restartManager) : restartManager :=
  mkRM (rm_policy rm) (rm_restartCount rm) (rm_timeout rm) (rm_active rm) (rm_canceled rm)
    (rm_cancelClosed rm) (rm_onceDone rm) (rm_nextChan rm) (delete ch (rm_waiters rm)) (<[ch:=r]> (rm_results rm)).

(** The grant of a restart: the new count and the goroutine. *)
Definition spawn : M restartManager nat := λ rm,
  Ret (rm_nextChan rm)
    (mkRM (rm_policy rm) (wrap64 (rm_restartCount rm + 1)) (rm_timeout rm) true (rm_canceled rm)
      (rm_cancelClosed rm) (rm_onceDone rm) (S (rm_nextChan rm))
      (<[rm_nextChan rm:=Spawned]> (rm_waiters rm)) (rm_results rm)).

(** The part of [ShouldRestart] under the lock; [Some ch] grants a restart. *)
Definition ShouldRestart_locked (exitCode : Z) (hasBeenManuallyStopped : bool) (executionDuration : Z)
    : M restartManager (result rm_error (option nat)) :=
  rm ← read id;
  if rm_canceled rm then mret (Err ErrRestartCanceled)
  else if rm_active rm then mret (Err ErrActive)
  else
    modify (set_timeout (nextTimeout (rm_timeout rm) executionDuration));;
    if wantsRestart (rm_policy rm) (rm_restartCount rm) exitCode hasBeenManuallyStopped then
      ch ← spawn; mret (Ok (Some ch))
    else
      modify (set_active false);;
      mret (Ok None).

Definition ShouldRestart (exitCode : Z) (hasBeenManuallyStopped : bool) (executionDuration : Z)
    : M restartManager (result rm_error (option nat)) :=
  policy ← read rm_policy;
  if IsNone policy then mret (Ok None)
  else ShouldRestart_locked exitCode hasBeenManuallyStopped executionDuration.

(** [close(rm.cancel)] of a closed channel panics. *)
Definition Cancel : M restartManager unit := λ rm,
  if rm_onceDone rm then Ret () rm
  else if rm_cancelClosed rm then Panic "close of closed channel"
  else Ret () (mkRM (rm_policy rm) (rm_restartCount rm) (rm_timeout rm) (rm_active rm) true true true
                 (rm_nextChan rm) (rm_waiters rm) (rm_results rm)).

(** The stretches of the goroutine: it enters its [select], it is cancelled,
    or its timer fires. *)
Inductive gstep (ch : nat) (rm : restartManager) : restartManager → Prop :=
| g_arm : rm_waiters rm !! ch = Some Spawned → gstep ch rm (set_waiter ch (Armed (rm_timeout rm)) rm)
| g_cancelled p : rm_waiters rm !! ch = Some (Armed p) → rm_cancelClosed rm = true →
    gstep ch rm (finish ch (Some ErrRestartCanceled) rm)
| g_timer p : rm_waiters rm !! ch = Some (Armed p) →
    gstep ch rm (set_active false (finish ch None rm)).

(** The test of the policy before the lock is taken may be out of date, so the
    locked part of [ShouldRestart] can run in any state. *)
Inductive step (rm : restartManager) : restartManager → Prop :=
| step_should e b d r rm' : ShouldRestart_locked e b d rm = Ret r rm' → step rm rm'
| step_cancel rm' : Cancel rm = Ret () rm' → step rm rm'
| step_policy p rm' : SetPolicy p rm = Ret () rm' → step rm rm'
| step_goroutine ch rm' : gstep ch rm rm' → step rm rm'.

Definition reachable (rm : restartManager) : Prop := ∃ p n, rtc step (New p n) rm.

(** ** The invariant *)

Record rm_ok (rm : restartManager) : Prop := mkRmOk {
  ok_waiter ch w : rm_waiters rm !! ch = Some w →
    ch < rm_nextChan rm ∧ rm_active rm = true ∧ ∀ p, w = Armed p → p = rm_timeout rm;
  ok_single ch ch' : is_Some (rm_waiters rm !! ch) → is_Some (rm_waiters rm !! ch') → ch = ch';
  ok_active : rm_active rm = true → rm_canceled rm = false → ∃ ch, is_Some (rm_waiters rm !! ch);
  ok_cancel : rm_canceled rm = rm_onceDone rm ∧ rm_cancelClosed rm = rm_onceDone rm }.

Lemma New_ok p n : rm_ok (New p n).
Proof. split; simpl; try done. intros ch ch' [? Hx]. by rewrite lookup_empty in Hx. Qed.

(** An idle manager has no goroutine. *)
Lemma idle_no_waiter rm ch : rm_ok rm → rm_active rm = false → rm_waiters rm !! ch = None.
Proof.
  intros Hok Ha. destruct (rm_waiters rm !! ch) as [w|] eqn:E; [|done].
  apply (ok_waiter rm Hok) in E as (_ & ? & _). congruence.
Qed.

Lemma should_ok e b d r rm rm' : rm_ok rm → ShouldRestart_locked e b d rm = Ret r rm' → rm_ok rm'.
Proof.
  intros Hok Hs. unfold ShouldRestart_locked, spawn in Hs. run_in Hs.
  destruct (rm_canceled rm) eqn:Hc; [by simplify_eq|]. destruct (rm_active rm) eqn:Ha; [by simplify_eq|].
  pose proof (λ ch, idle_no_waiter rm ch Hok Ha) as Hno. destruct Hok as [_ _ _ [Hc1 Hc2]].
  destruct (wantsRestart _ _ _ _); simplify_eq/=; split; simpl; rewrite ?Hc in *; try done.
  - intros ch w. rewrite lookup_insert, Hno. case_decide; [|done]. intros [= <-]. split_and!; [lia|done|done].
  - intros ch ch'. rewrite !lookup_insert_is_Some, !Hno. intros [<-|[_ [? [=]]]] [<-|[_ [? [=]]]]. done.
  - intros _ _. exists (rm_nextChan rm). by rewrite lookup_insert_eq.
  - intros ch w. by rewrite Hno.
  - intros ch ch' [? Hx]. by rewrite Hno in Hx.
Qed.

Lemma gstep_ok ch rm rm' : rm_ok rm → gstep ch rm rm' → rm_ok rm'.
Proof.
  intros [Hw Hs Ha [Hc1 Hc2]] Hg. destruct Hg as [Hsp|p Har Hcl|p Har]; split; simpl; try done.
  - intros ch' w. rewrite lookup_insert. case_decide as E; [|by apply Hw].
    intros [= <-]. destruct (Hw ch Spawned Hsp) as (? & ? & _). split_and!; [by subst|done|]. by intros p [= <-].
  - intros c1 c2. rewrite !lookup_insert_is_Some'.
    intros H1 H2. apply Hs; [destruct H1 as [<-|?]|destruct H2 as [<-|?]]; by eauto.
  - intros _ _. exists ch. by rewrite lookup_insert_eq.
  - intros ch' w [_ Hl]%lookup_delete_Some. by apply Hw.
  - intros c1 c2 [? [_ H1]%lookup_delete_Some] [? [_ H2]%lookup_delete_Some]. apply Hs; eauto.
  - intros _ Hx. congruence.
  - intros ch' w [Hne Hl]%lookup_delete_Some. exfalso. apply Hne, Hs; eauto.
  - intros c1 c2 [? [_ H1]%lookup_delete_Some] [? [_ H2]%lookup_delete_Some]. apply Hs; eauto.
Qed.

Lemma rm_step_ok rm rm' : rm_ok rm → step rm rm' → rm_ok rm'.
Proof.
  intros Hok Hst. destruct Hst as [e b d r rm' Hs|rm' Hc|p rm' Hp|ch rm' Hg].
  - by eapply should_ok.
  - unfold Cancel in Hc. destruct Hok as [Hw Hs Ha [Hc1 Hc2]].
    destruct (rm_onceDone rm) eqn:E; [by simplify_eq; split; rewrite ?E|].
    rewrite Hc2 in Hc. simplify_eq. by split.
  - unfold SetPolicy, modify in Hp. simplify_eq. by destruct Hok; split.
  - by eapply gstep_ok.
Qed.

Lemma steps_ok rm rm' : rtc step rm rm' → rm_ok rm → rm_ok rm'.
Proof. induction 1 as [|? ? ? Hst _ IH]; [done|]. intros Hok. by eapply IH, rm_step_ok. Qed.

Lemma reachable_rm_ok rm : reachable rm → rm_ok rm.
Proof. intros (p & n & Hr). by eapply steps_ok, New_ok. Qed.

(** A cancelled manager never grants a restart. *)
Lemma canceled_step rm rm' :
  step rm rm' → rm_ok rm → rm_canceled rm = true →
  rm_canceled rm' = true ∧ rm_restartCount rm' = rm_restartCount rm.
Proof.
  intros Hst [_ _ _ [Hc1 Hc2]] Hc. destruct Hst as [e b d r rm' Hs|rm' Hca|p rm' Hp|ch rm' Hg].
  - unfold ShouldRestart_locked in Hs. run_in Hs. rewrite Hc in Hs. by simplify_eq/=.
  - unfold Cancel in Hca. rewrite <-Hc1, Hc in Hca. by simplify_eq.
  - unfold SetPolicy, modify in Hp. by simplify_eq.
  - by destruct Hg.
Qed.

Lemma canceled_steps rm rm' :
  rtc step rm rm' → rm_ok rm → rm_canceled rm = true →
  rm_canceled rm' = true ∧ rm_restartCount rm' = rm_restartCount rm.
Proof.
  induction 1 as [|rm rm1 rm' Hst _ IH]; [done|]. intros Hok Hc.
  destruct (canceled_step _ _ Hst Hok Hc) as [Hc1 <-]. apply IH; [by eapply rm_step_ok|done].
Qed.

(** ** Properties *)

(** C13. At every moment at most one restart is pending, and none is granted
    while one is; its timer is set to the pause that was computed when it was
    granted. A manager that is active and not cancelled has a goroutine that
    will wake the client. *)
Theorem restart_single_pending rm :
  reachable rm →
  (∀ ch ch', is_Some (rm_waiters rm !! ch) → is_Some (rm_waiters rm !! ch') → ch = ch') ∧
  (∀ ch p, rm_waiters rm !! ch = Some (Armed p) → p = rm_timeout rm) ∧
  (∀ ch e b d, is_Some (rm_waiters rm !! ch) →
    ShouldRestart_locked e b d rm = Ret (Err (if rm_canceled rm then ErrRestartCanceled else ErrActive)) rm) ∧
  (rm_active rm = true → rm_canceled rm = false → ∃ ch, is_Some (rm_waiters rm !! ch)).
Proof.
  intros Hok%reachable_rm_ok. destruct Hok as [Hw Hs Ha Hc]. split_and!; [done| | |done].
  - intros ch p Hp. by apply (Hw ch (Armed p)).
  - intros ch e b d [w Hl]. destruct (Hw _ _ Hl) as (_ & Hact & _).
    unfold ShouldRestart_locked, read, mbind, M_bind, id. rewrite Hact. by destruct (rm_canceled rm).
Qed.

(** C14. Cancelling never panics, however often it is done, and is final: from
    then on the number of restarts does not change and every request that
    reaches the lock is answered with [ErrRestartCanceled]; a goroutine that
    still waits can end with that error. *)
Theorem restart_cancel_final rm :
  reachable rm →
  ∃ rm1, Cancel rm = Ret () rm1 ∧ Cancel rm1 = Ret () rm1 ∧
    ∀ rm2, rtc step rm1 rm2 →
      rm_restartCount rm2 = rm_restartCount rm ∧
      (∀ e b d, ShouldRestart_locked e b d rm2 = Ret (Err ErrRestartCanceled) rm2) ∧
      (∀ ch p, rm_waiters rm2 !! ch = Some (Armed p) →
        ∃ rm3, gstep ch rm2 rm3 ∧ rm_results rm3 !! ch = Some (Some ErrRestartCanceled)).
Proof.
  intros Hok%reachable_rm_ok.
  assert (∃ rm1, Cancel rm = Ret () rm1 ∧ rm_canceled rm1 = true ∧ rm_onceDone rm1 = true ∧
    rm_restartCount rm1 = rm_restartCount rm) as (rm1 & E & Hc & Ho & Hn).
  { destruct (ok_cancel rm Hok) as [Hc1 Hc2]. unfold Cancel. destruct (rm_onceDone rm) eqn:Ho.
    - by exists rm.
    - rewrite Hc2. by eexists. }
  assert (Hok1 : rm_ok rm1) by (eapply rm_step_ok; [exact Hok|by apply step_cancel]).
  exists rm1. split_and!; [done|unfold Cancel; by rewrite Ho|]. intros rm2 Hr.
  destruct (canceled_steps _ _ Hr Hok1 Hc) as [Hc2 Hn2]. pose proof (steps_ok _ _ Hr Hok1) as Hok2. split_and!.
  - congruence.
  - intros e b d. unfold ShouldRestart_locked, read, mbind, M_bind, id. by rewrite Hc2.
  - intros ch p Hl. eexists. split.
    + eapply g_cancelled; [exact Hl|]. destruct (ok_cancel rm2 Hok2) as [? ?]. congruence.
    + simpl. by rewrite lookup_insert_eq.
Qed.

(** The steps of a manager whose policy stays [p]. *)
Definition keeps_policy (p : RestartPolicy) (rm rm' : restartManager) : Prop := step rm rm' ∧ rm_policy rm' = p.

Lemma on_failure_bound_step p max n rm rm' :
  p = mkPolicy "on-failure" max → (0 < max < 2 ^ 63)%Z → (- 2 ^ 63 ≤ n)%Z →
  keeps_policy p rm rm' → rm_policy rm = p → (n ≤ rm_restartCount rm ≤ Z.max n max)%Z →
  (n ≤ rm_restartCount rm' ≤ Z.max n max)%Z.
Proof.
  intros -> Hmax Hn [Hst _] Hp Hb. destruct Hst as [e b d r rm' Hs|rm' Hc|q rm' Hq|ch rm' Hg].
  - unfold ShouldRestart_locked, spawn in Hs. run_in Hs.
    destruct (rm_canceled rm); [by simplify_eq|]. destruct (rm_active rm); [by simplify_eq|].
    unfold wantsRestart in Hs. rewrite Hp in Hs. simpl in Hs.
    rewrite (bool_decide_eq_false_2 (max = 0%Z)) in Hs by lia. simpl in Hs.
    case_bool_decide as Hlt; simpl in Hs; [|by simplify_eq].
    destruct (bool_decide (e ≠ 0%Z)); simplify_eq/=; [|done].
    rewrite wrap64_small; lia.
  - unfold Cancel in Hc. destruct (rm_onceDone rm); [by simplify_eq|]. by destruct (rm_cancelClosed rm); simplify_eq.
  - unfold SetPolicy, modify in Hq. by simplify_eq.
  - by destruct Hg.
Qed.

(** Under the policy on-failure with a maximum, a manager that starts with
    the count [n] grants at most [max - n] restarts in any execution. *)
Theorem restart_on_failure_bounded max n rm :
  let p := mkPolicy "on-failure" max in
  (0 < max < 2 ^ 63)%Z → (- 2 ^ 63 ≤ n)%Z → rtc (keeps_policy p) (New p n) rm →
  (n ≤ rm_restartCount rm ≤ Z.max n max)%Z.
Proof.
  intros p Hmax Hn Hr.
  cut (rm_policy rm = p ∧ (n ≤ rm_restartCount rm ≤ Z.max n max)%Z); [by intros []|].
  assert (H0 : rm_policy (New p n) = p ∧ (n ≤ rm_restartCount (New p n) ≤ Z.max n max)%Z) by (simpl; split; [done|lia]).
  revert H0. induction Hr as [|rm0 rm1 rm2 Hst _ IH]; [done|]. intros [Hp Hb]. apply IH. split; [by apply Hst|].
  apply (on_failure_bound_step p max n rm0 rm1); done.
Qed.

(** The pause before a restart: a tenth of a second first and after every
    run of ten seconds or more, and twice the previous one after every shorter
    run, exactly, for the first 37 of them. *)
Theorem restart_backoff_schedule n d t :
  n ≤ 36 → (d < resetAfter)%Z →
  Nat.iter (S n) (λ t, nextTimeout t d) 0%Z = (defaultTimeout * 2 ^ Z.of_nat n)%Z ∧
  (∀ d', (resetAfter ≤ d')%Z → nextTimeout t d' = defaultTimeout).
Proof.
  intros Hn Hd. split.
  2: { intros d' Hd'. unfold nextTimeout. by rewrite (decide_True (P := (resetAfter ≤ d')%Z)). }
  induction n as [|n IH].
  - simpl. unfold nextTimeout. by rewrite (decide_False (P := (resetAfter ≤ d)%Z)) by lia.
  - rewrite Nat.iter_succ, IH by lia. unfold nextTimeout, defaultTimeout, backoffMultiplier.
    rewrite (decide_False (P := (resetAfter ≤ d)%Z)) by lia.
    assert (0 < 2 ^ Z.of_nat n)%Z by (apply Z.pow_pos_nonneg; lia).
    assert (2 ^ Z.of_nat n ≤ 2 ^ 35)%Z by (apply Z.pow_le_mono_r; lia).
    rewrite decide_False by lia. rewrite Nat2Z.inj_succ, Z.pow_succ_r by lia.
    rewrite wrap64_small; lia.
Qed.

(** ** Concrete managers *)

Module ConcreteRM.
Definition on_failure : RestartPolicy := mkPolicy "on-failure" 3.
Definition granted : restartManager := Eval vm_compute in
  match ShouldRestart_locked 1 false 0 (New on_failure 0) with Ret _ rm => rm | _ => New on_failure 0 end.
Definition armed : restartManager := set_waiter 0 (Armed (rm_timeout granted)) granted.

Lemma granted_step : step (New on_failure 0) granted.
Proof. apply (step_should _ 1 false 0 (Ok (Some 0))). by vm_compute. Qed.
Lemma armed_step : step granted armed.
Proof. apply (step_goroutine _ 0), g_arm. by vm_compute. Qed.

Lemma armed_reachable : reachable armed.
Proof. exists on_failure, 0%Z. eapply rtc_l; [apply granted_step|]. apply rtc_once, armed_step. Qed.

Lemma restart_single_pending_witness :
  rm_waiters armed !! 0 = Some (Armed defaultTimeout) ∧
  ShouldRestart_locked 1 false 0 armed = Ret (Err ErrActive) armed.
Proof.
  destruct (restart_single_pending armed armed_reachable) as (_ & _ & Hs & _).
  split; [by vm_compute|]. apply (Hs 0). by eexists.
Defined.

Lemma restart_cancel_final_witness :
  ∃ rm1, Cancel armed = Ret () rm1 ∧
    ∃ rm3, gstep 0 rm1 rm3 ∧ rm_results rm3 !! 0 = Some (Some ErrRestartCanceled).
Proof.
  destruct (restart_cancel_final armed armed_reachable) as (rm1 & E & _ & Hf). exists rm1. split; [done|].
  destruct (Hf rm1 (rtc_refl _ _)) as (_ & _ & Hg). apply (Hg 0 defaultTimeout).
  vm_compute in E. by simplify_eq.
Defined.

Lemma restart_on_failure_bounded_witness : (0 ≤ rm_restartCount armed ≤ 3)%Z.
Proof.
  apply (restart_on_failure_bounded 3 0 armed); [lia|lia|].
  eapply rtc_l; [split; [apply granted_step|done]|]. apply rtc_once. split; [apply armed_step|done].
Defined.

Lemma restart_backoff_schedule_witness :
  Nat.iter 4 (λ t, nextTimeout t 5000000000) 0%Z = 800000000%Z ∧ nextTimeout 800000000 resetAfter = defaultTimeout.
Proof.
  destruct (restart_backoff_schedule 3 5000000000 800000000) as [H1 H2]; [lia|done|].
  split; [exact H1|apply H2; lia].
Defined.
End ConcreteRM.
