(* ===== verification/Health.v ===== *)
(** Health checks: container/health.go and daemon/health.go. The functional
    part is the record of probe results; the concurrent part is the monitor
    goroutine of a container, which daemon calls start, stop with a rendezvous
    on its [stop] channel, and which takes the lock of the container to record
    a result. *)

From Stdlib Require Import Strings.Byte.
From S2P Require Import Prelude GoIO.

(** ** Results of probes *)

Definition maxOutputLen : nat := Z.to_nat 4096.
Definition second : Z := 1000000000.
Definition defaultProbeInterval : Z := 30 * second.
Definition defaultProbeTimeout : Z := 30 * second.
Definition defaultProbeRetries : Z := 3.
Definition maxLogEntries : nat := 5.
Definition exitStatusHealthy : Z := 0.

(** The values of [types.Health.Status]. *)
Definition Starting : string := "starting".
Definition Healthy : string := "healthy".
Definition Unhealthy : string := "unhealthy".

(** types.HealthcheckResult and container.HealthConfig of engine-api. *)
Record HealthcheckResult := mkResult {
  hr_Start : Z;
  hr_End : Z;
  hr_ExitCode : Z;
  hr_Output : string }.
Record HealthConfig := mkHealthConfig {
  hc_Test : list string;
  hc_Interval : Z;
  hc_Timeout : Z;
  hc_Retries : Z }.

(** [stop] is a channel, or nil. *)
Record Health := mkHealth {
  h_Status : string;
  h_FailingStreak : Z;
  h_Log : list HealthcheckResult;
  h_stop : option nat }.

Definition Health_String (h : Health) : string :=
  match h_stop h with
  | None => Unhealthy
  | Some _ => if decide (h_Status h = Starting) then "health: starting" else h_Status h
  end.

(** The state of a container's health and the events logged for it. *)
Definition handleProbeResult (config : HealthConfig) (result : HealthcheckResult) (h : Health) : Health * list string :=
  let retries := if decide (hc_Retries config ≤ 0)%Z then defaultProbeRetries else hc_Retries config in
  let log :=
    if decide (maxLogEntries ≤ length (h_Log h)) then drop (length (h_Log h) + 1 - maxLogEntries) (h_Log h) ++ [result]
    else h_Log h ++ [result] in
  let h' :=
    if decide (hr_ExitCode result = exitStatusHealthy) then mkHealth Healthy 0 log (h_stop h)
    else
      let streak := wrap64 (h_FailingStreak h + 1) in
      mkHealth (if decide (retries ≤ streak)%Z then Unhealthy else h_Status h) streak log (h_stop h) in
  (h', if decide (h_Status h ≠ h_Status h') then [("health_status: " +:+ h_Status h')%string] else []).

Definition timeoutWithDefault (configuredValue defaultValue : Z) : Z :=
  if decide (configuredValue = 0)%Z then defaultValue else configuredValue.

(** The probe of a container: the arguments of the command and whether a shell
    runs them. *)
Record cmdProbe := mkProbe { probe_shell : bool }.

Definition getProbe (config : option HealthConfig) : option cmdProbe :=
  match config with
  | None => None
  | Some c =>
      match hc_Test c with
      | [] => None
      | t :: _ =>
          if decide (t = "CMD") then Some (mkProbe false)
          else if decide (t = "CMD-SHELL") then Some (mkProbe true)
          else None
      end
  end.

(** The command line a probe runs on Linux. *)
Definition probe_command (p : cmdProbe) (config : HealthConfig) : list string :=
  let cmdSlice := tail (hc_Test config) in
  if probe_shell p then ["/bin/sh"; "-c"] ++ cmdSlice else cmdSlice.

(** ** The output of a probe *)

Record limitedBuffer := mkLimited {
  lb_buf : list byte;
  lb_truncated : bool }.

Definition lb_Write (data : list byte) (b : limitedBuffer) : nat * limitedBuffer :=
  let bufLen := Z.of_nat (length (lb_buf b)) in
  let dataLen := Z.of_nat (length data) in
  let keep := Z.min (Z.of_nat maxOutputLen - bufLen) dataLen in
  let buf := if decide (0 < keep)%Z then lb_buf b ++ take (Z.to_nat keep) data else lb_buf b in
  (length data, mkLimited buf (if decide (keep < dataLen)%Z then true else lb_truncated b)).

Definition lb_String (b : limitedBuffer) : list byte :=
  if lb_truncated b then lb_buf b ++ [x2e; x2e; x2e] else lb_buf b.

(** ** The monitor *)

(** Where the goroutine [monitor] is: in its outer [select], in its inner one,
    waiting for the lock of the container to record a result (of a probe that
    ended, or of one that took too long), or waiting for a late probe to end.
    Only the two [select]s receive from [stop]. *)
Inductive monitor : Type :=
| MIdle
| MProbing
| MHandling (r : HealthcheckResult)
| MLate (r : HealthcheckResult)
| MDraining.

Definition receives (m : monitor) : bool := match m with MIdle | MProbing => true | _ => false end.

(** A call in [CloseMonitorChannel]: sending on a channel, or past the send.
    [locked] says whether the caller holds the lock of the container, [init]
    whether it is [initHealthMonitor], which goes on afterwards. *)
Inductive closer : Type :=
| Sending (ch : nat) (locked init : bool)
| Sent (locked init : bool).

(** One container, its monitors by their channels and the calls that are
    closing one; [hs_lock] is the call that holds the lock. *)
Record hsys := mkHsys {
  hs_running : bool;
  hs_paused : bool;
  hs_config : option HealthConfig;
  hs_health : option Health;
  hs_monitors : gmap nat monitor;
  hs_closers : gmap nat closer;
  hs_lock : option nat;
  hs_next : nat;
  hs_events : list string }.

Definition with_health (f : Health → Health) (s : hsys) : hsys :=
  mkHsys (hs_running s) (hs_paused s) (hs_config s) (f <$> hs_health s) (hs_monitors s) (hs_closers s)
    (hs_lock s) (hs_next s) (hs_events s).
Definition with_monitors (f : gmap nat monitor → gmap nat monitor) (s : hsys) : hsys :=
  mkHsys (hs_running s) (hs_paused s) (hs_config s) (hs_health s) (f (hs_monitors s)) (hs_closers s)
    (hs_lock s) (hs_next s) (hs_events s).
Definition with_closers (f : gmap nat closer → gmap nat closer) (s : hsys) : hsys :=
  mkHsys (hs_running s) (hs_paused s) (hs_config s) (hs_health s) (hs_monitors s) (f (hs_closers s))
    (hs_lock s) (hs_next s) (hs_events s).
Definition with_lock (l : option nat) (s : hsys) : hsys :=
  mkHsys (hs_running s) (hs_paused s) (hs_config s) (hs_health s) (hs_monitors s) (hs_closers s)
    l (hs_next s) (hs_events s).
Definition with_container (running paused : bool) (s : hsys) : hsys :=
  mkHsys running paused (hs_config s) (hs_health s) (hs_monitors s) (hs_closers s)
    (hs_lock s) (hs_next s) (hs_events s).
Definition set_stop (o : option nat) (h : Health) : Health :=
  mkHealth (h_Status h) (h_FailingStreak h) (h_Log h) o.

(** [OpenMonitorChannel] and the start of the goroutine. *)
Definition OpenMonitorChannel (s : hsys) : hsys :=
  match hs_health s with
  | Some h =>
      match h_stop h with
      | Some _ => s
      | None =>
          mkHsys (hs_running s) (hs_paused s) (hs_config s) (Some (set_stop (Some (hs_next s)) h))
            (<[hs_next s:=MIdle]> (hs_monitors s)) (hs_closers s) (hs_lock s) (S (hs_next s)) (hs_events s)
      end
  | None => s
  end.

(** The start of [CloseMonitorChannel] by the call [t]: without a channel it is
    over, else the call goes on to send. *)
Definition CloseMonitorChannel (t : nat) (locked init : bool) (s : hsys) : hsys :=
  match hs_health s with
  | Some h =>
      match h_stop h with
      | None => s
      | Some ch => with_closers <[t:=Sending ch locked init]> s
      end
  | None => s
  end.

Definition wantRunning (s : hsys) : bool :=
  hs_running s && negb (hs_paused s) && bool_decide (is_Some (getProbe (hs_config s))).

Definition updateHealthMonitor (t : nat) (locked : bool) (s : hsys) : hsys :=
  match hs_health s with
  | None => s
  | Some _ => if wantRunning s then OpenMonitorChannel s else CloseMonitorChannel t locked false s
  end.

Definition stopHealthchecks (t : nat) (locked init : bool) (s : hsys) : hsys := CloseMonitorChannel t locked init s.

(** The second half of [initHealthMonitor], when no monitor is left. *)
Definition restartHealth (t : nat) (s : hsys) : hsys :=
  let h := match hs_health s with
           | Some h => mkHealth Starting 0 (h_Log h) (h_stop h)
           | None => mkHealth Starting 0 [] None
           end in
  updateHealthMonitor t true
    (mkHsys (hs_running s) (hs_paused s) (hs_config s) (Some h) (hs_monitors s) (hs_closers s)
       (hs_lock s) (hs_next s) (hs_events s)).

(** The lock after a stretch of the call [t]: kept while the call is sending. *)
Definition keep_lock (t : nat) (s : hsys) : hsys :=
  with_lock (match hs_closers s !! t with Some _ => Some t | None => None end) s.

Definition record (config : HealthConfig) (r : HealthcheckResult) (s : hsys) : hsys :=
  match hs_health s with
  | None => s
  | Some h =>
      let '(h', evs) := handleProbeResult config r h in
      mkHsys (hs_running s) (hs_paused s) (hs_config s) (Some h') (hs_monitors s) (hs_closers s)
        (hs_lock s) (hs_next s) (hs_events s ++ evs)
  end.

(** Steps: the handlers of state changes take the lock, set the flags of the
    container and update the monitor ([hstep_update]) or start it afresh
    ([hstep_start]); [containerStop] and the handler of an out-of-memory event
    call without the lock; the send is a rendezvous with the monitor. *)
Inductive hstep (s : hsys) : hsys → Prop :=
| hstep_update t running paused :
    hs_lock s = None → hs_closers s !! t = None →
    hstep s (keep_lock t (updateHealthMonitor t true (with_container running paused s)))
| hstep_start t paused :
    hs_lock s = None → hs_closers s !! t = None → is_Some (getProbe (hs_config s)) →
    hstep s (let s1 := stopHealthchecks t true true (with_container true paused s) in
             match hs_closers s1 !! t with
             | Some _ => with_lock (Some t) s1
             | None => keep_lock t (restartHealth t s1)
             end)
| hstep_stop t : hs_closers s !! t = None → hstep s (stopHealthchecks t false false s)
| hstep_oom t : hs_closers s !! t = None → hstep s (updateHealthMonitor t false s)
| hstep_send t ch locked init m :
    hs_closers s !! t = Some (Sending ch locked init) → hs_monitors s !! ch = Some m → receives m = true →
    hstep s (with_closers <[t:=Sent locked init]> (with_monitors (delete ch) s))
| hstep_sent t locked (init : bool) :
    hs_closers s !! t = Some (Sent locked init) →
    hstep s (let s1 := with_closers (delete t) (with_health (set_stop None) s) in
             let s2 := if init then restartHealth t s1 else s1 in
             if locked then keep_lock t s2 else s2)
| hstep_tick ch : hs_monitors s !! ch = Some MIdle → hstep s (with_monitors <[ch:=MProbing]> s)
| hstep_result ch r : hs_monitors s !! ch = Some MProbing → hstep s (with_monitors <[ch:=MHandling r]> s)
| hstep_late ch r : hs_monitors s !! ch = Some MProbing → hstep s (with_monitors <[ch:=MLate r]> s)
| hstep_record ch r config :
    hs_monitors s !! ch = Some (MHandling r) → hs_lock s = None → hs_config s = Some config →
    hstep s (with_monitors <[ch:=MIdle]> (record config r s))
| hstep_record_late ch r config :
    hs_monitors s !! ch = Some (MLate r) → hs_lock s = None → hs_config s = Some config →
    hstep s (with_monitors <[ch:=MDraining]> (record config r s))
| hstep_drained ch : hs_monitors s !! ch = Some MDraining → hstep s (with_monitors <[ch:=MIdle]> s).

Definition hinit (config : option HealthConfig) : hsys := mkHsys false false config None ∅ ∅ None 0 [].
Definition hreachable (s : hsys) : Prop := ∃ config, rtc hstep (hinit config) s.

(** ** One monitor at most *)

Definition stop_of (s : hsys) : option nat := h ← hs_health s; h_stop h.

Record h_ok (s : hsys) : Prop := mkHOk {
  h_mon ch : is_Some (hs_monitors s !! ch) → stop_of s = Some ch;
  h_sent t l i : hs_closers s !! t = Some (Sent l i) → hs_monitors s = ∅ ∧ is_Some (stop_of s);
  h_one t l i t' l' i' : hs_closers s !! t = Some (Sent l i) → hs_closers s !! t' = Some (Sent l' i') → t = t' }.

(** The invariant reads these parts only. *)
Lemma h_ok_ext s s' :
  hs_monitors s' = hs_monitors s → hs_closers s' = hs_closers s → stop_of s' = stop_of s → h_ok s → h_ok s'.
Proof. intros E1 E2 E3 [H1 H2 H3]. by split; rewrite ?E1, ?E2, ?E3. Qed.

Lemma open_ok s : h_ok s → h_ok (OpenMonitorChannel s).
Proof.
  intros [H1 H2 H3]. unfold OpenMonitorChannel. destruct (hs_health s) as [h|] eqn:Eh; [|by split].
  destruct (h_stop h) as [ch|] eqn:Es; [by split|].
  assert (Hno : stop_of s = None) by (unfold stop_of; by rewrite Eh).
  split; simpl; [|intros t l i Ht; apply H2 in Ht as [_ [? ?]]; congruence|done].
  intros ch. rewrite lookup_insert_is_Some. intros [<-|[_ Hm]]; [done|]. apply H1 in Hm. congruence.
Qed.

Lemma close_ok t l i s : hs_closers s !! t = None → h_ok s → h_ok (CloseMonitorChannel t l i s).
Proof.
  intros Ht [H1 H2 H3]. unfold CloseMonitorChannel. destruct (hs_health s) as [h|] eqn:Eh; [|by split].
  destruct (h_stop h) as [ch|] eqn:Es; [|by split]. split; simpl; [done|..].
  - intros t' l' i'. rewrite lookup_insert. case_decide; [done|]. apply H2.
  - intros t1 l1 i1 t2 l2 i2. rewrite !lookup_insert. repeat case_decide; try done. apply H3.
Qed.

Lemma update_ok t l s : hs_closers s !! t = None → h_ok s → h_ok (updateHealthMonitor t l s).
Proof.
  intros Ht Hok. unfold updateHealthMonitor. destruct (hs_health s); [|done].
  destruct (wantRunning s); [by apply open_ok|by apply close_ok].
Qed.

Lemma restart_ok t s : hs_closers s !! t = None → h_ok s → h_ok (restartHealth t s).
Proof.
  intros Ht Hok. unfold restartHealth. apply update_ok; [done|]. eapply h_ok_ext; [..|exact Hok]; [done..|].
  unfold stop_of. simpl. by destruct (hs_health s).
Qed.

Lemma stop_of_record config r s : stop_of (record config r s) = stop_of s.
Proof.
  unfold record, stop_of. destruct (hs_health s) as [h|] eqn:E; [|by rewrite E]. unfold handleProbeResult.
  by repeat (case_decide; simpl).
Qed.
Lemma record_fields config r s :
  hs_monitors (record config r s) = hs_monitors s ∧ hs_closers (record config r s) = hs_closers s.
Proof. unfold record. destruct (hs_health s); [|done]. by destruct (handleProbeResult _ _ _). Qed.

(** A monitor that moves keeps the invariant. *)
Lemma move_ok ch m m' s : hs_monitors s !! ch = Some m → h_ok s → h_ok (with_monitors <[ch:=m']> s).
Proof.
  intros Hm [H1 H2 H3]. split; simpl; [|intros t l i Ht; destruct (H2 _ _ _ Ht) as [He _]; by rewrite He in Hm|done].
  intros ch'. rewrite lookup_insert_is_Some'. intros [<-|?]; [|by apply H1]. by apply H1.
Qed.

Lemma record_ok config r s : h_ok s → h_ok (record config r s).
Proof. destruct (record_fields config r s). intros Hok. by eapply h_ok_ext; [..|exact Hok]; [| |apply stop_of_record]. Qed.

Lemma sent_ok t l i s :
  hs_closers s !! t = Some (Sent l i) → h_ok s → h_ok (with_closers (delete t) (with_health (set_stop None) s)).
Proof.
  intros Ht [H1 H2 H3]. destruct (H2 _ _ _ Ht) as [Hm _]. split; simpl.
  - intros ch. rewrite Hm. by intros [? ?].
  - intros t' l' i' [Hne Ht']%lookup_delete_Some. exfalso. by eapply Hne, H3.
  - intros t1 l1 i1 t2 l2 i2 [_ Ht1]%lookup_delete_Some [_ Ht2]%lookup_delete_Some. by eapply H3.
Qed.

Lemma hstep_ok s s' : hstep s s' → h_ok s → h_ok s'.
Proof.
  intros Hst Hok.
  assert (Hflag : ∀ r p, h_ok (with_container r p s)) by (intros; by eapply h_ok_ext; [..|exact Hok]).
  assert (Hlock : ∀ o x, h_ok x → h_ok (with_lock o x)) by (intros o x Hx; by eapply h_ok_ext; [..|exact Hx]).
  destruct Hst as [t r p Hl Hc|t p Hl Hc Hp|t Hc|t Hc|t ch l i m Hc Hm Hr|t l i Hc|ch Hm|ch r Hm|ch r Hm|ch r cf Hm Hl Hcf|ch r cf Hm Hl Hcf|ch Hm].
  - apply Hlock. by apply update_ok.
  - set (s1 := stopHealthchecks _ _ _ _). assert (h_ok s1) by (by apply close_ok). simpl.
    destruct (hs_closers s1 !! t) eqn:E; [by apply Hlock|]. by apply Hlock, restart_ok.
  - by apply close_ok.
  - by apply update_ok.
  - destruct Hok as [H1 H2 H3].
    assert (He : delete ch (hs_monitors s) = ∅).
    { apply map_eq. intros ch'. rewrite lookup_empty. apply eq_None_not_Some.
      intros [m' [Hne Hm']%lookup_delete_Some]. apply Hne.
      assert (stop_of s = Some ch) by eauto. assert (stop_of s = Some ch') by eauto. congruence. }
    assert (Hno : ∀ t' l' i', hs_closers s !! t' ≠ Some (Sent l' i')).
    { intros t' l' i' Ht'. apply H2 in Ht' as [Hx _]. by rewrite Hx in Hm. }
    split; simpl; rewrite ?He.
    + by intros ch' [? ?].
    + intros t' l' i' _. split; [done|]. exists ch. eauto.
    + intros t1 l1 i1 t2 l2 i2. rewrite !lookup_insert. repeat case_decide; try congruence; naive_solver.
  - pose proof (sent_ok _ _ _ _ Hc Hok) as Hs. set (s1 := with_closers _ _) in *. simpl.
    assert (h_ok (if i then restartHealth t s1 else s1)).
    { destruct i; [|done]. apply restart_ok; [|done]. apply lookup_delete_eq. }
    destruct l; [by apply Hlock|done].
  - by eapply move_ok.
  - by eapply move_ok.
  - by eapply move_ok.
  - eapply move_ok; [|by apply record_ok]. by rewrite (proj1 (record_fields cf r s)).
  - eapply move_ok; [|by apply record_ok]. by rewrite (proj1 (record_fields cf r s)).
  - by eapply move_ok.
Qed.

Lemma hreachable_ok s : hreachable s → h_ok s.
Proof.
  intros (c & Hr). assert (H0 : h_ok (hinit c)) by (split; simpl; [by intros ? [? ?]|done..]).
  induction Hr as [|s1 s2 s3 Hst _ IH]; [done|]. by apply IH, (hstep_ok s1).
Qed.

(** ** Properties *)

(** C17. A container never has two monitors, in any interleaving of the
    handlers, of [containerStop] and of the monitors themselves. *)
Theorem health_single_monitor s ch ch' :
  hreachable s → is_Some (hs_monitors s !! ch) → is_Some (hs_monitors s !! ch') → ch = ch'.
Proof. intros Hok%hreachable_ok H1%(h_mon s Hok) H2%(h_mon s Hok). congruence. Qed.

(** A call that holds the lock and sends to a monitor that waits for the lock. *)
Definition deadlocked (t ch : nat) (r : HealthcheckResult) (s : hsys) : Prop :=
  hs_lock s = Some t ∧ hs_closers s !! t = Some (Sending ch true false) ∧
  hs_monitors s !! ch = Some (MHandling r).

(** What the calls without the lock can change. *)
Lemma close_other t t' ch l i s :
  hs_closers s !! t' = None → hs_closers s !! t = Some (Sending ch true false) →
  hs_lock (CloseMonitorChannel t' l i s) = hs_lock s ∧
  hs_closers (CloseMonitorChannel t' l i s) !! t = Some (Sending ch true false) ∧
  hs_monitors (CloseMonitorChannel t' l i s) = hs_monitors s.
Proof.
  intros H1 H2. unfold CloseMonitorChannel. destruct (hs_health s) as [h|]; [|done].
  destruct (h_stop h); [|done]. simpl. split_and!; [done| |done]. rewrite lookup_insert_ne; [done|]. congruence.
Qed.

Lemma deadlock_step t ch r s s' : h_ok s → deadlocked t ch r s → hstep s s' → deadlocked t ch r s'.
Proof.
  intros Hok (Hl & Hc & Hm) Hst. pose proof (h_mon s Hok ch ltac:(eauto)) as Hstop.
  assert (Hno : ∀ t' l' i', hs_closers s !! t' ≠ Some (Sent l' i')).
  { intros t' l' i' Ht'. apply (h_sent s Hok) in Ht' as [Hx _]. by rewrite Hx in Hm. }
  assert (Hone : ∀ ch' m, hs_monitors s !! ch' = Some m → ch' = ch ∧ m = MHandling r).
  { intros ch' m Hm'. assert (stop_of s = Some ch') by (apply (h_mon s Hok); eauto).
    assert (ch' = ch) as -> by congruence. split; congruence. }
  destruct Hst as [t' r' p Hl' Hc'|t' p Hl' Hc' Hp|t' Hc'|t' Hc'|t' ch' l i m Hc' Hm' Hr|t' l i Hc'|ch' Hm'|ch' r' Hm'|ch' r' Hm'|ch' r' cf Hm' Hl' Hcf|ch' r' cf Hm' Hl' Hcf|ch' Hm'];
    try congruence; try (by apply Hone in Hm' as [_ ?]).
  - destruct (close_other t t' ch false false s Hc' Hc) as (E1 & E2 & E3). unfold deadlocked, stopHealthchecks.
    by rewrite E1, E3.
  - unfold updateHealthMonitor. destruct (hs_health s) as [h|] eqn:Eh; [|by split_and!].
    destruct (wantRunning s).
    + unfold OpenMonitorChannel. rewrite Eh. unfold stop_of in Hstop. rewrite Eh in Hstop. simpl in Hstop.
      rewrite Hstop. by split_and!.
    + destruct (close_other t t' ch false false s Hc' Hc) as (E1 & E2 & E3). unfold deadlocked. by rewrite E1, E3.
  - apply Hone in Hm' as [-> ->]. done.
  - by apply Hno in Hc'.
Qed.

(** C18. The monitor records a result under the lock of the container, and the
    handlers of state changes stop the monitor while they hold that lock: when
    a container exits or is paused between the end of a probe and the record of
    its result, the handler and the monitor wait for each other for ever, and
    the lock of the container is never free again. *)
Theorem health_stop_deadlock config p r :
  getProbe (Some config) = Some p →
  ∃ s t ch, hreachable s ∧ deadlocked t ch r s ∧ ∀ s', rtc hstep s s' → deadlocked t ch r s'.
Proof.
  intros Hp.
  set (h0 := mkHealth Starting 0 [] (Some 0)).
  set (s1 := mkHsys true false (Some config) (Some h0) {[0:=MIdle]} ∅ None 1 []).
  set (s2 := with_monitors <[0:=MProbing]> s1). set (s3 := with_monitors <[0:=MHandling r]> s2).
  set (s4 := with_lock (Some 1) (with_closers <[1:=Sending 0 true false]> (with_container false false s3))).
  assert (R4 : hreachable s4).
  { exists (Some config). eapply rtc_l; [apply (hstep_start _ 0 false); [done..|by exists p]|].
    match goal with |- rtc hstep ?x _ => replace x with s1 end.
    2: { unfold stopHealthchecks, CloseMonitorChannel, restartHealth, updateHealthMonitor, wantRunning.
         cbn -[getProbe]. by rewrite Hp. }
    eapply rtc_l; [by apply (hstep_tick _ 0)|]. eapply rtc_l; [by apply (hstep_result _ 0 r)|].
    apply rtc_once. by apply (hstep_update s3 1 false false). }
  assert (D4 : deadlocked 1 0 r s4) by done.
  exists s4, 1, 0. split_and!; [done|done|]. pose proof (hreachable_ok _ R4) as Hok. clearbody s4. clear R4.
  intros s' Hr. induction Hr as [|x y z Hst _ IH]; [done|]. apply IH; [by eapply deadlock_step|by eapply hstep_ok].
Qed.

(** ** The record of the results *)

Definition run_probes (config : HealthConfig) (rs : list HealthcheckResult) (h : Health) : Health :=
  foldl (λ h r, (handleProbeResult config r h).1) h rs.

Definition healthy (r : HealthcheckResult) : Prop := hr_ExitCode r = exitStatusHealthy.
Definition retries_of (config : HealthConfig) : Z :=
  if decide (hc_Retries config ≤ 0)%Z then defaultProbeRetries else hc_Retries config.

(** [rs] ends with exactly the failures [suf]. *)
Definition ends_failing (rs pre suf : list HealthcheckResult) : Prop :=
  rs = pre ++ suf ∧ Forall (λ r, ¬ healthy r) suf ∧ (pre = [] ∨ ∃ pre' r, pre = pre' ++ [r] ∧ healthy r).

Lemma run_probes_snoc config rs r h :
  run_probes config (rs ++ [r]) h = (handleProbeResult config r (run_probes config rs h)).1.
Proof. unfold run_probes. by rewrite foldl_app. Qed.

Lemma run_probes_log config rs s :
  h_Log (run_probes config rs (mkHealth Starting 0 [] s)) = drop (length rs - maxLogEntries) rs.
Proof.
  induction rs as [|r rs IH] using rev_ind; [done|]. rewrite run_probes_snoc. set (h := run_probes _ _ _) in *.
  assert (h_Log (handleProbeResult config r h).1 =
    if decide (maxLogEntries ≤ length (h_Log h)) then drop (length (h_Log h) + 1 - maxLogEntries) (h_Log h) ++ [r]
    else h_Log h ++ [r]) as ->.
  { unfold handleProbeResult. simpl. by destruct (decide (hr_ExitCode r = _)). }
  unfold maxLogEntries in *. rewrite IH, length_drop, length_app. simpl length. case_decide as Hfull.
  - rewrite drop_app_le by lia. f_equal. rewrite drop_drop. f_equal. lia.
  - rewrite drop_app_le by lia. f_equal. f_equal. lia.
Qed.

Lemma run_probes_streak config rs s :
  (Z.of_nat (length rs) < 2 ^ 63)%Z →
  let h := run_probes config rs (mkHealth Starting 0 [] s) in
  ∃ pre suf, ends_failing rs pre suf ∧ h_FailingStreak h = Z.of_nat (length suf) ∧
    h_Status h = (if decide (retries_of config ≤ Z.of_nat (length suf))%Z then Unhealthy
                  else if decide (pre = []) then Starting else Healthy).
Proof.
  assert (HR : (0 < retries_of config)%Z).
  { unfold retries_of, defaultProbeRetries. case_decide; lia. }
  induction rs as [|r rs IH] using rev_ind; intros Hlen h.
  { exists [], []. split_and!; [split_and!; [done..|by left]|done|]. rewrite decide_False; [done|simpl; lia]. }
  rewrite length_app in Hlen. simpl in Hlen. destruct IH as (pre & suf & (-> & Hf & Hp) & Hs & Hst); [lia|].
  unfold h. rewrite run_probes_snoc. clear h. set (h := run_probes _ _ _) in *. unfold handleProbeResult. simpl.
  destruct (decide (hr_ExitCode r = exitStatusHealthy)) as [Hx|Hx]; simpl.
  - exists ((pre ++ suf) ++ [r]), []. split_and!; [split_and!; [by rewrite app_nil_r|done|right; eauto]|done|].
    rewrite decide_False by (simpl; lia). rewrite decide_False; [done|]. by intros [_ ?]%app_nil.
  - exists pre, (suf ++ [r]). rewrite length_app in *. simpl. rewrite Hs, wrap64_small by lia.
    fold (retries_of config). split_and!.
    + split_and!; [by rewrite (assoc_L (++))|apply Forall_app; by rewrite Forall_singleton|done].
    + lia.
    + rewrite Hst. replace (Z.of_nat (length suf + 1)) with (Z.of_nat (length suf) + 1)%Z by lia.
      repeat case_decide; try done; lia.
Qed.

(** C19. After the results [rs] of the probes of a container that was started,
    the log holds the last five of them, the failing streak is the number of
    failures since the last success, and the status is unhealthy exactly when
    that number has reached the configured retries, and else starting before
    the first success and healthy after it. *)
Theorem health_status_exact config rs s :
  (Z.of_nat (length rs) < 2 ^ 63)%Z →
  let h := run_probes config rs (mkHealth Starting 0 [] s) in
  h_Log h = drop (length rs - maxLogEntries) rs ∧
  ∃ pre suf, ends_failing rs pre suf ∧ h_FailingStreak h = Z.of_nat (length suf) ∧
    h_Status h = (if decide (retries_of config ≤ Z.of_nat (length suf))%Z then Unhealthy
                  else if decide (pre = []) then Starting else Healthy).
Proof. intros Hlen h. split; [apply run_probes_log|by apply run_probes_streak]. Qed.

(** The buffer of a probe's output keeps the first bytes and marks a cut. *)
Lemma lb_Write_spec d b :
  length (lb_buf b) ≤ maxOutputLen →
  lb_buf (lb_Write d b).2 = take maxOutputLen (lb_buf b ++ d) ∧
  lb_truncated (lb_Write d b).2 = lb_truncated b || bool_decide (maxOutputLen < length (lb_buf b ++ d)).
Proof.
  intros Hb. unfold lb_Write. simpl. rewrite length_app. split.
  - rewrite take_app, (take_ge (lb_buf b)) by lia. case_decide.
    + f_equal. destruct (decide (length d ≤ maxOutputLen - length (lb_buf b))); [rewrite !take_ge by lia; done|]. f_equal. lia.
    + destruct d as [|x d]; [by rewrite take_nil, app_nil_r|]. simpl length in *.
      replace (maxOutputLen - length (lb_buf b)) with 0 by lia. by rewrite app_nil_r.
  - case_decide; [rewrite bool_decide_true by lia; by rewrite orb_true_r|].
    rewrite bool_decide_false by lia. by rewrite orb_false_r.
Qed.

Lemma limitedBuffer_spec ds :
  let b := foldl (λ b d, (lb_Write d b).2) (mkLimited [] false) ds in
  lb_buf b = take maxOutputLen (concat ds) ∧
  lb_truncated b = bool_decide (maxOutputLen < length (concat ds)).
Proof.
  induction ds as [|d ds IH] using rev_ind; [by vm_compute|]. rewrite foldl_app. cbn [foldl].
  set (b := foldl _ _ _) in *. destruct IH as [E1 E2].
  destruct (lb_Write_spec d b) as [E3 E4]; [rewrite E1, length_take; lia|].
  rewrite E3, E4, E1, E2, concat_app. cbn [concat]. rewrite app_nil_r. split.
  - rewrite !take_app, take_take, length_take, Nat.min_id. do 2 f_equal. lia.
  - rewrite !length_app, length_take. rewrite <-bool_decide_or. apply bool_decide_ext. lia.
Qed.

(** ** Concrete health checks *)

Module ConcreteHealth.
Definition config : HealthConfig := mkHealthConfig ["CMD-SHELL"; "curl -f http://localhost/"] 0 0 2.
Definition result (code : Z) : HealthcheckResult := mkResult 0 0 code "".

Definition started : hsys :=
  mkHsys true false (Some config) (Some (mkHealth Starting 0 [] (Some 0))) {[0:=MIdle]} ∅ None 1 [].

Lemma started_reachable : hreachable started.
Proof. exists (Some config). apply rtc_once, (hstep_start (hinit (Some config)) 0 false); [done..|by eexists]. Qed.

Lemma health_single_monitor_witness : is_Some (hs_monitors started !! 0) ∧ ∀ ch, is_Some (hs_monitors started !! ch) → ch = 0.
Proof.
  split; [by eexists|]. intros ch Hch. apply (health_single_monitor started ch 0 started_reachable Hch). by eexists.
Defined.

Lemma health_stop_deadlock_witness :
  ∃ s t ch, hreachable s ∧ deadlocked t ch (result 1) s ∧ ∀ s', rtc hstep s s' → deadlocked t ch (result 1) s'.
Proof. by apply (health_stop_deadlock config (mkProbe true) (result 1)). Defined.

Lemma health_status_exact_witness :
  h_Log (run_probes config (result <$> [0; 1; 1]%Z) (mkHealth Starting 0 [] (Some 0))) = result <$> [0; 1; 1]%Z.
Proof. destruct (health_status_exact config (result <$> [0; 1; 1]%Z) (Some 0)) as [E _]; [done|exact E]. Defined.
End ConcreteHealth.
