(* ===== verification/Reference.v ===== *)
(** Image references: reference/reference.go and the vendored package
    distribution/reference it is built on. The grammar of references is given
    by recognisers; the parser splits a reference where the grammar allows it
    in one way only. *)

From Stdlib Require Import Ascii.
From S2P Require Import Prelude GoStrings Digest.

Local Open Scope string_scope.

(** ** The grammar *)

Definition IsAlnumLower (c : ascii) : bool := IsLower c || IsDigit c.
Definition IsAlnum (c : ascii) : bool := IsLetter c || IsDigit c.
Definition IsWord (c : ascii) : bool := IsAlnum c || bool_decide (c = "_"%char).

(** A component of a name: runs of letters and digits, separated by a period,
    one or two underscores, or dashes. *)
Inductive comp_state : Type := CStart | CAlnum | CUnderscore | CDash.

Fixpoint component_from (st : comp_state) (s : string) : bool :=
  match s with
  | "" => match st with CAlnum => true | _ => false end
  | String c s =>
      if IsAlnumLower c then component_from CAlnum s
      else match st with
      | CAlnum =>
          if decide (c = "."%char) then component_from CStart s
          else if decide (c = "_"%char) then component_from CUnderscore s
          else if decide (c = "-"%char) then component_from CDash s
          else false
      | CUnderscore => if decide (c = "_"%char) then component_from CStart s else false
      | CDash => if decide (c = "-"%char) then component_from CDash s else false
      | CStart => false
      end
  end.
Definition nameComponentRegexp : string → bool := component_from CStart.

(** A hostname: components of letters, digits and inner dashes separated by
    periods, and an optional port. *)
Inductive host_state : Type := HStart | HAlnum | HDash | HColon | HPort.

Fixpoint hostname_from (st : host_state) (s : string) : bool :=
  match s with
  | "" => match st with HAlnum | HPort => true | _ => false end
  | String c s =>
      match st with
      | HColon | HPort => if IsDigit c then hostname_from HPort s else false
      | _ =>
          if IsAlnum c then hostname_from HAlnum s
          else match st with
          | HAlnum =>
              if decide (c = "-"%char) then hostname_from HDash s
              else if decide (c = "."%char) then hostname_from HStart s
              else if decide (c = ":"%char) then hostname_from HColon s
              else false
          | HDash => if decide (c = "-"%char) then hostname_from HDash s else false
          | _ => false
          end
      end
  end.
Definition hostnameRegexp : string → bool := hostname_from HStart.

(** Components separated by slashes. *)
Fixpoint path_from (st : comp_state) (s : string) : bool :=
  match s with
  | "" => match st with CAlnum => true | _ => false end
  | String c s =>
      if IsAlnumLower c then path_from CAlnum s
      else match st with
      | CAlnum =>
          if decide (c = "/"%char) then path_from CStart s
          else if decide (c = "."%char) then path_from CStart s
          else if decide (c = "_"%char) then path_from CUnderscore s
          else if decide (c = "-"%char) then path_from CDash s
          else false
      | CUnderscore => if decide (c = "_"%char) then path_from CStart s else false
      | CDash => if decide (c = "-"%char) then path_from CDash s else false
      | CStart => false
      end
  end.

Definition NameRegexp (s : string) : bool :=
  path_from CStart s ||
  match cut "/" s with
  | Some (host, rest) => hostnameRegexp host && path_from CStart rest
  | None => false
  end.

Definition TagRegexp (s : string) : bool :=
  match s with
  | "" => false
  | String c s' => IsWord c && bool_decide (String.length s' ≤ 127)%nat &&
      string_forallb (λ c, IsWord c || bool_decide (c = "."%char) || bool_decide (c = "-"%char)) s'
  end.

(** The algorithm of a digest: words that start with a letter, separated by
    one of four signs. *)
Fixpoint algorithm_from (start : bool) (s : string) : bool :=
  match s with
  | "" => negb start
  | String c s =>
      if IsLetter c then algorithm_from false s
      else if start then false
      else if IsDigit c then algorithm_from false s
      else if decide (c ∈ ["-"; "_"; "+"; "."]%char) then algorithm_from true s
      else false
  end.

Definition DigestRegexp (s : string) : bool :=
  match cut ":" s with
  | Some (alg, hex) => algorithm_from true alg && bool_decide (32 ≤ String.length hex)%nat && string_forallb IsXDigit hex
  | None => false
  end.

(** ** distribution/reference *)

Definition NameTotalLengthMax : nat := 255.

(** The kinds of references with a name. *)
Inductive Named : Type :=
| NamedRef (name : string)
| TaggedRef (name tag : string)
| CanonicalRef (name digest : string)
| FullRef (name tag digest : string).
#[export] Instance Named_eq_dec : EqDecision Named.
Proof. solve_decision. Defined.

Definition ref_Name (r : Named) : string :=
  match r with NamedRef n | TaggedRef n _ | CanonicalRef n _ | FullRef n _ _ => n end.
Definition ref_String (r : Named) : string :=
  match r with
  | NamedRef n => n
  | TaggedRef n t => n ++ ":" ++ t
  | CanonicalRef n d => n ++ "@" ++ d
  | FullRef n t d => n ++ ":" ++ t ++ "@" ++ d
  end.

(** The parts before and after the last occurrence of a character. *)
Fixpoint cut_last (sep : ascii) (s : string) : option (string * string) :=
  match s with
  | "" => None
  | String c s' =>
      match cut_last sep s' with
      | Some (a, b) => Some (String c a, b)
      | None => if decide (c = sep) then Some ("", s') else None
      end
  end.

(** The submatches of [ReferenceRegexp]: neither a name nor a tag nor a digest
    holds an at sign, a tag holds neither a colon nor a slash, and a colon in a
    name ends up before a slash; so the split is the only one possible. *)
Definition ReferenceRegexp (s : string) : option (string * string * string) :=
  let '(x, dgst) := default (s, "") (cut "@" s) in
  let '(name, tag, tagged) :=
    match cut_last ":" x with
    | Some (n, t) => if ContainsChar "/" t then (x, "", false) else (n, t, true)
    | None => (x, "", false)
    end in
  if NameRegexp name && (negb tagged || TagRegexp tag) &&
     (negb (ContainsChar "@" s) || DigestRegexp dgst)
  then Some (name, tag, dgst) else None.

Definition ErrReferenceInvalidFormat : string := "invalid reference format".
Definition ErrTagInvalidFormat : string := "invalid tag format".
Definition ErrDigestInvalidFormat : string := "invalid digest format".
Definition ErrNameEmpty : string := "repository name must have at least one component".
Definition ErrNameTooLong : string := "repository name must not be more than 255 characters".

Definition dist_getBestReferenceType (name tag dgst : string) : Named :=
  if decide (tag = "") then
    if decide (dgst ≠ "") then CanonicalRef name dgst else NamedRef name
  else if decide (dgst = "") then TaggedRef name tag
  else FullRef name tag dgst.

Definition dist_Parse (s : string) : result string Named :=
  match ReferenceRegexp s with
  | None => if decide (s = "") then Err ErrNameEmpty else Err ErrReferenceInvalidFormat
  | Some (name, tag, dgst) =>
      if decide (NameTotalLengthMax < String.length name)%nat then Err ErrNameTooLong
      else if decide (dgst = "") then Ok (dist_getBestReferenceType name tag "")
      else match ParseDigest dgst with
      | Err e => Err e
      | Ok d => Ok (dist_getBestReferenceType name tag d)
      end
  end.

Definition dist_WithName (name : string) : result string Named :=
  if decide (NameTotalLengthMax < String.length name)%nat then Err ErrNameTooLong
  else if negb (NameRegexp name) then Err ErrReferenceInvalidFormat
  else Ok (NamedRef name).

Definition dist_WithTag (name : Named) (tag : string) : result string Named :=
  if negb (TagRegexp tag) then Err ErrTagInvalidFormat else Ok (TaggedRef (ref_Name name) tag).

Definition dist_WithDigest (name : Named) (dgst : string) : result string Named :=
  if negb (DigestRegexp dgst) then Err ErrDigestInvalidFormat else Ok (CanonicalRef (ref_Name name) dgst).

(** ** reference/reference.go *)

Definition DefaultTag : string := "latest".
Definition DefaultHostname : string := "docker.io".
Definition LegacyDefaultHostname : string := "index.docker.io".
Definition DefaultRepoPrefix : string := "library/".

(** [strings.HasPrefix] with [strings.TrimPrefix]. *)
Fixpoint trim_prefix (p s : string) : option string :=
  match p, s with
  | "", _ => Some s
  | String a p, String b s => if decide (a = b) then trim_prefix p s else None
  | _, _ => None
  end.

Definition splitHostname (name : string) : string * string :=
  let '(hostname, remoteName) :=
    match cut "/" name with
    | None => (DefaultHostname, name)
    | Some (h, rest) =>
        if negb (ContainsChar "." h || ContainsChar ":" h) && negb (bool_decide (h = "localhost"))
        then (DefaultHostname, name) else (h, rest)
    end in
  let hostname := if decide (hostname = LegacyDefaultHostname) then DefaultHostname else hostname in
  (hostname,
   if decide (hostname = DefaultHostname ∧ ContainsChar "/" remoteName = false)
   then DefaultRepoPrefix ++ remoteName else remoteName).

Definition FullName (r : Named) : string :=
  let '(h, n) := splitHostname (ref_Name r) in h ++ "/" ++ n.
Definition Hostname (r : Named) : string := (splitHostname (ref_Name r)).1.
Definition RemoteName (r : Named) : string := (splitHostname (ref_Name r)).2.

Definition normalize (name : string) : result string string :=
  let '(host, remoteName) := splitHostname name in
  if decide (ToLower remoteName ≠ remoteName) then
    Err "invalid reference format: repository name must be lowercase"
  else if decide (host = DefaultHostname) then
    match trim_prefix DefaultRepoPrefix remoteName with
    | Some n => Ok n
    | None => Ok remoteName
    end
  else Ok name.

(** [v1.ValidateID]: 64 hexadecimal digits. *)
Definition ValidateID (id : string) : bool := bool_decide (String.length id = 64%nat) && string_forallb IsHex id.

Definition validateName (name : string) : result string unit :=
  if ValidateID name then
    Err ("Invalid repository name (" ++ name ++ "), cannot specify 64-byte hexadecimal strings")
  else Ok ().

Definition WithName (name : string) : result string Named :=
  match normalize name with
  | Err e => Err e
  | Ok name =>
      match validateName name with
      | Err e => Err e
      | Ok _ => dist_WithName name
      end
  end.

Definition WithTag (name : Named) (tag : string) : result string Named := dist_WithTag name tag.
Definition WithDigest (name : Named) (dgst : string) : result string Named := dist_WithDigest name dgst.

Definition ParseNamed (s : string) : result string Named :=
  match dist_Parse s with
  | Err _ => Err ("Error parsing reference: " ++ s ++ " is not a valid repository/tag")
  | Ok named =>
      match WithName (ref_Name named) with
      | Err e => Err e
      | Ok r =>
          match named with
          | CanonicalRef _ d | FullRef _ _ d => WithDigest r d
          | TaggedRef _ t => WithTag r t
          | NamedRef _ => Ok r
          end
      end
  end.

Definition IsCanonical (r : Named) : bool := match r with CanonicalRef _ _ | FullRef _ _ _ => true | _ => false end.
Definition IsTagged (r : Named) : bool := match r with TaggedRef _ _ | FullRef _ _ _ => true | _ => false end.
Definition IsNameOnly (r : Named) : bool := negb (IsTagged r) && negb (IsCanonical r).

(** A nil reference would come out of a default tag that is not valid. *)
Definition WithDefaultTag (r : Named) : Named :=
  if IsNameOnly r then match WithTag r DefaultTag with Ok r' => r' | Err _ => r end else r.

Definition ParseIDOrReference (idOrRef : string) : result string (string + Named) :=
  let idOrRef := if ValidateID idOrRef then "sha256:" ++ idOrRef else idOrRef in
  match ParseDigest idOrRef with
  | Ok dgst => Ok (inl dgst)
  | Err _ => match ParseNamed idOrRef with Ok r => Ok (inr r) | Err e => Err e end
  end.

(** ** Well-formed references *)

(** What the constructors of the package make. *)
Definition ref_ok (r : Named) : Prop :=
  NameRegexp (ref_Name r) = true ∧ (String.length (ref_Name r) ≤ NameTotalLengthMax)%nat ∧
  match r with
  | NamedRef _ => True
  | TaggedRef _ t => TagRegexp t = true
  | CanonicalRef _ d => DigestRegexp d = true ∧ Validate d = true
  | FullRef _ _ _ => False
  end.

Lemma WithName_ok n r : WithName n = Ok r → ref_ok r ∧ ∃ m, r = NamedRef m ∧ normalize n = Ok m ∧ validateName m = Ok ().
Proof.
  unfold WithName. destruct (normalize n) as [m|]; [|done]. destruct (validateName m) as [[]|] eqn:Ev; [|done].
  unfold dist_WithName. case_decide; [done|]. destruct (NameRegexp m) eqn:E; [|done]. simpl.
  intros [= <-]. split; [split_and!; [done|simpl; lia|done]|]. eauto.
Qed.

Lemma dist_Parse_digest s n d : dist_Parse s = Ok (CanonicalRef n d) ∨ (∃ t, dist_Parse s = Ok (FullRef n t d)) → Validate d = true.
Proof.
  unfold dist_Parse. destruct (ReferenceRegexp s) as [[[m t] e]|]; [|case_decide; naive_solver].
  case_decide; [naive_solver|]. unfold dist_getBestReferenceType, Validate.
  case_decide; [repeat case_decide; naive_solver|].
  destruct (ParseDigest e) as [e'|] eqn:E; [|naive_solver].
  assert (Validate e = true) as Hv by (unfold Validate; by rewrite E).
  apply Validate_ParseDigest in Hv. assert (e' = e) as -> by congruence.
  repeat case_decide; intros [Hx|[t' Hx]]; simplify_eq; by rewrite E.
Qed.

Lemma ParseNamed_ok s r : ParseNamed s = Ok r → ref_ok r.
Proof.
  unfold ParseNamed. destruct (dist_Parse s) as [named|] eqn:Ep; [|done].
  destruct (WithName (ref_Name named)) as [r0|] eqn:Ew; [|done]. apply WithName_ok in Ew as [Hok (m & -> & _)].
  unfold WithTag, WithDigest, dist_WithTag, dist_WithDigest.
  assert (Hc : ∀ d, Validate d = true →
    (if negb (DigestRegexp d) then Err ErrDigestInvalidFormat else Ok (CanonicalRef m d)) = Ok r → ref_ok r).
  { intros d Hd. destruct (DigestRegexp d) eqn:E; [|done]. intros [= <-]. by destruct Hok as (? & ? & _). }
  destruct named as [|n t|n d|n t d]; simpl; [by intros [= <-]| |apply Hc, (dist_Parse_digest s n); eauto..].
  destruct (TagRegexp t) eqn:E; [|done]. intros [= <-]. by destruct Hok as (? & ? & _).
Qed.

(** ** Printing and parsing *)

Definition noc (x : ascii) (s : string) : Prop := string_forallb (λ c, negb (bool_decide (c = x))) s = true.

Lemma noc_cut x s : noc x s → cut x s = None.
Proof.
  unfold noc. induction s as [|c s IH]; [done|]. simpl. rewrite andb_true_iff, negb_true_iff, bool_decide_eq_false.
  intros [Hc Hs]. rewrite decide_False by done. by rewrite IH.
Qed.

Lemma noc_cut_last x s : noc x s → cut_last x s = None.
Proof.
  unfold noc. induction s as [|c s IH]; [done|]. simpl. rewrite andb_true_iff, negb_true_iff, bool_decide_eq_false.
  intros [Hc Hs]. rewrite IH by done. by rewrite decide_False.
Qed.

Lemma cut_last_app x a b : noc x b → cut_last x (a ++ String x b) = Some (a, b).
Proof.
  intros Hb. induction a as [|c a IH]; simpl; [by rewrite noc_cut_last, decide_True|]. by rewrite IH.
Qed.

Lemma cut_last_app_noc x a b :
  noc x b → cut_last x (a ++ b) = match cut_last x a with Some (l, r) => Some (l, r ++ b) | None => None end.
Proof.
  intros Hb. induction a as [|c a IH]; simpl; [by apply noc_cut_last|]. rewrite IH.
  destruct (cut_last x a) as [[l r]|]; [done|]. by case_decide.
Qed.

Lemma ContainsChar_app x a b : ContainsChar x (a ++ String x b) = true.
Proof.
  unfold ContainsChar. apply bool_decide_eq_true. induction a as [|c a IH]; simpl; [by rewrite decide_True|].
  case_decide; [done|]. destruct IH as [[l r] ->]. by eexists.
Qed.

Lemma ContainsChar_noc x s : noc x s → ContainsChar x s = false.
Proof. intros H. unfold ContainsChar. rewrite noc_cut by done. by apply bool_decide_eq_false; intros [? ?]. Qed.

Lemma path_from_noc x st s : x ∈ [":"; "@"]%char → path_from st s = true → noc x s.
Proof.
  intros Hx. unfold noc. revert st. induction s as [|c s IH]; intros st; [done|]. simpl.
  assert (Hsep : ∀ d, d ∈ ["/"; "."; "_"; "-"]%char → d ≠ x) by (intros d Hd ->; set_solver).
  rewrite andb_true_iff, negb_true_iff, bool_decide_eq_false.
  destruct (IsAlnumLower c) eqn:Ea.
  { intros Hp. split; [|by eapply IH]. intros ->. repeat (apply elem_of_cons in Hx as [->|Hx]; [done|]).
    by apply not_elem_of_nil in Hx. }
  destruct st; try done; repeat (case_decide; [intros Hp; subst; (split; [apply Hsep; set_solver|by eapply IH])|]); done.
Qed.

Lemma hostname_from_noc st s : hostname_from st s = true → noc "@" s ∧ noc "/" s.
Proof.
  assert (H : ∀ x, x ∈ ["@"; "/"]%char → hostname_from st s = true → noc x s).
  2: { intros Hs. split; apply H; set_solver. }
  intros x Hx. unfold noc. revert st. induction s as [|c s IH]; intros st; [done|]. simpl.
  rewrite andb_true_iff, negb_true_iff, bool_decide_eq_false.
  assert (Hsep : ∀ d, d ∈ ["."; ":"; "-"]%char → d ≠ x) by (intros d Hd ->; set_solver).
  assert (Hal : IsAlnum c = true → c ≠ x).
  { intros Ha ->. repeat (apply elem_of_cons in Hx as [->|Hx]; [done|]). by apply not_elem_of_nil in Hx. }
  assert (Hdg : IsDigit c = true → c ≠ x).
  { intros Hd. apply Hal. unfold IsAlnum. by rewrite Hd, orb_true_r. }
  destruct st; (destruct (IsAlnum c) eqn:Ea || idtac); (destruct (IsDigit c) eqn:Ed || idtac); try done;
    try (intros Hp; split; [by auto|by eapply IH]);
    repeat (case_decide; [intros Hp; subst; (split; [apply Hsep; set_solver|by eapply IH])|]); done.
Qed.

Lemma noc_app x a b : noc x a → noc x b → noc x (a ++ b).
Proof. unfold noc. rewrite string_forallb_app. by intros -> ->. Qed.

(** A name holds no at sign, and a colon in it is followed by a slash. *)
Lemma NameRegexp_split n :
  NameRegexp n = true →
  noc "@" n ∧ ∀ a t, cut_last ":" n = Some (a, t) → ContainsChar "/" t = true.
Proof.
  unfold NameRegexp. rewrite orb_true_iff. intros [Hp|Hh].
  - split; [eapply path_from_noc; [set_solver|done]|]. intros a t.
    rewrite noc_cut_last; [done|]. eapply path_from_noc; [set_solver|done].
  - destruct (cut "/" n) as [[h rest]|] eqn:E; [|done]. apply cut_Some in E as ->.
    apply andb_true_iff in Hh as [Hh Hr]. apply hostname_from_noc in Hh as [Hat _].
    assert (Hra : noc "@" (String "/" rest)) by (eapply path_from_noc in Hr; [exact Hr|set_solver]).
    assert (Hrc : noc ":" (String "/" rest)) by (eapply path_from_noc in Hr; [exact Hr|set_solver]).
    split; [by apply noc_app|]. intros a t. rewrite cut_last_app_noc by done.
    destruct (cut_last ":" h) as [[l r]|]; [|done]. intros [= <- <-]. apply ContainsChar_app.
Qed.

Lemma TagRegexp_noc t x : x ∈ ["@"; "/"; ":"]%char → TagRegexp t = true → noc x t.
Proof.
  intros Hx. unfold TagRegexp, noc. destruct t as [|c t]; [done|]. rewrite !andb_true_iff. intros [[Hc _] Ht].
  assert (Hw : ∀ d, IsWord d || bool_decide (d = "."%char) || bool_decide (d = "-"%char) = true →
    negb (bool_decide (d = x)) = true).
  { intros d Hd. apply negb_true_iff, bool_decide_eq_false. intros ->.
    repeat (apply elem_of_cons in Hx as [->|Hx]; [done|]). by apply not_elem_of_nil in Hx. }
  simpl. rewrite (Hw c) by (by rewrite Hc). simpl. eapply string_forallb_impl; [exact Hw|exact Ht].
Qed.

Lemma DigestRegexp_nonempty d : DigestRegexp d = true → d ≠ "".
Proof. by intros H ->. Qed.

Lemma ReferenceRegexp_String r :
  ref_ok r →
  ReferenceRegexp (ref_String r) = Some
    (ref_Name r, match r with TaggedRef _ t => t | _ => "" end, match r with CanonicalRef _ d => d | _ => "" end).
Proof.
  intros (Hn & _ & Hr). destruct (NameRegexp_split _ Hn) as [Hat Hcol]. unfold ReferenceRegexp.
  assert (Hname : match cut_last ":" (ref_Name r) with
    | Some (n, t) => if ContainsChar "/" t then (ref_Name r, "", false) else (n, t, true)
    | None => (ref_Name r, "", false) end = (ref_Name r, "", false)).
  { destruct (cut_last ":" (ref_Name r)) as [[a t]|] eqn:E; [|done]. by rewrite (Hcol a t). }
  destruct r as [n|n t|n d|]; simpl in *; [..|done].
  - rewrite noc_cut by done. simpl. rewrite Hname, Hn, (ContainsChar_noc "@") by exact Hat. done.
  - change (":" ++ t) with (String ":" t).
    assert (Hall : noc "@" (n ++ String ":" t)).
    { apply noc_app; [done|]. apply (noc_app _ ":"); [done|]. apply TagRegexp_noc; [set_solver|done]. }
    rewrite noc_cut by exact Hall. simpl. rewrite cut_last_app by (apply TagRegexp_noc; [set_solver|done]).
    rewrite (ContainsChar_noc "/" t) by (apply TagRegexp_noc; [set_solver|done]).
    by rewrite Hn, Hr, (ContainsChar_noc "@") by exact Hall.
  - change ("@" ++ d) with (String "@" d). rewrite cut_app by exact Hat. simpl.
    rewrite Hname, Hn, ContainsChar_app. by rewrite (proj1 Hr).
Qed.

(** Printing a reference and parsing it as distribution/reference does. *)
Lemma dist_Parse_String r : ref_ok r → dist_Parse (ref_String r) = Ok r.
Proof.
  intros Hok. unfold dist_Parse. rewrite ReferenceRegexp_String by done. destruct Hok as (_ & Hlen & Hr).
  rewrite decide_False by lia. unfold dist_getBestReferenceType. destruct r as [n|n t|n d|]; simpl; [done|..|done].
  - rewrite decide_False; [done|]. by intros ->.
  - destruct Hr as [Hd Hv]. rewrite decide_False by (by apply DigestRegexp_nonempty).
    rewrite Validate_ParseDigest by done. rewrite decide_True; [done|]. by apply DigestRegexp_nonempty.
Qed.

Lemma ref_String_inj r r' : ref_ok r → ref_ok r' → ref_String r = ref_String r' → r = r'.
Proof. intros H1%dist_Parse_String H2%dist_Parse_String E. rewrite E in H1. congruence. Qed.

(** ** Normalisation *)

(** The first component of a path that a hostname could be. *)
Definition host_like (h : string) : bool :=
  ContainsChar "." h || ContainsChar ":" h || bool_decide (h = "localhost").

(** A name on the default host that loses its place when it is normalised: a
    path of several components below library/, or one that starts with what
    looks like a hostname. *)
Definition ambiguous (name : string) : bool :=
  let '(host, remoteName) := splitHostname name in
  bool_decide (host = DefaultHostname) &&
  match trim_prefix DefaultRepoPrefix remoteName with
  | Some n => ContainsChar "/" n
  | None => match cut "/" remoteName with Some (h, _) => host_like h | None => false end
  end.

Lemma trim_prefix_Some p s t : trim_prefix p s = Some t → s = p ++ t.
Proof.
  revert s. induction p as [|a p IH]; intros s; simpl; [by intros [= ->]|].
  destruct s as [|b s]; [done|]. case_decide; [|done]. subst. intros H%IH. by rewrite H.
Qed.

Lemma trim_prefix_app p s : trim_prefix p (p ++ s) = Some s.
Proof. induction p as [|a p IH]; simpl; [done|]. by rewrite decide_True. Qed.

(** The host and path of a name after the defaults have been filled in: a path
    on the default host has a slash. *)
Lemma splitHostname_default n rm :
  splitHostname n = (DefaultHostname, rm) → trim_prefix DefaultRepoPrefix rm = None → is_Some (cut "/" rm).
Proof.
  unfold splitHostname. set (p := match cut "/" n with None => _ | Some _ => _ end). destruct p as [h r].
  set (h' := if decide (h = LegacyDefaultHostname) then _ else _). intros [= Hh Hr]. rewrite Hh in Hr.
  case_decide as Hd; subst rm; [by rewrite trim_prefix_app|]. intros _.
  destruct (cut "/" r) eqn:E; [done|]. exfalso. apply Hd. split; [done|]. unfold ContainsChar. by rewrite E.
Qed.

Lemma splitHostname_no_slash n : cut "/" n = None → splitHostname n = (DefaultHostname, DefaultRepoPrefix ++ n).
Proof.
  intros E. unfold splitHostname. rewrite E. rewrite decide_False by done. rewrite decide_True; [done|].
  split; [done|]. unfold ContainsChar. by rewrite E.
Qed.

Lemma splitHostname_plain n h rest :
  cut "/" n = Some (h, rest) → host_like h = false → splitHostname n = (DefaultHostname, n).
Proof.
  intros E Hh. unfold splitHostname. rewrite E. unfold host_like in Hh. apply orb_false_iff in Hh as [Hd Hl].
  rewrite Hd, Hl. simpl. rewrite decide_False; [done|]. intros [_ Hc]. unfold ContainsChar in Hc. by rewrite E in Hc.
Qed.

(** Normalisation keeps the host and the path of a name that is not ambiguous. *)
Lemma normalize_split n m :
  normalize n = Ok m → ambiguous n = false → splitHostname m = splitHostname n.
Proof.
  unfold normalize, ambiguous. destruct (splitHostname n) as [h rm] eqn:Es. case_decide; [done|].
  case_decide as Hh; [|by intros [= <-]]. subst h. rewrite (bool_decide_true (DefaultHostname = DefaultHostname)), andb_true_l by done.
  destruct (trim_prefix DefaultRepoPrefix rm) as [y|] eqn:Et.
  - intros [= <-] Hy. apply trim_prefix_Some in Et as ->. apply splitHostname_no_slash.
    unfold ContainsChar in Hy. apply bool_decide_eq_false in Hy. by apply eq_None_not_Some.
  - intros [= <-] Hy. destruct (splitHostname_default _ _ Es Et) as [[h rest] Ec]. rewrite Ec in Hy.
    by eapply splitHostname_plain.
Qed.

Lemma normalize_idem n m : normalize n = Ok m → splitHostname m = splitHostname n → normalize m = Ok m.
Proof.
  unfold normalize. intros Hn ->. destruct (splitHostname n) as [h rm]. case_decide; [done|].
  by case_decide.
Qed.

(** C20. A reference that was parsed prints as a string that parses to the same
    reference, and means the repository that was written, unless the name is
    one of those that normalisation moves ([ambiguous]). *)
Theorem reference_roundtrip s r0 r :
  dist_Parse s = Ok r0 → ParseNamed s = Ok r → ambiguous (ref_Name r0) = false →
  ParseNamed (ref_String r) = Ok r ∧ FullName r = FullName r0.
Proof.
  intros Hp Hr Ha. pose proof (ParseNamed_ok _ _ Hr) as Hok. unfold ParseNamed in Hr. rewrite Hp in Hr.
  destruct (WithName (ref_Name r0)) as [x|] eqn:Ew; [|done]. apply WithName_ok in Ew as [Hokx (m & -> & Hn & Hv)].
  assert (Hname : ref_Name r = m).
  { unfold WithTag, WithDigest, dist_WithTag, dist_WithDigest in Hr.
    destruct r0; simpl in Hr; [by simplify_eq|..]; (destruct (negb _); [done|]); by simplify_eq. }
  pose proof (normalize_split _ _ Hn Ha) as Hsplit. pose proof (normalize_idem _ _ Hn Hsplit) as Hidem.
  split; [|unfold FullName; by rewrite Hname, Hsplit].
  unfold ParseNamed. rewrite dist_Parse_String by done. unfold WithName. rewrite Hname, Hidem, Hv.
  unfold dist_WithName. destruct Hokx as (Hx1 & Hx2 & _). simpl in Hx1, Hx2. rewrite decide_False by lia. rewrite Hx1. simpl.
  destruct Hok as (_ & _ & Hd). destruct r as [n|n t|n d|]; simpl in *; subst; [done|..|done].
  - unfold WithTag, dist_WithTag. by rewrite Hd.
  - unfold WithDigest, dist_WithDigest. by rewrite (proj1 Hd).
Qed.

(** Normalisation moves names: a repository of the default registry whose
    path starts like a hostname becomes one of another registry, a path below
    library/ loses that component, and a reference that was parsed can print
    as a string that parses to a different one. *)
Theorem normalize_moves_names :
  (∃ r, ParseNamed "docker.io/example.com/app" = Ok r ∧ Hostname r = "example.com") ∧
  (∃ r, ParseNamed "library/team/app" = Ok r ∧ FullName r = "docker.io/team/app") ∧
  (∃ r r', ParseNamed "docker.io/library/library/app" = Ok r ∧ ParseNamed (ref_String r) = Ok r' ∧ ref_Name r ≠ ref_Name r').
Proof.
  split_and!; eexists; [by vm_compute..|]. eexists. split_and!; [by vm_compute..|].
  apply (bool_decide_unpack _). by vm_compute.
Qed.

Lemma reference_roundtrip_witness :
  ∃ r, ParseNamed "index.docker.io/library/ubuntu:16.04" = Ok r ∧ ref_String r = "ubuntu:16.04" ∧
    ParseNamed (ref_String r) = Ok r ∧ FullName r = "docker.io/library/ubuntu".
Proof.
  eexists. split; [by vm_compute|]. split; [by vm_compute|].
  apply (reference_roundtrip "index.docker.io/library/ubuntu:16.04"
    (TaggedRef "index.docker.io/library/ubuntu" "16.04")); by vm_compute.
Defined.
