(* ===== verification/ReferenceStore.v ===== *)
(** The store of image references of reference/store.go: the tags and digests
    of every repository with the image each of them names, a cache of the
    references of every image, and the JSON file both are restored from. *)

From Stdlib Require Import Ascii.
From stdpp Require Import sorting.
From S2P Require Import Prelude GoStrings Digest Reference.

Local Open Scope string_scope.

Abbreviation ID := string (only parsing).
Abbreviation repositories := (gmap string (gmap string string)) (only parsing).

(** [file] is what the JSON file holds; [None] before the file exists. *)
Record store := mkStore {
  Repositories : gmap string (gmap string string);
  referencesByIDCache : gmap string (gmap string Named);
  file : option (gmap string (gmap string string)) }.

Record Association := mkAssociation { As_Ref : Named; As_ImageID : ID }.

Definition ErrDoesNotExist : string := "reference does not exist".

(** ** The two indexes *)

Definition rlook (rs : gmap string (gmap string string)) (name s : string) : option ID :=
  repo ← rs !! name; (repo : gmap string string) !! s.

Definition clook (c : gmap string (gmap string Named)) (id s : string) : option Named :=
  refs ← c !! id; (refs : gmap string Named) !! s.

Definition cache_add (id s : string) (r : Named) (c : gmap string (gmap string Named)) : gmap string (gmap string Named) :=
  <[id := <[s:=r]> (default ∅ (c !! id))]> c.

Definition cache_del (id s : string) (c : gmap string (gmap string Named)) : gmap string (gmap string Named) :=
  match c !! id with
  | None => c
  | Some refs =>
      let refs' := delete s refs in
      if decide (refs' = ∅) then delete id c else <[id:=refs']> c
  end.

(** [save]: the write of the file succeeds, or fails with an error. *)
Definition save (io : option string) : M store (result string unit) :=
  match io with
  | Some e => mret (Err e)
  | None =>
      modify (λ s, mkStore (Repositories s) (referencesByIDCache s) (Some (Repositories s)));;
      mret (Ok ())
  end.

Definition set_refs (rs : gmap string (gmap string string)) (c : gmap string (gmap string Named)) : M store unit :=
  modify (λ s, mkStore rs c (file s)).

Definition addReference (io : option string) (ref : Named) (id : ID) (force : bool) : M store (result string unit) :=
  if decide (ref_Name ref = "sha256") then
    mret (Err "refusing to create an ambiguous tag using digest algorithm as name")
  else
    st ← read (λ s, s);
    let repository := default ∅ (Repositories st !! ref_Name ref) in
    let refStr := ref_String ref in
    let finish c :=
      set_refs (<[ref_Name ref := <[refStr:=id]> repository]> (Repositories st)) (cache_add id refStr ref c);;
      save io in
    match repository !! refStr with
    | Some oldID =>
        if IsCanonical ref then
          mret (Err ("Cannot overwrite digest " ++ match ref with CanonicalRef _ d | FullRef _ _ d => d | _ => "" end))
        else if negb force then
          mret (Err ("Conflict: Tag " ++ refStr ++ " is already set to image " ++ oldID ++
                     ", if you want to replace it, please use -f option"))
        else finish (cache_del oldID refStr (referencesByIDCache st))
    | None => finish (referencesByIDCache st)
    end.

Definition AddTag (io : option string) (ref : Named) (id : ID) (force : bool) : M store (result string unit) :=
  if IsCanonical ref then mret (Err "refusing to create a tag with a digest reference")
  else addReference io (WithDefaultTag ref) id force.

(** [AddDigest] takes a canonical reference. *)
Definition AddDigest (io : option string) (ref : Named) (id : ID) (force : bool) : M store (result string unit) :=
  addReference io ref id force.

Definition Delete (io : option string) (ref : Named) : M store (bool * result string unit) :=
  let ref := WithDefaultTag ref in
  st ← read (λ s, s);
  match Repositories st !! ref_Name ref with
  | None => mret (false, Err ErrDoesNotExist)
  | Some repository =>
      let refStr := ref_String ref in
      match repository !! refStr with
      | None => mret (false, Err ErrDoesNotExist)
      | Some id =>
          let repository' := delete refStr repository in
          set_refs (if decide (repository' = ∅) then delete (ref_Name ref) (Repositories st)
                    else <[ref_Name ref := repository']> (Repositories st))
            (cache_del id refStr (referencesByIDCache st));;
          r ← save io;
          mret (true, r)
      end
  end.

Definition Get (ref : Named) : M store (result string ID) :=
  let ref := WithDefaultTag ref in
  read (λ s, match Repositories s !! ref_Name ref with
             | None => Err ErrDoesNotExist
             | Some repository =>
                 match repository !! ref_String ref with
                 | None => Err ErrDoesNotExist
                 | Some id => Ok id
                 end
             end).

(** The order of [sort.Sort] on [lexicalRefs] and [lexicalAssociations]. *)
Definition ref_le (a b : Named) : Prop := String.leb (ref_String a) (ref_String b) = true.
#[export] Instance ref_le_dec : RelDecision ref_le.
Proof. intros a b. unfold ref_le. apply _. Defined.
Definition assoc_le (a b : Association) : Prop := ref_le (As_Ref a) (As_Ref b).
#[export] Instance assoc_le_dec : RelDecision assoc_le.
Proof. intros a b. unfold assoc_le. apply _. Defined.

Definition References (id : ID) : M store (list Named) :=
  read (λ s, merge_sort ref_le ((map_to_list (default ∅ (referencesByIDCache s !! id))).*2)).

(** The references of a repository; [None] when one of them does not parse. *)
Fixpoint associations (l : list (string * ID)) : option (list Association) :=
  match l with
  | [] => Some []
  | (refStr, refID) :: l =>
      match ParseNamed refStr with
      | Err _ => None
      | Ok ref => cons (mkAssociation ref refID) <$> associations l
      end
  end.

Definition ReferencesByName (ref : Named) : M store (list Association) :=
  read (λ s, match Repositories s !! ref_Name ref with
             | None => []
             | Some repository =>
                 match associations (map_to_list repository) with
                 | None => []
                 | Some l => merge_sort assoc_le l
                 end
             end).

(** [reload]: the cache is built from the file. *)
Definition reload_ref (c : gmap string (gmap string Named)) (p : string * ID) : gmap string (gmap string Named) :=
  match ParseNamed p.1 with
  | Err _ => c
  | Ok ref => cache_add p.2 p.1 ref c
  end.

Definition all_refs (rs : gmap string (gmap string string)) : list (string * ID) :=
  concat ((λ p, map_to_list p.2) <$> map_to_list rs).

(** [NewReferenceStore]; [io] is the outcome of the write of a new file. *)
Definition NewReferenceStore (f : option (gmap string (gmap string string))) (io : option string) : result string store :=
  match f with
  | Some rs => Ok (mkStore rs (foldl reload_ref ∅ (all_refs rs)) f)
  | None => match io with
            | Some e => Err e
            | None => Ok (mkStore ∅ ∅ (Some ∅))
            end
  end.

(** ** Lookups *)

Lemma clook_add id s r c id' s' :
  clook (cache_add id s r c) id' s' = if decide (id = id' ∧ s = s') then Some r else clook c id' s'.
Proof.
  unfold clook, cache_add. destruct (decide (id = id')) as [->|Hne].
  - rewrite lookup_insert_eq. simpl. destruct (decide (s = s')) as [->|Hs].
    + rewrite lookup_insert_eq, decide_True by done. done.
    + rewrite lookup_insert_ne, decide_False by naive_solver. by destruct (c !! id').
  - rewrite lookup_insert_ne, decide_False by naive_solver. done.
Qed.

Lemma clook_del id s c id' s' :
  clook (cache_del id s c) id' s' = if decide (id = id' ∧ s = s') then None else clook c id' s'.
Proof.
  unfold cache_del, clook. destruct (c !! id) as [refs|] eqn:E.
  2: { case_decide as Hd; [|done]. destruct Hd as [<- <-]. by rewrite E. }
  destruct (decide (id = id')) as [<-|Hne].
  - assert (Hin : ((if decide (delete s refs = ∅) then delete id c else <[id:=delete s refs]> c) !! id
      ≫= λ m, m !! s') = delete s refs !! s').
    { case_decide as He; [by rewrite lookup_delete_eq, He|by rewrite lookup_insert_eq]. }
    rewrite Hin, E. simpl. destruct (decide (s = s')) as [<-|Hs].
    + rewrite lookup_delete_eq, decide_True by done. done.
    + rewrite lookup_delete_ne, decide_False by naive_solver. done.
  - rewrite (decide_False (P := id = id' ∧ s = s')) by naive_solver.
    case_decide; [by rewrite lookup_delete_ne|by rewrite lookup_insert_ne].
Qed.

Lemma rlook_insert rs n s id n' s' :
  rlook (<[n := <[s:=id]> (default ∅ (rs !! n))]> rs) n' s' =
  if decide (n = n' ∧ s = s') then Some id else rlook rs n' s'.
Proof.
  unfold rlook. destruct (decide (n = n')) as [->|Hne].
  - rewrite lookup_insert_eq. simpl. destruct (decide (s = s')) as [->|Hs].
    + rewrite lookup_insert_eq, decide_True by done. done.
    + rewrite lookup_insert_ne, decide_False by naive_solver. by destruct (rs !! n').
  - rewrite lookup_insert_ne, decide_False by naive_solver. done.
Qed.

Lemma rlook_delete (rs : gmap string (gmap string string)) n s repo n' s' :
  rs !! n = Some repo →
  rlook (if decide (delete s repo = ∅) then delete n rs else <[n := delete s repo]> rs) n' s' =
  if decide (n = n' ∧ s = s') then None else rlook rs n' s'.
Proof.
  intros E. unfold rlook. destruct (decide (n = n')) as [<-|Hne].
  - assert (Hin : ((if decide (delete s repo = ∅) then delete n rs else <[n:=delete s repo]> rs) !! n
      ≫= λ m : gmap string string, m !! s') = delete s repo !! s').
    { case_decide as He; [by rewrite lookup_delete_eq, He|by rewrite lookup_insert_eq]. }
    rewrite Hin, E. simpl. destruct (decide (s = s')) as [<-|Hs].
    + rewrite lookup_delete_eq, decide_True by done. done.
    + rewrite lookup_delete_ne, decide_False by naive_solver. done.
  - rewrite (decide_False (P := n = n' ∧ s = s')) by naive_solver.
    case_decide; [by rewrite lookup_delete_ne|by rewrite lookup_insert_ne].
Qed.

(** No image keeps an empty set of references. *)
Definition no_empty {A} (c : gmap string (gmap string A)) : Prop := ∀ id refs, c !! id = Some refs → refs ≠ ∅.

Lemma no_empty_insert {A} (c : gmap string (gmap string A)) id refs :
  no_empty c → refs ≠ ∅ → no_empty (<[id:=refs]> c).
Proof. intros Hc Hr i m. rewrite lookup_insert. case_decide; [by intros [= <-]|apply Hc]. Qed.
Lemma no_empty_delete {A} (c : gmap string (gmap string A)) id : no_empty c → no_empty (delete id c).
Proof. intros Hc i m [_ Hi]%lookup_delete_Some. by apply (Hc i). Qed.
Lemma no_empty_add id s r c : no_empty c → no_empty (cache_add id s r c).
Proof. intros Hc. apply no_empty_insert; [done|apply insert_non_empty]. Qed.
Lemma no_empty_del id s c : no_empty c → no_empty (cache_del id s c).
Proof.
  intros Hc. unfold cache_del. destruct (c !! id); [|done].
  case_decide; [by apply no_empty_delete|by apply no_empty_insert].
Qed.

(** ** The invariant *)

(** The cache is the inverse of the repositories. *)
Record index_ok (st : store) : Prop := mkIndexOk {
  ix_fwd n s id : rlook (Repositories st) n s = Some id →
    ∃ r, clook (referencesByIDCache st) id s = Some r ∧ ref_Name r = n;
  ix_bwd id s r : clook (referencesByIDCache st) id s = Some r →
    ref_ok r ∧ ref_String r = s ∧ rlook (Repositories st) (ref_Name r) s = Some id;
  ix_cache : no_empty (referencesByIDCache st);
  ix_repos : no_empty (Repositories st) }.

(** A reference with a tag or a digest. *)
Definition specific (r : Named) : Prop := ref_ok r ∧ IsNameOnly r = false.

Lemma WithDefaultTag_specific r : ref_ok r → specific (WithDefaultTag r).
Proof.
  intros (Hn & Hl & Hr). unfold WithDefaultTag. destruct r as [n|n t|n d|]; simpl in *; [..|done]; by split.
Qed.

Lemma WithDefaultTag_id r : specific r → WithDefaultTag r = r.
Proof. intros [_ Hr]. unfold WithDefaultTag. by rewrite Hr. Qed.

(** The image a reference names. *)
Definition names (st : store) (r : Named) : option ID := rlook (Repositories st) (ref_Name r) (ref_String r).

Definition uncached (st : store) (r : Named) : gmap string (gmap string Named) :=
  match names st r with
  | Some old => cache_del old (ref_String r) (referencesByIDCache st)
  | None => referencesByIDCache st
  end.

Definition with_ref (st : store) (r : Named) (id : ID) : gmap string (gmap string string) :=
  <[ref_Name r := <[ref_String r:=id]> (default ∅ (Repositories st !! ref_Name r))]> (Repositories st).

Lemma clook_uncached st r id s :
  clook (uncached st r) id s =
  if decide (names st r = Some id ∧ ref_String r = s) then None else clook (referencesByIDCache st) id s.
Proof.
  unfold uncached. destruct (names st r) as [old|]; [|by rewrite decide_False by naive_solver].
  rewrite clook_del. repeat case_decide; naive_solver.
Qed.

Lemma insert_ok st r id f :
  index_ok st → ref_ok r →
  index_ok (mkStore (with_ref st r id) (cache_add id (ref_String r) r (uncached st r)) f).
Proof.
  intros [Hf Hb Hc Hr] Hok. split; simpl.
  - intros n s id'. unfold with_ref. rewrite rlook_insert. case_decide as Hd.
    + destruct Hd as [<- <-]. intros [= ->]. exists r. by rewrite clook_add, decide_True.
    + intros Hl. destruct (Hf _ _ _ Hl) as (r' & Hcl & <-). destruct (Hb _ _ _ Hcl) as (Hok' & <- & _).
      exists r'. split; [|done].
      assert (Hne : ref_String r ≠ ref_String r') by (intros E; apply ref_String_inj in E; naive_solver).
      rewrite clook_add, decide_False by naive_solver. rewrite clook_uncached, decide_False by naive_solver. done.
  - intros id' s r'. rewrite clook_add. unfold with_ref. case_decide as Hd.
    + destruct Hd as [<- <-]. intros [= <-]. by rewrite rlook_insert, decide_True.
    + rewrite clook_uncached. case_decide as Hu; [done|]. intros Hcl. destruct (Hb _ _ _ Hcl) as (Hok' & <- & Hl).
      split_and!; [done..|]. rewrite rlook_insert, decide_False; [done|]. intros [E1 E2].
      apply ref_String_inj in E2 as <-; [|done..]. by apply Hu.
  - apply no_empty_add. unfold uncached. destruct (names st r); [by apply no_empty_del|done].
  - apply no_empty_insert; [done|apply insert_non_empty].
Qed.

Lemma delete_ok st r id repo f :
  index_ok st → ref_ok r → Repositories st !! ref_Name r = Some repo → repo !! ref_String r = Some id →
  index_ok (mkStore (if decide (delete (ref_String r) repo = ∅) then delete (ref_Name r) (Repositories st)
                     else <[ref_Name r := delete (ref_String r) repo]> (Repositories st))
              (cache_del id (ref_String r) (referencesByIDCache st)) f).
Proof.
  intros [Hf Hb Hc Hr] Hok Hrepo Hid.
  assert (Hn : names st r = Some id) by (unfold names, rlook; by rewrite Hrepo).
  split; simpl.
  - intros n s id'. rewrite rlook_delete by done. case_decide as Hd; [done|]. intros Hl.
    destruct (Hf _ _ _ Hl) as (r' & Hcl & <-). destruct (Hb _ _ _ Hcl) as (Hok' & <- & _).
    exists r'. split; [|done]. rewrite clook_del, decide_False; [done|]. intros [_ E].
    apply ref_String_inj in E; naive_solver.
  - intros id' s r'. rewrite clook_del. case_decide as Hd; [done|]. intros Hcl.
    destruct (Hb _ _ _ Hcl) as (Hok' & <- & Hl). split_and!; [done..|]. rewrite rlook_delete, decide_False; [done| |done].
    intros [E1 E2]. apply ref_String_inj in E2 as <-; [|done..]. apply Hd. split; [|done].
    unfold names in Hn. congruence.
  - by apply no_empty_del.
  - case_decide; [by apply no_empty_delete|by apply no_empty_insert].
Qed.

(** What a write of the file leaves. *)
Definition file_after (io : option string) (st : store) (rs : gmap string (gmap string string)) : option (gmap string (gmap string string)) :=
  match io with None => Some rs | Some _ => file st end.
Lemma save_ok io st : ∃ st', save io st = Ret (match io with Some e => Err e | None => Ok () end) st' ∧
  Repositories st' = Repositories st ∧ referencesByIDCache st' = referencesByIDCache st ∧
  file st' = file_after io st (Repositories st').
Proof. unfold save. destruct io; [by exists st|]. by eexists. Qed.

Lemma index_ok_ext st st' :
  Repositories st' = Repositories st → referencesByIDCache st' = referencesByIDCache st → index_ok st → index_ok st'.
Proof. intros E1 E2 [H1 H2 H3 H4]. split; by rewrite ?E1, ?E2. Qed.

(** ** The operations *)

Lemma same_ref r r' :
  ref_ok r → ref_ok r' → ref_Name r = ref_Name r' ∧ ref_String r = ref_String r' ↔ r = r'.
Proof. intros H1 H2. split; [by intros [_ ?%ref_String_inj]|by intros ->]. Qed.

Definition io_result (io : option string) : result string unit := match io with Some e => Err e | None => Ok () end.

Lemma addReference_spec io r id force st :
  index_ok st → ref_ok r →
  ∃ res st', addReference io r id force st = Ret res st' ∧ index_ok st' ∧
    (if decide (ref_Name r = "sha256" ∨ (is_Some (names st r) ∧ (IsCanonical r = true ∨ force = false)))
     then st' = st ∧ ∃ e, res = Err e
     else res = io_result io ∧ (∀ r', ref_ok r' → names st' r' = if decide (r = r') then Some id else names st r') ∧
       file st' = file_after io st (Repositories st')).
Proof.
  intros Hok Hr. unfold addReference. case_decide as Hs.
  { eexists _, _. split; [done|]. split; [done|]. rewrite decide_True by (by left). eauto. }
  unfold read, mbind, M_bind.
  assert (Hfin : ∃ st', (set_refs (with_ref st r id) (cache_add id (ref_String r) r (uncached st r));; save io) st =
    Ret (io_result io) st' ∧ index_ok st' ∧
    (∀ r', ref_ok r' → names st' r' = if decide (r = r') then Some id else names st r') ∧
    file st' = file_after io st (Repositories st')).
  { unfold set_refs, modify, mbind, M_bind.
    destruct (save_ok io (mkStore (with_ref st r id) (cache_add id (ref_String r) r (uncached st r)) (file st)))
      as (st' & E & E1 & E2 & E3).
    exists st'. split; [exact E|]. split; [eapply index_ok_ext; [exact E1|exact E2|by apply insert_ok]|].
    split; [|done]. intros r' Hr'. unfold names. rewrite E1. simpl. unfold with_ref. rewrite rlook_insert.
    by apply decide_ext, same_ref. }
  assert (Hlook : default ∅ (Repositories st !! ref_Name r) !! ref_String r = names st r).
  { unfold names, rlook. by destruct (Repositories st !! ref_Name r). }
  rewrite Hlook. unfold uncached, with_ref in Hfin. destruct (names st r) as [old|] eqn:En.
  2: { destruct Hfin as (st' & E & Hok' & Hn & Hf). eexists _, st'. split; [exact E|]. split; [done|].
       rewrite decide_False by (intros [?|[[? ?] _]]; done). done. }
  destruct (IsCanonical r) eqn:Ec; [|destruct force; simpl].
  - eexists _, _. split; [done|]. split; [done|]. rewrite decide_True by eauto. eauto.
  - destruct Hfin as (st' & E & Hok' & Hn & Hf). eexists _, st'. split; [exact E|]. split; [done|].
    rewrite decide_False by naive_solver. done.
  - eexists _, _. split; [done|]. split; [done|]. rewrite decide_True by eauto. eauto.
Qed.

Lemma Delete_spec io r st :
  index_ok st → ref_ok r →
  let r := WithDefaultTag r in
  ∃ res st', Delete io r st = Ret res st' ∧ index_ok st' ∧
    match names st r with
    | None => st' = st ∧ res = (false, Err ErrDoesNotExist)
    | Some _ => res = (true, io_result io) ∧
        (∀ r', ref_ok r' → names st' r' = if decide (r = r') then None else names st r') ∧
        file st' = file_after io st (Repositories st')
    end.
Proof.
  intros Hok Hr r1. pose proof (WithDefaultTag_specific r Hr) as Hsp. fold r1 in Hsp. clearbody r1. clear r Hr.
  unfold Delete. rewrite WithDefaultTag_id by done. destruct Hsp as [Hr _]. unfold read, mbind, M_bind, names at 1, rlook at 1.
  destruct (Repositories st !! ref_Name r1) as [repo|] eqn:Er; simpl; [|by eexists _, _].
  destruct (repo !! ref_String r1) as [id|] eqn:Ei; [|by eexists _, _].
  unfold set_refs, modify. simpl.
  match goal with |- context [save io ?x] => destruct (save_ok io x) as (st' & E & E1 & E2 & E3) end.
  rewrite E. simpl. eexists _, st'. split; [done|].
  split; [eapply index_ok_ext; [exact E1|exact E2|by apply delete_ok]|]. split; [done|]. split; [|done].
  intros r' Hr'. unfold names. rewrite E1. simpl. rewrite rlook_delete by done.
  by apply decide_ext, same_ref.
Qed.

(** ** The file read back *)

Lemma clook_reload c l id s :
  clook (foldl reload_ref c l) id s =
  match ParseNamed s with
  | Ok r => if decide ((s, id) ∈ l) then Some r else clook c id s
  | Err _ => clook c id s
  end.
Proof.
  revert c. induction l as [|[t i] l IH]; intros c; simpl foldl.
  - destruct (ParseNamed s); [|done]. by rewrite decide_False by apply not_elem_of_nil.
  - rewrite IH. unfold reload_ref. simpl fst. simpl snd. destruct (ParseNamed t) as [rt|] eqn:Et.
    + rewrite clook_add. destruct (ParseNamed s) as [r|] eqn:Es.
      * destruct (decide ((s, id) ∈ l)); [by rewrite decide_True by (by apply list_elem_of_further)|].
        destruct (decide (i = id ∧ t = s)) as [[-> ->]|Hne].
        -- rewrite decide_True by apply list_elem_of_here. congruence.
        -- rewrite decide_False; [done|]. intros [[= -> ->]|?]%elem_of_cons; auto.
      * rewrite decide_False; [done|]. intros [-> ->]. congruence.
    + destruct (ParseNamed s) as [r|] eqn:Es; [|done].
      assert (Heq : (s, id) ∈ (t, i) :: l ↔ (s, id) ∈ l) by (rewrite elem_of_cons; split; [intros [[= -> ->]|?]; [congruence|done]|auto]).
      by rewrite (decide_ext _ _ (Some r) (clook c id s) Heq).
Qed.

Lemma elem_of_all_refs rs s id : (s, id) ∈ all_refs rs ↔ ∃ n, rlook rs n s = Some id.
Proof.
  unfold all_refs, rlook. rewrite list_elem_of_In, in_concat. split.
  - intros (l & Hl & Hin). apply list_elem_of_In, list_elem_of_fmap in Hl as ([n repo] & -> & Hn).
    apply elem_of_map_to_list in Hn. apply list_elem_of_In, elem_of_map_to_list in Hin. exists n. by rewrite Hn.
  - intros (n & Hn). destruct (rs !! n) as [repo|] eqn:E; [|done]. simpl in Hn.
    exists (map_to_list repo). split; apply list_elem_of_In.
    + apply list_elem_of_fmap. exists (n, repo). split; [done|]. by apply elem_of_map_to_list.
    + by apply elem_of_map_to_list.
Qed.

Lemma no_empty_reload c l : no_empty c → no_empty (foldl reload_ref c l).
Proof.
  revert c. induction l as [|p l IH]; intros c Hc; [done|]. simpl. apply IH. unfold reload_ref.
  destruct (ParseNamed p.1); [by apply no_empty_add|done].
Qed.

(** Two caches with the same entries and no empty sets are equal. *)
Lemma cache_eq c c' : no_empty c → no_empty c' → (∀ id s, clook c id s = clook c' id s) → c = c'.
Proof.
  intros Hc Hc' E. apply map_eq. intros id. unfold clook in E. specialize (E id).
  destruct (c !! id) as [m|] eqn:E1, (c' !! id) as [m'|] eqn:E2; simpl in E; [| | |done].
  - f_equal. by apply map_eq.
  - exfalso. apply (Hc _ _ E1). apply map_eq. intros s. by rewrite E.
  - exfalso. apply (Hc' _ _ E2). apply map_eq. intros s. by rewrite <-E.
Qed.

(** Every reference in a file parses back to itself.  The references that a client
    has parsed do, unless [normalize] moves their names ([Reference.ambiguous]). *)
Definition parses_back (rs : gmap string (gmap string string)) : Prop :=
  ∀ n s id, rlook rs n s = Some id → ∃ r, ParseNamed s = Ok r ∧ ref_Name r = n ∧ ref_String r = s.

Lemma reload_ok rs f : no_empty rs → parses_back rs → index_ok (mkStore rs (foldl reload_ref ∅ (all_refs rs)) f).
Proof.
  intros Hne Hp. split; simpl.
  - intros n s id Hl. destruct (Hp n s id Hl) as (r & Hr & <- & <-). exists r. split; [|done].
    rewrite clook_reload, Hr, decide_True; [done|]. apply elem_of_all_refs. eauto.
  - intros id s r. rewrite clook_reload. destruct (ParseNamed s) as [r'|] eqn:Hs; [|done].
    case_decide as Hin; [|done]. intros [= ->]. split; [by eapply ParseNamed_ok|].
    apply elem_of_all_refs in Hin as (n & Hn). destruct (Hp n s id Hn) as (r1 & Hr1 & <- & <-).
    assert (r1 = r) as -> by congruence. done.
  - by apply no_empty_reload.
  - done.
Qed.

(** ** Executions *)

Inductive step (st : store) : store → Prop :=
| step_tag io r id force res st' : ref_ok r → AddTag io r id force st = Ret res st' → step st st'
| step_digest io r id force res st' :
    ref_ok r → IsCanonical r = true → AddDigest io r id force st = Ret res st' → step st st'
| step_delete io r res st' : ref_ok r → Delete io r st = Ret res st' → step st st'
| step_restart io st' :
    (∀ rs, file st = Some rs → parses_back rs) → NewReferenceStore (file st) io = Ok st' → step st st'.

(** The states of a store that was created without a file, and opened again on its
    file any number of times; at that time all the references in the file have to
    parse back to themselves. *)
Definition reachable (st : store) : Prop :=
  ∃ st0, NewReferenceStore None None = Ok st0 ∧ rtc step st0 st.

Lemma AddTag_run io r id force st :
  IsCanonical r = false → AddTag io r id force st = addReference io (WithDefaultTag r) id force st.
Proof. intros E. unfold AddTag. by rewrite E. Qed.

(** The file is one that the store has written. *)
Definition store_ok (st : store) : Prop := index_ok st ∧ ∀ rs, file st = Some rs → no_empty rs.

Lemma store_ok_file io st st' : index_ok st' → (∀ rs, file st = Some rs → no_empty rs) →
  st' = st ∨ file st' = file_after io st (Repositories st') → store_ok st'.
Proof.
  intros Hok Hf [->|E]; (split; [done|]); [done|]. intros rs. rewrite E. destruct io; simpl; [apply Hf|].
  intros [= <-]. apply Hok.
Qed.

Lemma refstore_step_ok st st' : step st st' → store_ok st → store_ok st'.
Proof.
  intros Hst [Hok Hf]. destruct Hst as [io r id force res st' Hr E|io r id force res st' Hr Hc E|io r res st' Hr E|io st' Hp E].
  - destruct (IsCanonical r) eqn:Ec; [unfold AddTag in E; rewrite Ec in E; run_in E; simplify_eq; by split|].
    rewrite AddTag_run in E by done.
    destruct (addReference_spec io (WithDefaultTag r) id force st Hok) as (res' & st1 & E' & Hok' & Hc);
      [by apply WithDefaultTag_specific|]. rewrite E in E'. simplify_eq.
    apply (store_ok_file io st); [done..|]. case_decide; [left|right]; apply Hc.
  - unfold AddDigest in E. destruct (addReference_spec io r id force st Hok Hr) as (res' & st1 & E' & Hok' & Hn).
    rewrite E in E'. simplify_eq. apply (store_ok_file io st); [done..|]. case_decide; [left|right]; apply Hn.
  - destruct (Delete_spec io r st Hok Hr) as (res' & st1 & E' & Hok' & Hn).
    unfold Delete in E, E'. rewrite (WithDefaultTag_id (WithDefaultTag r)) in E' by (by apply WithDefaultTag_specific).
    rewrite E in E'. simplify_eq. apply (store_ok_file io st); [done..|].
    destruct (names st (WithDefaultTag r)); [right|left]; apply Hn.
  - destruct (file st) as [rs|] eqn:Ef; simpl in E.
    + injection E as <-. split; [apply reload_ok; auto|]. simpl. intros rs' [= <-]. by apply Hf.
    + destruct io; simplify_eq. split; [by split; simpl|]. simpl. by intros rs [= <-].
Qed.

Lemma reachable_store_ok st : reachable st → store_ok st.
Proof.
  intros (st0 & E & Hr). simpl in E. simplify_eq.
  assert (H0 : store_ok (mkStore ∅ ∅ (Some ∅))) by (split; [by split; simpl|]; by intros rs [= <-]).
  induction Hr as [|x y z Hst _ IH]; [done|]. by apply IH, (refstore_step_ok x).
Qed.
Lemma reachable_index st : reachable st → index_ok st.
Proof. intros H. apply (reachable_store_ok st H). Qed.

Lemma elem_of_References st id r :
  index_ok st →
  r ∈ merge_sort ref_le ((map_to_list (default ∅ (referencesByIDCache st !! id))).*2) ↔ ref_ok r ∧ names st r = Some id.
Proof.
  intros Hok. rewrite merge_sort_Permutation, list_elem_of_fmap.
  assert (Hc : ∀ s x, default ∅ (referencesByIDCache st !! id) !! s = Some x ↔ clook (referencesByIDCache st) id s = Some x).
  { intros s x. unfold clook. by destruct (referencesByIDCache st !! id). }
  split.
  - intros ([s x] & -> & Hin). apply elem_of_map_to_list, Hc in Hin. destruct (ix_bwd st Hok _ _ _ Hin) as (? & <- & ?). done.
  - intros [Hr Hn]. destruct (ix_fwd st Hok _ _ _ Hn) as (x & Hx & _). exists (ref_String r, x). simpl.
    destruct (ix_bwd st Hok _ _ _ Hx) as (Hx1 & Hx2 & _). apply ref_String_inj in Hx2; [|done..].
    split; [done|]. apply elem_of_map_to_list, Hc. done.
Qed.

(** ** Properties *)

(** C22. The cache of references is exact in every state of the store, whether
    the writes of its file have succeeded or not, and also after it was opened
    again on its file, if the references in the file parse back to themselves:
    [References] lists precisely the references that name the image, each once, and
    no image or repository is kept without a reference. *)
Theorem refstore_index_exact st id :
  reachable st →
  ∃ l, References id st = Ret l st ∧ NoDup l ∧ (∀ r, r ∈ l ↔ ref_ok r ∧ names st r = Some id) ∧
    no_empty (Repositories st) ∧ no_empty (referencesByIDCache st).
Proof.
  intros Hok%reachable_index. eexists. split; [done|]. split_and!; [|by intros; apply elem_of_References|by apply Hok..].
  rewrite merge_sort_Permutation. apply NoDup_fmap_2_strong, NoDup_map_to_list.
  intros [s x] [s' x'] Hx Hx' E. apply elem_of_map_to_list in Hx, Hx'. simpl in E. subst x'.
  assert (Hc : ∀ t, default ∅ (referencesByIDCache st !! id) !! t = Some x → ref_String x = t).
  { intros t Ht. apply (ix_bwd st Hok id t x). unfold clook. by destruct (referencesByIDCache st !! id). }
  by rewrite <-(Hc s Hx), <-(Hc s' Hx').
Qed.

(** C23. The store is a map from references to images. A tag is set to an image
    unless it is set already and [force] is not given; a digest is never
    overwritten; nothing else changes. [Delete] removes the reference it is
    given and reports whether there was one; [Get] reads the map. A reference
    without a tag stands for the one with the default tag. *)
Theorem refstore_refines_map st r :
  reachable st → ref_ok r →
  let r1 := WithDefaultTag r in
  Get r st = Ret (match names st r1 with Some id => Ok id | None => Err ErrDoesNotExist end) st ∧
  (∀ io id force, ∃ res st', (if IsCanonical r then AddDigest else AddTag) io r id force st = Ret res st' ∧
    if decide (ref_Name r1 = "sha256" ∨ (is_Some (names st r1) ∧ (IsCanonical r1 = true ∨ force = false)))
    then st' = st ∧ ∃ e, res = Err e
    else res = io_result io ∧ ∀ r', ref_ok r' → names st' r' = if decide (r1 = r') then Some id else names st r') ∧
  (∀ io, ∃ res st', Delete io r st = Ret res st' ∧
    match names st r1 with
    | None => st' = st ∧ res = (false, Err ErrDoesNotExist)
    | Some _ => res = (true, io_result io) ∧
        ∀ r', ref_ok r' → names st' r' = if decide (r1 = r') then None else names st r'
    end).
Proof.
  intros Hok%reachable_index Hr r1. pose proof (WithDefaultTag_specific r Hr) as Hsp. split_and!.
  - unfold Get, read, names, rlook, r1. destruct (Repositories st !! _); [|done]. simpl. by destruct (_ !! ref_String _).
  - intros io id force.
    destruct (addReference_spec io r1 id force st Hok (proj1 Hsp)) as (res & st' & E & _ & Hres). exists res, st'. split.
    + destruct (IsCanonical r) eqn:Ec; [|by rewrite AddTag_run].
      unfold AddDigest. assert (Er : r1 = r) by (unfold r1, WithDefaultTag, IsNameOnly; by rewrite Ec, andb_false_r).
      by rewrite <-Er at 1.
    + case_decide; naive_solver.
  - intros io. destruct (Delete_spec io r st Hok Hr) as (res & st' & E & _ & Hres). exists res, st'. split.
    + rewrite <-E. unfold Delete. by rewrite (WithDefaultTag_id (WithDefaultTag r)).
    + fold r1 in Hres. destruct (names st r1); naive_solver.
Qed.

(** ** Restart *)

Lemma elem_of_listed st id r :
  r ∈ merge_sort ref_le ((map_to_list (default ∅ (referencesByIDCache st !! id))).*2) ↔
  ∃ s, clook (referencesByIDCache st) id s = Some r.
Proof.
  rewrite merge_sort_Permutation, list_elem_of_fmap. unfold clook. split.
  - intros ([s x] & -> & Hin%elem_of_map_to_list). exists s. by destruct (referencesByIDCache st !! id).
  - intros (s & Hs). exists (s, r). split; [done|]. apply elem_of_map_to_list. by destruct (referencesByIDCache st !! id).
Qed.

(** C24. A restart.  A store that is opened on the file of another one, or of
    itself, has the repositories of the file, and lists for an image what the
    strings that name it in the file parse to.  It is the same store as the one
    that wrote the file when the last write has succeeded and the references in
    the store parse back to themselves. *)
Theorem refstore_restart st rs io :
  reachable st → file st = Some rs →
  ∃ st', NewReferenceStore (file st) io = Ok st' ∧ Repositories st' = rs ∧ file st' = Some rs ∧
    (∀ id, ∃ l, References id st' = Ret l st' ∧
       ∀ r, r ∈ l ↔ ∃ n s, rlook rs n s = Some id ∧ ParseNamed s = Ok r) ∧
    (rs = Repositories st → (∀ r, ref_ok r → is_Some (names st r) → ParseNamed (ref_String r) = Ok r) → st' = st).
Proof.
  intros Hok%reachable_index Hf. rewrite Hf. eexists. split_and!; [done|done|done| |].
  - intros id. eexists. split; [done|]. intros r. rewrite elem_of_listed. simpl. setoid_rewrite clook_reload. split.
    + intros (s & Hs). destruct (ParseNamed s) as [r'|] eqn:Ep; [|done]. case_decide as Hin; simplify_eq.
      apply elem_of_all_refs in Hin as (n & Hn). eauto.
    + intros (n & s & Hn & Hp). exists s. rewrite Hp, decide_True; [done|]. apply elem_of_all_refs. eauto.
  - intros -> Hrt. enough (Hc : foldl reload_ref ∅ (all_refs (Repositories st)) = referencesByIDCache st).
    { rewrite Hc. destruct st; simpl in *. by subst. }
    apply cache_eq; [by apply no_empty_reload|by apply Hok|]. intros id s. rewrite clook_reload.
    destruct (clook (referencesByIDCache st) id s) as [r|] eqn:Ec.
    + destruct (ix_bwd st Hok _ _ _ Ec) as (Hr & <- & Hn). rewrite (Hrt r Hr) by (by eexists).
      rewrite decide_True; [done|]. apply elem_of_all_refs. eauto.
    + destruct (ParseNamed s); [|done]. rewrite decide_False; [done|]. intros (n & Hn)%elem_of_all_refs.
      destruct (ix_fwd st Hok _ _ _ Hn) as (r & Hr & _). congruence.
Qed.

(** ** A concrete store *)

Module ConcreteRefs.
Definition ubuntu : Named := NamedRef "ubuntu".
Definition tagged : Named := TaggedRef "ubuntu" "latest".
Definition fresh : store := mkStore ∅ ∅ (Some ∅).
Definition one : store := Eval vm_compute in
  match AddTag None ubuntu "sha256:1" false fresh with Ret _ st => st | _ => fresh end.

Lemma ubuntu_ok : ref_ok ubuntu.
Proof. split_and!; [by vm_compute|vm_compute; lia|done]. Qed.

Lemma one_reachable : reachable one.
Proof.
  exists fresh. split; [done|]. apply rtc_once, (step_tag _ None ubuntu "sha256:1" false (Ok ())); [apply ubuntu_ok|by vm_compute].
Qed.

Lemma one_repos : Repositories one = {["ubuntu" := {["ubuntu:latest" := "sha256:1"]}]}.
Proof. by vm_compute. Qed.
Lemma tagged_ok : ref_ok tagged.
Proof. split_and!; [by vm_compute|vm_compute; lia|by vm_compute]. Qed.

(** The store, opened again on its file. *)
Lemma one_reopened : reachable one.
Proof.
  destruct one_reachable as (st0 & E & Hr). exists st0. split; [done|]. eapply rtc_r; [exact Hr|].
  apply (step_restart one None); [|by vm_compute]. intros rs Hf.
  assert (rs = Repositories one) as -> by (revert Hf; vm_compute; by intros [= <-]).
  intros n s id. unfold rlook. rewrite one_repos.
  intros (m & [<- <-]%lookup_singleton_Some & [<- <-]%lookup_singleton_Some)%bind_Some. exists tagged. by vm_compute.
Qed.

Lemma refstore_index_exact_witness : ∃ l, References "sha256:1" one = Ret l one ∧ tagged ∈ l.
Proof.
  destruct (refstore_index_exact one "sha256:1" one_reopened) as (l & E & _ & Hin & _). exists l. split; [done|].
  apply Hin. split; [exact tagged_ok|by vm_compute].
Defined.

Lemma refstore_refines_map_witness : Get ubuntu one = Ret (Ok "sha256:1") one.
Proof. exact (proj1 (refstore_refines_map one ubuntu one_reachable ubuntu_ok)). Defined.

Lemma refstore_restart_witness : NewReferenceStore (file one) None = Ok one.
Proof.
  destruct (refstore_restart one (Repositories one) None one_reachable) as (st' & E & _ & _ & _ & Hst); [by vm_compute|].
  rewrite Hst in E; [exact E|done|]. intros r Hr [id Hn]. assert (r = tagged) as ->; [|by vm_compute].
  apply ref_String_inj; [done|exact tagged_ok|]. unfold names, rlook in Hn. rewrite one_repos in Hn.
  apply bind_Some in Hn as (m & [_ <-]%lookup_singleton_Some & [<- _]%lookup_singleton_Some). by vm_compute.
Defined.
End ConcreteRefs.
