(* ===== verification/Locker.v ===== *)
(** The named locks of pkg/locker/locker.go. Calls of [Lock] and [Unlock]
    interleave at every access to the shared memory: the mutex of the locker,
    the counters of waiters, which are atomic, and the mutex of a name. *)

From S2P Require Import Prelude.

(** ** The counter of a lock *)

Definition wrap32 (z : Z) : Z := (z + 2 ^ 31) `mod` 2 ^ 32 - 2 ^ 31.

(** [lc_mu]: the mutex is locked. *)
Record lockCtr := mkCtr {
  lc_mu : bool;
  lc_waiters : Z }.

Definition lc_new : lockCtr := mkCtr false 0.
Definition lc_inc (l : lockCtr) : lockCtr := mkCtr (lc_mu l) (wrap32 (lc_waiters l + 1)).
Definition lc_dec (l : lockCtr) : lockCtr := mkCtr (lc_mu l) (wrap32 (lc_waiters l - 1)).
Definition lc_count (l : lockCtr) : Z := lc_waiters l.

(** ** Calls *)

(** Where a client is between the start of [Lock] and the end of the matching
    [Unlock]; [o] is the counter the call works on, a pointer. The last two are
    the ways in which [Unlock] fails. *)
Inductive call : Type :=
| CIdle
| CEntered (name : string)
| CCounted (name : string) (o : nat)
| CWaiting (name : string) (o : nat)
| CAcquired (name : string) (o : nat)
| CHolding (name : string) (o : nat)
| CUnlocking (name : string) (o : nat)
| CChecked (name : string) (o : nat) (w : Z)
| CLeaving
| CNoSuchLock
| CPanicked.

(** The locker with the memory of its counters and the calls on it. [l_mu] is
    the call that holds the mutex of the locker. *)
Record Locker := mkLocker {
  l_mu : option nat;
  l_locks : gmap string nat;
  l_heap : gmap nat lockCtr;
  l_next : nat;
  l_calls : gmap nat call }.

Definition goto (i : nat) (c : call) (l : Locker) : Locker :=
  mkLocker (l_mu l) (l_locks l) (l_heap l) (l_next l) (<[i:=c]> (l_calls l)).
Definition set_mu (m : option nat) (l : Locker) : Locker :=
  mkLocker m (l_locks l) (l_heap l) (l_next l) (l_calls l).
Definition on_ctr (o : nat) (f : lockCtr → lockCtr) (l : Locker) : Locker :=
  mkLocker (l_mu l) (l_locks l) (alter f o (l_heap l)) (l_next l) (l_calls l).
Definition set_locks (m : gmap string nat) (l : Locker) : Locker :=
  mkLocker (l_mu l) m (l_heap l) (l_next l) (l_calls l).

(** [Lock] under the mutex of the locker: the counter of the name, a new one
    if there is none. *)
Definition nameLock (name : string) (l : Locker) : nat * Locker :=
  match l_locks l !! name with
  | Some o => (o, l)
  | None =>
      let o := l_next l in
      (o, mkLocker (l_mu l) (<[name:=o]> (l_locks l)) (<[o:=lc_new]> (l_heap l)) (S o) (l_calls l))
  end.

(** The next stretch of [Lock] by the call [i]; [None] if it has to wait. *)
Definition Lock (i : nat) (name : string) (l : Locker) : option Locker :=
  match l_calls l !! i with
  | Some CIdle =>
      match l_mu l with None => Some (goto i (CEntered name) (set_mu (Some i) l)) | Some _ => None end
  | Some (CEntered n) =>
      let '(o, l) := nameLock n l in
      Some (goto i (CCounted n o) (on_ctr o lc_inc l))
  | Some (CCounted n o) => Some (goto i (CWaiting n o) (set_mu None l))
  | Some (CWaiting n o) =>
      match l_heap l !! o with
      | Some c =>
          if lc_mu c then None
          else Some (goto i (CAcquired n o) (on_ctr o (λ c, mkCtr true (lc_waiters c)) l))
      | None => None
      end
  | Some (CAcquired n o) => Some (goto i (CHolding n o) (on_ctr o lc_dec l))
  | _ => None
  end.

(** The next stretch of [Unlock]. The unlock of a mutex that is not locked is a
    fatal error of the Go runtime. *)
Definition Unlock (i : nat) (l : Locker) : option Locker :=
  match l_calls l !! i with
  | Some (CHolding n o) =>
      match l_mu l with None => Some (goto i (CUnlocking n o) (set_mu (Some i) l)) | Some _ => None end
  | Some (CUnlocking n _) =>
      match l_locks l !! n with
      | None => Some (goto i CNoSuchLock (set_mu None l))
      | Some o =>
          match l_heap l !! o with
          | Some c => Some (goto i (CChecked n o (lc_count c)) l)
          | None => None
          end
      end
  | Some (CChecked n o w) =>
      match l_heap l !! o with
      | Some c =>
          let l := if decide (w = 0%Z) then set_locks (delete n (l_locks l)) l else l in
          if lc_mu c then Some (goto i CLeaving (on_ctr o (λ c, mkCtr false (lc_waiters c)) l))
          else Some (goto i CPanicked l)
      | None => None
      end
  | Some CLeaving => Some (goto i CIdle (set_mu None l))
  | _ => None
  end.

Inductive step (l : Locker) : Locker → Prop :=
| step_lock i name l' : Lock i name l = Some l' → step l l'
| step_unlock i l' : Unlock i l = Some l' → step l l'.

(** A new locker with clients numbered from 0 to [n - 1]. *)
Definition New (n : nat) : Locker :=
  mkLocker None ∅ ∅ 0 (list_to_map ((λ i, (i, CIdle)) <$> seq 0 n)).

Definition reachable (n : nat) (l : Locker) : Prop := rtc step (New n) l.

(** ** The invariant *)

Definition uses (c : call) : option (string * nat) :=
  match c with
  | CCounted n o | CWaiting n o | CAcquired n o | CHolding n o | CUnlocking n o | CChecked n o _ => Some (n, o)
  | _ => None
  end.
(** The calls the counter of waiters stands for. *)
Definition counted (c : call) : option nat :=
  match c with CCounted _ o | CWaiting _ o | CAcquired _ o => Some o | _ => None end.
(** The calls that have locked the mutex of a name. *)
Definition owns (c : call) : option nat :=
  match c with CAcquired _ o | CHolding _ o | CUnlocking _ o | CChecked _ o _ => Some o | _ => None end.
Definition inside (c : call) : bool :=
  match c with CEntered _ | CCounted _ _ | CUnlocking _ _ | CChecked _ _ _ | CLeaving => true | _ => false end.
Definition failed (c : call) : bool := match c with CNoSuchLock | CPanicked => true | _ => false end.

Definition nwaiters (o : nat) (l : Locker) : nat := count (λ p, counted p.2 = Some o) (l_calls l).

Record lk_ok (l : Locker) : Prop := mkLkOk {
  ok_size : (Z.of_nat (size (l_calls l)) < 2 ^ 31)%Z;
  ok_mu i c : l_calls l !! i = Some c → inside c = true ↔ l_mu l = Some i;
  ok_failed i c : l_calls l !! i = Some c → failed c = false;
  ok_uses i c n o : l_calls l !! i = Some c → uses c = Some (n, o) → l_locks l !! n = Some o;
  ok_used n o : l_locks l !! n = Some o → ∃ i c, l_calls l !! i = Some c ∧ uses c = Some (n, o);
  ok_inj n n' o : l_locks l !! n = Some o → l_locks l !! n' = Some o → n = n';
  ok_heap n o : l_locks l !! n = Some o → is_Some (l_heap l !! o);
  ok_next o : is_Some (l_heap l !! o) → o < l_next l;
  ok_waiters o c : l_heap l !! o = Some c → lc_waiters c = Z.of_nat (nwaiters o l);
  ok_locked o c : l_heap l !! o = Some c → lc_mu c = true ↔ ∃ i d, l_calls l !! i = Some d ∧ owns d = Some o;
  ok_owner i i' d d' o : l_calls l !! i = Some d → l_calls l !! i' = Some d' →
    owns d = Some o → owns d' = Some o → i = i';
  ok_checked i n o w : l_calls l !! i = Some (CChecked n o w) → w = Z.of_nat (nwaiters o l) }.

Lemma wrap32_small z : (- 2 ^ 31 ≤ z < 2 ^ 31)%Z → wrap32 z = z.
Proof. intros Hz. unfold wrap32. rewrite Z.mod_small; lia. Qed.

Lemma count_update {A} (P : nat * A → Prop) `{∀ x, Decision (P x)} (m : gmap nat A) i c c' :
  m !! i = Some c →
  count P (<[i:=c']> m) + (if decide (P (i, c)) then 1 else 0) =
  count P m + (if decide (P (i, c')) then 1 else 0).
Proof.
  intros Hi. rewrite (count_delete P m i c Hi). rewrite <-insert_delete_eq.
  rewrite count_insert by apply lookup_delete_eq. lia.
Qed.

Lemma count_size {A} (P : nat * A → Prop) `{∀ x, Decision (P x)} (m : gmap nat A) : count P m ≤ size m.
Proof. unfold count. apply map_size_filter. Qed.

Lemma nwaiters_goto l i c c' o :
  l_calls l !! i = Some c →
  nwaiters o (goto i c' l) + (if decide (counted c = Some o) then 1 else 0) =
  nwaiters o l + (if decide (counted c' = Some o) then 1 else 0).
Proof.
  intros Hi. pose proof (count_update (λ p, counted p.2 = Some o) _ i c c' Hi) as H. simpl in H. unfold nwaiters. simpl.
  destruct (decide (counted c = Some o)), (decide (counted c' = Some o)); simpl in *; repeat case_decide; try done; lia.
Qed.

Lemma nwaiters_bound l o : lk_ok l → (Z.of_nat (nwaiters o l) < 2 ^ 31)%Z.
Proof.
  intros Hok. pose proof (ok_size l Hok) as Hs.
  pose proof (count_size (λ p, counted p.2 = Some o) (l_calls l)) as Hc. unfold nwaiters. lia.
Qed.

(** A call of a map of calls that has been moved, or another one. *)
Ltac on_call H :=
  rewrite lookup_insert in H; case_decide; [simplify_eq/=|].

Lemma goto_size l i c c' : l_calls l !! i = Some c → size (l_calls (goto i c' l)) = size (l_calls l).
Proof. intros Hi. simpl. by eapply map_size_insert_Some. Qed.

(** A step that changes neither the counters nor who uses them. *)
Lemma quiet_ok l i c c' m :
  lk_ok l → l_calls l !! i = Some c →
  uses c' = uses c → counted c' = counted c → owns c' = owns c → failed c' = false →
  (l_mu l = None ∨ l_mu l = Some i) → m = (if inside c' then Some i else None) →
  (∀ n o w, c' = CChecked n o w → w = Z.of_nat (nwaiters o l)) →
  lk_ok (goto i c' (set_mu m l)).
Proof.
  intros Hok Hi Hu Hc Ho Hf Hmu -> Hch.
  assert (Hn : ∀ o, nwaiters o (goto i c' (set_mu (if inside c' then Some i else None) l)) = nwaiters o l).
  { intros o. pose proof (nwaiters_goto l i c c' o Hi) as H. rewrite Hc in H. unfold nwaiters in *. simpl in *. lia. }
  split; simpl; try setoid_rewrite Hn; try by apply Hok.
  - erewrite map_size_insert_Some by done. apply Hok.
  - intros j d. rewrite lookup_insert. case_decide as E.
    + intros [= <-]. subst j. by destruct (inside c').
    + intros Hj. rewrite (ok_mu l Hok j d Hj). destruct Hmu as [->| ->], (inside c'); naive_solver.
  - intros j d Hj. on_call Hj; [done|by eapply ok_failed].
  - intros j d n o Hj. on_call Hj; [rewrite Hu|]; intros; by eapply (ok_uses l Hok).
  - intros n o (j & d & Hj & Hd)%(ok_used l Hok). destruct (decide (i = j)) as [->|Hne].
    + exists j, c'. rewrite lookup_insert_eq. split; [done|]. congruence.
    + exists j, d. by rewrite lookup_insert_ne.
  - intros o k Hk. rewrite (ok_locked l Hok o k Hk). split; intros (j & d & Hj & Hd).
    + destruct (decide (i = j)) as [->|Hne].
      * exists j, c'. rewrite lookup_insert_eq. split; [done|]. congruence.
      * exists j, d. by rewrite lookup_insert_ne.
    + on_call Hj; [|by eauto]. exists j, c. split; [done|]. congruence.
  - intros j j' d d' o Hj Hj'. on_call Hj; on_call Hj'; rewrite ?Ho; intros; first [done|by eapply (ok_owner l Hok)].
  - intros j n o w Hj. on_call Hj; [by eapply Hch|by eapply ok_checked].
Qed.

(** A step on a counter in use: the counter [o] becomes [f] of itself, and the
    locker keeps the names [m] that are still in use. *)
Lemma alter_ok l i c c' o f k m :
  lk_ok l → l_calls l !! i = Some c → l_heap l !! o = Some k →
  inside c' = inside c → failed c' = false →
  (∀ n p, uses c' = Some (n, p) → l_locks l !! n = Some p) →
  (∀ n p, m !! n = Some p ↔ l_locks l !! n = Some p ∧ ∃ j d, <[i:=c']> (l_calls l) !! j = Some d ∧ uses d = Some (n, p)) →
  (∀ o', o' ≠ o → counted c' = Some o' ↔ counted c = Some o') →
  (∀ o', o' ≠ o → owns c' = Some o' ↔ owns c = Some o') →
  (∀ n p w, c' ≠ CChecked n p w) → (∀ j n w, l_calls l !! j = Some (CChecked n o w) → j = i ∨ counted c' = counted c) →
  lc_waiters (f k) = Z.of_nat (nwaiters o (goto i c' l)) →
  (lc_mu (f k) = true ↔ (owns c' = Some o ∨ ∃ j d, j ≠ i ∧ l_calls l !! j = Some d ∧ owns d = Some o)) →
  (owns c' = Some o → ∀ j d, l_calls l !! j = Some d → owns d = Some o → j = i) →
  lk_ok (goto i c' (set_locks m (on_ctr o f l))).
Proof.
  intros Hok Hi Hk Hin Hf Hu Hm' Hc Ho Hnc Hch Hw Hm Huniq.
  assert (Hn : ∀ o', o' ≠ o → nwaiters o' (goto i c' (set_locks m (on_ctr o f l))) = nwaiters o' l).
  { intros o' Hne. pose proof (nwaiters_goto l i c c' o' Hi) as H.
    rewrite (decide_ext _ _ 1 0 (Hc o' Hne)) in H. unfold nwaiters in *. simpl in *. lia. }
  split; simpl; try by apply Hok.
  - erewrite map_size_insert_Some by done. apply Hok.
  - intros j d Hj. on_call Hj; [rewrite Hin|]; by apply (ok_mu l Hok).
  - intros j d Hj. on_call Hj; [done|by eapply ok_failed].
  - intros j d n p Hj Hd. apply Hm'. split; [|by eauto]. on_call Hj; [by apply Hu|by eapply (ok_uses l Hok)].
  - intros n p Hl. by apply Hm' in Hl as [_ ?].
  - intros n n' p [Hl _]%Hm' [Hl' _]%Hm'. by eapply (ok_inj l Hok).
  - intros n p [Hl _]%Hm'. apply lookup_alter_is_Some. by eapply ok_heap.
  - intros p. rewrite lookup_alter_is_Some. apply Hok.
  - intros p k'. rewrite lookup_alter. case_decide as E; [|rewrite Hn by done; by apply Hok].
    subst p. rewrite Hk. intros [= <-]. exact Hw.
  - intros p k'. rewrite lookup_alter. case_decide as E.
    + subst p. rewrite Hk. intros [= <-]. rewrite Hm. split.
      * intros [?|(j & d & Hne & Hj & Hd)]; [exists i, c'; by rewrite lookup_insert_eq|].
        exists j, d. by rewrite lookup_insert_ne.
      * intros (j & d & Hj & Hd). on_call Hj; [by left|]. right. exists j, d. by split_and!.
    + intros Hp. rewrite (ok_locked l Hok p k' Hp). split; intros (j & d & Hj & Hd).
      * destruct (decide (i = j)) as [->|Hne].
        -- exists j, c'. rewrite lookup_insert_eq. split; [done|]. apply Ho; [done|]. congruence.
        -- exists j, d. by rewrite lookup_insert_ne.
      * on_call Hj; [|by eauto]. exists j, c. split; [done|]. by apply Ho.
  - intros j j' d d' p Hj Hj' Hd Hd'. destruct (decide (p = o)) as [->|Hne].
    + on_call Hj; on_call Hj'; [done|by symmetry; eapply Huniq|by eapply Huniq|by eapply (ok_owner l Hok)].
    + on_call Hj; on_call Hj'; [done|apply Ho in Hd; [|done]|apply Ho in Hd'; [|done]|]; by eapply (ok_owner l Hok).
  - intros j n p w Hj. on_call Hj; [by edestruct Hnc|]. destruct (decide (p = o)) as [->|Hne].
    + destruct (Hch j n w Hj) as [->|Hcc]; [done|]. rewrite (ok_checked l Hok j n o w Hj).
      pose proof (nwaiters_goto l i c c' o Hi) as H'. rewrite Hcc in H'. unfold nwaiters in *. simpl in *. lia.
    + rewrite Hn by done. by eapply ok_checked.
Qed.

(** The names in use after a step that keeps them all. *)
Lemma locks_kept l i c c' :
  lk_ok l → l_calls l !! i = Some c → (∀ n p, uses c = Some (n, p) → uses c' = Some (n, p)) →
  ∀ n p, l_locks l !! n = Some p ↔
    l_locks l !! n = Some p ∧ ∃ j d, <[i:=c']> (l_calls l) !! j = Some d ∧ uses d = Some (n, p).
Proof.
  intros Hok Hi Hu n p. split; [|by intros []]. intros Hl. split; [done|].
  destruct (ok_used l Hok n p Hl) as (j & d & Hj & Hd). destruct (decide (i = j)) as [->|Hne].
  - exists j, c'. rewrite lookup_insert_eq. split; [done|]. apply Hu. congruence.
  - exists j, d. by rewrite lookup_insert_ne.
Qed.

Lemma on_ctr_locks o f l : on_ctr o f l = set_locks (l_locks l) (on_ctr o f l).
Proof. by destruct l. Qed.

Lemma no_checked l i c j d :
  lk_ok l → l_calls l !! i = Some c → inside c = true → l_calls l !! j = Some d → inside d = true → j = i.
Proof. intros Hok Hi Hc Hj Hd. apply (ok_mu l Hok i c Hi) in Hc. apply (ok_mu l Hok j d Hj) in Hd. congruence. Qed.

(** [Lock] finds the counter of a name that is in use. *)
Lemma count_ok l i n o k :
  lk_ok l → l_calls l !! i = Some (CEntered n) → l_locks l !! n = Some o → l_heap l !! o = Some k →
  lk_ok (goto i (CCounted n o) (on_ctr o lc_inc l)).
Proof.
  intros Hok Hi Hl Hk. rewrite on_ctr_locks. eapply alter_ok; try done.
  - by intros ? ? [= <- <-].
  - by eapply locks_kept.
  - simpl. naive_solver.
  - intros j n' w Hj. left. by eapply no_checked.
  - simpl. rewrite (ok_waiters l Hok o k Hk). pose proof (nwaiters_goto l i _ (CCounted n o) o Hi) as H. simpl in H.
    rewrite decide_True in H by done. pose proof (nwaiters_bound l o Hok). pose proof (ok_size l Hok).
    assert (Hb : nwaiters o (goto i (CCounted n o) l) ≤ size (l_calls l)).
    { erewrite <-goto_size by done. apply count_size. }
    rewrite wrap32_small; lia.
  - simpl. rewrite (ok_locked l Hok o k Hk). split.
    + intros (j & d & Hj & Hd). right. exists j, d. split; [|done]. intros ->. rewrite Hi in Hj. by simplify_eq.
    + intros [?|(j & d & _ & ?)]; [done|eauto].
Qed.

(** A client that waited locks the mutex. *)
Lemma take_ok l i n o k :
  lk_ok l → l_calls l !! i = Some (CWaiting n o) → l_heap l !! o = Some k → lc_mu k = false →
  lk_ok (goto i (CAcquired n o) (on_ctr o (λ c, mkCtr true (lc_waiters c)) l)).
Proof.
  intros Hok Hi Hk Hf.
  assert (Hno : ∀ j d, l_calls l !! j = Some d → owns d = Some o → False).
  { intros j d Hj Hd. enough (lc_mu k = true) by congruence. apply (ok_locked l Hok o k Hk). eauto. }
  rewrite on_ctr_locks. eapply alter_ok; try done.
  - intros ? ? [= <- <-]. by eapply (ok_uses l Hok).
  - by eapply locks_kept.
  - simpl. naive_solver.
  - by right.
  - simpl. rewrite (ok_waiters l Hok o k Hk). pose proof (nwaiters_goto l i _ (CAcquired n o) o Hi) as H. simpl in H. lia.
  - simpl. naive_solver.
  - intros _ j d Hj Hd. by destruct (Hno j d).
Qed.

(** The client that has locked the mutex is no longer counted. *)
Lemma dec_ok l i n o k :
  lk_ok l → l_calls l !! i = Some (CAcquired n o) → l_heap l !! o = Some k →
  lk_ok (goto i (CHolding n o) (on_ctr o lc_dec l)).
Proof.
  intros Hok Hi Hk. rewrite on_ctr_locks. eapply alter_ok; try done.
  - intros ? ? [= <- <-]. by eapply (ok_uses l Hok).
  - by eapply locks_kept.
  - simpl. naive_solver.
  - intros j n' w Hj. left. by eapply (ok_owner l Hok).
  - simpl. rewrite (ok_waiters l Hok o k Hk). pose proof (nwaiters_goto l i _ (CHolding n o) o Hi) as H. simpl in H.
    rewrite decide_True in H by done. pose proof (nwaiters_bound l o Hok). rewrite wrap32_small; lia.
  - simpl. split; [by left|]. intros _. apply (ok_locked l Hok o k Hk). by exists i, (CAcquired n o).
  - intros _ j d Hj Hd. by eapply (ok_owner l Hok).
Qed.

Lemma count_pos {A} (P : nat * A → Prop) `{∀ x, Decision (P x)} (m : gmap nat A) :
  count P m ≠ 0 → ∃ i c, m !! i = Some c ∧ P (i, c).
Proof.
  intros Hc. unfold count in Hc. apply map_size_ne_0_lookup_1 in Hc as (i & c & Hi).
  apply map_lookup_filter_Some in Hi. eauto.
Qed.

(** [Unlock] gives the mutex back and forgets a name that nobody waits for. *)
Lemma free_ok l i n o w k :
  lk_ok l → l_calls l !! i = Some (CChecked n o w) → l_heap l !! o = Some k →
  lk_ok (goto i CLeaving (set_locks (if decide (w = 0%Z) then delete n (l_locks l) else l_locks l)
    (on_ctr o (λ c, mkCtr false (lc_waiters c)) l))).
Proof.
  intros Hok Hi Hk. pose proof (ok_checked l Hok i n o w Hi) as Hw.
  pose proof (ok_uses l Hok i _ n o Hi eq_refl) as Hl.
  assert (Hother : ∀ j d n' p, j ≠ i → l_calls l !! j = Some d → uses d = Some (n', p) → p = o → counted d = Some o).
  { intros j d n' p Hne Hj Hd ->. destruct d; simplify_eq/=; try done; by edestruct Hne; eapply (ok_owner l Hok). }
  eapply alter_ok; try done.
  - intros n' p. split.
    + intros Hl'. assert (Hl1 : l_locks l !! n' = Some p) by (case_decide; [by apply lookup_delete_Some in Hl' as [_ ?]|done]).
      split; [done|]. destruct (decide (n' = n)) as [->|Hne].
      * case_decide as H0; [by rewrite lookup_delete_eq in Hl'|]. assert (p = o) as -> by congruence.
        destruct (count_pos (λ q, counted q.2 = Some o) (l_calls l)) as (j & d & Hj & Hd); [unfold nwaiters in Hw; lia|].
        exists j, d. rewrite lookup_insert_ne; [|intros <-; rewrite Hi in Hj; by simplify_eq]. split; [done|].
        assert (∃ n1, uses d = Some (n1, o)) as [n1 Hn1] by (destruct d; simplify_eq/=; eauto). rewrite Hn1.
        by rewrite (ok_inj l Hok n n1 o Hl (ok_uses l Hok j d n1 o Hj Hn1)).
      * destruct (ok_used l Hok n' p Hl1) as (j & d & Hj & Hd). exists j, d. rewrite lookup_insert_ne; [done|].
        intros <-. rewrite Hi in Hj. by simplify_eq/=.
    + intros [Hl' (j & d & Hj & Hd)]. case_decide as H0; [|done]. rewrite lookup_delete_ne; [done|]. intros <-.
      assert (p = o) as -> by congruence. on_call Hj. assert (Hc : counted d = Some o) by (by eapply Hother).
      apply (count_zero (λ q, counted q.2 = Some o) (l_calls l)) in Hj; [done|]. unfold nwaiters in Hw. lia.
  - simpl. naive_solver.
  - by right.
  - simpl. rewrite (ok_waiters l Hok o k Hk). pose proof (nwaiters_goto l i _ CLeaving o Hi) as H. simpl in H. lia.
  - simpl. split; [done|]. intros [?|(j & d & Hne & Hj & Hd)]; [done|]. by edestruct Hne; eapply (ok_owner l Hok).
Qed.

(** The next counter is not in use. *)
Lemma fresh_ctr l :
  lk_ok l →
  l_heap l !! l_next l = None ∧ (∀ n, l_locks l !! n ≠ Some (l_next l)) ∧
  (∀ j d n, l_calls l !! j = Some d → uses d ≠ Some (n, l_next l)) ∧
  (∀ j d, l_calls l !! j = Some d → owns d ≠ Some (l_next l)) ∧ nwaiters (l_next l) l = 0.
Proof.
  intros Hok. set (o := l_next l).
  assert (Ho : l_heap l !! o = None).
  { apply eq_None_not_Some. intros Hs%(ok_next l Hok). unfold o in Hs. lia. }
  assert (Hno : ∀ n', l_locks l !! n' ≠ Some o) by (intros n' [k Hk]%(ok_heap l Hok); congruence).
  assert (Hnu : ∀ j d n', l_calls l !! j = Some d → uses d ≠ Some (n', o)) by (intros j d n' Hj Hd; by eapply Hno, ok_uses).
  split_and!; [done..| |].
  - intros j d Hj Hd. destruct d; simplify_eq/=; by eapply (Hnu j).
  - apply count_none. intros j d Hj Hd. destruct d; simplify_eq/=; by eapply (Hnu j).
Qed.

(** [Lock] makes a counter for a name that is not in use. *)
Lemma alloc_ok l i n :
  lk_ok l → l_calls l !! i = Some (CEntered n) → l_locks l !! n = None →
  lk_ok (goto i (CCounted n (l_next l)) (on_ctr (l_next l) lc_inc
    (mkLocker (l_mu l) (<[n:=l_next l]> (l_locks l)) (<[l_next l:=lc_new]> (l_heap l)) (S (l_next l)) (l_calls l)))).
Proof.
  intros Hok Hi Hl. set (o := l_next l). destruct (fresh_ctr l Hok) as (Ho & Hno & Hnu & Hown & Hz). fold o in Ho, Hno, Hnu, Hown, Hz.
  assert (Hn : ∀ p, count (λ q, counted q.2 = Some p) (<[i:=CCounted n o]> (l_calls l)) =
    nwaiters p l + if decide (p = o) then 1 else 0).
  { intros p. pose proof (nwaiters_goto l i _ (CCounted n o) p Hi) as H. simpl in H. unfold nwaiters in *. simpl in H.
    repeat case_decide; simplify_eq; lia. }
  split; simpl; unfold nwaiters; simpl.
  - erewrite map_size_insert_Some by done. apply Hok.
  - intros j d Hj. on_call Hj; [|by apply (ok_mu l Hok)]. by apply (ok_mu l Hok j _ Hi).
  - intros j d Hj. on_call Hj; [done|by eapply ok_failed].
  - intros j d n' p Hj Hd. on_call Hj; [by rewrite lookup_insert_eq|].
    pose proof (ok_uses l Hok j d n' p Hj Hd). rewrite lookup_insert_ne; [done|congruence].
  - intros n' p. rewrite lookup_insert. case_decide as E.
    + intros [= <-]. subst n'. exists i, (CCounted n o). by rewrite lookup_insert_eq.
    + intros (j & d & Hj & Hd)%(ok_used l Hok). exists j, d. rewrite lookup_insert_ne; [done|].
      intros <-. rewrite Hi in Hj. by simplify_eq.
  - intros n1 n2 p. rewrite !lookup_insert. repeat case_decide; [congruence| | |by apply Hok].
    + intros [= <-] H2. by destruct (Hno n2).
    + intros H1 [= <-]. by destruct (Hno n1).
  - intros n' p. rewrite lookup_alter_is_Some, !lookup_insert. repeat case_decide; simplify_eq; try (by eauto).
    + intros [= <-]. congruence.
    + by apply Hok.
  - intros p. rewrite lookup_alter_is_Some, lookup_insert. case_decide; [subst; unfold o; lia|]. intros Hs%(ok_next l Hok). lia.
  - intros p k. rewrite Hn, lookup_alter, lookup_insert. destruct (decide (o = p)) as [<-|Hne].
    + intros Hk. rewrite ?decide_True in Hk by done. simpl in Hk. injection Hk as <-. by rewrite Hz, decide_True.
    + rewrite (decide_False (P := p = o)), Nat.add_0_r by done. rewrite lookup_insert_ne by done. by apply Hok.
  - intros p k. rewrite lookup_alter, lookup_insert. destruct (decide (o = p)) as [<-|Hne].
    + intros Hk. rewrite ?decide_True in Hk by done. simpl in Hk. injection Hk as <-. simpl. split; [done|]. intros (j & d & Hj & Hd). on_call Hj. by edestruct Hown.
    + rewrite lookup_insert_ne by done. intros Hk. rewrite (ok_locked l Hok p k Hk). split; intros (j & d & Hj & Hd).
      * exists j, d. rewrite lookup_insert_ne; [done|]. intros <-. rewrite Hi in Hj. by simplify_eq.
      * on_call Hj. eauto.
  - intros j j' d d' p Hj Hj' Hd Hd'. on_call Hj; on_call Hj'; try done. by eapply (ok_owner l Hok).
  - intros j n' p w Hj. on_call Hj. rewrite Hn. pose proof (ok_checked l Hok j n' p w Hj) as ->.
    rewrite decide_False; [lia|]. intros ->. by eapply (Hnu j _ n' Hj).
Qed.

Lemma set_mu_id l : set_mu (l_mu l) l = l.
Proof. by destruct l. Qed.

(** A call that uses a counter finds it in the memory. *)
Lemma uses_heap l i c n o : lk_ok l → l_calls l !! i = Some c → uses c = Some (n, o) → is_Some (l_heap l !! o).
Proof. intros Hok Hi Hu. by eapply (ok_heap l Hok), (ok_uses l Hok). Qed.

Lemma Lock_ok l i name l' : lk_ok l → Lock i name l = Some l' → lk_ok l'.
Proof.
  intros Hok H. unfold Lock in H. destruct (l_calls l !! i) as [c|] eqn:Hi; [|done].
  destruct c as [|n|n o|n o|n o| | | | | |]; try done.
  - destruct (l_mu l) eqn:Hm; [done|]. injection H as <-. eapply quiet_ok; try done. by left.
  - unfold nameLock in H. destruct (l_locks l !! n) as [o|] eqn:Hl; injection H as <-; [|by apply alloc_ok].
    destruct (ok_heap l Hok n o Hl) as [k Hk]. by eapply count_ok.
  - injection H as <-. eapply quiet_ok; try done. right. by apply (ok_mu l Hok i _ Hi).
  - destruct (l_heap l !! o) as [k|] eqn:Hk; [|done]. destruct (lc_mu k) eqn:Hf; [done|]. injection H as <-.
    by eapply take_ok.
  - injection H as <-. destruct (uses_heap l i _ n o Hok Hi eq_refl) as [k Hk]. by eapply dec_ok.
Qed.

Lemma Unlock_ok l i l' : lk_ok l → Unlock i l = Some l' → lk_ok l'.
Proof.
  intros Hok H. unfold Unlock in H. destruct (l_calls l !! i) as [c|] eqn:Hi; [|done].
  destruct c as [| | | | |n o|n o|n o w| | |]; try done.
  - destruct (l_mu l) eqn:Hm; [done|]. injection H as <-. eapply quiet_ok; try done. by left.
  - rewrite (ok_uses l Hok i _ n o Hi eq_refl) in H. destruct (l_heap l !! o) as [k|] eqn:Hk; [|done]. injection H as <-.
    assert (Hm : l_mu l = Some i) by (by apply (ok_mu l Hok i _ Hi)).
    rewrite <-(set_mu_id l). eapply quiet_ok; try done; [by right|].
    intros n' o' w [= <- <- <-]. by apply (ok_waiters l Hok).
  - destruct (l_heap l !! o) as [k|] eqn:Hk; [|done].
    assert (Hm : lc_mu k = true) by (apply (ok_locked l Hok o k Hk); by eexists i, _). rewrite Hm in H. injection H as <-.
    pose proof (free_ok l i n o w k Hok Hi Hk) as Hf. by case_decide; destruct l.
  - injection H as <-. eapply quiet_ok; try done. right. by apply (ok_mu l Hok i _ Hi).
Qed.

Lemma New_calls n i c : l_calls (New n) !! i = Some c → c = CIdle.
Proof.
  simpl. intros Hi%elem_of_list_to_map_2. by apply list_elem_of_fmap in Hi as (j & [= _ ->] & _).
Qed.

Lemma New_lk_ok n : (Z.of_nat n < 2 ^ 31)%Z → lk_ok (New n).
Proof.
  intros Hn. split.
  - simpl. enough (size (list_to_map ((λ i, (i, CIdle)) <$> seq 0 n) : gmap nat call) = n) by lia.
    rewrite map_size_list_to_map; [by rewrite length_fmap, length_seq|].
    rewrite <-list_fmap_compose. apply NoDup_fmap_2; [by intros ??|apply NoDup_seq].
  - by intros i c ->%New_calls.
  - by intros i c ->%New_calls.
  - by intros i c m o ->%New_calls.
  - simpl. by intros m o Hm%lookup_empty_Some.
  - simpl. by intros m m' o Hm%lookup_empty_Some.
  - simpl. by intros m o Hm%lookup_empty_Some.
  - simpl. by intros o [k Hk%lookup_empty_Some].
  - simpl. by intros o k Hk%lookup_empty_Some.
  - simpl. by intros o k Hk%lookup_empty_Some.
  - by intros i i' d d' o ->%New_calls.
  - by intros i m o w ?%New_calls.
Qed.

Lemma reachable_lk_ok n l : (Z.of_nat n < 2 ^ 31)%Z → reachable n l → lk_ok l.
Proof.
  intros Hn Hr. pose proof (New_lk_ok n Hn) as H0. revert H0. unfold reachable in Hr.
  induction Hr as [|l l1 l2 Hst _ IH]; [done|]. intros Hok. apply IH.
  destruct Hst; [by eapply Lock_ok|by eapply Unlock_ok].
Qed.

(** ** Properties *)

(** C25. With fewer than [2^31] clients, at most one of them is between [Lock]
    and [Unlock] of a name, however the calls interleave. No unlock of a lock
    that is held fails or panics. The locker knows exactly the names in use,
    and a client that waits for a name can go on as soon as nobody has it. *)
Theorem locker_mutual_exclusion n l :
  (Z.of_nat n < 2 ^ 31)%Z → reachable n l →
  (∀ i j name o p, l_calls l !! i = Some (CHolding name o) → l_calls l !! j = Some (CHolding name p) → i = j) ∧
  (∀ i, l_calls l !! i ≠ Some CNoSuchLock ∧ l_calls l !! i ≠ Some CPanicked) ∧
  (∀ name, is_Some (l_locks l !! name) ↔ ∃ i c o, l_calls l !! i = Some c ∧ uses c = Some (name, o)) ∧
  (∀ i name o, l_calls l !! i = Some (CWaiting name o) →
    (∀ j c, l_calls l !! j = Some c → owns c ≠ Some o) → is_Some (Lock i name l)).
Proof.
  intros Hn Hr. pose proof (reachable_lk_ok n l Hn Hr) as Hok. split_and!.
  - intros i j name o p Hi Hj. assert (o = p) as ->; [|by eapply (ok_owner l Hok)].
    pose proof (ok_uses l Hok i _ name o Hi eq_refl). pose proof (ok_uses l Hok j _ name p Hj eq_refl). congruence.
  - intros i. split; intros Hi; by apply (ok_failed l Hok) in Hi.
  - intros name. split; [intros [o (i & c & ?)%(ok_used l Hok)]; eauto|].
    intros (i & c & o & Hi & Hc). eexists. by eapply (ok_uses l Hok).
  - intros i name o Hi Hno. unfold Lock. rewrite Hi. destruct (uses_heap l i _ name o Hok Hi eq_refl) as [k Hk]. rewrite Hk.
    destruct (lc_mu k) eqn:Hm; [|done]. apply (ok_locked l Hok o k Hk) in Hm as (j & d & Hj & Hd). by destruct (Hno j d).
Qed.

(** ** A concrete execution *)

Module ConcreteLocker.
(** Two clients of the same name: the first has it, the second waits. *)
Fixpoint run (script : list nat) (l : Locker) : option Locker :=
  match script with
  | [] => Some l
  | i :: script => l' ← Lock i "vol" l; run script l'
  end.
Definition contended : Locker := Eval vm_compute in
  default (New 2) (run [0; 0; 0; 0; 0; 1; 1; 1]%nat (New 2)).

Lemma run_locks_reachable script l l' : run script l = Some l' → rtc step l l'.
Proof.
  revert l. induction script as [|i script IH]; intros l; simpl; [by intros [= ->]|].
  intros (l1 & H1 & H2)%bind_Some. eapply rtc_l; [by eapply step_lock|by apply IH].
Qed.

Lemma locker_mutual_exclusion_witness :
  l_calls contended !! 0 = Some (CHolding "vol" 0) ∧ l_calls contended !! 1 = Some (CWaiting "vol" 0) ∧
  ∀ j p, l_calls contended !! j = Some (CHolding "vol" p) → 0 = j.
Proof.
  assert (Hr : reachable 2 contended) by (apply (run_locks_reachable [0; 0; 0; 0; 0; 1; 1; 1]%nat); by vm_compute).
  split_and!; [by vm_compute|by vm_compute|]. intros j p Hj.
  eapply (proj1 (locker_mutual_exclusion 2 contended ltac:(done) Hr)); [|exact Hj]. by vm_compute.
Defined.
End ConcreteLocker.
