(* ===== verification/VolumeStore.v ===== *)
(** The volume store of volume/store/store.go with the registry of volume
    drivers of volume/drivers/extpoint.go. A call holds the lock of the name of
    its volume from its start to its end, so calls on one volume happen one
    after the other (see Locker.v); each is one call of the monad [M]. *)

From S2P Require Import Prelude.

Local Open Scope string_scope.

Abbreviation smap := (gmap string string).

(** A volume as its driver returns it. *)
Record rawVolume := mkRaw {
  rv_Name : string;
  rv_DriverName : string;
  rv_Path : string }.

(** A [volume.Volume]: what a driver returned, wrapped into a [volumeWrapper]
    with labels and scope or not. *)
Record Volume := mkVolume {
  v_raw : rawVolume;
  v_wrapped : option (smap * string) }.

Definition v_Name (v : Volume) : string := rv_Name (v_raw v).
Definition v_DriverName (v : Volume) : string := rv_DriverName (v_raw v).
Definition volumeWrapper (v : rawVolume) (labels : smap) (scope : string) : Volume := mkVolume v (Some (labels, scope)).
Definition plain (v : rawVolume) : Volume := mkVolume v None.
Definition unwrapVolume (v : Volume) : rawVolume := v_raw v.
Definition Labels (v : Volume) : smap := match v_wrapped v with Some (l, _) => l | None => ∅ end.
Definition Scope (v : Volume) : string := match v_wrapped v with Some (_, s) => s | None => "" end.

Definition DefaultDriverName : string := "local".
Definition LocalScope : string := "local".
Definition GlobalScope : string := "global".

(** The drivers, the plugins that provide them and the bolt database, with
    their state [D]. A plugin comes as the driver [NewVolumeDriver] makes of it
    and a flag that says whether it is a legacy one. [shuffle] is the order in
    which a map is iterated or goroutines finish. *)
Class VolumeDrivers (D drv : Type) := {
  drv_Name : drv → string;
  drv_Scope : drv → D → string * D;
  drv_Get : drv → string → D → result string rawVolume * D;
  drv_Create : drv → string → smap → D → result string rawVolume * D;
  drv_Remove : drv → rawVolume → D → result string unit * D;
  drv_List : drv → D → result string (list rawVolume) * D;
  LookupWithCapability : string → D → result string (drv * bool) * D;
  FindWithCapability : D → result string (list (drv * bool)) * D;
  db_Update : D → result string unit * D;
  shuffle : ∀ {A}, list A → D → list A * D }.

(** ** Errors *)

Inductive verror : Type :=
| errVolumeInUse
| errNoSuchVolume
| errInvalidName
| errNameConflict
| EOther (msg : string)
| OpErr (err : verror) (op name : string) (refs : list string).

Fixpoint verror_Error (e : verror) : string :=
  match e with
  | errVolumeInUse => "volume is in use"
  | errNoSuchVolume => "no such volume"
  | errInvalidName => "volume name is not valid on this platform"
  | errNameConflict => "conflict: volume name must be unique"
  | EOther msg => msg
  | OpErr err op name refs =>
      let s := if decide (name = "") then op else op ++ " " ++ name in
      let s := s ++ ": " ++ verror_Error err in
      if decide (0 < length refs)%nat then s ++ " - [" ++ String.concat ", " refs ++ "]" else s
  end.

#[export] Instance verror_eq_dec : EqDecision verror.
Proof. solve_decision. Defined.

Definition isErr (err expected : verror) : bool :=
  bool_decide ((match err with OpErr e _ _ _ => e | e => e end) = expected).
Definition IsInUse (err : verror) : bool := isErr err errVolumeInUse.
Definition IsNotExist (err : verror) : bool := isErr err errNoSuchVolume.
Definition IsNameConflict (err : verror) : bool := isErr err errNameConflict.

(** ** State *)

(** [vs_db] is the bucket of the database, [None] for a store without one. *)
Record VolumeStore (D drv : Type) := mkVS {
  names : gmap string Volume;
  refs : gmap string (list string);
  labels : gmap string smap;
  vs_db : option (gmap string smap);
  extensions : gmap string drv;
  env : D }.
Arguments mkVS {D drv}.
Arguments names {D drv}.
Arguments refs {D drv}.
Arguments labels {D drv}.
Arguments vs_db {D drv}.
Arguments extensions {D drv}.
Arguments env {D drv}.

Section store.
Context {D drv : Type} `{!VolumeDrivers D drv}.
Abbreviation VS := (VolumeStore D drv).

Definition nil_pointer : string := "invalid memory address or nil pointer dereference".

Definition on_env {A} (f : D → A * D) : M VS A := λ s,
  let '(a, d) := f (env s) in Ret a (mkVS (names s) (refs s) (labels s) (vs_db s) (extensions s) d).

(** A call outside the store whose error the caller wraps. *)
Definition call_env {A} (f : D → result string A * D) : M VS (result verror A) :=
  r ← on_env f;
  mret (match r with Ok a => Ok a | Err e => Err (EOther e) end).

(** ** The registry of drivers *)

Definition set_extension (name : string) (d : drv) : M VS unit :=
  modify (λ s : VS, mkVS (names s) (refs s) (labels s) (vs_db s) (<[name:=d]> (extensions s)) (env s)).

Definition validateDriver (vd : drv) : M VS (result verror unit) :=
  scope ← on_env (drv_Scope vd);
  mret (if decide (scope = LocalScope ∨ scope = GlobalScope) then Ok ()
        else Err (EOther ("Driver " ++ drv_Name vd ++ " provided an invalid capability scope: " ++ scope))).

Definition Register (extension : drv) (name : string) : M VS bool :=
  if decide (name = "") then mret false
  else
    exts ← read extensions;
    match exts !! name with
    | Some _ => mret false
    | None =>
        r ← validateDriver extension;
        match r with
        | Err _ => mret false
        | Ok _ => set_extension name extension;; mret true
        end
    end.

Definition Unregister (name : string) : M VS bool :=
  exts ← read extensions;
  match exts !! name with
  | None => mret false
  | Some _ =>
      modify (λ s : VS, mkVS (names s) (refs s) (labels s) (vs_db s) (delete name (extensions s)) (env s));;
      mret true
  end.

Definition lookup_driver (name : string) : M VS (result verror drv) :=
  exts ← read extensions;
  match exts !! name with
  | Some ext => mret (Ok ext)
  | None =>
      r ← on_env (LookupWithCapability name);
      match r with
      | Err err => mret (Err (EOther ("Error looking up volume plugin " ++ name ++ ": " ++ err)))
      | Ok (d, legacy) =>
          _ ←? validateDriver d;
          (if (legacy : bool) then set_extension name d else mret ());;
          mret (Ok d)
      end
  end.

Definition GetDriver (name : string) : M VS (result verror drv) :=
  lookup_driver (if decide (name = "") then DefaultDriverName else name).

Definition GetDriverList : M VS (list string) :=
  exts ← read extensions;
  on_env (shuffle (map_to_list exts).*1).

(** The plugins that are not registered; a legacy one is registered. *)
Fixpoint addPlugins (plugins : list (drv * bool)) (ds : list drv) : M VS (list drv) :=
  match plugins with
  | [] => mret ds
  | (p, legacy) :: plugins =>
      exts ← read extensions;
      match exts !! drv_Name p with
      | Some _ => addPlugins plugins ds
      | None =>
          (if (legacy : bool) then set_extension (drv_Name p) p else mret ());;
          addPlugins plugins (ds ++ [p])
      end
  end.

Definition GetAllDrivers : M VS (result verror (list drv)) :=
  r ← on_env FindWithCapability;
  match r with
  | Err err => mret (Err (EOther ("error listing plugins: " ++ err)))
  | Ok plugins =>
      exts ← read extensions;
      ds ← on_env (shuffle (map_to_list exts).*2);
      ds ← addPlugins plugins ds;
      mret (Ok ds)
  end.

(** ** The store *)

(** [New]: [db] is what the database at the root path holds, [None] when the
    store has no root path. *)
Definition New (db : option (gmap string smap)) (exts : gmap string drv) (d : D) : VS :=
  mkVS ∅ ∅ ∅ db exts d.

Definition normaliseVolumeName (name : string) : string := name.
Definition IsVolumeNameValid (name : string) : bool := true.

Definition getNamed (name : string) : M VS (option Volume) := read (λ s : VS, names s !! name).

Definition setNamed (v : Volume) (ref : string) : M VS unit := modify (λ s : VS,
  mkVS (<[v_Name v:=v]> (names s))
    (if decide (0 < String.length ref)%nat then <[v_Name v:=(default [] (refs s !! v_Name v) ++ [ref])%list]> (refs s) else refs s)
    (labels s) (vs_db s) (extensions s) (env s)).

Definition getRefs (name : string) : M VS (list string) := read (λ s : VS, default [] (refs s !! name)).

Definition set_labels (name : string) (ls : smap) : M VS unit := modify (λ s : VS,
  mkVS (names s) (refs s) (<[name:=ls]> (labels s)) (vs_db s) (extensions s) (env s)).
Definition set_db (db : gmap string smap) : M VS unit := modify (λ s : VS,
  mkVS (names s) (refs s) (labels s) (Some db) (extensions s) (env s)).

(** [purge] uses the database without a test that there is one; an error of
    the update is only logged. *)
Definition purge (name : string) : M VS unit :=
  modify (λ s : VS, mkVS (delete name (names s)) (delete name (refs s)) (delete name (labels s)) (vs_db s) (extensions s) (env s));;
  db ← read vs_db;
  match db with
  | None => panic nil_pointer
  | Some db =>
      r ← on_env db_Update;
      match r with Ok _ => set_db (delete name db) | Err _ => mret () end
  end.

(** The first driver that has a volume. *)
Fixpoint probe (ds : list drv) (name : string) (labels : smap) : M VS (result verror Volume) :=
  match ds with
  | [] => mret (Err errNoSuchVolume)
  | d :: ds =>
      r ← on_env (drv_Get d name);
      match r with
      | Err _ => probe ds name labels
      | Ok v => scope ← on_env (drv_Scope d); mret (Ok (volumeWrapper v labels scope))
      end
  end.

(** The labels of a volume in the database. *)
Definition getMeta (name : string) : M VS (result verror smap) :=
  db ← read vs_db;
  match db with
  | None => mret (Ok ∅)
  | Some db => _ ←? call_env db_Update; mret (Ok (default ∅ (db !! name)))
  end.

Definition getVolume (name : string) : M VS (result verror Volume) :=
  labels ←? getMeta name;
  known ← getNamed name;
  match known with
  | Some v =>
      vd ←? GetDriver (v_DriverName v);
      vol ←? call_env (drv_Get vd name);
      scope ← on_env (drv_Scope vd);
      mret (Ok (volumeWrapper vol labels scope))
  | None =>
      drivers ←? GetAllDrivers;
      probe drivers name labels
  end.

(** [create] after the name was found to be new to the driver as well. *)
Definition createWith (vd : drv) (name : string) (opts ls : smap) : M VS (result verror Volume) :=
  v ←? call_env (drv_Create vd name opts);
  set_labels name ls;;
  db ← read vs_db;
  _ ←? match db with
       | None => mret (Ok ())
       | Some db => _ ←? call_env db_Update; set_db (<[name:=ls]> db);; mret (Ok ())
       end;
  scope ← on_env (drv_Scope vd);
  mret (Ok (volumeWrapper v ls scope)).

(** [create] for a name the store does not know, with a driver. *)
Definition createNew (name driverName : string) (opts ls : smap) : M VS (result verror Volume) :=
  r ← GetDriver driverName;
  match r with
  | Err err => mret (Err (OpErr err "create" name []))
  | Ok vd =>
      r ← on_env (drv_Get vd name);
      match r with
      | Ok v => mret (Ok (plain v))
      | Err _ => createWith vd name opts ls
      end
  end.

Definition create (name driverName : string) (opts ls : smap) : M VS (result verror Volume) :=
  if negb (IsVolumeNameValid name) then mret (Err (OpErr errInvalidName "create" name []))
  else
    known ← getNamed name;
    match known with
    | Some v =>
        if decide (v_DriverName v ≠ driverName ∧ driverName ≠ "" ∧ driverName ≠ DefaultDriverName)
        then mret (Err errNameConflict) else mret (Ok v)
    | None =>
        if decide (driverName = "") then
          r ← getVolume name;
          match r with
          | Ok v => mret (Ok v)
          | Err _ => createNew name driverName opts ls
          end
        else createNew name driverName opts ls
    end.

Definition CreateWithRef (name driverName ref : string) (opts ls : smap) : M VS (result verror Volume) :=
  let name := normaliseVolumeName name in
  r ← create name driverName opts ls;
  match r with
  | Err err => mret (Err (OpErr err "create" name []))
  | Ok v => setNamed v ref;; mret (Ok v)
  end.

Definition Create (name driverName : string) (opts ls : smap) : M VS (result verror Volume) :=
  let name := normaliseVolumeName name in
  r ← create name driverName opts ls;
  match r with
  | Err err => mret (Err (OpErr err "create" name []))
  | Ok v => setNamed v "";; mret (Ok v)
  end.

Definition GetWithRef (name driverName ref : string) : M VS (result verror Volume) :=
  let name := normaliseVolumeName name in
  r ← GetDriver driverName;
  match r with
  | Err err => mret (Err (OpErr err "get" name []))
  | Ok vd =>
      r ← call_env (drv_Get vd name);
      match r with
      | Err err => mret (Err (OpErr err "get" name []))
      | Ok v =>
          setNamed (plain v) ref;;
          ls ← read (λ s : VS, default ∅ (labels s !! name));
          scope ← on_env (drv_Scope vd);
          mret (Ok (volumeWrapper v ls scope))
      end
  end.

Definition Get (name : string) : M VS (result verror Volume) :=
  let name := normaliseVolumeName name in
  r ← getVolume name;
  match r with
  | Err err => mret (Err (OpErr err "get" name []))
  | Ok v => setNamed v "";; mret (Ok v)
  end.

(** When there is no driver, the name of a nil driver is taken for the error. *)
Definition Remove (v : Volume) : M VS (result verror unit) :=
  let name := normaliseVolumeName (v_Name v) in
  rs ← getRefs name;
  if decide (0 < length rs)%nat then mret (Err (OpErr errVolumeInUse "remove" (v_Name v) rs))
  else
    r ← GetDriver (v_DriverName v);
    match r with
    | Err _ => panic nil_pointer
    | Ok vd =>
        r ← call_env (drv_Remove vd (unwrapVolume v));
        match r with
        | Err err => mret (Err (OpErr err "remove" name []))
        | Ok _ => purge name;; mret (Ok ())
        end
    end.

Definition Dereference (v : Volume) (ref : string) : M VS unit := modify (λ s : VS,
  mkVS (names s) (<[v_Name v:=filter (λ r, r ≠ ref) (default [] (refs s !! v_Name v))]> (refs s))
    (labels s) (vs_db s) (extensions s) (env s)).

Definition Refs (v : Volume) : M VS (list string) := getRefs (v_Name v).

(** ** Listings *)

(** A driver's volumes with their labels and scope. *)
Fixpoint wrapAll (vd : drv) (vs : list rawVolume) : M VS (list Volume) :=
  match vs with
  | [] => mret []
  | v :: vs =>
      ls ← read (λ s : VS, default ∅ (labels s !! rv_Name v));
      scope ← on_env (drv_Scope vd);
      rest ← wrapAll vd vs;
      mret (volumeWrapper v ls scope :: rest)
  end.

(** The lists of all drivers as they arrive: the volumes, the warnings and the
    drivers that failed. *)
Fixpoint collect (ds : list drv) : M VS (list Volume * list string * list string) :=
  match ds with
  | [] => mret ([], [], [])
  | d :: ds =>
      r ← on_env (drv_List d);
      match r with
      | Err err =>
          rest ← collect ds;
          let '(ls, warnings, bad) := rest in
          mret (ls, verror_Error (OpErr (EOther err) "list" (drv_Name d) []) :: warnings, drv_Name d :: bad)
      | Ok vs =>
          vs ← wrapAll d vs;
          rest ← collect ds;
          let '(ls, warnings, bad) := rest in
          mret ((vs ++ ls)%list, warnings, bad)
      end
  end.

Definition list_volumes : M VS (result verror (list Volume * list string)) :=
  drivers ←? GetAllDrivers;
  drivers ← on_env (shuffle drivers);
  r ← collect drivers;
  let '(ls, warnings, badDrivers) := r in
  if decide (badDrivers = []) then mret (Ok (ls, warnings))
  else
    known ← read names;
    known ← on_env (shuffle (map_to_list known).*2);
    mret (Ok ((ls ++ filter (λ v, v_DriverName v ∈ badDrivers) known)%list, warnings)).

Definition List_ : M VS (result verror (list Volume * list string)) :=
  r ← list_volumes;
  match r with
  | Err err => mret (Err (OpErr err "list" "" []))
  | Ok (vols, warnings) =>
      known ← read names;
      let keep v := match known !! normaliseVolumeName (v_Name v) with
                    | Some storedV => bool_decide (v_DriverName storedV = v_DriverName v)
                    | None => true
                    end in
      mret (Ok (filter (λ v, keep v = true) vols, warnings))
  end.

Definition FilterByDriver (name : string) : M VS (result verror (list Volume)) :=
  r ← GetDriver name;
  match r with
  | Err err => mret (Err (OpErr err "list" name []))
  | Ok vd =>
      r ← call_env (drv_List vd);
      match r with
      | Err err => mret (Err (OpErr err "list" name []))
      | Ok ls => ls ← wrapAll vd ls; mret (Ok ls)
      end
  end.

Definition FilterByUsed (vols : list Volume) (used : bool) : M VS (list Volume) :=
  read (λ s : VS, filter (λ v,
    let l := length (default [] (refs s !! v_Name v)) in
    (used && bool_decide (0 < l)%nat) || (negb used && bool_decide (l = 0%nat)) = true) vols).

(** ** Executions *)

Inductive vop : Type :=
| VRegister (d : drv) (name : string)
| VUnregister (name : string)
| VCreate (name driverName : string) (opts ls : smap)
| VCreateWithRef (name driverName ref : string) (opts ls : smap)
| VGet (name : string)
| VGetWithRef (name driverName ref : string)
| VRemove (v : Volume)
| VDereference (v : Volume) (ref : string)
| VList
| VFilterByDriver (name : string).

Definition exec (o : vop) : M VS unit :=
  match o with
  | VRegister d name => Register d name;; mret ()
  | VUnregister name => Unregister name;; mret ()
  | VCreate name d opts ls => Create name d opts ls;; mret ()
  | VCreateWithRef name d ref opts ls => CreateWithRef name d ref opts ls;; mret ()
  | VGet name => Get name;; mret ()
  | VGetWithRef name d ref => GetWithRef name d ref;; mret ()
  | VRemove v => Remove v;; mret ()
  | VDereference v ref => Dereference v ref
  | VList => List_;; mret ()
  | VFilterByDriver name => FilterByDriver name;; mret ()
  end.

(** A sequence of calls that all return. *)
Inductive runs : list vop → VS → VS → Prop :=
| runs_nil s : runs [] s s
| runs_cons o ops s s1 s2 : exec o s = Ret () s1 → runs ops s1 s2 → runs (o :: ops) s s2.
End store.

(** What is asked of the drivers: a volume of a driver only goes away when the
    driver is told to remove a volume of that name. *)
Class GoodDrivers (D drv : Type) `{!VolumeDrivers D drv} := {
  holds : D → string → string → Prop;
  holds_Scope d e dn n : holds e dn n → holds (drv_Scope d e).2 dn n;
  holds_Get d m e dn n : holds e dn n → holds (drv_Get d m e).2 dn n;
  holds_Create d m opts e dn n : holds e dn n → holds (drv_Create d m opts e).2 dn n;
  holds_List d e dn n : holds e dn n → holds (drv_List d e).2 dn n;
  holds_Remove d v e dn n : rv_Name v ≠ n → holds e dn n → holds (drv_Remove d v e).2 dn n;
  holds_Lookup m e dn n : holds e dn n → holds (LookupWithCapability m e).2 dn n;
  holds_Find e dn n : holds e dn n → holds (FindWithCapability e).2 dn n;
  holds_db e dn n : holds e dn n → holds (db_Update e).2 dn n;
  holds_shuffle {A} (l : list A) e dn n : holds e dn n → holds (shuffle l e).2 dn n }.

Section proofs.
Context {D drv : Type} `{!VolumeDrivers D drv} `{!GoodDrivers D drv}.
Abbreviation VS := (VolumeStore D drv).

(** ** What a call leaves alone *)

(** References and names are as before, and the drivers keep their volumes. *)
Definition frame (s s' : VS) : Prop :=
  refs s' = refs s ∧ names s' = names s ∧ ∀ dn n, holds (env s) dn n → holds (env s') dn n.

#[local] Instance frame_preorder : PreOrder frame.
Proof.
  split; [done|]. intros s1 s2 s3 (R1 & N1 & H1) (R2 & N2 & H2). split_and!; [congruence|congruence|].
  intros dn n Hn. by apply H2, H1.
Qed.

Definition framed {A} (m : M VS A) : Prop := ∀ s a s', m s = Ret a s' → frame s s'.

Lemma framed_ret {A} (a : A) : framed (mret a : M VS A).
Proof. by intros s b s' [= _ <-]. Qed.
Lemma framed_panic {A} msg : framed (panic msg : M VS A).
Proof. done. Qed.
Lemma framed_read {A} (f : VS → A) : framed (read f).
Proof. by intros s b s' [= _ <-]. Qed.
Lemma framed_bind {A B} (m : M VS A) (k : A → M VS B) : framed m → (∀ a, framed (k a)) → framed (m ≫= k).
Proof.
  intros Hm Hk s b s' H. unfold mbind, M_bind in H. destruct (m s) as [a s1| |] eqn:E; [|done..].
  etransitivity; [by eapply Hm|by eapply Hk].
Qed.
Lemma framed_try {E A B} (m : M VS (result E A)) (k : A → M VS (result E B)) :
  framed m → (∀ a, framed (k a)) → framed (try_bind m k).
Proof. intros Hm Hk. apply framed_bind; [done|]. intros [a|e]; [done|apply framed_ret]. Qed.
Lemma framed_env {A} (f : D → A * D) :
  (∀ e dn n, holds e dn n → holds (f e).2 dn n) → framed (on_env f).
Proof.
  intros Hf s a s' H. unfold on_env in H. specialize (Hf (env s)). destruct (f (env s)) as [b d]. simplify_eq. done.
Qed.
Lemma framed_call {A} (f : D → result string A * D) :
  (∀ e dn n, holds e dn n → holds (f e).2 dn n) → framed (call_env f).
Proof. intros Hf. apply framed_bind; [by apply framed_env|]. intros a. apply framed_ret. Qed.
Lemma framed_modify (f : VS → VS) : (∀ s, frame s (f s)) → framed (modify f).
Proof. intros Hf s [] s' [= <-]. apply Hf. Qed.
End proofs.

Create HintDb frame discriminated.
#[export] Hint Resolve framed_ret framed_panic framed_read framed_env framed_call : frame.
#[export] Hint Resolve holds_Scope holds_Get holds_Create holds_List holds_Lookup holds_Find holds_db holds_shuffle : frame.

(** One step through the body of a call. *)
Ltac frame_step :=
  lazymatch goal with
  | |- framed (_ ≫= _) => apply framed_bind; [|intros ?]
  | |- framed (try_bind _ _) => apply framed_try; [|intros ?]
  | |- framed (modify _) => apply framed_modify; intros ?; unfold frame; by split_and!
  | |- framed (match ?x with _ => _ end) => destruct x
  | |- framed _ => solve [eauto 3 with frame]
  end.
Ltac frame_auto := repeat frame_step.

Section frames.
Context {D drv : Type} `{!VolumeDrivers D drv} `{!GoodDrivers D drv}.
Abbreviation VS := (VolumeStore D drv).

Lemma framed_set_extension name d : framed (set_extension name d).
Proof. by apply framed_modify. Qed.
#[local] Hint Resolve framed_set_extension : frame.

Lemma framed_validateDriver vd : framed (validateDriver vd).
Proof. unfold validateDriver. frame_auto. Qed.
#[local] Hint Resolve framed_validateDriver : frame.

Lemma framed_Register d name : framed (Register d name).
Proof. unfold Register. frame_auto. Qed.

Lemma framed_Unregister name : framed (Unregister name).
Proof. unfold Unregister. frame_auto. Qed.

Lemma framed_GetDriver name : framed (GetDriver name).
Proof. unfold GetDriver, lookup_driver. frame_auto. Qed.
#[local] Hint Resolve framed_GetDriver : frame.

Lemma framed_addPlugins plugins ds : framed (addPlugins plugins ds).
Proof. revert ds. induction plugins as [|[p legacy] plugins IH]; intros ds; simpl; frame_auto. Qed.
#[local] Hint Resolve framed_addPlugins : frame.

Lemma framed_GetAllDrivers : framed GetAllDrivers.
Proof. unfold GetAllDrivers. frame_auto. Qed.
#[local] Hint Resolve framed_GetAllDrivers : frame.

Lemma framed_probe ds name ls : framed (probe ds name ls).
Proof. induction ds as [|d ds IH]; simpl; frame_auto. Qed.
#[local] Hint Resolve framed_probe : frame.

Lemma framed_getMeta name : framed (getMeta name).
Proof. unfold getMeta. frame_auto. Qed.
#[local] Hint Resolve framed_getMeta : frame.

Lemma framed_getVolume name : framed (getVolume name).
Proof. unfold getVolume, getNamed. frame_auto. Qed.
#[local] Hint Resolve framed_getVolume : frame.

Lemma framed_set_labels name ls : framed (set_labels name ls).
Proof. by apply framed_modify. Qed.
Lemma framed_set_db db : framed (set_db db).
Proof. by apply framed_modify. Qed.
#[local] Hint Resolve framed_set_labels framed_set_db : frame.

Lemma framed_createNew name dn opts ls : framed (createNew name dn opts ls).
Proof. unfold createNew, createWith. frame_auto. Qed.
#[local] Hint Resolve framed_createNew : frame.

Lemma framed_create name dn opts ls : framed (create name dn opts ls).
Proof. unfold create, getNamed. frame_auto. Qed.
#[local] Hint Resolve framed_create : frame.

Lemma framed_wrapAll vd vs : framed (wrapAll vd vs).
Proof. induction vs as [|v vs IH]; simpl; frame_auto. Qed.
#[local] Hint Resolve framed_wrapAll : frame.

Lemma framed_collect ds : framed (collect ds).
Proof. induction ds as [|d ds IH]; simpl; frame_auto. Qed.
#[local] Hint Resolve framed_collect : frame.

Lemma framed_List : framed List_.
Proof. unfold List_, list_volumes. frame_auto. Qed.

Lemma framed_FilterByDriver name : framed (FilterByDriver name).
Proof. unfold FilterByDriver. frame_auto. Qed.

(** ** References protect volumes *)

Definition refs_of (s : VS) (n : string) : list string := default [] (refs s !! n).

(** The reference [r] to [n], the name, and the volumes of that name at the
    drivers, are still there. *)
Definition kept (n r : string) (s s' : VS) : Prop :=
  r ∈ refs_of s n → r ∈ refs_of s' n ∧ (is_Some (names s !! n) → is_Some (names s' !! n)) ∧
    ∀ dn, holds (env s) dn n → holds (env s') dn n.

#[local] Instance kept_preorder n r : PreOrder (kept n r).
Proof.
  split; [by intros s Hr|]. intros s1 s2 s3 H1 H2 Hr. destruct (H1 Hr) as (Hr2 & Hn1 & Hh1).
  destruct (H2 Hr2) as (Hr3 & Hn2 & Hh2). split_and!; eauto.
Qed.

Lemma frame_kept n r s s' : frame s s' → kept n r s s'.
Proof. intros (HR & HN & HH) Hr. unfold refs_of in *. rewrite HR, HN. eauto. Qed.

Lemma setNamed_kept n r v ref s : ∃ s', setNamed v ref s = Ret () s' ∧ kept n r s s' ∧
  names s' !! v_Name v = Some v ∧ (ref ≠ "" → ref ∈ refs_of s' (v_Name v)).
Proof.
  eexists. split; [done|]. split_and!.
  - intros Hr. split_and!; [|simpl; intros; by apply lookup_insert_is_Some'; right|done]. unfold refs_of in *. simpl. case_decide; [|done].
    destruct (decide (v_Name v = n)) as [->|Hne]; [|by rewrite lookup_insert_ne].
    rewrite lookup_insert_eq. simpl. set_solver.
  - simpl. by rewrite lookup_insert_eq.
  - intros Href. unfold refs_of. simpl. rewrite decide_True by (destruct ref; [done|simpl; lia]).
    rewrite lookup_insert_eq. simpl. set_solver.
Qed.

(** A call that ends by naming the volume it has found. *)
Lemma named_kept {E} (m : M VS (result E Volume)) (f : E → verror) ref n r s res s' :
  framed m →
  (m ≫= λ x, match x with Err e => mret (Err (f e)) | Ok v => setNamed v ref;; mret (Ok v) end) s = Ret res s' →
  kept n r s s' ∧ match res with
                  | Ok v => names s' !! v_Name v = Some v ∧ (ref ≠ "" → ref ∈ refs_of s' (v_Name v))
                  | Err _ => True
                  end.
Proof.
  intros Hm H. unfold mbind at 1, M_bind at 1 in H. destruct (m s) as [x s1| |] eqn:Em; [|done..].
  pose proof (frame_kept n r _ _ (Hm _ _ _ Em)) as Hf. destruct x as [v|e]; [|by run_in H; simplify_eq].
  destruct (setNamed_kept n r v ref s1) as (s2 & E2 & Hk & Hn). unfold mbind, M_bind in H. rewrite E2 in H.
  run_in H. simplify_eq. split; [by etransitivity|done].
Qed.

Lemma GetWithRef_kept name dn ref n r s res s' :
  GetWithRef name dn ref s = Ret res s' →
  kept n r s s' ∧
  match res with Ok v => is_Some (names s' !! v_Name v) ∧ (ref ≠ "" → ref ∈ refs_of s' (v_Name v)) | Err _ => True end.
Proof.
  intros H. unfold GetWithRef in H. unfold mbind at 1, M_bind at 1 in H.
  destruct (GetDriver dn s) as [[vd|e] s1| |] eqn:Ed; try done.
  2: { run_in H. simplify_eq. split; [by eapply frame_kept, framed_GetDriver|done]. }
  pose proof (frame_kept n r _ _ (framed_GetDriver _ _ _ _ Ed)) as Hf1. unfold mbind at 1, M_bind at 1 in H.
  destruct (call_env (drv_Get vd (normaliseVolumeName name)) s1) as [[v|e] s2| |] eqn:Eg; try done.
  all: pose proof (frame_kept n r _ _ (framed_call _ (λ e dn n, holds_Get vd _ e dn n) _ _ _ Eg)) as Hf2.
  2: { run_in H. simplify_eq. split; [by etransitivity|done]. }
  destruct (setNamed_kept n r (plain v) ref s2) as (s3 & E3 & Hk & Hn & Hr).
  unfold mbind at 1, M_bind at 1 in H. rewrite E3 in H. run_in H. unfold on_env in H.
  pose proof (holds_Scope vd (env s3)) as Hs. destruct (drv_Scope vd (env s3)) as [sc e']. simplify_eq/=. split; [|split; [by eexists|done]].
  etransitivity; [exact Hf1|]. etransitivity; [exact Hf2|]. etransitivity; [exact Hk|].
  intros Hr'. split_and!; [done|done|]. intros dn' Hh. by apply Hs.
Qed.

Lemma Remove_in_use v s :
  refs_of s (v_Name v) ≠ [] → Remove v s = Ret (Err (OpErr errVolumeInUse "remove" (v_Name v) (refs_of s (v_Name v)))) s.
Proof.
  intros Hr. unfold Remove, getRefs, read, mbind, M_bind, normaliseVolumeName. fold (refs_of s (v_Name v)).
  rewrite decide_True; [done|]. destruct (refs_of s (v_Name v)); [done|simpl; lia].
Qed.

Lemma purge_kept n r name s a s' : name ≠ n → purge name s = Ret a s' → kept n r s s'.
Proof.
  intros Hne H. unfold purge in H. run_in H. destruct (vs_db s) as [db|]; [|done].
  unfold on_env in H. simpl in H. pose proof (holds_db (env s)) as Hd. destruct (db_Update (env s)) as [x e']. simpl in Hd.
  assert (Hk : ∀ ls d ex, kept n r s (mkVS (delete name (names s)) (delete name (refs s)) ls d ex e')).
  { intros ls d ex Hr. unfold refs_of in *. simpl. rewrite !lookup_delete_ne by done. eauto. }
  destruct x; unfold set_db in H; run_in H; simplify_eq; apply Hk.
Qed.

Lemma Remove_kept n r v s a s' : Remove v s = Ret a s' → kept n r s s'.
Proof.
  intros H Hr. destruct (decide (v_Name v = n)) as [<-|Hne].
  { rewrite Remove_in_use in H by (intros E; rewrite E in Hr; by apply elem_of_nil in Hr). by simplify_eq. }
  revert Hr. change (kept n r s s'). unfold Remove, getRefs in H. run_in H. case_decide; [by simplify_eq|].
  destruct (GetDriver (v_DriverName v) s) as [[vd|e] s1| |] eqn:Ed; try done.
  pose proof (frame_kept n r _ _ (framed_GetDriver _ _ _ _ Ed)) as Hf1. unfold call_env, on_env in H. run_in H.
  pose proof (λ dn, holds_Remove vd (unwrapVolume v) (env s1) dn n Hne) as Hrm.
  destruct (drv_Remove vd (unwrapVolume v) (env s1)) as [x e'] eqn:Er. simpl in Hrm.
  set (s2 := mkVS (names s1) (refs s1) (labels s1) (vs_db s1) (extensions s1) e') in H.
  assert (Hf2 : kept n r s1 s2) by (intros Hr; split_and!; [done|done|exact Hrm]).
  destruct x as [[]|e]; [|run_in H; simplify_eq; by etransitivity].
  destruct (purge _ s2) as [u s3| |] eqn:Ep; try done. run_in H. simplify_eq.
  etransitivity; [exact Hf1|]. etransitivity; [exact Hf2|]. by eapply purge_kept.
Qed.

(** The call that gives a reference up. *)
Definition releases (n r : string) (o : vop (drv := drv)) : Prop :=
  match o with VDereference v ref => v_Name v = n ∧ ref = r | _ => False end.

Lemma exec_kept n r o s s' : ¬ releases n r o → exec o s = Ret () s' → kept n r s s'.
Proof.
  intros Hno H.
  assert (Hm : ∀ A (m : M VS A), (∀ a s1, m s = Ret a s1 → kept n r s s1) → (m;; mret ()) s = Ret () s' → kept n r s s').
  { intros A m Hm Hb. unfold mbind, M_bind in Hb. destruct (m s) as [a s1| |] eqn:E; [|done..]. run_in Hb. simplify_eq. eauto. }
  destruct o; simpl in H.
  - eapply Hm; [|exact H]. intros a s1 E. eapply frame_kept, framed_Register, E.
  - eapply Hm; [|exact H]. intros a s1 E. eapply frame_kept, framed_Unregister, E.
  - eapply Hm; [|exact H]. intros a s1 E. eapply named_kept in E as [? _]; [done|apply framed_create].
  - eapply Hm; [|exact H]. intros a s1 E. eapply named_kept in E as [? _]; [done|apply framed_create].
  - eapply Hm; [|exact H]. intros a s1 E. eapply named_kept in E as [? _]; [done|apply framed_getVolume].
  - eapply Hm; [|exact H]. intros a s1 E. by eapply GetWithRef_kept in E as [? _].
  - eapply Hm; [|exact H]. intros a s1 E. by eapply Remove_kept.
  - unfold Dereference, modify in H. simplify_eq. intros Hr. split_and!; [|done|done]. unfold refs_of in *. simpl.
    destruct (decide (v_Name v = n)) as [<-|Hne]; [|by rewrite lookup_insert_ne].
    rewrite lookup_insert_eq. simpl. apply list_elem_of_filter. split; [|done]. intros ->. by apply Hno.
  - eapply Hm; [|exact H]. intros a s1 E. eapply frame_kept, framed_List, E.
  - eapply Hm; [|exact H]. intros a s1 E. eapply frame_kept, framed_FilterByDriver, E.
Qed.

Lemma runs_kept n r ops s s' : Forall (λ o, ¬ releases n r o) ops → runs ops s s' → kept n r s s'.
Proof.
  intros Hf Hr. revert Hf. induction Hr as [|o ops s s1 s2 He _ IH]; intros Hf; [done|].
  apply Forall_cons_1 in Hf as [Ho Hf]. etransitivity; [by eapply exec_kept|by apply IH].
Qed.

(** C26. A reference protects its volume: once [CreateWithRef] or [GetWithRef]
    has stored a reference, then through any sequence of calls that does not
    dereference it the store keeps it and the name, refuses to remove the volume, naming the
    references, and the drivers keep the volumes of that name. *)
Theorem volume_refs_protect name driverName ref opts ls s0 v s ops s' w :
  ref ≠ "" →
  CreateWithRef name driverName ref opts ls s0 = Ret (Ok v) s ∨ GetWithRef name driverName ref s0 = Ret (Ok v) s →
  Forall (λ o, ¬ releases (v_Name v) ref o) ops → runs ops s s' → v_Name w = v_Name v →
  ref ∈ refs_of s' (v_Name v) ∧ is_Some (names s' !! v_Name v) ∧
  (∃ e, Remove w s' = Ret (Err e) s' ∧ IsInUse e = true) ∧
  ∀ dn, holds (env s) dn (v_Name v) → holds (env s') dn (v_Name v).
Proof.
  intros Href Hc Hf Hr Hw. assert (ref ∈ refs_of s (v_Name v) ∧ is_Some (names s !! v_Name v)) as [Hin Hn].
  { destruct Hc as [H|H].
    - eapply (named_kept _ _ _ "" "") in H as [_ [Hn H]]; [split; [by apply H|by eexists]|apply framed_create].
    - eapply (GetWithRef_kept _ _ _ "" "") in H as [_ [Hn H]]. split; [by apply H|done]. }
  destruct (runs_kept _ _ _ _ _ Hf Hr Hin) as (Hin' & Hn' & Hh). split_and!; [done|by apply Hn'| |done].
  eexists. split; [apply Remove_in_use|by apply bool_decide_eq_true]. rewrite Hw.
  intros E. rewrite E in Hin'. by apply elem_of_nil in Hin'.
Qed.
End frames.

Section remove.
Context {D drv : Type} `{!VolumeDrivers D drv}.
Abbreviation VS := (VolumeStore D drv).

Definition with_env (e : D) (s : VS) : VS :=
  mkVS (names s) (refs s) (labels s) (vs_db s) (extensions s) e.

(** The name of the driver that is looked up for a volume. *)
Definition driver_of (v : Volume) : string := if decide (v_DriverName v = "") then DefaultDriverName else v_DriverName v.

(** How the driver of a volume is found: it is registered; or a plugin of its name
    is, whose scope is valid, and a legacy plugin is registered from then on.  It is
    not found when there is no such plugin or when its scope is not valid. *)
Inductive looked_up (n : string) (s : VS) : option drv → VS → Prop :=
| found_registered vd : extensions s !! n = Some vd → looked_up n s (Some vd) s
| found_plugin d legacy e scope e' :
    extensions s !! n = None → LookupWithCapability n (env s) = (Ok (d, legacy), e) → drv_Scope d e = (scope, e') →
    scope = LocalScope ∨ scope = GlobalScope →
    looked_up n s (Some d)
      (mkVS (names s) (refs s) (labels s) (vs_db s) (if legacy : bool then <[n:=d]> (extensions s) else extensions s) e')
| no_plugin msg e :
    extensions s !! n = None → LookupWithCapability n (env s) = (Err msg, e) → looked_up n s None (with_env e s)
| bad_scope d legacy e scope e' :
    extensions s !! n = None → LookupWithCapability n (env s) = (Ok (d, legacy), e) → drv_Scope d e = (scope, e') →
    ¬ (scope = LocalScope ∨ scope = GlobalScope) → looked_up n s None (with_env e' s).

Lemma GetDriver_looked_up v s : ∃ o s1, looked_up (driver_of v) s o s1 ∧
  match o with
  | Some vd => GetDriver (v_DriverName v) s = Ret (Ok vd) s1
  | None => ∃ err, GetDriver (v_DriverName v) s = Ret (Err err) s1
  end.
Proof.
  unfold GetDriver, lookup_driver, validateDriver, set_extension, modify, try_bind, on_env, read, mbind, M_bind.
  fold (driver_of v). set (n := driver_of v).
  destruct (extensions s !! n) as [vd|] eqn:E; [exists (Some vd), s; split; [by constructor|done]|].
  destruct (LookupWithCapability n (env s)) as [[[d legacy]|msg] e] eqn:El.
  2: { exists None, (with_env e s). split; [by eapply no_plugin|by eexists]. }
  simpl. destruct (drv_Scope d e) as [scope e'] eqn:Es. unfold mret, M_ret. case_decide as Hs.
  - eexists (Some d), _. split; [by eapply found_plugin|]. by destruct legacy.
  - exists None, (with_env e' s). split; [by eapply bad_scope|by eexists].
Qed.

(** C27. [Remove] on every branch.  A volume with references is refused, with the
    list of them.  Otherwise the driver of the volume is looked up ([looked_up]), and
    [Remove] panics when it is not found (the error is made from the nil driver): when
    no plugin has its name, or the scope of the plugin is not valid.  An error of the
    driver is reported and leaves the store as it is.  When the driver has removed
    the volume, its name, references, labels and metadata go, and those of other
    volumes stay; a store without a database panics instead. *)
Theorem volume_remove_cases v s :
  match refs_of s (v_Name v) with
  | [] => ∃ o s1, looked_up (driver_of v) s o s1 ∧
      match o with
      | None => Remove v s = Panic nil_pointer
      | Some vd =>
          match drv_Remove vd (v_raw v) (env s1) with
          | (Err msg, e) => Remove v s = Ret (Err (OpErr (EOther msg) "remove" (v_Name v) [])) (with_env e s1)
          | (Ok _, e) =>
              match vs_db s with
              | None => Remove v s = Panic nil_pointer
              | Some db => Remove v s = Ret (Ok ())
                  (mkVS (delete (v_Name v) (names s)) (delete (v_Name v) (refs s)) (delete (v_Name v) (labels s))
                     (Some match (db_Update e).1 with Ok _ => delete (v_Name v) db | Err _ => db end)
                     (extensions s1) (db_Update e).2)
              end
          end
      end
  | rs => Remove v s = Ret (Err (OpErr errVolumeInUse "remove" (v_Name v) rs)) s
  end.
Proof.
  unfold Remove, getRefs, normaliseVolumeName, read, mbind, M_bind. fold (refs_of s (v_Name v)).
  destruct (refs_of s (v_Name v)) as [|r rs]; [|done]. simpl. destruct (GetDriver_looked_up v s) as (o & s1 & Hl & Hg). exists o, s1. split; [done|].
  assert (names s1 = names s ∧ refs s1 = refs s ∧ labels s1 = labels s ∧ vs_db s1 = vs_db s) as (<- & <- & <- & <-) by by destruct Hl.
  destruct o as [vd|]; [rewrite Hg|by destruct Hg as [err ->]].
  unfold call_env, on_env, mbind, M_bind, unwrapVolume. destruct (drv_Remove vd (v_raw v) (env s1)) as [[[]|msg] e]; [|done].
  unfold mret, M_ret, purge, modify, read, mbind, M_bind. simpl. destruct (vs_db s1) as [db|]; [|done].
  unfold on_env. simpl. destruct (db_Update e) as [[[]|x] e']; done.
Qed.
End remove.

(** ** A concrete registry *)

Module ConcreteVolumes.
(** Drivers that keep a set of names each; one of them is registered. *)
Definition raw (d n : string) : rawVolume := mkRaw n d ("/var/lib/" ++ d ++ "/" ++ n).

#[local] Instance concrete_drivers : VolumeDrivers (gset (string * string)) string := {|
  drv_Name d := d;
  drv_Scope d e := (LocalScope, e);
  drv_Get d n e := (if decide ((d, n) ∈ e) then Ok (raw d n) else Err "no such volume", e);
  drv_Create d n opts e := (Ok (raw d n), {[(d, n)]} ∪ e);
  drv_Remove d v e := (Ok (), e ∖ {[(d, rv_Name v)]});
  drv_List d e := (Ok ((λ p, raw p.1 p.2) <$> filter (λ p, p.1 = d) (elements e)), e);
  LookupWithCapability n e := (Err "plugin not found", e);
  FindWithCapability e := (Ok [], e);
  db_Update e := (Ok (), e);
  shuffle _ l e := (l, e) |}.

#[local] Program Instance concrete_good : GoodDrivers (gset (string * string)) string := {|
  holds e dn n := (dn, n) ∈ e |}.
Solve All Obligations with (simpl; set_solver).

Definition empty_store : VolumeStore (gset (string * string)) string := New (Some ∅) {["local" := "local"]} ∅.
Definition data : Volume := volumeWrapper (raw "local" "data") ∅ LocalScope.
Definition used : VolumeStore (gset (string * string)) string := Eval vm_compute in
  match CreateWithRef "data" "" "c1" ∅ ∅ empty_store with Ret _ s => s | _ => empty_store end.

(** A container holds the volume [data] while it is listed, looked up and asked
    to be removed. *)
Lemma volume_refs_protect_witness :
  ∃ s', runs [VList; VGet "data"; VRemove data; VDereference data "c2"] used s' ∧
    "c1" ∈ refs_of s' "data" ∧ ("local", "data") ∈ env s'.
Proof.
  set (ops := [VList; VGet "data"; VRemove data; VDereference data "c2"]).
  assert (∃ s', runs ops used s') as [s' Hr].
  { eexists. do 4 (eapply runs_cons; [vm_compute; reflexivity|]). apply runs_nil. }
  exists s'. split; [done|].
  destruct (volume_refs_protect "data" "" "c1" ∅ ∅ empty_store data used ops s' data) as (Hin & _ & _ & Hh).
  - done.
  - left. by vm_compute.
  - unfold ops. repeat apply Forall_cons_2; [by intros []..|by intros [_ ?]|by apply Forall_nil_2].
  - done.
  - done.
  - split; [exact Hin|]. apply (Hh "local").
    change (("local", "data") ∈ env used). apply (bool_decide_unpack _). by vm_compute.
Defined.

Lemma volume_remove_cases_witness :
  Remove (plain (raw "gone" "data")) empty_store = Panic nil_pointer ∧
  Remove data used = Ret (Err (OpErr errVolumeInUse "remove" "data" ["c1"])) used ∧
  ∃ s', Remove (plain (raw "local" "data")) empty_store = Ret (Ok ()) s'.
Proof.
  split; [|split; [exact (volume_remove_cases data used)|]].
  - destruct (volume_remove_cases (plain (raw "gone" "data")) empty_store) as (o & s1 & Hl & H).
    destruct Hl as [vd E|d legacy e scope e' _ E| |]; [by vm_compute in E|by vm_compute in E|exact H|exact H].
  - destruct (volume_remove_cases (plain (raw "local" "data")) empty_store) as (o & s1 & Hl & H).
    destruct Hl as [vd E|d legacy e scope e' E|msg e E|d legacy e scope e' E]; [|by vm_compute in E..]. simpl in H. eauto.
Defined.
End ConcreteVolumes.
