(* ===== verification/ContainerState.v ===== *)
(** The state of a container: container/state.go with its Linux part, and the
    daemon's handler of state changes, [StateChanged] of daemon/monitor.go. *)

From S2P Require Import Prelude GoStrings Health.

Local Open Scope string_scope.

(** ** State *)

(** Times are counted in nanoseconds from the zero time of Go; a channel is a
    number. *)
Record State := mkState {
  Running : bool;
  Paused : bool;
  Restarting : bool;
  OOMKilled : bool;
  RemovalInProgress : bool;
  Dead : bool;
  Pid : Z;
  exitCode : Z;
  st_error : string;
  StartedAt : Z;
  FinishedAt : Z;
  waitChan : nat;
  st_Health : option Health.Health }.

Definition NewState (ch : nat) : State :=
  mkState false false false false false false 0 0 "" 0 0 ch None.

Record ExitStatus := mkExitStatus { es_ExitCode : Z; es_OOMKilled : bool }.

(** [String], over the printer of durations of the package go-units. *)
Definition State_String (HumanDuration : Z → string) (now : Z) (s : State) : string :=
  let up := "Up " ++ HumanDuration (now - StartedAt s)%Z in
  if Running s then
    if Paused s then up ++ " (Paused)"
    else if Restarting s then
      "Restarting (" ++ Itoa (exitCode s) ++ ") " ++ HumanDuration (now - FinishedAt s)%Z ++ " ago"
    else match st_Health s with
         | Some h => up ++ " (" ++ Health_String h ++ ")"
         | None => up
         end
  else if RemovalInProgress s then "Removal In Progress"
  else if Dead s then "Dead"
  else if decide (StartedAt s = 0%Z) then "Created"
  else if decide (FinishedAt s = 0%Z) then ""
  else "Exited (" ++ Itoa (exitCode s) ++ ") " ++ HumanDuration (now - FinishedAt s)%Z ++ " ago".

Definition StateString (s : State) : string :=
  if Running s then
    if Paused s then "paused" else if Restarting s then "restarting" else "running"
  else if Dead s then "dead"
  else if decide (StartedAt s = 0%Z) then "created"
  else "exited".

Definition IsValidStateString (s : string) : bool :=
  if decide (s ≠ "paused" ∧ s ≠ "restarting" ∧ s ≠ "running" ∧ s ≠ "dead" ∧ s ≠ "created" ∧ s ≠ "exited")
  then false else true.

(** ** Containers *)

(** The parts of a container that state changes touch, and the memory of the
    channels its waiters have: [c_closed] are the closed ones, [c_nextChan] is
    the next to be made. Events are logged with their attributes. *)
Record Container := mkContainer {
  c_State : State;
  c_closed : gset nat;
  c_nextChan : nat;
  c_RestartCount : Z;
  c_HasBeenManuallyStopped : bool;
  c_events : list (string * list (string * string)) }.

Definition on_state (f : State → State) : M Container unit := modify (λ c,
  mkContainer (f (c_State c)) (c_closed c) (c_nextChan c) (c_RestartCount c) (c_HasBeenManuallyStopped c) (c_events c)).

Definition LogContainerEventWithAttributes (action : string) (attributes : list (string * string)) : M Container unit :=
  modify (λ c, mkContainer (c_State c) (c_closed c) (c_nextChan c) (c_RestartCount c) (c_HasBeenManuallyStopped c)
    (c_events c ++ [(action, attributes)])%list).
Definition LogContainerEvent (action : string) : M Container unit := LogContainerEventWithAttributes action [].

Definition set_paused (b : bool) (s : State) : State :=
  mkState (Running s) b (Restarting s) (OOMKilled s) (RemovalInProgress s) (Dead s) (Pid s) (exitCode s)
    (st_error s) (StartedAt s) (FinishedAt s) (waitChan s) (st_Health s).
Definition SetExitCode (ec : Z) (s : State) : State :=
  mkState (Running s) (Paused s) (Restarting s) (OOMKilled s) (RemovalInProgress s) (Dead s) (Pid s) ec
    (st_error s) (StartedAt s) (FinishedAt s) (waitChan s) (st_Health s).
Definition SetError (err : string) (s : State) : State :=
  mkState (Running s) (Paused s) (Restarting s) (OOMKilled s) (RemovalInProgress s) (Dead s) (Pid s) (exitCode s)
    err (StartedAt s) (FinishedAt s) (waitChan s) (st_Health s).

Definition SetRunning (pid : Z) (initial : bool) (now : Z) (s : State) : State :=
  mkState true false false (OOMKilled s) (RemovalInProgress s) (Dead s) pid 0 ""
    (if initial then now else StartedAt s) (FinishedAt s) (waitChan s) (st_Health s).

(** [close(s.waitChan)] and a new channel. *)
Definition fireWaiters : M Container unit := λ c,
  let s := c_State c in
  if decide (waitChan s ∈ c_closed c) then Panic "close of closed channel"
  else Ret () (mkContainer
    (mkState (Running s) (Paused s) (Restarting s) (OOMKilled s) (RemovalInProgress s) (Dead s) (Pid s) (exitCode s)
       (st_error s) (StartedAt s) (FinishedAt s) (c_nextChan c) (st_Health s))
    ({[waitChan s]} ∪ c_closed c) (S (c_nextChan c)) (c_RestartCount c) (c_HasBeenManuallyStopped c) (c_events c)).

Definition SetStopped (es : ExitStatus) (now : Z) : M Container unit :=
  on_state (λ s, mkState false false false (es_OOMKilled es) (RemovalInProgress s) (Dead s) 0 (es_ExitCode es)
    (st_error s) (StartedAt s) now (waitChan s) (st_Health s));;
  fireWaiters.

Definition SetRestarting (es : ExitStatus) (now : Z) : M Container unit :=
  on_state (λ s, mkState true (Paused s) true (es_OOMKilled es) (RemovalInProgress s) (Dead s) 0 (es_ExitCode es)
    (st_error s) (StartedAt s) now (waitChan s) (st_Health s));;
  fireWaiters.

Definition set_removal (b : bool) (s : State) : State :=
  mkState (Running s) (Paused s) (Restarting s) (OOMKilled s) b (Dead s) (Pid s) (exitCode s)
    (st_error s) (StartedAt s) (FinishedAt s) (waitChan s) (st_Health s).

(** [SetRemovalInProgress] says whether the container was in that state already. *)
Definition SetRemovalInProgress : M Container bool :=
  s ← read c_State;
  if RemovalInProgress s then mret true
  else on_state (set_removal true);; mret false.
Definition ResetRemovalInProgress : M Container unit := on_state (set_removal false).
Definition SetDead : M Container unit := on_state (λ s,
  mkState (Running s) (Paused s) (Restarting s) (OOMKilled s) (RemovalInProgress s) true (Pid s) (exitCode s)
    (st_error s) (StartedAt s) (FinishedAt s) (waitChan s) (st_Health s)).

(** ** State changes *)

Inductive stateName : Type :=
| StateStart
| StatePause
| StateResume
| StateExit
| StateRestart
| StateRestore
| StateExitProcess
| StateOOM.
#[export] Instance stateName_eq_dec : EqDecision stateName.
Proof. solve_decision. Defined.

Record StateInfo := mkStateInfo {
  si_State : stateName;
  si_Pid : Z;
  si_ExitCode : Z;
  si_ProcessID : string;
  si_OOMKilled : bool }.

Definition platformConstructExitStatus (e : StateInfo) : ExitStatus := mkExitStatus (si_ExitCode e) (si_OOMKilled e).

Definition set_counters (f : Z → Z) (g : bool → bool) : M Container unit := modify (λ c,
  mkContainer (c_State c) (c_closed c) (c_nextChan c) (f (c_RestartCount c)) (g (c_HasBeenManuallyStopped c)) (c_events c)).

(** [StateChanged]: [disk] is the error of the write of the container to disk,
    if it fails. Streams, health checks, the release of network and mounts and
    the exec processes of the container are not part of this state. *)
Definition StateChanged (e : StateInfo) (disk : option string) (now : Z) : M Container (result string unit) :=
  let saved := match disk with Some err => Err err | None => Ok () end in
  let die := LogContainerEventWithAttributes "die" [("exitCode", Itoa (si_ExitCode e))] in
  match si_State e with
  | StateOOM => LogContainerEvent "oom";; mret (Ok ())
  | StateExit =>
      SetStopped (platformConstructExitStatus e) now;;
      die;;
      mret saved
  | StateRestart =>
      set_counters (λ n, wrap64 (n + 1)) (λ b, b);;
      SetRestarting (platformConstructExitStatus e) now;;
      die;;
      mret saved
  | StateExitProcess => mret (Ok ())
  | StateStart | StateRestore =>
      on_state (SetRunning (si_Pid e) (bool_decide (si_State e = StateStart)) now);;
      set_counters (λ n, n) (λ _, false);;
      match disk with
      | Some err => mret (Err err)
      | None => LogContainerEvent "start";; mret (Ok ())
      end
  | StatePause => on_state (set_paused true);; LogContainerEvent "pause";; mret (Ok ())
  | StateResume => on_state (set_paused false);; LogContainerEvent "unpause";; mret (Ok ())
  end.
