(* ===== verification/Lifecycle.v ===== *)
(** The life of a container between three parties: the daemon, which keeps the
    state of the container and takes its lock (daemon/start.go, pause.go,
    unpause.go, wait.go), libcontainerd, which starts the process and turns the
    events of containerd into calls of [StateChanged], one after the other for a
    container (libcontainerd/client_linux.go, container_linux.go,
    queue_linux.go, pausemonitor_linux.go), and containerd with the process.
    Writes of the container to disk can fail at any time, and so can the reading
    of the specification that libcontainerd keeps in its directory. *)

From S2P Require Import Prelude GoStrings ContainerState.

Local Open Scope string_scope.

(** ** Calls of the daemon *)

(** The error of a start sets the exit code that the API reports. *)
Definition startFailed (err : string) : M Container (result string unit) :=
  on_state (SetError err);;
  s ← read c_State;
  (if decide (exitCode s = 0%Z) then on_state (SetExitCode 128) else mret ());;
  mret (Err err).

Definition createExitCode (path errDesc : string) : M Container unit :=
  (if Contains errDesc path &&
      (Contains errDesc "executable file not found" || Contains errDesc "no such file or directory" ||
       Contains errDesc "system cannot find the file specified")
   then on_state (SetExitCode 127) else mret ());;
  (if Contains errDesc "permission denied" then on_state (SetExitCode 126) else mret ()).

(** The guards of [containerPause] and [containerUnpause]. *)
Definition pauseGuard (id : string) (s : State) : result string unit :=
  if negb (Running s) then Err ("Container " ++ id ++ " is not running")
  else if Paused s then Err ("Container " ++ id ++ " is already paused")
  else if Restarting s then Err ("Container " ++ id ++ " is restarting, wait until the container is running")
  else Ok ().
Definition unpauseGuard (id : string) (s : State) : result string unit :=
  if negb (Running s) then Err ("Container " ++ id ++ " is not running")
  else if negb (Paused s) then Err ("Container " ++ id ++ " is not paused")
  else Ok ().

(** ** Libcontainerd *)

(** [handleEvent]: the state change made of an event of containerd. [init]
    says that the event is about the first process of the container, [restart]
    that the restart manager has granted a restart. *)
Definition handleEvent (type : stateName) (status : Z) (init : bool) (process : string) (oom restart : bool) : StateInfo :=
  let st := if decide (type = StateExit) then
              if init then if restart then StateRestart else StateExit else StateExitProcess
            else type in
  mkStateInfo st 0 status (if decide (type = StateExit ∧ init = false) then process else "")
    (bool_decide (type = StateExit) && oom).

(** The pause monitor: the calls that wait for a state, oldest first. *)
Definition pm_append (t : stateName) (waiter : nat) (m : list (stateName * nat)) : list (stateName * nat) :=
  (m ++ [(t, waiter)])%list.
Fixpoint pm_handle (t : stateName) (m : list (stateName * nat)) : option nat * list (stateName * nat) :=
  match m with
  | [] => (None, [])
  | (u, w) :: m =>
      if decide (u = t) then (Some w, m)
      else let '(r, m') := pm_handle t m in (r, (u, w) :: m')
  end.

(** ** The system *)

Inductive proc : Type :=
| NoProc
| Up (frozen : bool).

(** A call in progress or at its end: of [WaitStop], and of [containerPause] or
    [containerUnpause]. *)
Inductive call : Type :=
| WWaiting (ch : nat)
| WReturned (r : result string Z)
| PWaiting (t : stateName)
| PReturned (r : result string unit).

(** [y_lock]: the call that holds the lock of the container over several steps.
    [y_q]: the functions in the queue of the container. [y_owed]: events that
    containerd has yet to send. [y_restart]: the goroutines that wait to start
    the container again, with the exit they follow. [y_known]: libcontainerd has
    the container in its map. [y_fault]: a start or a restart has met a failure
    of the disk so far, see [step]; no code reads it. *)
Record sys := mkSys {
  y_c : Container;
  y_lock : option nat;
  y_proc : proc;
  y_q : list StateInfo;
  y_owed : list StateInfo;
  y_restart : list StateInfo;
  y_monitor : list (stateName * nat);
  y_calls : gmap nat call;
  y_known : bool;
  y_fault : bool }.

Definition set_call (i : nat) (c : call) (s : sys) : sys :=
  mkSys (y_c s) (y_lock s) (y_proc s) (y_q s) (y_owed s) (y_restart s) (y_monitor s) (<[i:=c]> (y_calls s)) (y_known s) (y_fault s).
Definition set_container (c : Container) (s : sys) : sys :=
  mkSys c (y_lock s) (y_proc s) (y_q s) (y_owed s) (y_restart s) (y_monitor s) (y_calls s) (y_known s) (y_fault s).
Definition set_proc (p : proc) (s : sys) : sys :=
  mkSys (y_c s) (y_lock s) p (y_q s) (y_owed s) (y_restart s) (y_monitor s) (y_calls s) (y_known s) (y_fault s).
Definition enqueue (e : StateInfo) (s : sys) : sys :=
  mkSys (y_c s) (y_lock s) (y_proc s) (y_q s ++ [e])%list (y_owed s) (y_restart s) (y_monitor s) (y_calls s) (y_known s) (y_fault s).
Definition set_restart (r : list StateInfo) (s : sys) : sys :=
  mkSys (y_c s) (y_lock s) (y_proc s) (y_q s) (y_owed s) r (y_monitor s) (y_calls s) (y_known s) (y_fault s).
Definition set_known (b : bool) (s : sys) : sys :=
  mkSys (y_c s) (y_lock s) (y_proc s) (y_q s) (y_owed s) (y_restart s) (y_monitor s) (y_calls s) b (y_fault s).
Definition faulted (b : bool) (s : sys) : sys :=
  mkSys (y_c s) (y_lock s) (y_proc s) (y_q s) (y_owed s) (y_restart s) (y_monitor s) (y_calls s) (y_known s) (y_fault s || b).

(** [WaitStop] up to the wait, and after it. *)
Definition WaitStop_begin (i : nat) (s : sys) : sys :=
  let st := c_State (y_c s) in
  set_call i (if Running st then WWaiting (waitChan st) else WReturned (Ok (exitCode st))) s.
Definition WaitStop_end (i : nat) (s : sys) : sys := set_call i (WReturned (Ok (exitCode (c_State (y_c s))))) s.

(** [setState] of the client of containerd by the call [i] that has passed its
    guards: containerd freezes or thaws the process and will send an event; the
    call keeps the lock and waits for it. *)
Definition setState (i : nat) (t : stateName) (frozen : bool) (s : sys) : sys :=
  mkSys (y_c s) (Some i) (Up frozen) (y_q s) (y_owed s ++ [handleEvent t 0 true "" false false])%list (y_restart s)
    (pm_append t i (y_monitor s)) (<[i:=PWaiting t]> (y_calls s)) (y_known s) (y_fault s).

(** The exit of the process: an event about a container that libcontainerd does
    not know is dropped; the others take it out of the map, for good or until
    the restart. *)
Definition exited (status : Z) (oom restart : bool) (s : sys) : sys :=
  let s := set_proc NoProc s in
  if y_known s then set_known false (enqueue (handleEvent StateExit status true "" oom restart) s) else s.

(** The event of a pause or a resumption. *)
Definition emitted (e : StateInfo) (owed : list StateInfo) (s : sys) : sys :=
  mkSys (y_c s) (y_lock s) (y_proc s) (if y_known s then y_q s ++ [e] else y_q s)%list owed (y_restart s) (y_monitor s)
    (y_calls s) (y_known s) (y_fault s).

(** What the function in the queue does after [StateChanged]. *)
Definition afterChange (e : StateInfo) (s : sys) : sys :=
  match si_State e with
  | StateRestart => set_restart (y_restart s ++ [e])%list s
  | StatePause | StateResume =>
      let '(w, m) := pm_handle (si_State e) (y_monitor s) in
      match w with
      | Some i => mkSys (y_c s) None (y_proc s) (y_q s) (y_owed s) (y_restart s) m (<[i:=PReturned (Ok ())]> (y_calls s)) (y_known s) (y_fault s)
      | None => mkSys (y_c s) (y_lock s) (y_proc s) (y_q s) (y_owed s) (y_restart s) m (y_calls s) (y_known s) (y_fault s)
      end
  | _ => s
  end.

(** The state changes that take the lock of the container. *)
Definition takesLock (t : stateName) : bool := match t with StateExit | StateRestart => true | _ => false end.

(** The error of a restart makes an exit of the state it was to restart from. *)
Definition asExit (e : StateInfo) : StateInfo :=
  mkStateInfo StateExit (si_Pid e) (si_ExitCode e) (si_ProcessID e) (si_OOMKilled e).

Definition changed (e : StateInfo) (c : Container) (q : list StateInfo) (s : sys) : sys :=
  afterChange e (mkSys c (y_lock s) (y_proc s) q (y_owed s) (y_restart s) (y_monitor s) (y_calls s) (y_known s) (y_fault s)).

(** *** Starting the process *)

Definition on_container {A} (m : M Container A) : M sys A := λ s,
  match m (y_c s) with
  | Ret a c => Ret a (set_container c s)
  | Panic e => Panic e
  | OutOfFuel => OutOfFuel
  end.

(** What an attempt to start the process meets: whether the specification can
    be read, the error of the fifos, and what [attachStdio] and containerd
    answer: an error, or the process. *)
Record attempt := mkAttempt { a_spec : bool; a_fifos : option string; a_create : result string Z }.

(** [start] of libcontainerd: without a readable specification it returns nil
    and does nothing. *)
Definition start (a : attempt) (disk : option string) (now : Z) : M sys (result string unit) :=
  if negb (a_spec a) then mret (Ok ())
  else
    match a_fifos a with
    | Some err => mret (Err err)
    | None =>
        modify (set_known true);;
        match a_create a with
        | Err err => mret (Err err)
        | Ok pid =>
            modify (set_proc (Up false));;
            on_container (StateChanged (mkStateInfo StateStart pid 0 "" false) disk now)
        end
    end.

(** [Create]: [setup] is the error of the preparation of the bundle, if it
    fails. A container is taken out of the map when it is marked as restarting,
    so that one that is in the map is active. *)
Definition Create (id : string) (setup : option string) (a : attempt) (disk : option string) (now : Z)
    : M sys (result string unit) :=
  known ← read y_known;
  if known : bool then mret (Err ("Container " ++ id ++ " is already active"))
  else
    r ← match setup with Some err => mret (Err err) | None => start a disk now end;
    match r with
    | Ok _ => mret (Ok ())
    | Err err => modify (set_known false);; mret (Err err)
    end.

(** [containerStart]: [prep] is the error of the preparation (mounts, network,
    specification). [libcontainerd] reports the start before [Create] returns. *)
Definition containerStart (id path : string) (prep setup : option string) (a : attempt) (disk : option string) (now : Z)
    : M sys (result string unit) :=
  s ← read (λ y, c_State (y_c y));
  if Running s then mret (Ok ())
  else if RemovalInProgress s || Dead s then mret (Err "Container is marked for removal and cannot be started.")
  else
    match prep with
    | Some err => on_container (startFailed err)
    | None =>
        on_container (set_counters (λ _, 0%Z) (λ b, b));;
        r ← Create id setup a disk now;
        match r with
        | Ok _ => mret (Ok ())
        | Err errDesc => on_container (createExitCode path errDesc;; startFailed errDesc)
        end
    end.

(** The goroutine that restarts the container: [cancelled] is the error of the
    restart manager. After an error the exit is reported as such. *)
Definition restart (st : StateInfo) (cancelled : bool) (a : attempt) (disk : option string) (now : Z) : M sys unit :=
  r ← (if cancelled then mret (Err "restart canceled") else start a disk now);
  match r with
  | Ok _ => mret ()
  | Err _ => modify (enqueue (asExit st))
  end.

(** Containerd has one process for a container at a time. *)
Definition accepts (a : attempt) (s : sys) : Prop := y_proc s = NoProc ∨ ∃ err, a_create a = Err err.

(** A process that exits was not frozen. The start of a container by the
    restart goroutine takes no lock. A fault is a failed write of a container
    whose process has just been started, or an unreadable specification in a
    restart. *)
Inductive step (s : sys) : sys → Prop :=
| s_wait i : y_lock s = None → y_calls s !! i = None → step s (WaitStop_begin i s)
| s_wake i ch : y_calls s !! i = Some (WWaiting ch) → ch ∈ c_closed (y_c s) → y_lock s = None →
    step s (WaitStop_end i s)
| s_timeout i ch timeout : y_calls s !! i = Some (WWaiting ch) →
    step s (set_call i (WReturned (Err ("Timed out: " ++ timeout))) s)
| s_start id path prep setup a disk now r s' : y_lock s = None → accepts a s →
    containerStart id path prep setup a disk now s = Ret r s' → step s (faulted (bool_decide (is_Some disk)) s')
| s_pause_refused i id e : y_lock s = None → y_calls s !! i = None → pauseGuard id (c_State (y_c s)) = Err e →
    step s (set_call i (PReturned (Err e)) s)
| s_pause_failed i id e : y_lock s = None → y_calls s !! i = None → pauseGuard id (c_State (y_c s)) = Ok () →
    step s (set_call i (PReturned (Err ("Cannot pause container " ++ id ++ ": " ++ e))) s)
| s_pause i id : y_lock s = None → y_calls s !! i = None → pauseGuard id (c_State (y_c s)) = Ok () →
    y_known s = true → y_proc s = Up false → step s (setState i StatePause true s)
| s_unpause_refused i id e : y_lock s = None → y_calls s !! i = None → unpauseGuard id (c_State (y_c s)) = Err e →
    step s (set_call i (PReturned (Err e)) s)
| s_unpause_failed i id e : y_lock s = None → y_calls s !! i = None → unpauseGuard id (c_State (y_c s)) = Ok () →
    step s (set_call i (PReturned (Err ("Cannot unpause container " ++ id ++ ": " ++ e))) s)
| s_unpause i id : y_lock s = None → y_calls s !! i = None → unpauseGuard id (c_State (y_c s)) = Ok () →
    y_known s = true → y_proc s = Up true → step s (setState i StateResume false s)
| s_emit e owed : y_owed s = e :: owed → step s (emitted e owed s)
| s_exit status oom restart : y_proc s = Up false → step s (exited status oom restart s)
| s_change e q disk now r c : y_q s = e :: q → (takesLock (si_State e) = true → y_lock s = None) →
    StateChanged e disk now (y_c s) = Ret r c → step s (changed e c q s)
| s_restart l1 st l2 cancelled a disk now s' : y_restart s = (l1 ++ st :: l2)%list → accepts a s →
    restart st cancelled a disk now (set_restart (l1 ++ l2)%list s) = Ret () s' →
    step s (faulted (bool_decide (is_Some disk) || negb (a_spec a)) s')
| s_removing b c : y_lock s = None → SetRemovalInProgress (y_c s) = Ret b c → step s (set_container c s)
| s_removed c : y_lock s = None → ResetRemovalInProgress (y_c s) = Ret () c → step s (set_container c s)
| s_dead c : y_lock s = None → SetDead (y_c s) = Ret () c → step s (set_container c s).

Definition init : sys :=
  mkSys (mkContainer (NewState 0) ∅ 1 0 false []) None NoProc [] [] [] [] ∅ false false.

(** What any history leads to, and the histories without a fault. *)
Definition reached (s : sys) : Prop := rtc step init s.
Definition reachable (s : sys) : Prop := reached s ∧ y_fault s = false.

(** ** The invariant *)

Definition flags (c : Container) : bool * bool * bool :=
  (Running (c_State c), Paused (c_State c), Restarting (c_State c)).

(** The phases of the life of a container without a fault: the call that waits
    with the lock and what for, the process, the events in the queue and those
    to come, the number of pending restarts, whether libcontainerd knows the
    container, and the flags. *)
Inductive phase :
  option (nat * stateName) → proc → list stateName → list stateName → nat → bool → bool * bool * bool → Prop :=
| ph_idle k : phase None NoProc [] [] 0 k (false, false, false)
| ph_up frozen : phase None (Up frozen) [] [] 0 true (true, frozen, false)
| ph_pausing i : phase (Some (i, StatePause)) (Up true) [] [StatePause] 0 true (true, false, false)
| ph_paused i : phase (Some (i, StatePause)) (Up true) [StatePause] [] 0 true (true, false, false)
| ph_resuming i : phase (Some (i, StateResume)) (Up false) [] [StateResume] 0 true (true, true, false)
| ph_resumed i : phase (Some (i, StateResume)) (Up false) [StateResume] [] 0 true (true, true, false)
| ph_exiting x : takesLock x = true → phase None NoProc [x] [] 0 false (true, false, false)
| ph_lost i x owed : takesLock x = true → (owed = [] ∨ owed = [StateResume]) →
    phase (Some (i, StateResume)) NoProc [x] owed 0 false (true, true, false)
| ph_late i x : takesLock x = true →
    phase (Some (i, StateResume)) NoProc [StateResume; x] [] 0 false (true, true, false)
| ph_restart : phase None NoProc [] [] 1 false (true, false, true)
| ph_failed k : phase None NoProc [StateExit] [] 0 k (true, false, true).

(** The channels are numbered by the stops of the container so far. *)
Record chan_ok (c : Container) : Prop := mkChanOk {
  ch_next : c_nextChan c = S (waitChan (c_State c));
  ch_closed ch : ch ∈ c_closed c ↔ (ch < waitChan (c_State c))%nat;
  ch_pid : Running (c_State c) = false ∨ Restarting (c_State c) = true → Pid (c_State c) = 0%Z }.

Definition phase_of (s : sys) : Prop :=
  ∃ aw, phase aw (y_proc s) (si_State <$> y_q s) (si_State <$> y_owed s) (length (y_restart s)) (y_known s) (flags (y_c s)) ∧
    y_lock s = fst <$> aw ∧
    match aw with
    | Some (i, t) => y_monitor s = [(t, i)] ∧ y_calls s !! i = Some (PWaiting t)
    | None => y_monitor s = []
    end.

(** The invariant: a part that faults do not touch, and the phases. *)
Record sys_ok (s : sys) : Prop := mkSysOk {
  so_phase : y_fault s = false → phase_of s;
  so_chan : chan_ok (y_c s);
  so_wait i ch : y_calls s !! i = Some (WWaiting ch) →
    (ch ≤ waitChan (c_State (y_c s)))%nat ∧ (ch = waitChan (c_State (y_c s)) → Running (c_State (y_c s)) = true) }.

(** The flags after a state change. *)
Definition changeFlags (t : stateName) (f : bool * bool * bool) : bool * bool * bool :=
  let '(running, paused, restarting) := f in
  match t with
  | StateExit => (false, false, false)
  | StateRestart => (true, paused, true)
  | StateStart | StateRestore => (true, false, false)
  | StatePause => (running, true, restarting)
  | StateResume => (running, false, restarting)
  | StateExitProcess | StateOOM => f
  end.

Lemma fireWaiters_ok c :
  chan_ok c → ∃ c', fireWaiters c = Ret () c' ∧ chan_ok c' ∧ flags c' = flags c ∧
    waitChan (c_State c') = S (waitChan (c_State c)) ∧ c_events c' = c_events c ∧ exitCode (c_State c') = exitCode (c_State c).
Proof.
  intros [Hn Hc Hp]. unfold fireWaiters. rewrite decide_False; [|rewrite Hc; lia]. eexists. split; [done|].
  split_and!; [split|done|by simpl|done|done]; simpl; [done| |done].
  intros ch. rewrite elem_of_union, elem_of_singleton, Hc, Hn. lia.
Qed.

(** A state change returns in every state, and has its effect on the flags; the
    waiters are woken by an exit and by a restart. *)
Lemma StateChanged_ok e disk now c :
  chan_ok c →
  ∃ r c', StateChanged e disk now c = Ret r c' ∧ chan_ok c' ∧ flags c' = changeFlags (si_State e) (flags c) ∧
    waitChan (c_State c') = (if takesLock (si_State e) then S (waitChan (c_State c)) else waitChan (c_State c)).
Proof.
  intros Hok. pose proof Hok as [Hn Hc Hp]. unfold StateChanged, SetStopped, SetRestarting. destruct (si_State e) eqn:Ee.
  1,2,3,6,7,8: unfold on_state, set_counters, LogContainerEvent, LogContainerEventWithAttributes, modify, mbind, M_bind.
  1,4: destruct disk; eexists _, _; (split; [done|]); by (split_and!; [split|..]; simpl; naive_solver).
  1,2,3,4: eexists _, _; (split; [done|]); by (split_and!; [split|..]; simpl; naive_solver).
  all: unfold on_state, set_counters, LogContainerEventWithAttributes, modify, mbind, M_bind.
  all: match goal with |- context[fireWaiters ?x] => destruct (fireWaiters_ok x) as (c1 & E & [Hn1 Hc1 Hp1] & Hf & Hw & _) end.
  1,3: split; simpl; [done|done|by intros]. all: rewrite E; eexists _, _; (split; [done|]).
  all: split_and!; [split; simpl; [done|done|]|by simpl|done]; intros; by apply Hp1.
Qed.

(** A change of the state that waiters and flags do not see. *)
Definition quiet (c c' : Container) : Prop :=
  c_closed c' = c_closed c ∧ c_nextChan c' = c_nextChan c ∧ flags c' = flags c ∧
  waitChan (c_State c') = waitChan (c_State c) ∧ Pid (c_State c') = Pid (c_State c).

#[local] Instance quiet_preorder : PreOrder quiet.
Proof. split; [done|]. intros c1 c2 c3 (? & ? & ? & ? & ?) (? & ? & ? & ? & ?). split_and!; congruence. Qed.

Lemma quiet_chan_ok c c' : quiet c c' → chan_ok c → chan_ok c'.
Proof.
  intros (H1 & H2 & H3 & H4 & H5) [Hn Hc Hp]. unfold flags in H3. injection H3 as HR _ HX. split.
  - congruence.
  - intros ch. by rewrite H1, H4.
  - intros Hr. rewrite H5. apply Hp. by rewrite <-HR, <-HX.
Qed.

Lemma startFailed_ok err c : wp (startFailed err) (λ r c', r = Err err ∧ quiet c c') c.
Proof. unfold startFailed, on_state. wp_steps. case_decide; wp_steps; done. Qed.

Lemma createExitCode_ok path err c : wp (createExitCode path err) (λ _ c', quiet c c') c.
Proof. unfold createExitCode, on_state. wp_steps. destruct (_ && _), (Contains err _); wp_steps; done. Qed.

(** A container that has been started: its flags, and its channel as before. *)
Definition ran (c c' : Container) : Prop :=
  chan_ok c' ∧ flags c' = (true, false, false) ∧ waitChan (c_State c') = waitChan (c_State c).

(** What an attempt to start the process does to the system. *)
Inductive start_spec (a : attempt) (disk : option string) (s : sys) : result string unit → sys → Prop :=
| st_unread : a_spec a = false → start_spec a disk s (Ok ()) s
| st_fifos err : start_spec a disk s (Err err) s
| st_refused err : a_create a = Err err → start_spec a disk s (Err err) (set_known true s)
| st_created pid c : a_create a = Ok pid → ran (y_c s) c →
    start_spec a disk s (match disk with Some err => Err err | None => Ok () end)
      (set_container c (set_proc (Up false) (set_known true s))).

Lemma start_ok a disk now s : chan_ok (y_c s) → wp (start a disk now) (start_spec a disk s) s.
Proof.
  intros Hok. unfold start. destruct (a_spec a) eqn:Es; simpl; [|wp_steps; by constructor].
  destruct (a_fifos a) as [err|]; [wp_steps; by constructor|]. wp_steps.
  destruct (a_create a) as [pid|err] eqn:Ec; [|wp_steps; by constructor]. wp_steps.
  destruct (StateChanged_ok (mkStateInfo StateStart pid 0 "" false) disk now (y_c s) Hok) as (r & c & E & Hc & Hf & Hw).
  unfold wp, on_container. simpl. rewrite E. simpl in Hf, Hw.
  assert (r = match disk with Some err => Err err | None => Ok () end) as ->.
  { unfold StateChanged in E. simpl in E. destruct disk; run_in E; by injection E. }
  apply (st_created a disk s pid c); [done|]. split_and!; [done| |done].
  rewrite Hf. by destruct (flags (y_c s)) as [[??]?].
Qed.

(** What a start by the daemon does: nothing, or it makes an attempt, and an
    error takes the container out of the map. *)
Inductive begun (a : attempt) (disk : option string) (s : sys) : result string unit → sys → Prop :=
| bg_quiet r c : quiet (y_c s) c → begun a disk s r (set_container c s)
| bg_ran pid c : Running (c_State (y_c s)) = false → y_known s = false → a_create a = Ok pid → disk = None → ran (y_c s) c →
    begun a disk s (Ok ()) (set_container c (set_proc (Up false) (set_known true s)))
| bg_unsaved pid err c : Running (c_State (y_c s)) = false → y_known s = false → a_create a = Ok pid → disk = Some err → ran (y_c s) c →
    begun a disk s (Err err) (set_container c (set_proc (Up false) s)).

Lemma ran_quiet_l c1 c2 c3 : quiet c1 c2 → ran c2 c3 → ran c1 c3.
Proof. intros (_ & _ & _ & Hw & _) (? & ? & ?). split_and!; congruence. Qed.
Lemma ran_quiet_r c1 c2 c3 : ran c1 c2 → quiet c2 c3 → ran c1 c3.
Proof.
  intros (Hok & Hf & Hwc) Hq. split; [by eapply quiet_chan_ok|]. destruct Hq as (_ & _ & HF & Hw & _). split; congruence.
Qed.

Lemma on_container_wp {A} (m : M Container A) (Q : A → sys → Prop) s :
  wp m (λ r c, Q r (set_container c s)) (y_c s) → wp (on_container m) Q s.
Proof. unfold wp, on_container. by destruct (m (y_c s)). Qed.

Lemma failed_ok path err c : wp (createExitCode path err;; startFailed err) (λ r c', r = Err err ∧ quiet c c') c.
Proof.
  wp_steps. wp_apply createExitCode_ok. intros _ c1 Hq1. wp_apply startFailed_ok. intros r c2 [-> Hq2]. split; [done|]. by transitivity c1.
Qed.

Lemma set_container_twice c c' s : set_container c (set_container c' s) = set_container c s.
Proof. done. Qed.
Lemma known_same s : y_known s = false → set_known false s = s.
Proof. destruct s. simpl. by intros ->. Qed.

Lemma Create_ok id setup a disk now s :
  chan_ok (y_c s) → Running (c_State (y_c s)) = false → wp (Create id setup a disk now) (begun a disk s) s.
Proof.
  intros Hok Hr. assert (Hid : s = set_container (y_c s) s) by (by destruct s).
  assert (Hn : ∀ r, begun a disk s r s) by (intros r; rewrite Hid at 2; by constructor).
  unfold Create. wp_steps. destruct (y_known s) eqn:Hk; [by wp_steps|].
  wp_steps. destruct setup as [err|]; [wp_steps; rewrite known_same; [apply Hn|done]|].
  wp_apply (start_ok a disk now s Hok). intros r s' Hs. destruct Hs as [Hsp|err|err Hc|pid c Hc Hran]; wp_steps.
  - apply Hn.
  - by rewrite known_same.
  - assert (set_known false (set_known true s) = s) as -> by (rewrite <-(known_same s) at 2; done). done.
  - destruct disk as [err|]; wp_steps; [|by apply (bg_ran a None s pid c)].
    assert (set_known false (set_container c (set_proc (Up false) (set_known true s))) = set_container c (set_proc (Up false) s)) as ->.
    { rewrite <-(known_same s) at 2; done. }
    by eapply bg_unsaved.
Qed.

Lemma containerStart_ok id path prep setup a disk now s :
  chan_ok (y_c s) → wp (containerStart id path prep setup a disk now) (begun a disk s) s.
Proof.
  intros Hok. unfold containerStart. wp_steps. assert (Hn : ∀ r, begun a disk s r s).
  { intros r. assert (s = set_container (y_c s) s) as H by (by destruct s). rewrite H at 2. by constructor. }
  destruct (Running (c_State (y_c s))) eqn:Hr; [by wp_steps|].
  destruct (RemovalInProgress (c_State (y_c s)) || Dead (c_State (y_c s))); [by wp_steps|].
  destruct prep as [err|].
  { apply on_container_wp. eapply wp_mono; [apply startFailed_ok|]. intros r c [_ Hq]. by constructor. }
  wp_steps. apply on_container_wp. unfold set_counters. wp_steps.
  set (c1 := mkContainer _ _ _ _ _ _). assert (Hq1 : quiet (y_c s) c1) by done.
  wp_apply (Create_ok id setup a disk now (set_container c1 s)); [by eapply quiet_chan_ok|done|].
  intros r s' Hs. destruct Hs as [r c Hq|pid c HR Hk Hc Hd Hran|pid err c HR Hk Hc Hd Hran]; simpl in *.
  - rewrite set_container_twice. destruct r as [[]|err]; wp_steps; [constructor; by transitivity c1|].
    apply on_container_wp. eapply wp_mono; [apply failed_ok|]. intros r c' [_ Hq']. simpl. rewrite set_container_twice.
    constructor. transitivity c1; [done|]. by transitivity c.
  - wp_steps. by eapply (bg_ran a disk s pid c), ran_quiet_l.
  - apply on_container_wp. eapply wp_mono; [apply failed_ok|]. intros r c' [-> Hq']. simpl. rewrite set_container_twice.
    eapply (bg_unsaved a disk s pid err c'); try done. by eapply ran_quiet_r, Hq'; eapply ran_quiet_l.
Qed.

(** ** Preservation *)

#[local] Arguments flags : simpl never.
#[local] Arguments changeFlags : simpl never.

Lemma set_call_ok i c s :
  sys_ok s → (y_calls s !! i = None ∨ ∃ ch, y_calls s !! i = Some (WWaiting ch)) →
  (∀ ch, c = WWaiting ch → ch = waitChan (c_State (y_c s)) ∧ Running (c_State (y_c s)) = true) →
  sys_ok (set_call i c s).
Proof.
  intros [Hph Hch Hw] Hi Hc. split; simpl; [|done|].
  - intros (aw & Hp & Hl & Hm)%Hph. exists aw. split_and!; [done|done|]. destruct aw as [[j t]|]; [|done]. destruct Hm as [Hm Hj].
    split; [done|]. simpl. rewrite lookup_insert_ne; [done|]. intros ->. rewrite Hj in Hi. by destruct Hi as [?|[? ?]].
  - intros j ch. rewrite lookup_insert. case_decide; [|by apply Hw]. intros [= ->].
    destruct (Hc ch eq_refl) as [-> Hr]. split; [lia|done].
Qed.

(** The state after a step that makes no call wait. *)
Lemma phase_ok s s' :
  sys_ok s → chan_ok (y_c s') → (y_fault s' = false → phase_of s') →
  (∀ i ch, y_calls s' !! i = Some (WWaiting ch) → y_calls s !! i = Some (WWaiting ch)) →
  (waitChan (c_State (y_c s')) = S (waitChan (c_State (y_c s))) ∨
   waitChan (c_State (y_c s')) = waitChan (c_State (y_c s)) ∧
   (Running (c_State (y_c s)) = true → Running (c_State (y_c s')) = true)) →
  sys_ok s'.
Proof.
  intros [_ _ Hw] Hch Hph Hcalls Hwc. split; [done|done|]. intros i ch Hi%Hcalls%Hw.
  destruct Hwc as [E|[E HR]]; rewrite E; [split; lia|naive_solver].
Qed.

Lemma quiet_phase c s : quiet (y_c s) c → phase_of s → phase_of (set_container c s).
Proof. intros (_ & _ & Hf & _) (aw & Hph & H). exists aw. simpl. by rewrite Hf. Qed.

Lemma quiet_container_ok c s : sys_ok s → quiet (y_c s) c → sys_ok (set_container c s).
Proof.
  intros Hok Hq. eapply phase_ok; [exact Hok| | |done|right].
  - eapply quiet_chan_ok; [exact Hq|apply Hok].
  - intros ?. apply quiet_phase; [done|]. by apply (so_phase s Hok).
  - destruct Hq as (_ & _ & Hf & Hwc & _). unfold flags in Hf. injection Hf as HR _ _. simpl. by rewrite Hwc, HR.
Qed.

Lemma faulted_ok b s : sys_ok s → sys_ok (faulted b s).
Proof. intros [Hph Hch Hw]. split; [|done|done]. simpl. by intros [? _]%orb_false_elim; apply Hph. Qed.

(** The phases a system can be in; the flags are taken as they are. *)
Ltac phase_cases H :=
  lazymatch type of H with phase _ _ _ _ _ _ ?f =>
    let g := fresh "f" in let E := fresh in remember f as g eqn:E; clear E; inversion H; simplify_eq end.

Lemma setState_ok i id t frozen s :
  sys_ok s → y_lock s = None → y_calls s !! i = None → y_known s = true →
  (t = StatePause ∧ frozen = true ∧ y_proc s = Up false ∧ pauseGuard id (c_State (y_c s)) = Ok () ∨
   t = StateResume ∧ frozen = false ∧ y_proc s = Up true ∧ unpauseGuard id (c_State (y_c s)) = Ok ()) →
  sys_ok (setState i t frozen s).
Proof.
  intros Hok Hl Hi Hk Ht. pose proof Hok as [Hp Hch Hw].
  eapply phase_ok; [exact Hok|done| | |right; done].
  - simpl. intros Hf. destruct (Hp Hf) as (aw & Hph & Hlock & Hm). destruct aw as [[j u]|]; [simpl in Hlock; congruence|].
    exists (Some (i, t)). simpl. rewrite fmap_app, Hm, lookup_insert_eq. split_and!; try done. simpl.
    destruct Ht as [(-> & -> & HP & _)|(-> & -> & HP & _)]; rewrite HP in Hph; phase_cases Hph; constructor.
  - intros j ch. simpl. rewrite lookup_insert. by case_decide.
Qed.

Lemma emit_ok e owed s : sys_ok s → y_owed s = e :: owed → sys_ok (emitted e owed s).
Proof.
  intros Hok Ho. eapply phase_ok; [exact Hok|apply Hok| |done|by right].
  simpl. intros (aw & Hph & Hlock & Hm)%(so_phase s Hok). exists aw. split_and!; [|done|done]. simpl.
  rewrite Ho, fmap_cons in Hph. destruct (y_known s) eqn:Hk; rewrite ?fmap_app; simpl;
    phase_cases Hph; try by constructor. all: try (apply ph_lost; [done|]); naive_solver.
Qed.

Lemma exit_ok status oom restart s : sys_ok s → y_proc s = Up false → sys_ok (exited status oom restart s).
Proof.
  intros Hok Hp. assert (Hcalls : y_calls (exited status oom restart s) = y_calls s ∧ y_c (exited status oom restart s) = y_c s ∧
    y_fault (exited status oom restart s) = y_fault s) by (unfold exited; simpl; by destruct (y_known s)).
  destruct Hcalls as (E1 & E2 & E3).
  eapply phase_ok; [exact Hok|rewrite E2; apply Hok| |by rewrite E1|right; by rewrite E2]. rewrite E3.
  intros (aw & Hph & Hlock & Hm)%(so_phase s Hok). exists aw. unfold exited. simpl. rewrite Hp in Hph.
  assert (y_known s = true) as Hk by (phase_cases Hph; done). rewrite Hk in *. simpl. rewrite fmap_app. simpl.
  split_and!; [|done|done].
  phase_cases Hph; destruct restart; (constructor || apply ph_lost); try done; by right.
Qed.

Lemma pm_handle_one t i : pm_handle t [(t, i)] = (Some i, []).
Proof. simpl. by rewrite decide_True. Qed.

(** What every state change leaves alone. *)
Lemma changed_frame e c q s :
  y_c (changed e c q s) = c ∧ y_fault (changed e c q s) = y_fault s ∧ y_q (changed e c q s) = q ∧
  ∀ i ch, y_calls (changed e c q s) !! i = Some (WWaiting ch) → y_calls s !! i = Some (WWaiting ch).
Proof.
  unfold changed, afterChange. destruct (si_State e); simpl; try done.
  all: destruct (pm_handle _ _) as [[j|] m]; simpl; split_and!; try done.
  all: intros i ch; rewrite lookup_insert; by case_decide.
Qed.

(** A state change that takes no lock ends the call that waits for it. *)
Lemma change_waited_ok e c q s :
  phase_of s → y_q s = e :: q → takesLock (si_State e) = false →
  flags c = changeFlags (si_State e) (flags (y_c s)) → phase_of (changed e c q s).
Proof.
  intros (aw & Hph & Hlock & Hm) Hq Ht Hf. rewrite Hq, fmap_cons in Hph.
  assert (∃ j, aw = Some (j, si_State e) ∧ (si_State e = StatePause ∨ si_State e = StateResume)) as (j & -> & Hte).
  { clear Hf. destruct (si_State e); try done; phase_cases Hph; try done; eauto. }
  destruct Hm as [Hm Hj].
  assert (Hst : changed e c q s = mkSys c None (y_proc s) q (y_owed s) (y_restart s) []
    (<[j:=PReturned (Ok ())]> (y_calls s)) (y_known s) (y_fault s)).
  { unfold changed, afterChange. simpl. rewrite Hm, pm_handle_one. by destruct Hte as [-> | ->]. }
  rewrite Hst. exists None. split_and!; [|done|done]. simpl. rewrite Hf.
  destruct Hte as [E|E]; rewrite E in *; phase_cases Hph; try done; by constructor.
Qed.

(** A state change that takes the lock. *)
Lemma change_locked_ok e c q s :
  phase_of s → y_q s = e :: q → takesLock (si_State e) = true → y_lock s = None →
  flags c = changeFlags (si_State e) (flags (y_c s)) → phase_of (changed e c q s).
Proof.
  intros (aw & Hph & Hlock & Hm) Hq Ht Hl Hf. destruct aw as [[j t]|]; [simpl in Hlock; congruence|].
  assert (Hst : changed e c q s =
    mkSys c None (y_proc s) q (y_owed s) (if decide (si_State e = StateRestart) then y_restart s ++ [e] else y_restart s)%list []
      (y_calls s) (y_known s) (y_fault s)).
  { unfold changed, afterChange, set_restart. simpl. rewrite Hm, Hl. by destruct (si_State e). }
  rewrite Hst. exists None. split_and!; [|done|done]. simpl. rewrite Hf. rewrite Hq, fmap_cons in Hph.
  destruct (si_State e); try done; simpl; rewrite ?length_app; simpl; phase_cases Hph; try done; simpl;
    unfold changeFlags; try by constructor.
Qed.

Lemma change_ok e q disk now r c s :
  sys_ok s → y_q s = e :: q → (takesLock (si_State e) = true → y_lock s = None) →
  StateChanged e disk now (y_c s) = Ret r c → sys_ok (changed e c q s).
Proof.
  intros Hok Hq Hlk E. pose proof (so_chan s Hok) as Hch.
  destruct (StateChanged_ok e disk now (y_c s) Hch) as (r' & c' & E' & Hc & Hf & Hw). rewrite E in E'. injection E' as <- <-.
  destruct (changed_frame e c q s) as (F1 & F2 & _ & F3).
  eapply phase_ok; [exact Hok|by rewrite F1| |exact F3|].
  - rewrite F2. intros Hph%(so_phase s Hok).
    destruct (takesLock (si_State e)) eqn:Ht; [by apply change_locked_ok; auto|by apply change_waited_ok].
  - rewrite F1. destruct (takesLock (si_State e)) eqn:Ht; [by left|right; split; [done|]]. intros HR.
    unfold flags in Hf. rewrite HR in Hf. unfold changeFlags in Hf. destruct (si_State e); try done; congruence.
Qed.

Lemma ran_running c c' : ran c c' → Running (c_State c') = true.
Proof. intros (_ & Hf & _). unfold flags in Hf. congruence. Qed.

Lemma begun_ok a disk s r s' : sys_ok s → accepts a s → begun a disk s r s' → sys_ok (faulted (bool_decide (is_Some disk)) s').
Proof.
  intros Hok Ha Hb. destruct Hb as [r c Hq|pid c HR Hk Hc Hd Hran|pid err c HR Hk Hc Hd Hran].
  - by apply faulted_ok, quiet_container_ok.
  - eapply phase_ok; [exact Hok|apply Hran| |done|right; split; [apply Hran|intros _; by eapply ran_running]].
    simpl. intros [(aw & Hph & Hl & Hm)%(so_phase s Hok) _]%orb_false_elim. exists aw. split_and!; [|done|done]. simpl.
    destruct Hran as (_ & -> & _). unfold flags in Hph. rewrite HR in Hph. inversion Hph; simplify_eq. constructor.
  - eapply phase_ok; [exact Hok|apply Hran| |done|right; split; [apply Hran|intros _; by eapply ran_running]].
    simpl. subst disk. rewrite bool_decide_eq_true_2 by eauto. by rewrite orb_true_r.
Qed.

Lemma take_one {A} (l1 l2 l : list A) x : l = (l1 ++ x :: l2)%list → length l = 1 → l1 = [] ∧ l2 = [].
Proof. intros -> H. rewrite length_app in H. simpl in H. destruct l1, l2; simpl in H; (done || lia). Qed.

(** What a restart does. *)
Inductive restarted (st : StateInfo) (a : attempt) (disk : option string) (s : sys) : sys → Prop :=
| rs_unread : a_spec a = false → restarted st a disk s s
| rs_quit k : restarted st a disk s (enqueue (asExit st) (set_known k s))
| rs_ran pid c : a_create a = Ok pid → disk = None → ran (y_c s) c →
    restarted st a disk s (set_container c (set_proc (Up false) (set_known true s)))
| rs_unsaved pid err c : a_create a = Ok pid → disk = Some err → ran (y_c s) c →
    restarted st a disk s (enqueue (asExit st) (set_container c (set_proc (Up false) (set_known true s)))).

Lemma restart_does st cancelled a disk now s :
  chan_ok (y_c s) → wp (restart st cancelled a disk now) (λ _, restarted st a disk s) s.
Proof.
  intros Hok. unfold restart. wp_steps. assert (Hn : restarted st a disk s (enqueue (asExit st) s)).
  { assert (s = set_known (y_known s) s) as H by (by destruct s). rewrite H at 2. constructor. }
  destruct cancelled; [by wp_steps|]. wp_apply (start_ok a disk now s Hok).
  intros r s' Hs. destruct Hs as [Hsp|err|err Hc|pid c Hc Hran]; wp_steps; [by constructor|done|constructor|].
  destruct disk as [err|]; wp_steps; [by eapply rs_unsaved|by eapply rs_ran].
Qed.

(** The phase from which a restart is made. *)
Lemma restart_phase s l1 st l2 :
  phase_of s → y_restart s = (l1 ++ st :: l2)%list →
  l1 = [] ∧ l2 = [] ∧ y_proc s = NoProc ∧ y_q s = [] ∧ y_owed s = [] ∧ y_known s = false ∧ flags (y_c s) = (true, false, true) ∧
  y_lock s = None ∧ y_monitor s = [].
Proof.
  intros (aw & Hph & Hl & Hm) Hr. assert (length (y_restart s) = 1%nat) as Hlen.
  { assert (length (y_restart s) ≠ 0%nat) by (rewrite Hr, length_app; simpl; lia). inversion Hph; congruence. }
  destruct (take_one _ _ _ _ Hr Hlen) as [-> ->]. rewrite Hlen in Hph.
  inversion Hph as [| | | | | | | | |Eaw Ep Eq Eo En Ek Ef|]. subst aw.
  symmetry in Eq, Eo. apply fmap_nil_inv in Eq, Eo. split_and!; try done. unfold flags. congruence.
Qed.

Lemma restarted_ok l1 st l2 a disk s s' :
  sys_ok s → y_restart s = (l1 ++ st :: l2)%list → restarted st a disk (set_restart (l1 ++ l2)%list s) s' →
  sys_ok (faulted (bool_decide (is_Some disk) || negb (a_spec a)) s').
Proof.
  intros Hok Hr Hs. assert (Hph : y_fault s = false → phase_of s) by apply Hok.
  destruct Hs as [Hsp|k|pid c Hc Hd Hran|pid err c Hc Hd Hran].
  - eapply phase_ok; [exact Hok|apply Hok| |done|by right]. simpl. rewrite Hsp, !orb_true_r. done.
  - eapply phase_ok; [exact Hok|apply Hok| |done|by right]. simpl.
    intros [HF _]%orb_false_elim. destruct (restart_phase s l1 st l2 (Hph HF) Hr) as (-> & -> & Hp & Hq & Ho & Hk & Hf & Hl & Hm).
    exists None. simpl. rewrite Hp, Hq, Ho, Hf. split_and!; [constructor|done|done].
  - eapply phase_ok; [exact Hok|apply Hran| |done|right; split; [apply Hran|intros _; by eapply ran_running]]. simpl.
    intros [HF _]%orb_false_elim. destruct (restart_phase s l1 st l2 (Hph HF) Hr) as (-> & -> & Hp & Hq & Ho & Hk & Hf & Hl & Hm).
    exists None. simpl. destruct Hran as (_ & -> & _). rewrite Hq, Ho. split_and!; [constructor|done|done].
  - eapply phase_ok; [exact Hok|apply Hran| |done|right; split; [apply Hran|intros _; by eapply ran_running]]. simpl.
    subst disk. by rewrite (bool_decide_eq_true_2 (is_Some _)), orb_true_r by eauto.
Qed.

Lemma lifecycle_step_ok s s' : sys_ok s → step s s' → sys_ok s'.
Proof.
  intros Hok Hst. pose proof (so_chan s Hok) as Hch. destruct Hst.
  - apply set_call_ok; [done|by left|]. intros ch. destruct (Running (c_State (y_c s))); [|done]. by intros [= <-].
  - apply set_call_ok; [done|by eauto|done].
  - apply set_call_ok; [done|by eauto|done].
  - eapply begun_ok; [done..|]. by eapply wp_run, H1; apply containerStart_ok.
  - apply set_call_ok; [done|by left|done].
  - apply set_call_ok; [done|by left|done].
  - eapply (setState_ok i id); [done..|]. left. done.
  - apply set_call_ok; [done|by left|done].
  - apply set_call_ok; [done|by left|done].
  - eapply (setState_ok i id); [done..|]. right. done.
  - by eapply emit_ok.
  - by apply exit_ok.
  - by eapply change_ok.
  - eapply restarted_ok; [done..|].
    exact (wp_run _ _ _ _ _ (restart_does st cancelled a disk now (set_restart (l1 ++ l2)%list s) Hch) H1).
  - apply quiet_container_ok; [done|]. unfold SetRemovalInProgress, on_state in *. run_in H0.
    destruct (RemovalInProgress _); by simplify_eq.
  - apply quiet_container_ok; [done|]. unfold ResetRemovalInProgress, on_state, modify in *. by simplify_eq.
  - apply quiet_container_ok; [done|]. unfold SetDead, on_state, modify in *. by simplify_eq.
Qed.

Lemma init_ok : sys_ok init.
Proof.
  split; [|split|].
  - intros _. exists None. split_and!; [constructor|done|done].
  - done.
  - simpl. intros ch. rewrite elem_of_empty. lia.
  - done.
  - simpl. intros i ch Hi%lookup_empty_Some. done.
Qed.

Lemma reached_sys_ok s : reached s → sys_ok s.
Proof.
  intros Hr. pose proof init_ok as H0. revert H0. unfold reached in Hr.
  induction Hr as [|s1 s2 s3 Hst _ IH]; [done|]. intros Hok. by eapply IH, lifecycle_step_ok.
Qed.

Lemma reachable_phase s : reachable s → phase_of s.
Proof. intros [Hr Hf]. by apply (so_phase s), Hf; apply reached_sys_ok. Qed.

(** ** Properties *)

(** The phases without an event under way. *)
Lemma phase_quiescent aw p n k f :
  phase aw p [] [] n k f →
  aw = None ∧
  (p = NoProc ∧ n = 0%nat ∧ f = (false, false, false) ∨
   (∃ frozen, p = Up frozen ∧ n = 0%nat ∧ k = true ∧ f = (true, frozen, false)) ∨
   p = NoProc ∧ n = 1%nat ∧ f = (true, false, true)).
Proof. inversion 1; simplify_eq; naive_solver. Qed.

(** C28. The state of a container follows its process, as long as no fault has
    happened, that is no write to disk has failed right after a start and no
    restart has found its specification unreadable. When no event is under way,
    a container is then shown as running or paused exactly when its process
    runs or is frozen, and libcontainerd knows it; as restarting exactly when a
    restart is pending, and as dead, created or exited otherwise. With faults
    or without, the state string is one of the valid ones and no state change
    panics. *)
Theorem lifecycle_tracks s :
  reached s →
  (y_fault s = false → y_q s = [] → y_owed s = [] →
    let st := c_State (y_c s) in
    match y_proc s with
    | Up frozen => Running st = true ∧ Paused st = frozen ∧ y_restart s = [] ∧ y_known s = true ∧
        StateString st = if frozen then "paused" else "running"
    | NoProc => Pid st = 0%Z ∧ Paused st = false ∧
        StateString st = if decide (y_restart s = []) then
                           if Dead st then "dead" else if decide (StartedAt st = 0%Z) then "created" else "exited"
                         else "restarting"
    end) ∧
  IsValidStateString (StateString (c_State (y_c s))) = true ∧
  ∀ e disk now, ∃ r c, StateChanged e disk now (y_c s) = Ret r c.
Proof.
  intros Hok%reached_sys_ok. pose proof Hok as [Hph Hch _]. split_and!.
  - intros (aw & Hp & _)%Hph Hq Ho. rewrite Hq, Ho in Hp. simpl in Hp. pose proof (ch_pid _ Hch) as Hpid. unfold StateString.
    apply phase_quiescent in Hp as [_ [(E & Er & Ef)|[(fr & E & Er & Hk & Ef)|(E & Er & Ef)]]]; rewrite E; unfold flags in Ef;
      injection Ef as E1 E2 E3; rewrite ?E1, ?E2, ?E3 in *.
    + apply nil_length_inv in Er. rewrite (decide_True (P := y_restart s = [])) by done. by auto.
    + apply nil_length_inv in Er. split_and!; [done|done|done|done|by destruct fr].
    + rewrite (decide_False (P := y_restart s = [])) by (intros H; by rewrite H in Er). by auto.
  - unfold StateString. by repeat case_match.
  - intros e disk now. destruct (StateChanged_ok e disk now (y_c s) Hch) as (r & c & E & _). eauto.
Qed.

(** The call [i] waits for the process to be resumed behind an exit that waits
    for the lock the call holds. *)
Definition stuck (i : nat) (s : sys) : Prop :=
  y_lock s = Some i ∧ y_calls s !! i = Some (PWaiting StateResume) ∧ y_proc s = NoProc ∧ y_restart s = [] ∧
  Paused (c_State (y_c s)) = true ∧ ∃ e q, y_q s = e :: q ∧ takesLock (si_State e) = true.

Lemma stuck_step i s s' : stuck i s → step s s' → stuck i s'.
Proof.
  intros (Hl & Hi & Hp & Hr & Hpa & e & q & Hq & He) Hst. destruct Hst; try congruence.
  - split_and!; try done; [|by exists e, q]. simpl. rewrite lookup_insert_ne; [done|]. intros ->. congruence.
  - split_and!; try done. simpl. rewrite Hq. destruct (y_known s); by eexists e, _.
  - assert (e0 = e) as -> by congruence. by rewrite H0 in Hl.
  - rewrite Hr in H. by destruct l1.
Qed.

Lemma rtc_stays {A} (R : A → A → Prop) (P : A → Prop) :
  (∀ x y, P x → R x y → P y) → ∀ x y, rtc R x y → P x → P y.
Proof. intros HP x y Hr. induction Hr as [|x1 x2 x3 Hst _ IH]; [done|]. eauto. Qed.

(** C29. An unpause can take the container for ever: from every quiet state in
    which the container is paused, a call of [containerUnpause] and an exit of
    the process that is reported before the resumption lead to a state after
    which, whatever happens, the call has not returned, holds the lock of the
    container, and the container is shown as paused though its process is
    gone. *)
Theorem lifecycle_unpause_deadlock s i :
  reachable s → y_proc s = Up true → y_q s = [] → y_owed s = [] → y_calls s !! i = None →
  ∃ s1, rtc step s s1 ∧ ∀ s2, rtc step s1 s2 →
    y_lock s2 = Some i ∧ y_calls s2 !! i = Some (PWaiting StateResume) ∧ y_proc s2 = NoProc ∧
    Paused (c_State (y_c s2)) = true.
Proof.
  intros Hr Hp Hq Ho Hi. destruct (reachable_phase s Hr) as (aw & Hph & Hl & _).
  rewrite Hq, Ho, Hp in Hph. simpl in Hph.
  apply phase_quiescent in Hph as [-> [(E & _)|[(fr & E & Er & Hk & Ef)|(E & _)]]]; [done| |done]. injection E as <-.
  unfold flags in Ef. injection Ef as E1 E2 E3. apply nil_length_inv in Er.
  assert (Hu : step s (setState i StateResume false s)).
  { apply (s_unpause s i "c"); [done|done| |done|done]. unfold unpauseGuard. by rewrite E1, E2. }
  eexists. split.
  { eapply rtc_l; [exact Hu|]. apply rtc_once, (s_exit _ 137 false false). done. }
  intros s2 Hr2. apply (rtc_stays _ _ (stuck_step i)) in Hr2 as (? & ? & ? & _ & ? & _); [done|].
  unfold exited. simpl. rewrite Hk. split_and!; simpl; [done|by rewrite lookup_insert_eq|done|done|done|].
  rewrite Hq. by eexists _, _.
Qed.

(** The wait channel changes only when an exit or a restart is taken out of the
    queue. *)
Lemma step_chan s s' :
  sys_ok s → step s s' →
  waitChan (c_State (y_c s')) = waitChan (c_State (y_c s)) ∧ (length (y_q s) ≤ length (y_q s'))%nat ∨
  ∃ e q, y_q s = e :: q ∧ y_q s' = q ∧
    waitChan (c_State (y_c s')) = (if takesLock (si_State e) then S (waitChan (c_State (y_c s))) else waitChan (c_State (y_c s))).
Proof.
  intros Hok Hst. pose proof (so_chan s Hok) as Hch. destruct Hst; try by left.
  - pose proof (wp_run _ _ _ _ _ (containerStart_ok id path prep setup a disk now s Hch) H1) as Hb. left.
    destruct Hb as [? ? (_ & _ & _ & ? & _)|? ? _ _ _ _ (_ & _ & ?)|? ? ? _ _ _ _ (_ & _ & ?)]; done.
  - left. simpl. destruct (y_known s); rewrite ?length_app; split; (done || simpl; lia).
  - left. unfold exited. simpl. destruct (y_known s); simpl; rewrite ?length_app; split; (done || simpl; lia).
  - right. destruct (StateChanged_ok e disk now (y_c s) Hch) as (? & ? & E & _ & _ & Hw). rewrite H1 in E. injection E as <- <-.
    destruct (changed_frame e c q s) as (-> & _ & -> & _). by exists e, q.
  - pose proof (wp_run _ _ _ _ _ (restart_does st cancelled a disk now (set_restart (l1 ++ l2)%list s) Hch) H1) as Hb. left.
    destruct Hb as [|k|? ? _ _ (_ & _ & ?)|? ? ? _ _ (_ & _ & ?)]; simpl; rewrite ?length_app; split; (done || simpl; lia).
  - unfold SetRemovalInProgress, on_state in *. run_in H0. left. destruct (RemovalInProgress _); by simplify_eq.
  - unfold ResetRemovalInProgress, on_state, modify in *. left. by simplify_eq.
  - unfold SetDead, on_state, modify in *. left. by simplify_eq.
Qed.

Lemma restart_run e disk now c :
  chan_ok c → si_State e = StateRestart →
  ∃ r c', StateChanged e disk now c = Ret r c' ∧ waitChan (c_State c) ∈ c_closed c' ∧
    c_events c' = (c_events c ++ [("die", [("exitCode", Itoa (si_ExitCode e))])])%list.
Proof.
  intros [Hn Hc _] He. unfold StateChanged. rewrite He. unfold SetRestarting, fireWaiters, on_state, set_counters,
    LogContainerEventWithAttributes, modify, mbind, M_bind. simpl.
  rewrite decide_False; [|rewrite Hc; lia]. eexists _, _. split; [done|]. split; [simpl; set_solver|done].
Qed.

Lemma started_run pid now c :
  ∃ c', StateChanged (mkStateInfo StateStart pid 0 "" false) None now c = Ret (Ok ()) c' ∧ exitCode (c_State c') = 0%Z ∧
    c_closed c' = c_closed c ∧ c_events c' = (c_events c ++ [("start", [])])%list.
Proof. by eexists. Qed.

#[local] Arguments StateChanged : simpl never.

(** A start that containerd accepts. *)
Lemma start_run pid disk now s r c :
  StateChanged (mkStateInfo StateStart pid 0 "" false) disk now (y_c s) = Ret r c →
  start (mkAttempt true None (Ok pid)) disk now s = Ret r (set_container c (set_proc (Up false) (set_known true s))).
Proof. intros E. unfold start, on_container, modify, mbind, M_bind. simpl. by rewrite E. Qed.

(** The event taken out of the queue by a step is an exit or a restart. *)
Definition stops (s s' : sys) : Prop :=
  ∃ e q, y_q s = e :: q ∧ y_q s' = q ∧ (si_State e = StateExit ∨ si_State e = StateRestart).

Lemma takesLock_stops t : takesLock t = true ↔ t = StateExit ∨ t = StateRestart.
Proof. destruct t; naive_solver. Qed.

Lemma stops_chan s s' :
  sys_ok s → step s s' →
  stops s s' ∧ waitChan (c_State (y_c s')) = S (waitChan (c_State (y_c s))) ∨
  ¬ stops s s' ∧ waitChan (c_State (y_c s')) = waitChan (c_State (y_c s)).
Proof.
  intros Hok Hst. destruct (step_chan s s' Hok Hst) as [[Hw Hl]|(e & q & Hq & Hq' & Hw)].
  - right. split; [|done]. intros (e & q & Hq & Hq' & _). rewrite Hq, Hq' in Hl. simpl in Hl. lia.
  - destruct (takesLock (si_State e)) eqn:Ht.
    + left. split; [|done]. apply takesLock_stops in Ht. by exists e, q.
    + right. split; [|done]. intros (e' & q' & Hq1 & _ & He'%takesLock_stops). congruence.
Qed.

(** The container is restarted and the call woken after that. *)
Lemma wakes_after_restart s i code :
  reachable s → y_calls s !! i = Some (WWaiting (waitChan (c_State (y_c s)))) →
  y_proc s = Up false → y_q s = [] → y_owed s = [] →
  ∃ s', rtc step s s' ∧ y_calls s' !! i = Some (WReturned (Ok 0%Z)) ∧
    c_events (y_c s') = (c_events (y_c s) ++ [("die", [("exitCode", Itoa code)]); ("start", [])])%list.
Proof.
  intros Hr Hi Hp Hq Ho. destruct (reachable_phase s Hr) as (aw & Hph & Hl & _).
  pose proof (so_chan _ (reached_sys_ok s (proj1 Hr))) as Hch.
  rewrite Hq, Ho, Hp in Hph. simpl in Hph.
  apply phase_quiescent in Hph as [-> [(E & _)|[(fr & _ & Er & Hk & _)|(E & _)]]]; [done| |done]. apply nil_length_inv in Er.
  set (e := handleEvent StateExit code true "" false true).
  destruct (restart_run e None 0 (y_c s) Hch eq_refl) as (r1 & c1 & E1 & Hc1 & Hev1).
  destruct (started_run 1 0 c1) as (c2 & E2 & Hx & Hcl2 & Hev2).
  set (s1 := set_known false (enqueue e (set_proc NoProc s))). set (s2 := changed e c1 [] s1).
  set (s3 := set_container c2 (set_proc (Up false) (set_known true (set_restart [] s2)))).
  exists (WaitStop_end i (faulted false s3)). split_and!.
  + eapply rtc_l; [apply (s_exit s code false true); done|]. unfold exited. simpl. rewrite Hk. fold e s1.
    eapply rtc_l; [apply (s_change s1 e [] None 0 r1 c1); [simpl; by rewrite Hq|done|done]|]. fold s2.
    eapply rtc_l.
    { eapply (s_restart s2 [] e [] false (mkAttempt true None (Ok 1%Z)) None 0 s3); [simpl; by rewrite Er|by left|].
      unfold restart, mbind, M_bind. cbn [app]. by rewrite (start_run 1 None 0 (set_restart [] s2) _ _ E2). }
    apply rtc_once, (s_wake _ i (waitChan (c_State (y_c s)))); [done| |done].
    change (waitChan (c_State (y_c s)) ∈ c_closed c2). by rewrite Hcl2.
  + unfold WaitStop_end. simpl. rewrite lookup_insert_eq. by rewrite Hx.
  + unfold WaitStop_end, s3. simpl. by rewrite Hev2, Hev1, <-app_assoc.
Qed.

(** C30. A call of [WaitStop] that waits is woken exactly by a stop or a restart
    of the container: it begins to wait on a channel that is open, the channel
    is closed by the step that handles an exit or a restart of the queue and by
    no other step, faults included, and stays closed; as long as it is open,
    the container is running. What the call then returns need not be the code
    of that exit: when the container is restarted before the call has the lock,
    it reports 0 for any code. *)
Theorem waitstop_wakes s :
  reached s →
  (∀ i, Running (c_State (y_c s)) = true →
    ∃ ch, y_calls (WaitStop_begin i s) !! i = Some (WWaiting ch) ∧ ch ∉ c_closed (y_c s)) ∧
  (∀ i, Running (c_State (y_c s)) = false →
    y_calls (WaitStop_begin i s) !! i = Some (WReturned (Ok (exitCode (c_State (y_c s)))))) ∧
  (∀ i ch, y_calls s !! i = Some (WWaiting ch) →
    (ch ∉ c_closed (y_c s) → Running (c_State (y_c s)) = true) ∧
    (∀ s', step s s' → (ch ∈ c_closed (y_c s') ↔ ch ∈ c_closed (y_c s) ∨ stops s s')) ∧
    (y_fault s = false → y_proc s = Up false → y_q s = [] → y_owed s = [] → ch ∉ c_closed (y_c s) → ∀ code,
      ∃ s', rtc step s s' ∧ y_calls s' !! i = Some (WReturned (Ok 0%Z)) ∧
        c_events (y_c s') = (c_events (y_c s) ++ [("die", [("exitCode", Itoa code)]); ("start", [])])%list)).
Proof.
  intros Hr. pose proof (reached_sys_ok s Hr) as Hok. pose proof (ch_closed _ (so_chan s Hok)) as Hcl. split_and!.
  - intros i HR. unfold WaitStop_begin. simpl. rewrite HR, lookup_insert_eq. eexists. split; [done|]. rewrite Hcl. lia.
  - intros i HR. unfold WaitStop_begin. simpl. by rewrite HR, lookup_insert_eq.
  - intros i ch Hi. destruct (so_wait s Hok i ch Hi) as [Hle HR]. split_and!.
    + rewrite Hcl. intros ?. apply HR. lia.
    + intros s' Hst. rewrite Hcl, (ch_closed _ (so_chan s' (lifecycle_step_ok s s' Hok Hst))).
      destruct (stops_chan s s' Hok Hst) as [[H ->]|[H ->]]; [|naive_solver]. split; [intros; by right|lia].
    + intros Hf Hp Hq Ho Hn code. assert (ch = waitChan (c_State (y_c s))) as -> by (rewrite Hcl in Hn; lia).
      by apply wakes_after_restart.
Qed.

(** *** Faults *)

(** A container that libcontainerd does not know and that is shown as running. *)
Definition orphaned (s : sys) : Prop :=
  y_known s = false ∧ y_lock s = None ∧ y_q s = [] ∧ y_owed s = [] ∧ y_restart s = [] ∧ flags (y_c s) = (true, false, false).

(** A container that waits for a restart that nobody makes. *)
Definition abandoned (s : sys) : Prop :=
  y_proc s = NoProc ∧ y_lock s = None ∧ y_q s = [] ∧ y_owed s = [] ∧ y_restart s = [] ∧ flags (y_c s) = (true, false, true).

(** A stopped container that libcontainerd takes for active. *)
Definition occupied (s : sys) : Prop :=
  y_proc s = NoProc ∧ y_known s = true ∧ y_lock s = None ∧ y_q s = [] ∧ y_owed s = [] ∧ y_restart s = [] ∧
  flags (y_c s) = (false, false, false).

(** A step from a state without events keeps the flags when the start of the
    daemon does. *)
Lemma still_step (P : sys → Prop) s s' :
  (∀ c, quiet (y_c s) c → P (set_container c s)) → (∀ i c, P (set_call i c s)) → (∀ b x, P x → P (faulted b x)) →
  (∀ status oom restart, y_proc s = Up false → P (exited status oom restart s)) →
  (Running (c_State (y_c s)) = false → y_known s = true) →
  (y_known s = false ∨ Running (c_State (y_c s)) = false ∨ Restarting (c_State (y_c s)) = true ∧ Paused (c_State (y_c s)) = false) →
  chan_ok (y_c s) → y_q s = [] → y_owed s = [] → y_restart s = [] → step s s' → P s'.
Proof.
  intros Hq Hc Hb Hx Hk Hpg Hch Eq Eo Er Hst. destruct Hst; try done; try congruence.
  - by apply Hc.
  - by apply Hc.
  - apply Hb. pose proof (wp_run _ _ _ _ _ (containerStart_ok id path prep setup a disk now s Hch) H1) as Hs.
    destruct Hs as [? c ?|? ? HR Hn|? ? ? HR Hn]; [by apply Hq|apply Hk in HR; congruence..].
  - unfold pauseGuard in *. exfalso. destruct (Running _), (Paused _), (Restarting _); naive_solver congruence.
  - unfold unpauseGuard in *. exfalso. destruct (Running _), (Paused _), (Restarting _); naive_solver congruence.
  - by apply Hx.
  - rewrite Er in H. by destruct l1.
  - apply Hq. unfold SetRemovalInProgress, on_state in *. run_in H0. destruct (RemovalInProgress _); by simplify_eq.
  - apply Hq. unfold ResetRemovalInProgress, on_state, modify in *. by simplify_eq.
  - apply Hq. unfold SetDead, on_state, modify in *. by simplify_eq.
Qed.

Lemma quiet_flags c c' : quiet c c' → flags c' = flags c.
Proof. by intros (_ & _ & ? & _). Qed.

Ltac flags_of H := let E1 := fresh in let E2 := fresh in let E3 := fresh in
  pose proof H as E1; unfold flags in E1; injection E1 as E1 E2 E3.

Lemma orphaned_step s s' : chan_ok (y_c s) ∧ orphaned s → step s s' → chan_ok (y_c s') ∧ orphaned s'.
Proof.
  intros [Hch (Hk & Hl & Hq & Ho & Hr & Hf)] Hst. flags_of Hf.
  apply (still_step (λ s, chan_ok (y_c s) ∧ orphaned s) s s'); auto; try congruence.
  - intros c Hc. split; [by eapply quiet_chan_ok|]. unfold orphaned. simpl. by rewrite (quiet_flags _ _ Hc).
  - done.
  - intros status oom restart Hp. unfold exited. simpl. by rewrite Hk.
Qed.

Lemma abandoned_step s s' : chan_ok (y_c s) ∧ abandoned s → step s s' → chan_ok (y_c s') ∧ abandoned s'.
Proof.
  intros [Hch (Hp & Hl & Hq & Ho & Hr & Hf)] Hst. flags_of Hf.
  apply (still_step (λ s, chan_ok (y_c s) ∧ abandoned s) s s'); auto; try congruence.
  - intros c Hc. split; [by eapply quiet_chan_ok|]. unfold abandoned. simpl. by rewrite (quiet_flags _ _ Hc).
  - done.
Qed.

Lemma occupied_step s s' : chan_ok (y_c s) ∧ occupied s → step s s' → chan_ok (y_c s') ∧ occupied s'.
Proof.
  intros [Hch (Hp & Hk & Hl & Hq & Ho & Hr & Hf)] Hst. flags_of Hf.
  apply (still_step (λ s, chan_ok (y_c s) ∧ occupied s) s s'); auto; try congruence.
  - intros c Hc. split; [by eapply quiet_chan_ok|]. unfold occupied. simpl. by rewrite (quiet_flags _ _ Hc).
  - done.
Qed.

(** The exit that a failed restart has put into the queue is handled. *)
Lemma exit_handled st s :
  chan_ok (y_c s) → y_q s = [asExit st] → y_lock s = None →
  ∃ c, step s (set_container c (mkSys (y_c s) None (y_proc s) [] (y_owed s) (y_restart s) (y_monitor s) (y_calls s) (y_known s) (y_fault s))) ∧
    chan_ok c ∧ flags c = (false, false, false).
Proof.
  intros Hch Hq Hl. destruct (StateChanged_ok (asExit st) None 0 (y_c s) Hch) as (r & c & E & Hc & Hf & _).
  exists c. split_and!; [|done|rewrite Hf; by destruct (flags (y_c s)) as [[??]?]].
  pose proof (s_change s (asExit st) [] None 0 r c Hq (λ _, Hl) E) as H. unfold changed, afterChange in H. by rewrite Hl in H.
Qed.

(** A start whose write fails. *)
Lemma start_unsaved id path pid now err s :
  chan_ok (y_c s) → Running (c_State (y_c s)) = false → RemovalInProgress (c_State (y_c s)) || Dead (c_State (y_c s)) = false →
  y_known s = false →
  wp (containerStart id path None None (mkAttempt true None (Ok pid)) (Some err) now)
    (λ r s1, r = Err err ∧ ∃ c, s1 = set_container c (set_proc (Up false) s) ∧ chan_ok c ∧ flags c = (true, false, false)) s.
Proof.
  intros Hch HR Hrm Hk. unfold containerStart. wp_steps. rewrite HR, Hrm. wp_steps.
  apply on_container_wp. unfold set_counters. wp_steps. set (c1 := mkContainer _ _ _ _ _ _).
  destruct (StateChanged_ok (mkStateInfo StateStart pid 0 "" false) (Some err) now c1) as (r & c & E & Hc & Hf & _);
    [by eapply quiet_chan_ok, Hch|].
  assert (r = Err err) as -> by (unfold StateChanged in E; simpl in E; run_in E; by injection E).
  unfold Create. wp_steps. simpl. rewrite Hk. wp_steps. eapply wp_ran; [exact (start_run pid _ _ (set_container c1 s) _ _ E)|].
  wp_steps. apply on_container_wp. eapply wp_mono; [apply failed_ok|]. simpl. intros r c' [-> Hq]. split; [done|].
  exists c'. split_and!; [|by eapply quiet_chan_ok|].
  - unfold set_container, set_known, set_proc. simpl. by rewrite Hk.
  - rewrite (quiet_flags _ _ Hq), Hf. by destruct (flags c1) as [[??]?].
Qed.

(** C36. What a fault leaves behind, from any state without one. A start whose
    write to disk fails returns the error with the process up, which
    libcontainerd has forgotten: from then on the container is shown as running
    for ever, and it still is when the process has exited. A restart whose
    write fails ends in a container that is shown as stopped while its process
    runs. A restart that cannot read its specification reports no error: the
    container is shown as restarting for ever and no process is started. And,
    without any fault, a restart that containerd refuses ends in a stopped
    container that libcontainerd takes for active, so that no later start
    succeeds. *)
Theorem lifecycle_faults s :
  reachable s →
  (∀ id path pid now err,
    y_known s = false → Running (c_State (y_c s)) = false → RemovalInProgress (c_State (y_c s)) = false → Dead (c_State (y_c s)) = false →
    ∃ s1, containerStart id path None None (mkAttempt true None (Ok pid)) (Some err) now s = Ret (Err err) s1 ∧
      y_proc s1 = Up false ∧
      (∀ s2, rtc step (faulted true s1) s2 → StateString (c_State (y_c s2)) = "running" ∧ y_known s2 = false) ∧
      ∃ s2, rtc step (faulted true s1) s2 ∧ y_proc s2 = NoProc) ∧
  (∀ st, y_restart s = [st] →
    (∀ pid now err, ∃ s1, restart st false (mkAttempt true None (Ok pid)) (Some err) now (set_restart [] s) = Ret () s1 ∧
      ∃ s2, step (faulted true s1) s2 ∧ y_proc s2 = Up false ∧ Running (c_State (y_c s2)) = false ∧ y_q s2 = [] ∧ y_owed s2 = []) ∧
    (∀ fifos create disk now, ∃ s1, restart st false (mkAttempt false fifos create) disk now (set_restart [] s) = Ret () s1 ∧
      ∀ s2, rtc step (faulted true s1) s2 → StateString (c_State (y_c s2)) = "restarting" ∧ y_proc s2 = NoProc ∧ y_restart s2 = []) ∧
    (∀ err disk now, ∃ s1, restart st false (mkAttempt true None (Err err)) disk now (set_restart [] s) = Ret () s1 ∧
      ∃ s2, step s1 s2 ∧
        ∀ s3, rtc step s2 s3 → y_proc s3 = NoProc ∧ Running (c_State (y_c s3)) = false ∧
          ∀ id setup a d t, Create id setup a d t s3 = Ret (Err ("Container " ++ id ++ " is already active")) s3)).
Proof.
  intros Hr. pose proof (so_chan s (reached_sys_ok s (proj1 Hr))) as Hch. pose proof (reachable_phase s Hr) as Hph. split.
  - intros id path pid now err Hk HR Hrm Hd.
    destruct (wp_inv _ _ _ (start_unsaved id path pid now err s Hch HR ltac:(by rewrite Hrm, Hd) Hk)) as (r & s1 & E & -> & c & -> & Hc & Hf).
    exists (set_container c (set_proc (Up false) s)). split_and!; [done|done| |].
    + intros s2 Hr2. eapply (rtc_stays _ _ orphaned_step) in Hr2 as [_ (? & _ & _ & _ & _ & Hf2)].
      { flags_of Hf2. unfold StateString. split; [|done]. by repeat match goal with H : _ = _ |- _ => rewrite H end. }
      destruct Hph as (aw & Hp & Hl & _). unfold flags in Hp. rewrite HR in Hp. inversion Hp; subst aw.
      split; [done|]. split_and!; simpl; try done; [by eapply fmap_nil_inv..|by apply nil_length_inv].
    + eexists. split; [by apply rtc_once, (s_exit _ 0 false false)|]. unfold exited. simpl. by rewrite Hk.
  - intros st Hst. destruct (restart_phase s [] st [] Hph Hst) as (_ & _ & Hp & Hq & Ho & Hk & Hf & Hl & Hm). split_and!.
    + intros pid now err. pose proof (StateChanged_ok (mkStateInfo StateStart pid 0 "" false) (Some err) now (y_c s) Hch) as (r & c & E & Hc & _).
      assert (r = Err err) as -> by (unfold StateChanged in E; run_in E; by injection E).
      eexists. split; [unfold restart, mbind, M_bind; by rewrite (start_run pid _ _ (set_restart [] s) _ _ E)|].
      edestruct (exit_handled st) as (c2 & Hs & _ & Hf2); [| | |eexists; split; [exact Hs|]]; simpl; [done|by rewrite Hq|done|].
      flags_of Hf2. done.
    + intros fifos create disk now. eexists. split; [done|]. intros s2 Hr2.
      eapply (rtc_stays _ _ abandoned_step) in Hr2 as [_ (? & _ & _ & _ & ? & Hf2)]; [|by split_and!].
      flags_of Hf2. unfold StateString. split_and!; [|done|done]. by repeat match goal with H : _ = _ |- _ => rewrite H end.
    + intros err disk now. eexists. split; [done|]. simpl.
      edestruct (exit_handled st) as (c2 & Hs & Hc2 & Hf2); [| | |eexists; split; [exact Hs|]]; simpl; [done|by rewrite Hq|done|].
      intros s3 Hr3. eapply (rtc_stays _ _ occupied_step) in Hr3 as [_ (? & Hk3 & _ & _ & _ & _ & Hf3)]; [|by split_and!].
      flags_of Hf3. split_and!; [done|done|]. intros. unfold Create, read, mbind, M_bind. by rewrite Hk3.
Qed.

(** ** A concrete life *)

Module ConcreteLife.
(** The container is started, a call waits for it and another pauses it. *)
Definition up : attempt := mkAttempt true None (Ok 42%Z).
Definition started : sys := Eval vm_compute in
  faulted false (match containerStart "c" "/bin/sh" None None up None 1 init with Ret _ s => s | _ => init end).
Definition waited : sys := Eval vm_compute in WaitStop_begin 0 started.
Definition pausing : sys := setState 1 StatePause true waited.
Definition pauseEvent : StateInfo := handleEvent StatePause 0 true "" false false.
Definition sent : sys := emitted pauseEvent [] pausing.
Definition paused_c : Container := Eval vm_compute in
  match StateChanged pauseEvent None 2 (y_c sent) with Ret _ c => c | _ => y_c init end.
Definition paused : sys := changed pauseEvent paused_c [] sent.

Lemma waited_reachable : reachable waited.
Proof.
  split; [|done]. eapply rtc_l; [eapply (s_start init "c" "/bin/sh" None None up None 1); [done|by left|by vm_compute]|].
  apply rtc_once. by apply (s_wait started 0).
Qed.

Lemma paused_reachable : reachable paused.
Proof.
  split; [|done]. unfold reached. transitivity waited; [exact (proj1 waited_reachable)|].
  eapply rtc_l; [by apply (s_pause waited 1 "c")|]. fold pausing.
  eapply rtc_l; [by apply (s_emit pausing pauseEvent [])|].
  apply rtc_once. by apply (s_change sent pauseEvent [] None 2 (Ok ()) paused_c).
Qed.

(** The process exits with code 3 and is to be restarted. *)
Definition exitEvent : StateInfo := handleEvent StateExit 3 true "" false true.
Definition gone : sys := Eval vm_compute in exited 3 false true waited.
Definition pending_c : Container := Eval vm_compute in
  match StateChanged exitEvent None 2 (y_c gone) with Ret _ c => c | _ => y_c init end.
Definition pending : sys := changed exitEvent pending_c [] gone.

Lemma pending_reachable : reachable pending.
Proof.
  split; [|done]. unfold reached. transitivity waited; [exact (proj1 waited_reachable)|].
  eapply rtc_l; [by apply (s_exit waited 3 false true)|].
  apply rtc_once. by apply (s_change gone exitEvent [] None 2 (Ok ()) pending_c).
Qed.

Lemma lifecycle_tracks_witness : StateString (c_State (y_c paused)) = "paused" ∧ Running (c_State (y_c paused)) = true.
Proof.
  destruct (lifecycle_tracks paused (proj1 paused_reachable)) as [H _].
  by destruct (H eq_refl eq_refl eq_refl) as (? & _ & _ & _ & ?).
Defined.

Lemma lifecycle_unpause_deadlock_witness :
  ∃ s1, rtc step paused s1 ∧ y_lock s1 = Some 2%nat ∧ y_proc s1 = NoProc ∧ Paused (c_State (y_c s1)) = true.
Proof.
  destruct (lifecycle_unpause_deadlock paused 2 paused_reachable eq_refl eq_refl eq_refl eq_refl) as (s1 & Hr & Hs).
  exists s1. split; [done|]. destruct (Hs s1 (rtc_refl _ _)) as (? & _ & ? & ?). done.
Defined.

Lemma waitstop_wakes_witness :
  (∃ s', rtc step waited s' ∧ y_calls s' !! 0%nat = Some (WReturned (Ok 0%Z)) ∧
    c_events (y_c s') = [("start", []); ("die", [("exitCode", "1")]); ("start", [])]) ∧
  0%nat ∈ c_closed (y_c pending).
Proof.
  split.
  - destruct (waitstop_wakes waited (proj1 waited_reachable)) as (_ & _ & H).
    destruct (H 0%nat 0%nat eq_refl) as (_ & _ & H'). refine (H' eq_refl eq_refl eq_refl eq_refl _ 1%Z). by vm_compute.
  - destruct (waitstop_wakes gone (rtc_r _ _ _ (proj1 waited_reachable) (s_exit waited 3 false true eq_refl))) as (_ & _ & H).
    destruct (H 0%nat 0%nat eq_refl) as (_ & H' & _).
    apply (H' pending (s_change gone exitEvent [] None 2 (Ok ()) pending_c eq_refl (λ _, eq_refl) eq_refl)).
    right. exists exitEvent, []. split; [reflexivity|split; [reflexivity|by right]].
Defined.

Lemma lifecycle_faults_witness :
  (∃ s1, containerStart "c" "/bin/sh" None None up (Some "no space left on device") 1 init =
      Ret (Err "no space left on device") s1 ∧ y_proc s1 = Up false) ∧
  (∃ s1, restart exitEvent false (mkAttempt false None (Ok 43%Z)) None 3 (set_restart [] pending) = Ret () s1 ∧
    StateString (c_State (y_c s1)) = "restarting" ∧ y_restart s1 = []).
Proof.
  split.
  - destruct (lifecycle_faults init (conj (rtc_refl _ _) eq_refl)) as [H _].
    destruct (H "c" "/bin/sh" 42%Z 1%Z "no space left on device" eq_refl eq_refl eq_refl eq_refl) as (s1 & E & Hp & _). by exists s1.
  - destruct (lifecycle_faults pending pending_reachable) as [_ H]. destruct (H exitEvent eq_refl) as (_ & H' & _).
    destruct (H' None (Ok 43%Z) None 3%Z) as (s1 & E & Hs). exists s1. split; [done|].
    destruct (Hs _ (rtc_refl _ _)) as (? & _ & ?). done.
Defined.
End ConcreteLife.
