(* ===== verification/Runes.v ===== *)
(** Runes and UTF-8: the parts of Go's [unicode], [unicode/utf8], [strings],
    [regexp] and [text/scanner] packages that the Dockerfile front end uses.
    A Go string is a sequence of bytes (Rocq's [string]); a rune is a code point
    in [Z].  The tables of package unicode are exact up to U+00FF and a class
    above it. *)

From Stdlib Require Import Ascii.
From S2P Require Import Prelude GoStrings.

Local Open Scope Z_scope.

Abbreviation rune := Z (only parsing).

(** ** Package unicode *)

(** The tables above U+00FF. *)
Class Unicode := {
  uni_space : rune → bool;
  uni_letter : rune → bool;
  uni_digit : rune → bool;
  uni_print : rune → bool;
  uni_lower : rune → rune;
  uni_upper : rune → rune }.

(** Text within the Latin-1 block. *)
Definition latin1 : Unicode := {| uni_space _ := false; uni_letter _ := false; uni_digit _ := false; uni_print _ := true;
  uni_lower r := r; uni_upper r := r |}.

(** Letters of the Latin-1 block: the ASCII letters, the two ordinal
    indicators, the micro sign, and U+00C0 to U+00FF but for the signs of
    multiplication and division. *)
Definition latin1_letter (r : rune) : bool :=
  bool_decide (65 ≤ r ≤ 90) || bool_decide (97 ≤ r ≤ 122) || bool_decide (r = 170) || bool_decide (r = 181)
  || bool_decide (r = 186) || (bool_decide (192 ≤ r ≤ 255) && negb (bool_decide (r = 215 ∨ r = 247))).

Module unicode.
Section tables.
  Context `{Unicode}.

Definition IsSpace (r : rune) : bool :=
  if decide (r ≤ 255) then bool_decide (9 ≤ r ≤ 13 ∨ r = 32 ∨ r = 133 ∨ r = 160) else uni_space r.
Definition IsLetter (r : rune) : bool := if decide (r ≤ 255) then latin1_letter r else uni_letter r.
Definition IsDigit (r : rune) : bool := if decide (r ≤ 255) then bool_decide (48 ≤ r ≤ 57) else uni_digit r.
Definition ToLower (r : rune) : rune :=
  if decide (r ≤ 255) then
    if decide (65 ≤ r ≤ 90 ∨ (192 ≤ r ≤ 222 ∧ r ≠ 215)) then r + 32 else r
  else uni_lower r.
Definition ToUpper (r : rune) : rune :=
  if decide (r ≤ 255) then
    if decide (97 ≤ r ≤ 122 ∨ (224 ≤ r ≤ 254 ∧ r ≠ 247)) then r - 32
    else if decide (r = 255) then 376 else if decide (r = 181) then 924 else r
  else uni_upper r.
(** [strconv.IsPrint]. *)
Definition IsPrint (r : rune) : bool :=
  if decide (r ≤ 255) then bool_decide (32 ≤ r ≤ 126 ∨ (161 ≤ r ∧ r ≠ 173)) else uni_print r.
End tables.
End unicode.

(** ** Package unicode/utf8 *)

Definition RuneError : rune := 65533.
Definition BOM : rune := 65279.

(** Unicode scalar values. *)
Definition ValidRune (r : rune) : bool := bool_decide (0 ≤ r < 55296 ∨ 57344 ≤ r ≤ 1114111).

Definition Z_of_char (c : ascii) : Z := Z.of_N (N_of_ascii c).
Definition char_of_Z (z : Z) : ascii := ascii_of_N (Z.to_N z).

(** The bytes of a rune, [utf8.EncodeRune]. *)
Definition encode_valid (r : rune) : string :=
  if decide (r < 128) then String (char_of_Z r) EmptyString
  else if decide (r < 2048) then
    String (char_of_Z (192 + r `div` 64)) (String (char_of_Z (128 + r `mod` 64)) EmptyString)
  else if decide (r < 65536) then
    String (char_of_Z (224 + r `div` 4096)) (String (char_of_Z (128 + (r `div` 64) `mod` 64))
      (String (char_of_Z (128 + r `mod` 64)) EmptyString))
  else
    String (char_of_Z (240 + r `div` 262144)) (String (char_of_Z (128 + (r `div` 4096) `mod` 64))
      (String (char_of_Z (128 + (r `div` 64) `mod` 64)) (String (char_of_Z (128 + r `mod` 64)) EmptyString))).

(** The conversion [string(r)]. *)
Definition string_of_rune (r : rune) : string := encode_valid (if ValidRune r then r else RuneError).

Definition is_cont (c : ascii) : bool := bool_decide (128 ≤ Z_of_char c ≤ 191).

(** The second bytes that a first byte accepts. *)
Definition accepts (b : Z) (c : ascii) : bool :=
  let z := Z_of_char c in
  if decide (b = 224) then bool_decide (160 ≤ z ≤ 191)
  else if decide (b = 237) then bool_decide (128 ≤ z ≤ 159)
  else if decide (b = 240) then bool_decide (144 ≤ z ≤ 191)
  else if decide (b = 244) then bool_decide (128 ≤ z ≤ 143)
  else is_cont c.

(** [utf8.DecodeRuneInString] on a string that is not empty: the rune, and the
    rest of the string; an ill-formed sequence gives [RuneError] and one byte is
    consumed. *)
Definition decode_cons (c : ascii) (s : string) : rune * string :=
  let b := Z_of_char c in
  let cont c := Z_of_char c - 128 in
  if decide (b < 128) then (b, s)
  else if decide (194 ≤ b ≤ 223) then
    match s with
    | String c1 s1 => if is_cont c1 then ((b - 192) * 64 + cont c1, s1) else (RuneError, s)
    | EmptyString => (RuneError, s)
    end
  else if decide (224 ≤ b ≤ 239) then
    match s with
    | String c1 (String c2 s2) =>
        if accepts b c1 && is_cont c2 then ((b - 224) * 4096 + cont c1 * 64 + cont c2, s2) else (RuneError, s)
    | _ => (RuneError, s)
    end
  else if decide (240 ≤ b ≤ 244) then
    match s with
    | String c1 (String c2 (String c3 s3)) =>
        if accepts b c1 && is_cont c2 && is_cont c3
        then ((b - 240) * 262144 + cont c1 * 4096 + cont c2 * 64 + cont c3, s3) else (RuneError, s)
    | _ => (RuneError, s)
    end
  else (RuneError, s).

(** The runes of a string, as a [for range] loop or a scanner yields them. *)
Fixpoint runes_fuel (n : nat) (s : string) : list rune :=
  match n, s with
  | S n, String c s => let '(r, s) := decode_cons c s in r :: runes_fuel n s
  | _, _ => []
  end.
Definition runes (s : string) : list rune := runes_fuel (String.length s) s.
Arguments runes : simpl never.

(** The bytes of a list of runes. *)
Fixpoint utf8_string (l : list rune) : string :=
  match l with
  | [] => EmptyString
  | r :: l => (string_of_rune r +:+ utf8_string l)%string
  end.

(** ** Package strings, by runes *)

Module strings.
Section funcs.
  Context `{Unicode}.

(** [TrimLeftFunc] with [unicode.IsSpace]. *)
Fixpoint trim_left (n : nat) (s : string) : string :=
  match n, s with
  | S n, String c s' => let '(r, rest) := decode_cons c s' in if unicode.IsSpace r then trim_left n rest else s
  | _, _ => s
  end.
Definition TrimLeftSpace (s : string) : string := trim_left (String.length s) s.

(** [TrimRightFunc] with [unicode.IsSpace]: the bytes of the runes up to the last
    one that is not white space. *)
Fixpoint trim_right (n : nat) (s : string) : string :=
  match n, s with
  | S n, String c s' =>
      let '(r, rest) := decode_cons c s' in
      let t := trim_right n rest in
      if unicode.IsSpace r && bool_decide (t = EmptyString) then EmptyString
      else (String.substring 0 (String.length s - String.length rest) s +:+ t)%string
  | _, _ => EmptyString
  end.
Definition TrimSpace (s : string) : string := let t := TrimLeftSpace s in trim_right (String.length t) t.

(** [ToLower], which is [Map] with [unicode.ToLower]. *)
Definition ToLower (s : string) : string := utf8_string (unicode.ToLower <$> runes s).
Definition ToUpper (s : string) : string := utf8_string (unicode.ToUpper <$> runes s).
End funcs.
End strings.

(** ** strconv.Quote *)

Definition hex_digit (z : Z) : ascii := char_of_Z (if decide (z < 10) then 48 + z else 87 + z).
Fixpoint hex (n : nat) (z : Z) : string :=
  match n with
  | O => EmptyString
  | S n => (hex n (z `div` 16) +:+ String (hex_digit (z `mod` 16)) EmptyString)%string
  end.

Section quote.
  Context `{Unicode}.
  Local Open Scope string_scope.

(** A rune in a quoted string. *)
Definition quote_rune (r : rune) : string :=
  if decide (r = 34) then String (char_of_Z 92) (String (char_of_Z 34) "")
  else if decide (r = 92) then "\\"
  else if unicode.IsPrint r then string_of_rune r
  else if decide (r = 7) then "\a"
  else if decide (r = 8) then "\b"
  else if decide (r = 12) then "\f"
  else if decide (r = 10) then "\n"
  else if decide (r = 13) then "\r"
  else if decide (r = 9) then "\t"
  else if decide (r = 11) then "\v"
  else if decide (r < 32) then "\x" +:+ hex 2 r
  else if decide (r < 65536) then "\u" +:+ hex 4 r
  else "\U" +:+ hex 8 r.

Fixpoint quote_body (n : nat) (s : string) : string :=
  match n, s with
  | S n, String c s' =>
      let '(r, rest) := decode_cons c s' in
      (* an ill-formed byte *)
      (if decide (r = RuneError ∧ rest = s') then "\x" +:+ hex 2 (Z_of_char c) else quote_rune r) +:+ quote_body n rest
  | _, _ => ""
  end.
Definition Quote (s : string) : string :=
  let q := String (char_of_Z 34) "" in q +:+ quote_body (String.length s) s +:+ q.
End quote.

(** ** Lemmas *)

(** [lia] with quotients and remainders by constants. *)
Ltac div_lia := Z.to_euclidean_division_equations; lia.

Lemma Z_of_char_of_Z z : 0 ≤ z < 256 → Z_of_char (char_of_Z z) = z.
Proof. intros Hz. unfold Z_of_char, char_of_Z. rewrite N_ascii_embedding by lia. lia. Qed.

Lemma Z_of_char_range c : 0 ≤ Z_of_char c < 256.
Proof. unfold Z_of_char. pose proof (N_ascii_bounded c). lia. Qed.

Lemma is_cont_low z : is_cont (char_of_Z (128 + z `mod` 64)) = true.
Proof. apply bool_decide_eq_true_2. pose proof (Z.mod_pos_bound z 64 eq_refl). rewrite Z_of_char_of_Z; lia. Qed.

Lemma cont_low z : Z_of_char (char_of_Z (128 + z `mod` 64)) - 128 = z `mod` 64.
Proof. pose proof (Z.mod_pos_bound z 64 eq_refl). rewrite Z_of_char_of_Z; lia. Qed.

Lemma ValidRune_spec r : ValidRune r = true → 0 ≤ r < 55296 ∨ 57344 ≤ r ≤ 1114111.
Proof. apply bool_decide_eq_true_1. Qed.

Lemma div_64_4096 r : r `div` 4096 = (r `div` 64) `div` 64.
Proof. by rewrite Z.div_div. Qed.
Lemma div_64_262144 r : r `div` 262144 = (r `div` 4096) `div` 64.
Proof. by rewrite Z.div_div. Qed.

(** The second byte of an encoded rune is one that its first byte accepts. *)
Lemma accepts_3 r : 2048 ≤ r < 65536 → ValidRune r = true →
  accepts (224 + r `div` 4096) (char_of_Z (128 + (r `div` 64) `mod` 64)) = true.
Proof.
  intros Hr Hv%ValidRune_spec. rewrite div_64_4096. set (q := r `div` 64).
  assert (32 ≤ q < 1024 ∧ (q < 864 ∨ 896 ≤ q)) as [Hq Hs] by (unfold q; div_lia).
  pose proof (Z.mod_pos_bound q 64 eq_refl). unfold accepts, is_cont. rewrite Z_of_char_of_Z by lia.
  repeat case_decide; apply bool_decide_eq_true_2; div_lia.
Qed.

Lemma accepts_4 r : 65536 ≤ r ≤ 1114111 →
  accepts (240 + r `div` 262144) (char_of_Z (128 + (r `div` 4096) `mod` 64)) = true.
Proof.
  intros Hr. rewrite div_64_262144. set (q := r `div` 4096).
  assert (16 ≤ q < 272) as Hq by (unfold q; div_lia).
  pose proof (Z.mod_pos_bound q 64 eq_refl). unfold accepts, is_cont. rewrite Z_of_char_of_Z by lia.
  repeat case_decide; apply bool_decide_eq_true_2; div_lia.
Qed.

(** Decoding the bytes of a rune gives it back, whatever follows. *)
Lemma decode_encode r t : ValidRune r = true →
  ∃ c s, string_of_rune r = String c s ∧ decode_cons c (s +:+ t)%string = (r, t).
Proof.
  intros Hv. unfold string_of_rune. rewrite Hv. pose proof (ValidRune_spec r Hv) as Hr.
  unfold encode_valid. repeat case_decide; eexists _, _; (split; [reflexivity|]); unfold decode_cons.
  - rewrite Z_of_char_of_Z by div_lia. by rewrite decide_True by div_lia.
  - rewrite (Z_of_char_of_Z (192 + _)) by div_lia. rewrite decide_False, decide_True by div_lia. simpl.
    rewrite is_cont_low, cont_low. f_equal. div_lia.
  - rewrite (Z_of_char_of_Z (224 + _)) by div_lia. rewrite decide_False, decide_False, decide_True by div_lia. simpl.
    rewrite accepts_3, is_cont_low, !cont_low by (done || div_lia). simpl. f_equal. div_lia.
  - rewrite (Z_of_char_of_Z (240 + _)) by div_lia. rewrite !decide_False, decide_True by div_lia. simpl.
    rewrite accepts_4, !is_cont_low, !cont_low by (done || div_lia). simpl. f_equal. div_lia.
Qed.

(** Every decoding step consumes at least one byte. *)
Lemma decode_cons_length c s : (String.length (snd (decode_cons c s)) ≤ String.length s)%nat.
Proof. unfold decode_cons. repeat (case_match; simpl in *; try lia). Qed.

Lemma runes_fuel_enough n m s : (String.length s ≤ n)%nat → (String.length s ≤ m)%nat → runes_fuel n s = runes_fuel m s.
Proof.
  revert m s. induction n as [|n IH]; intros m [|c s] Hn Hm; destruct m as [|m]; simpl in *; try (done || lia).
  pose proof (decode_cons_length c s) as Hl. destruct (decode_cons c s) as [r s'] eqn:E. simpl in Hl.
  f_equal. apply IH; lia.
Qed.

Lemma string_app_cons c s t : (String c s +:+ t)%string = String c (s +:+ t)%string.
Proof. done. Qed.

Lemma runes_cons c s : runes (String c s) = (decode_cons c s).1 :: runes (decode_cons c s).2.
Proof.
  unfold runes at 1. simpl. pose proof (decode_cons_length c s).
  destruct (decode_cons c s) as [r s']. simpl in *. f_equal. by apply runes_fuel_enough.
Qed.

(** Encoding scalar values and decoding them again. *)
Lemma runes_utf8 l : Forall (λ r, ValidRune r = true) l → runes (utf8_string l) = l.
Proof.
  induction 1 as [|r l Hr _ IH]; [done|]. simpl.
  destruct (decode_encode r (utf8_string l) Hr) as (c & s & -> & E). rewrite string_app_cons, runes_cons, E. simpl. by rewrite IH.
Qed.

Lemma length_runes s : (length (runes s) ≤ String.length s)%nat.
Proof.
  unfold runes. generalize (String.length s) at 1 2 as n. intros n. revert s.
  induction n as [|n IH]; intros [|c s]; simpl; try lia.
  destruct (decode_cons c s) as [r s']. simpl. specialize (IH s'). lia.
Qed.

Lemma string_app_assoc (a b c : string) : (a +:+ (b +:+ c) = (a +:+ b) +:+ c)%string.
Proof. induction a as [|x a IH]; [done|]. by rewrite !string_app_cons, IH. Qed.

Lemma utf8_string_app l k : utf8_string (l ++ k) = (utf8_string l +:+ utf8_string k)%string.
Proof. induction l as [|r l IH]; simpl; [done|]. by rewrite IH, string_app_assoc. Qed.

Lemma app_empty_r (s : string) : (s +:+ "" = s)%string.
Proof. induction s as [|c s IH]; [done|]. by rewrite string_app_cons, IH. Qed.

Lemma length_string_app (a b : string) : String.length (a +:+ b)%string = (String.length a + String.length b)%nat.
Proof. induction a as [|c a IH]; [done|]. rewrite string_app_cons. simpl. by rewrite IH. Qed.
