(* ===== verification/ShellParser.v ===== *)
(** Variable expansion in Dockerfile words (builder/dockerfile/shell_parser.go).

    The state of a [shellWord] is the text that its scanner has not read yet;
    the operations are the methods of [shellWord] and [wordsStruct].  The
    methods call each other, so they recurse on fuel; one unit per rune of the
    word is enough ([ProcessWord_total]).  The second part of the file gives
    words a grammar and a meaning of their own and shows that the code computes
    that meaning. *)

From Stdlib Require Import Ascii.
From S2P Require Import Prelude GoStrings Runes.

Local Open Scope string_scope.

(** ** text/scanner *)

(** The runes left to read. *)
Abbreviation scanner := (list rune).

Definition EOF : rune := -1.

(** [Init], with the byte order mark that the first [Peek] drops. *)
Definition Init (s : string) : scanner :=
  match runes s with
  | r :: l => if decide (r = BOM) then l else r :: l
  | [] => []
  end.
Definition Peek : M scanner rune := read (λ l, default EOF (head l)).
Definition Next : M scanner rune := λ l, Ret (default EOF (head l)) (tail l).

(** A loop that only reads runes. *)
Definition reading {A} (f : scanner → A * scanner) : M scanner A := λ l, Ret (f l).1 (f l).2.

(** ** wordsStruct *)

Record wordsStruct := { word : string; words : list string; inWord : bool }.

Definition newWords : wordsStruct := {| word := ""; words := []; inWord := false |}.

Definition addRawString (str : string) (w : wordsStruct) : wordsStruct :=
  {| word := word w +:+ str; words := words w; inWord := true |}.

Definition addRawChar (ch : rune) (w : wordsStruct) : wordsStruct :=
  {| word := word w +:+ string_of_rune ch; words := words w; inWord := true |}.

Definition getWords (w : wordsStruct) : list string :=
  if decide (word w ≠ "") then (words w ++ [word w])%list else words w.

Section shell.
  Context `{Unicode}.

Definition addChar (ch : rune) (w : wordsStruct) : wordsStruct :=
  if unicode.IsSpace ch && inWord w then
    if decide (word w ≠ "") then {| word := ""; words := (words w ++ [word w])%list; inWord := false |} else w
  else if negb (unicode.IsSpace ch) then addRawChar ch w
  else w.

Definition addString (str : string) (w : wordsStruct) : wordsStruct := foldl (λ w ch, addChar ch w) w (Init str).

(** ** shellWord *)

(** [getEnv] on the list of environment variables. *)
Fixpoint getEnv (envs : list string) (name : string) : string :=
  match envs with
  | [] => ""
  | env :: envs =>
      match cut "="%char env with
      | None => if decide (name = env) then "" else getEnv envs name
      | Some (key, val) => if decide (name ≠ key) then getEnv envs name else val
      end
  end.

Fixpoint readName (name : string) (l : scanner) : string * scanner :=
  match l with
  | [] => (name, l)
  | ch :: l' =>
      if bool_decide (name = "") && unicode.IsDigit ch then (string_of_rune ch, l')
      else if negb (unicode.IsLetter ch) && negb (unicode.IsDigit ch) && bool_decide (ch ≠ 95%Z) then (name, l)
      else readName (name +:+ string_of_rune ch) l'
  end.
Definition processName : M scanner string := reading (readName "").

(** The text up to the next quote. *)
Fixpoint readSingle (result : string) (l : scanner) : string * scanner :=
  match l with
  | [] => (result, [])
  | ch :: l => if decide (ch = 39%Z) then (result, l) else readSingle (result +:+ string_of_rune ch) l
  end.
Definition processSingleQuote : M scanner (result string string) :=
  _ ← Next; res ← reading (readSingle ""); mret (Ok res).

  Variables (envs : list string) (swWord : string).

(** [processStopOn], [processDoubleQuote] and [processDollar]; the first two are
    given from the head of their loop on, with what has been collected so far. *)
Fixpoint stopLoop (n : nat) (stopChar : rune) (res : string) (ws : wordsStruct)
    : M scanner (result string (string * list string)) :=
  match n with
  | O => out_of_fuel
  | S n =>
      ch ← Peek;
      if decide (ch = EOF) then mret (Ok (res, getWords ws))
      else if decide (stopChar ≠ EOF ∧ ch = stopChar) then _ ← Next; mret (Ok (res, getWords ws))
      else if decide (ch = 39%Z) then
        tmp ←? processSingleQuote; stopLoop n stopChar (res +:+ tmp) (addRawString tmp ws)
      else if decide (ch = 34%Z) then
        tmp ←? (_ ← Next; quoteLoop n ""); stopLoop n stopChar (res +:+ tmp) (addRawString tmp ws)
      else if decide (ch = 36%Z) then
        tmp ←? processDollar n; stopLoop n stopChar (res +:+ tmp) (addString tmp ws)
      else
        ch ← Next;
        if decide (ch = 92%Z) then
          ch ← Next;
          if decide (ch = EOF) then mret (Ok (res, getWords ws))
          else stopLoop n stopChar (res +:+ string_of_rune ch) (addRawChar ch ws)
        else stopLoop n stopChar (res +:+ string_of_rune ch) (addChar ch ws)
  end
with quoteLoop (n : nat) (res : string) : M scanner (result string string) :=
  match n with
  | O => out_of_fuel
  | S n =>
      ch ← Peek;
      if decide (ch = EOF) then mret (Ok res)
      else if decide (ch = 34%Z) then _ ← Next; mret (Ok res)
      else if decide (ch = 36%Z) then tmp ←? processDollar n; quoteLoop n (res +:+ tmp)
      else
        ch ← Next;
        if decide (ch = 92%Z) then
          chNext ← Peek;
          if decide (chNext = EOF) then quoteLoop n res
          else if decide (chNext = 34%Z ∨ chNext = 36%Z) then ch ← Next; quoteLoop n (res +:+ string_of_rune ch)
          else quoteLoop n (res +:+ string_of_rune ch)
        else quoteLoop n (res +:+ string_of_rune ch)
  end
with processDollar (n : nat) : M scanner (result string string) :=
  match n with
  | O => out_of_fuel
  | S n =>
      _ ← Next;
      ch ← Peek;
      if decide (ch = 123%Z) then
        _ ← Next;
        name ← processName;
        ch ← Peek;
        if decide (ch = 125%Z) then _ ← Next; mret (Ok (getEnv envs name))
        else if decide (ch = 58%Z) then
          _ ← Next;
          modifier ← Next;
          r ←? stopLoop n 125 "" newWords;
          let newValue := getEnv envs name in
          if decide (modifier = 43%Z) then mret (Ok (if decide (newValue ≠ "") then fst r else newValue))
          else if decide (modifier = 45%Z) then mret (Ok (if decide (newValue = "") then fst r else newValue))
          else mret (Err ("Unsupported modifier (" +:+ string_of_rune modifier +:+ ") in substitution: " +:+ swWord))
        else mret (Err ("Missing ':' in substitution: " +:+ swWord))
      else
        name ← processName;
        if decide (name = "") then mret (Ok "$") else mret (Ok (getEnv envs name))
  end.

Definition processStopOn (n : nat) (stopChar : rune) : M scanner (result string (string * list string)) :=
  stopLoop n stopChar "" newWords.
Definition processDoubleQuote (n : nat) : M scanner (result string string) := _ ← Next; quoteLoop n "".
End shell.

Section process.
  Context `{Unicode}.

(** [process], on a scanner that has been initialised with the word. *)
Definition process (envs : list string) (word : string) : outcome scanner (result string (string * list string)) :=
  let l := Init word in processStopOn envs word (S (length l)) EOF l.

Definition result_map {E A B} (f : A → B) (r : result E A) : result E B :=
  match r with Ok a => Ok (f a) | Err e => Err e end.

Definition outcome_map {S A B} (f : A → B) (o : outcome S A) : option B :=
  match o with Ret a _ => Some (f a) | _ => None end.

(** The results; [None] if the fuel does not suffice. *)
Definition ProcessWord (word : string) (env : list string) : option (result string string) :=
  outcome_map (result_map fst) (process env word).
Definition ProcessWords (word : string) (env : list string) : option (result string (list string)) :=
  outcome_map (result_map snd) (process env word).
End process.

(** ** Every word is processed *)

Lemma wp_Peek Q l : Q (default EOF (head l)) l → wp Peek Q l.
Proof. done. Qed.
Lemma wp_Next Q l : Q (default EOF (head l)) (tail l) → wp Next Q l.
Proof. done. Qed.
Lemma wp_reading {A} (f : scanner → A * scanner) Q l : Q (f l).1 (f l).2 → wp (reading f) Q l.
Proof. done. Qed.

(** One step of a method of the scanner's client. *)
Ltac scan_step :=
  lazymatch goal with
  | |- wp Peek _ _ => apply wp_Peek
  | |- wp Next _ _ => apply wp_Next
  | |- wp processName _ _ => apply wp_reading
  | |- wp (reading _) _ _ => apply wp_reading
  | |- wp (if decide ?P then _ else _) _ _ => destruct (decide P)
  | _ => wp_step
  end;
  cbn [default from_option head tail id fst snd].

Section total.
  Context `{Unicode}.
  Variables (envs : list string) (swWord : string).

  (** The errors of an expansion. *)
Definition expansion_error (e : string) : Prop :=
  e = "Missing ':' in substitution: " +:+ swWord ∨
  ∃ m, m ≠ 43%Z ∧ m ≠ 45%Z ∧ e = "Unsupported modifier (" +:+ string_of_rune m +:+ ") in substitution: " +:+ swWord.

  (** The call returns, has read at least [k] runes, and its error, if any, is
      one of the above. *)
Let reads {A} (k : nat) (m : M scanner (result string A)) (l : scanner) : Prop :=
    wp m (λ r l', (length l' + k ≤ length l)%nat ∧ ∀ e, r = Err e → expansion_error e) l.

Lemma readName_length name l : (length (readName name l).2 ≤ length l)%nat.
Proof.
  revert name. induction l as [|r l IH]; intros name; simpl; [done|]. repeat case_match; simpl; try lia.
  specialize (IH (name +:+ string_of_rune r)). lia.
Qed.

Lemma readSingle_length res l : (length (readSingle res l).2 ≤ length l)%nat.
Proof.
  revert res. induction l as [|r l IH]; intros res; simpl; [done|]. case_decide; simpl; [lia|].
  specialize (IH (res +:+ string_of_rune r)). lia.
Qed.

Lemma reads_weaken {A} k (m : M scanner (result string A)) (Q : result string A → scanner → Prop) l :
  reads k m l →
  (∀ r l', (length l' + k ≤ length l)%nat → (∀ e, r = Err e → expansion_error e) → Q r l') → wp m Q l.
Proof. intros Hm HQ. eapply wp_mono; [exact Hm|]. intros r l' [??]. by apply HQ. Qed.

  (** The end of a branch. *)
Ltac done_reading := simpl in *; (split; [lia|]); let E := fresh in intros ? E; discriminate E.

Lemma processSingleQuote_reads r l : reads 1 processSingleQuote (r :: l).
Proof. unfold reads, processSingleQuote. repeat scan_step. pose proof (readSingle_length "" l). done_reading. Qed.

  (** The induction hypothesis of the lemma below, for one amount of fuel. *)
Let loops_ok (n : nat) : Prop :=
    (∀ c res ws l, (length l < n)%nat → reads 0 (stopLoop envs swWord n c res ws) l) ∧
    (∀ res l, (length l < n)%nat → reads 0 (quoteLoop envs swWord n res) l) ∧
    (∀ l, (1 ≤ length l ≤ n)%nat → reads 1 (processDollar envs swWord n) l).

Lemma stopLoop_step n c res ws l : loops_ok n → (length l < S n)%nat → reads 0 (stopLoop envs swWord (S n) c res ws) l.
Proof.
  intros (IHs & IHq & IHd) Hl. unfold reads. destruct l as [|r l]; [simpl; do 3 scan_step; [scan_step; done_reading|done]|].
  simpl in *. do 3 scan_step; [scan_step; done_reading|].
  assert (∀ c res ws l', (length l' ≤ length l)%nat → wp (stopLoop envs swWord n c res ws)
    (λ r l', (length l' + 0 ≤ S (length l))%nat ∧ ∀ e, r = Err e → expansion_error e) l') as Hs.
  { intros c' res' ws' l' Hl'. eapply reads_weaken; [apply IHs; lia|]. intros; split; [lia|done]. }
  assert (∀ (f : string → wordsStruct) (m : M scanner (result string string)) k l', (length l' - k ≤ length l)%nat →
    reads k m l' → wp (tmp ←? m; stopLoop envs swWord n c (res +:+ tmp) (f tmp))
    (λ r l', (length l' + 0 ≤ S (length l))%nat ∧ ∀ e, r = Err e → expansion_error e) l') as Ht.
  { intros f m k l' Hl' Hm. scan_step. eapply reads_weaken; [exact Hm|].
    intros [tmp|err] l1 Hl1 He; [apply Hs; lia|]. split; [lia|]. intros e [= <-]. by apply He. }
  scan_step; [do 3 scan_step; done_reading|].
  scan_step; [eapply (Ht _ _ 1%nat), processSingleQuote_reads; simpl; lia|].
  scan_step; [eapply (Ht (λ tmp, addRawString tmp ws) _ 1%nat); [simpl; lia|]; unfold reads; do 2 scan_step;
    eapply reads_weaken; [apply IHq; lia|]; intros; simpl; split; [lia|done]|].
  scan_step; [eapply (Ht (λ tmp, addString tmp ws) _ 1%nat), IHd; simpl; lia|].
  do 3 scan_step; [|apply Hs; lia].
  destruct l as [|r' l]; simpl in *; repeat scan_step; try done_reading; apply Hs; simpl; lia.
Qed.

Lemma quoteLoop_step n res l : loops_ok n → (length l < S n)%nat → reads 0 (quoteLoop envs swWord (S n) res) l.
Proof.
  intros (IHs & IHq & IHd) Hl. unfold reads. destruct l as [|r l]; [simpl; do 3 scan_step; [scan_step; done_reading|done]|].
  simpl in *. do 3 scan_step; [scan_step; done_reading|].
  assert (∀ res l', (length l' ≤ length l)%nat → wp (quoteLoop envs swWord n res)
    (λ r l', (length l' + 0 ≤ S (length l))%nat ∧ ∀ e, r = Err e → expansion_error e) l') as Hq.
  { intros res' l' Hl'. eapply reads_weaken; [apply IHq; lia|]. intros; split; [lia|done]. }
  scan_step; [do 3 scan_step; done_reading|].
  scan_step; [scan_step; eapply reads_weaken; [apply IHd; simpl; lia|]; intros [tmp|err] l' Hl' He; simpl in *;
    [apply Hq; lia|split; [lia|]; intros ? [= <-]; by apply He]|].
  do 3 scan_step; [|apply Hq; lia].
  do 3 scan_step; [apply Hq; lia|].
  destruct l as [|r' l]; simpl in *; repeat scan_step; (apply Hq; simpl; lia).
Qed.

Lemma processDollar_step n l : loops_ok n → (1 ≤ length l ≤ S n)%nat → reads 1 (processDollar envs swWord (S n)) l.
Proof.
  intros (IHs & IHq & IHd) Hl. unfold reads. destruct l as [|r l]; [simpl in *; lia|].
  simpl in *. pose proof (readName_length "" l). do 5 scan_step; [|repeat scan_step; done_reading].
  destruct l as [|r' l]; [done|]. simpl in *. pose proof (readName_length "" l).
  do 4 scan_step. destruct (readName "" l) as [name l2]. simpl in *. do 3 scan_step.
  { repeat scan_step. destruct l2; done_reading. }
  scan_step; [|scan_step; split; [simpl; lia|]; intros ? [= <-]; by left].
  do 5 scan_step. destruct l2 as [|r1 [|r2 l2]]; simpl in *; (eapply reads_weaken; [apply IHs; simpl; lia|]);
    intros [a|err] l' Hl' He; repeat scan_step; (split; [simpl in *; lia|]);
    intros ? E; simplify_eq; (by apply He) || (right; eexists; split_and!; [..|reflexivity]; done).
Qed.

(** The three loops, by induction on the fuel. *)
Lemma loops_read n : loops_ok n.
Proof.
  induction n as [|n IH]; [split_and!; intros; simpl in *; lia|].
  split_and!; intros; [apply stopLoop_step|apply quoteLoop_step|apply processDollar_step]; done.
Qed.
End total.

(** ** The language of words *)

(** A word is a sequence of plain runes, escaped runes, quoted parts and
    substitutions; a substitution is a lone dollar sign, [$name], [${name}],
    [${name:-word}] or [${name:+word}]. *)
Inductive wordT :=
| WNil
| WPlain (c : rune) (w : wordT)
| WEsc (c : rune) (w : wordT)
| WSingle (l : list rune) (w : wordT)
| WDouble (q : quotedT) (w : wordT)
| WDollar (d : dollarT) (w : wordT)
with quotedT :=
| QNil
| QPlain (c : rune) (q : quotedT)
| QEsc (c : rune) (q : quotedT)
| QDollar (d : dollarT) (q : quotedT)
with dollarT :=
| DLone
| DVar (n : list rune)
| DBrace (n : list rune)
| DMod (n : list rune) (plus : bool) (w : wordT).

Scheme wordT_mut := Induction for wordT Sort Prop
with quotedT_mut := Induction for quotedT Sort Prop
with dollarT_mut := Induction for dollarT Sort Prop.
Combined Scheme word_quoted_dollar_ind from wordT_mut, quotedT_mut, dollarT_mut.

(** The text of a word. *)
Fixpoint print_word (w : wordT) : list rune :=
  match w with
  | WNil => []
  | WPlain c w => c :: print_word w
  | WEsc c w => 92%Z :: c :: print_word w
  | WSingle l w => (39%Z :: l ++ 39%Z :: print_word w)%list
  | WDouble q w => (34%Z :: print_quoted q ++ 34%Z :: print_word w)%list
  | WDollar d w => (print_dollar d ++ print_word w)%list
  end
with print_quoted (q : quotedT) : list rune :=
  match q with
  | QNil => []
  | QPlain c q => c :: print_quoted q
  | QEsc c q => 92%Z :: c :: print_quoted q
  | QDollar d q => (print_dollar d ++ print_quoted q)%list
  end
with print_dollar (d : dollarT) : list rune :=
  match d with
  | DLone => [36%Z]
  | DVar n => 36%Z :: n
  | DBrace n => (36%Z :: 123%Z :: n ++ [125%Z])%list
  | DMod n plus w => (36%Z :: 123%Z :: n ++ 58%Z :: (if plus then 43%Z else 45%Z) :: print_word w ++ [125%Z])%list
  end.

Section meaning.
  Context `{Unicode}.

Definition name_rune (r : rune) : bool := unicode.IsLetter r || unicode.IsDigit r || bool_decide (r = 95%Z).

(** A name is one digit, or letters, digits and underscores that do not start
    with a digit. *)
Definition is_name (n : list rune) : Prop :=
  (∃ d, n = [d] ∧ unicode.IsDigit d = true) ∨
  (Forall (λ r, name_rune r = true) n ∧ ∀ d, head n = Some d → unicode.IsDigit d = false).

(** The name [n] ends where the text [k] begins. *)
Definition name_ends (n k : list rune) : Prop :=
  (∃ d, n = [d] ∧ unicode.IsDigit d = true) ∨ ∀ r, head k = Some r → name_rune r = false.

(** [wf_word stop w k]: the word [w], read up to the rune [stop], in front of
    the text [k]. *)
Fixpoint wf_word (stop : rune) (w : wordT) (k : list rune) : Prop :=
  match w with
  | WNil => True
  | WPlain c w => (c ∉ [EOF; stop; 39; 34; 36; 92]%Z) ∧ wf_word stop w k
  | WEsc c w => c ≠ EOF ∧ wf_word stop w k
  | WSingle l w => (39%Z ∉ l) ∧ wf_word stop w k
  | WDouble q w => wf_quoted q (34%Z :: print_word w ++ k)%list ∧ wf_word stop w k
  | WDollar d w => wf_dollar d (print_word w ++ k)%list ∧ wf_word stop w k
  end
with wf_quoted (q : quotedT) (k : list rune) : Prop :=
  match q with
  | QNil => True
  | QPlain c q => (c ∉ [EOF; 34; 36]%Z) ∧ (c = 92%Z → ∀ r, head (print_quoted q ++ k)%list = Some r → r ∉ [EOF; 34; 36]%Z) ∧ wf_quoted q k
  | QEsc c q => (c ∈ [34; 36]%Z) ∧ wf_quoted q k
  | QDollar d q => wf_dollar d (print_quoted q ++ k)%list ∧ wf_quoted q k
  end
with wf_dollar (d : dollarT) (k : list rune) : Prop :=
  match d with
  | DLone => ∀ r, head k = Some r → name_rune r = false ∧ r ≠ 123%Z
  | DVar n => is_name n ∧ n ≠ [] ∧ name_ends n k
  | DBrace n => is_name n
  | DMod n plus w => is_name n ∧ wf_word 125 w (125%Z :: k)
  end.

(** The value of a word in an environment. *)
Fixpoint value (envs : list string) (w : wordT) : string :=
  match w with
  | WNil => ""
  | WPlain c w | WEsc c w => string_of_rune c +:+ value envs w
  | WSingle l w => utf8_string l +:+ value envs w
  | WDouble q w => qvalue envs q +:+ value envs w
  | WDollar d w => dvalue envs d +:+ value envs w
  end
with qvalue (envs : list string) (q : quotedT) : string :=
  match q with
  | QNil => ""
  | QPlain c q | QEsc c q => string_of_rune c +:+ qvalue envs q
  | QDollar d q => dvalue envs d +:+ qvalue envs q
  end
with dvalue (envs : list string) (d : dollarT) : string :=
  match d with
  | DLone => "$"
  | DVar n | DBrace n => getEnv envs (utf8_string n)
  | DMod n plus w =>
      let v := getEnv envs (utf8_string n) in
      if plus then if decide (v = "") then "" else value envs w
      else if decide (v = "") then value envs w else v
  end.

(** The parts of a word, with [None] for the white space that separates: only
    the white space that is neither quoted nor escaped does, in the word itself
    or in the value of an unquoted substitution. *)
Definition open_rune (r : rune) : option string := if unicode.IsSpace r then None else Some (string_of_rune r).
Fixpoint parts (envs : list string) (w : wordT) : list (option string) :=
  match w with
  | WNil => []
  | WPlain c w => open_rune c :: parts envs w
  | WEsc c w => Some (string_of_rune c) :: parts envs w
  | WSingle l w => Some (utf8_string l) :: parts envs w
  | WDouble q w => Some (qvalue envs q) :: parts envs w
  | WDollar d w => ((open_rune <$> Init (dvalue envs d)) ++ parts envs w)%list
  end.

(** The words between the separators; empty ones are dropped. *)
Definition nonempty (s : string) : list string := if decide (s = "") then [] else [s].
Fixpoint split (cur : string) (ps : list (option string)) : list string :=
  match ps with
  | [] => nonempty cur
  | None :: ps => (nonempty cur ++ split "" ps)%list
  | Some s :: ps => split (cur +:+ s) ps
  end.
End meaning.

(** ** The code computes the meaning *)

Section collect.
  Context `{Unicode}.

(** The words that come out of [ws] if the parts [ps] follow. *)
Definition out (ws : wordsStruct) (ps : list (option string)) : list string := (words ws ++ split (word ws) ps)%list.
Definition collecting (ws : wordsStruct) : Prop := inWord ws = false → word ws = "".

Lemma getWords_out ws : getWords ws = out ws [].
Proof. unfold getWords, out. simpl. unfold nonempty. repeat case_decide; try done. by rewrite app_nil_r. Qed.

Lemma addRawString_out s ws ps : collecting (addRawString s ws) ∧ out (addRawString s ws) ps = out ws (Some s :: ps).
Proof. done. Qed.

Lemma addRawChar_out c ws ps :
  collecting (addRawChar c ws) ∧ out (addRawChar c ws) ps = out ws (Some (string_of_rune c) :: ps).
Proof. done. Qed.

Lemma addChar_out c ws ps : collecting ws →
  collecting (addChar c ws) ∧ out (addChar c ws) ps = out ws (open_rune c :: ps).
Proof.
  intros Hc. unfold addChar, open_rune, collecting, out in *.
  destruct (unicode.IsSpace c); simpl; [|done]. destruct ws as [w wl b]. simpl in *.
  unfold nonempty. destruct b; simpl; [|by rewrite Hc].
  destruct (decide (w = "")) as [->|Hw]; [done|]. rewrite decide_True by done. simpl. by rewrite <-(assoc_L (++)).
Qed.

Lemma addString_out s ws ps : collecting ws →
  collecting (addString s ws) ∧ out (addString s ws) ps = out ws ((open_rune <$> Init s) ++ ps)%list.
Proof.
  unfold addString. generalize (Init s). intros l. revert ws.
  induction l as [|c l IH]; intros ws Hc; [done|]. rewrite fmap_cons. simpl.
  destruct (addChar_out c ws ((open_rune <$> l) ++ ps)%list Hc) as [Hc' <-]. by apply IH.
Qed.
End collect.

(** What the readers of names and single quotes return. *)
Lemma string_of_rune_nonempty r : string_of_rune r ≠ "".
Proof. unfold string_of_rune, encode_valid. by repeat case_decide. Qed.

Lemma app_rune_nonempty s r : s +:+ string_of_rune r ≠ "".
Proof. destruct s; [apply string_of_rune_nonempty|done]. Qed.

Lemma readSingle_spec res l k : 39%Z ∉ l → readSingle res (l ++ 39%Z :: k) = (res +:+ utf8_string l, k).
Proof.
  revert res. induction l as [|r l IH]; intros res Hl; simpl; [by rewrite app_empty_r|].
  apply not_elem_of_cons in Hl as [Hr Hl]. rewrite decide_False by done.
  by rewrite IH, <-string_app_assoc.
Qed.

Section simulation.
  Context `{Unicode}.

Lemma readName_end name k : (∀ r, head k = Some r → name_rune r = false) → readName name k = (name, k).
Proof.
  destruct k as [|r k]; intros Hk; [done|]. specialize (Hk r eq_refl). unfold name_rune in Hk. simpl.
  apply orb_false_iff in Hk as [[-> ->]%orb_false_iff Hr%bool_decide_eq_false].
  rewrite andb_false_r. simpl. by rewrite bool_decide_eq_true_2.
Qed.

Lemma name_rune_negb r : name_rune r = true →
  negb (unicode.IsLetter r) && negb (unicode.IsDigit r) && bool_decide (r ≠ 95%Z) = false.
Proof.
  unfold name_rune. destruct (unicode.IsLetter r), (unicode.IsDigit r); try done. simpl.
  intros ->%bool_decide_eq_true. done.
Qed.

Lemma readName_more name n k : Forall (λ r, name_rune r = true) n → name ≠ "" →
  (∀ r, head k = Some r → name_rune r = false) → readName name (n ++ k) = (name +:+ utf8_string n, k).
Proof.
  intros Hn. revert name. induction Hn as [|r n Hr _ IH]; intros name Hname Hk; simpl.
  { rewrite app_empty_r. by apply readName_end. }
  rewrite bool_decide_eq_false_2 by done. simpl. rewrite name_rune_negb by done.
  rewrite IH; [by rewrite <-string_app_assoc|apply app_rune_nonempty|done].
Qed.

Lemma readName_spec n k : is_name n → name_ends n k → readName "" (n ++ k) = (utf8_string n, k).
Proof.
  assert (∀ d k, unicode.IsDigit d = true → readName "" (d :: k) = (utf8_string [d], k)) as Hdigit.
  { intros d k' Hd. simpl. by rewrite Hd, app_empty_r. }
  intros Hn [(d & -> & Hd)|Hk]; [by apply Hdigit|].
  destruct Hn as [(d & -> & Hd)|[Hn Hhead]]; [by apply Hdigit|].
  destruct n as [|r n]; [by apply readName_end|]. apply Forall_cons_1 in Hn as [Hr Hn]. simpl.
  rewrite (Hhead r) by done. pose proof (name_rune_negb r Hr) as E. rewrite (Hhead r) in E by done. simpl in *. rewrite E.
  by rewrite readName_more by (done || apply app_rune_nonempty).
Qed.

  Variables (envs : list string) (swWord : string).

  (** The rune at which a word stops: the end of the text, or [stop]. *)
Definition ends (stop : rune) (k : list rune) : Prop := k = [] ∨ stop ≠ EOF ∧ head k = Some stop.

  (** One iteration of a loop, by the rune that comes next. *)
Ltac settle := solve [done | congruence | split; congruence | intros [??]; congruence | intros [?|?]; congruence
    | by left | by right].
Ltac iterate := simpl; unfold try_bind, mbind, M_bind, mret, M_ret, Peek, Next, read; simpl;
    repeat (first [rewrite decide_True by settle | rewrite decide_False by settle]); simpl.

Lemma stopLoop_ends n stop res ws k : ends stop k →
  stopLoop envs swWord (S n) stop res ws k = Ret (Ok (res, getWords ws)) (tail k).
Proof.
  intros [->|[Hs Hk]]; [by iterate|]. destruct k as [|r k]; [done|]. injection Hk as ->. by iterate.
Qed.

Lemma stopLoop_plain n stop res ws c l : c ∉ [EOF; stop; 39; 34; 36; 92]%Z →
  stopLoop envs swWord (S n) stop res ws (c :: l) = stopLoop envs swWord n stop (res +:+ string_of_rune c) (addChar c ws) l.
Proof. rewrite !not_elem_of_cons. intros (? & ? & ? & ? & ? & ? & _). by iterate. Qed.

Lemma stopLoop_escape n stop res ws c l : stop ≠ 92%Z → c ≠ EOF →
  stopLoop envs swWord (S n) stop res ws (92%Z :: c :: l) = stopLoop envs swWord n stop (res +:+ string_of_rune c) (addRawChar c ws) l.
Proof. intros ??. by iterate. Qed.

Lemma stopLoop_single n stop res ws q l : stop ≠ 39%Z → 39%Z ∉ q →
  stopLoop envs swWord (S n) stop res ws (39%Z :: q ++ 39%Z :: l)%list =
  stopLoop envs swWord n stop (res +:+ utf8_string q) (addRawString (utf8_string q) ws) l.
Proof.
  intros ? Hq. iterate. unfold processSingleQuote, mbind, M_bind, Next, reading, mret, M_ret. simpl.
  by rewrite readSingle_spec.
Qed.

Lemma stopLoop_double n stop res ws l s l' : stop ≠ 34%Z → quoteLoop envs swWord n "" l = Ret (Ok s) l' →
  stopLoop envs swWord (S n) stop res ws (34%Z :: l) = stopLoop envs swWord n stop (res +:+ s) (addRawString s ws) l'.
Proof. intros ? E. iterate. by rewrite E. Qed.

Lemma stopLoop_dollar n stop res ws l s l' : stop ≠ 36%Z → processDollar envs swWord n (36%Z :: l) = Ret (Ok s) l' →
  stopLoop envs swWord (S n) stop res ws (36%Z :: l) = stopLoop envs swWord n stop (res +:+ s) (addString s ws) l'.
Proof. intros ? E. iterate. by rewrite E. Qed.

Lemma quoteLoop_end n res k : quoteLoop envs swWord (S n) res (34%Z :: k) = Ret (Ok res) k.
Proof. by iterate. Qed.

Lemma quoteLoop_plain n res c l : c ∉ [EOF; 34; 36]%Z →
  (c = 92%Z → ∃ r, head l = Some r ∧ r ∉ [EOF; 34; 36]%Z) →
  quoteLoop envs swWord (S n) res (c :: l) = quoteLoop envs swWord n (res +:+ string_of_rune c) l.
Proof.
  rewrite !not_elem_of_cons. intros (? & ? & ? & _) Hl. destruct (decide (c = 92%Z)) as [->|Hc]; [|by iterate].
  destruct (Hl eq_refl) as (r & Hr & Hn). rewrite !not_elem_of_cons in Hn. destruct Hn as (? & ? & ? & _).
  destruct l as [|r' l]; [done|]. injection Hr as ->. by iterate.
Qed.

Lemma quoteLoop_escape n res c l : c ∈ [34; 36]%Z →
  quoteLoop envs swWord (S n) res (92%Z :: c :: l) = quoteLoop envs swWord n (res +:+ string_of_rune c) l.
Proof. rewrite !elem_of_cons. intros [->|[->|[]%elem_of_nil]]; by iterate. Qed.

Lemma quoteLoop_dollar n res l s l' : processDollar envs swWord n (36%Z :: l) = Ret (Ok s) l' →
  quoteLoop envs swWord (S n) res (36%Z :: l) = quoteLoop envs swWord n (res +:+ s) l'.
Proof. intros E. iterate. by rewrite E. Qed.

(** [processDollar], by the form of the substitution. *)
Ltac dollar := simpl; unfold try_bind, mbind, M_bind, mret, M_ret, Peek, Next, processName, reading, read; simpl.

Lemma name_ends_rune n r k : name_rune r = false → name_ends n (r :: k).
Proof. intros Hr. right. by intros ? [= <-]. Qed.

Lemma processDollar_lone n k : wf_dollar DLone k → processDollar envs swWord (S n) (36%Z :: k) = Ret (Ok "$") k.
Proof.
  intros Hk. dollar. rewrite decide_False.
  - rewrite readName_end; [done|]. intros r Hr. by apply Hk.
  - destruct k as [|r k]; simpl; [done|]. by apply (Hk r).
Qed.

Lemma is_name_cons n : is_name n → n ≠ [] → ∃ r n', n = r :: n' ∧ name_rune r = true.
Proof.
  intros [(d & -> & Hd)|[Hn _]] Hne.
  - exists d, []. split; [done|]. unfold name_rune. rewrite Hd. by rewrite orb_true_r.
  - destruct Hn as [|r n Hr _]; [done|]. eauto.
Qed.

Lemma utf8_cons_nonempty r l : utf8_string (r :: l) ≠ "".
Proof. simpl. pose proof (string_of_rune_nonempty r). by destruct (string_of_rune r). Qed.

Lemma processDollar_var n name k : wf_dollar (DVar name) k →
  processDollar envs swWord (S n) (36%Z :: name ++ k)%list = Ret (Ok (getEnv envs (utf8_string name))) k.
Proof.
  intros (Hn & Hne & He). dollar. destruct (is_name_cons name Hn Hne) as (r & n' & -> & Hr).
  rewrite decide_False by (intros [= ->]; done). rewrite readName_spec by done. cbn [fst snd].
  by rewrite decide_False by apply utf8_cons_nonempty.
Qed.

Lemma processDollar_brace n name k : is_name name →
  processDollar envs swWord (S n) (36%Z :: 123%Z :: name ++ 125%Z :: k)%list = Ret (Ok (getEnv envs (utf8_string name))) k.
Proof. intros Hn. dollar. rewrite readName_spec; [done|done|]. by apply name_ends_rune. Qed.

Lemma processDollar_mod n name (plus : bool) l k v ws : is_name name →
  stopLoop envs swWord n 125 "" newWords l = Ret (Ok (v, ws)) k →
  processDollar envs swWord (S n) (36%Z :: 123%Z :: name ++ 58%Z :: (if plus then 43%Z else 45%Z) :: l)%list =
  Ret (Ok (let v0 := getEnv envs (utf8_string name) in
           if plus then if decide (v0 = "") then "" else v else if decide (v0 = "") then v else v0)) k.
Proof.
  intros Hn E. dollar. rewrite readName_spec by (done || by apply name_ends_rune). simpl. rewrite E.
  destruct plus; simpl; repeat case_decide; done || congruence.
Qed.

Lemma print_dollar_cons d k : ∃ l, (print_dollar d ++ k)%list = 36%Z :: l.
Proof. destruct d; simpl; eauto. Qed.

  (** What the three loops do on a word, a quoted part and a substitution. *)
Definition stop_ok (w : wordT) : Prop := ∀ stop k n res ws,
  wf_word stop w k → stop = EOF ∨ stop = 125%Z → ends stop k → collecting ws → (length (print_word w ++ k) < n)%nat →
  stopLoop envs swWord n stop res ws (print_word w ++ k)%list =
  Ret (Ok (res +:+ value envs w, out ws (parts envs w))) (tail k).
Definition quote_ok (q : quotedT) : Prop := ∀ k n res,
  wf_quoted q (34%Z :: k) → (length (print_quoted q ++ 34%Z :: k) < n)%nat →
  quoteLoop envs swWord n res (print_quoted q ++ 34%Z :: k)%list = Ret (Ok (res +:+ qvalue envs q)) k.
Definition dollar_ok (d : dollarT) : Prop := ∀ k n,
  wf_dollar d k → (length (print_dollar d ++ k) ≤ n)%nat →
  processDollar envs swWord n (print_dollar d ++ k)%list = Ret (Ok (dvalue envs d)) k.

Ltac measure := repeat (progress cbn [length app] in * || rewrite ?length_app, <-?(assoc_L (++)) in *); lia.
Ltac stop_char := match goal with H : _ = EOF ∨ _ = 125%Z |- _ => by destruct H as [->| ->] end.

Lemma stop_ok_plain c w : stop_ok w → stop_ok (WPlain c w).
Proof.
  intros IH stop k [|n] res ws (Hc & Hw) Hs He Hws Hn; [measure|].
  cbn [print_word app value parts]. rewrite stopLoop_plain by done.
  destruct (addChar_out c ws (parts envs w) Hws) as [Hws' <-].
  rewrite IH by (done || (cbn [print_word] in Hn; measure)). by rewrite <-string_app_assoc.
Qed.

Lemma stop_ok_escape c w : stop_ok w → stop_ok (WEsc c w).
Proof.
  intros IH stop k [|n] res ws (Hc & Hw) Hs He Hws Hn; [measure|].
  cbn [print_word app value parts]. rewrite stopLoop_escape by (done || stop_char).
  destruct (addRawChar_out c ws (parts envs w)) as [Hws' <-].
  rewrite IH by (done || (cbn [print_word] in Hn; measure)). by rewrite <-string_app_assoc.
Qed.

Lemma stop_ok_single l w : stop_ok w → stop_ok (WSingle l w).
Proof.
  intros IH stop k [|n] res ws (Hl & Hw) Hs He Hws Hn; [measure|].
  cbn [print_word app value parts] in *. rewrite <-(assoc_L (++)) in *. cbn [app] in *.
  rewrite stopLoop_single by (done || stop_char).
  destruct (addRawString_out (utf8_string l) ws (parts envs w)) as [Hws' <-].
  rewrite IH by (done || measure). by rewrite <-string_app_assoc.
Qed.

Lemma stop_ok_double q w : quote_ok q → stop_ok w → stop_ok (WDouble q w).
Proof.
  intros IHq IH stop k [|n] res ws (Hq & Hw) Hs He Hws Hn; [measure|].
  cbn [print_word app value parts] in *. rewrite <-(assoc_L (++)) in *. cbn [app] in *.
  erewrite stopLoop_double; [|stop_char|apply IHq; [done|measure]].
  destruct (addRawString_out (qvalue envs q) ws (parts envs w)) as [Hws' <-].
  rewrite IH by (done || measure). by rewrite <-string_app_assoc.
Qed.

Lemma stop_ok_dollar d w : dollar_ok d → stop_ok w → stop_ok (WDollar d w).
Proof.
  intros IHd IH stop k [|n] res ws (Hd & Hw) Hs He Hws Hn; [measure|].
  cbn [print_word value parts] in *. rewrite <-(assoc_L (++)) in *.
  specialize (IHd (print_word w ++ k)%list n Hd ltac:(measure)).
  destruct (print_dollar_cons d (print_word w ++ k)%list) as [l E]. rewrite E in *.
  erewrite stopLoop_dollar; [|stop_char|exact IHd].
  destruct (addString_out (dvalue envs d) ws (parts envs w) Hws) as [Hws' <-].
  assert (length (print_word w ++ k) < n)%nat.
  { apply (f_equal length) in E. rewrite length_app in E. destruct d; simpl in *; lia. }
  rewrite IH by done. by rewrite <-string_app_assoc.
Qed.

Lemma quote_ok_plain c q : quote_ok q → quote_ok (QPlain c q).
Proof.
  intros IH k [|n] res (Hc & He & Hq) Hn; [measure|]. cbn [print_quoted app qvalue] in *.
  rewrite quoteLoop_plain; [|done|].
  - rewrite IH by (done || measure). by rewrite <-string_app_assoc.
  - intros Hb. specialize (He Hb). destruct (print_quoted q) as [|r l]; simpl in *; eauto.
Qed.

Lemma quote_ok_escape c q : quote_ok q → quote_ok (QEsc c q).
Proof.
  intros IH k [|n] res (Hc & Hq) Hn; [measure|]. cbn [print_quoted app qvalue] in *.
  rewrite quoteLoop_escape, IH by (done || measure). by rewrite <-string_app_assoc.
Qed.

Lemma quote_ok_dollar d q : dollar_ok d → quote_ok q → quote_ok (QDollar d q).
Proof.
  intros IHd IH k [|n] res (Hd & Hq) Hn; [measure|].
  cbn [print_quoted qvalue] in *. rewrite <-(assoc_L (++)) in *.
  specialize (IHd (print_quoted q ++ 34%Z :: k)%list n Hd ltac:(measure)).
  destruct (print_dollar_cons d (print_quoted q ++ 34%Z :: k)%list) as [l E]. rewrite E in *.
  erewrite quoteLoop_dollar by exact IHd.
  assert (length (print_quoted q ++ 34%Z :: k) < n)%nat.
  { apply (f_equal length) in E. rewrite length_app in E. destruct d; simpl in *; lia. }
  rewrite IH by done. by rewrite <-string_app_assoc.
Qed.

Lemma dollar_ok_mod name plus w : stop_ok w → dollar_ok (DMod name plus w).
Proof.
  intros IH k [|n] (Hn & Hw) Hl; [simpl in Hl; lia|]. cbn [print_dollar app dvalue] in *.
  rewrite <-!(assoc_L (++)) in *. cbn [app] in *. rewrite <-!(assoc_L (++)) in *. cbn [app] in *.
  erewrite processDollar_mod; [|done|apply IH; [done|by right|by right|done|measure]]. done.
Qed.

Lemma loops_meaning : (∀ w, stop_ok w) ∧ (∀ q, quote_ok q) ∧ (∀ d, dollar_ok d).
Proof.
  apply word_quoted_dollar_ind; intros;
    auto using stop_ok_plain, stop_ok_escape, stop_ok_single, stop_ok_double, stop_ok_dollar,
      quote_ok_plain, quote_ok_escape, quote_ok_dollar, dollar_ok_mod.
  - intros stop k [|n] res ws _ _ He _ Hn; [lia|]. cbn [print_word app value parts].
    rewrite stopLoop_ends by done. by rewrite app_empty_r, getWords_out.
  - intros k [|n] res _ Hn; [lia|]. cbn [print_quoted app qvalue]. by rewrite quoteLoop_end, app_empty_r.
  - intros k [|n] Hk Hn; [simpl in Hn; lia|]. by apply processDollar_lone.
  - intros k [|m] Hk Hn; [simpl in Hn; lia|]. by apply processDollar_var.
  - intros k [|m] Hk Hn; [simpl in Hn; lia|]. cbn [print_dollar app]. rewrite <-(assoc_L (++)). by apply processDollar_brace.
Qed.
End simulation.
Lemma process_total `{Unicode} word env : ∃ r l,
  process env word = Ret r l ∧ ∀ e, r = Err e → expansion_error word e.
Proof.
  unfold process. destruct (loops_read env word (S (length (Init word)))) as (Hs & _).
  destruct (wp_inv _ _ _ (Hs EOF "" newWords (Init word) ltac:(lia))) as (r & l & E & _ & He). eauto.
Qed.

Lemma ProcessWord_returns `{Unicode} word env :
  (∃ r, ProcessWord word env = Some r) ∧ ∃ r, ProcessWords word env = Some r.
Proof. unfold ProcessWord, ProcessWords. destruct (process_total word env) as (r & l & -> & _). simpl. eauto. Qed.

(** The expansion of a word ends, whatever the word and the environment;
    [ProcessWord] and [ProcessWords] either both succeed or both fail with the
    same error, which is a missing colon or a modifier other than [+] and [-] in
    a substitution, reported with the whole word. *)
Theorem ProcessWord_total `{Unicode} word env :
  (∃ s ws, ProcessWord word env = Some (Ok s) ∧ ProcessWords word env = Some (Ok ws)) ∨
  (∃ e, ProcessWord word env = Some (Err e) ∧ ProcessWords word env = Some (Err e) ∧ expansion_error word e).
Proof.
  unfold ProcessWord, ProcessWords. destruct (process_total word env) as ([[s ws]|e] & l & -> & He); simpl; eauto 10.
Qed.

(** A word of the language, as the bytes of a Dockerfile. *)
Definition wf `{Unicode} (w : wordT) : Prop :=
  wf_word EOF w [] ∧ Forall (λ r, ValidRune r = true) (print_word w) ∧ head (print_word w) ≠ Some BOM.

Lemma process_meaning `{Unicode} w env : wf w →
  ProcessWord (utf8_string (print_word w)) env = Some (Ok (value env w)) ∧
  ProcessWords (utf8_string (print_word w)) env = Some (Ok (split "" (parts env w))).
Proof.
  intros (Hw & Hv & Hb). unfold ProcessWord, ProcessWords, process.
  assert (Init (utf8_string (print_word w)) = (print_word w ++ [])%list) as ->.
  { rewrite app_nil_r. unfold Init. rewrite runes_utf8 by done. destruct (print_word w) as [|r l]; [done|].
    simpl in Hb. by rewrite decide_False by congruence. }
  unfold processStopOn. destruct (loops_meaning env (utf8_string (print_word w))) as (Hs & _).
  rewrite Hs; [done|done|by left|by left|done|lia].
Qed.

(** C31: on every word of the language, [ProcessWord] gives the word's value and
    [ProcessWords] the words that its unquoted white space separates: quoted and
    escaped white space does not separate, the white space in the value of an
    unquoted substitution does, and [:-] and [:+] choose by whether the variable
    is empty. *)
Theorem expansion_meaning `{Unicode} w env : wf w →
  ProcessWord (utf8_string (print_word w)) env = Some (Ok (value env w)) ∧
  ProcessWords (utf8_string (print_word w)) env = Some (Ok (split "" (parts env w))).
Proof. apply process_meaning. Qed.

(** The conditions on a concrete word. *)
Ltac solve_wf w :=
  split_and!; [|by repeat constructor|done]; cbn [wf_word wf_quoted wf_dollar w fst snd];
  repeat lazymatch goal with
  | |- _ ∧ _ => split
  | |- is_name _ => right; split; [by repeat constructor|by intros ? [= <-]]
  | |- name_ends _ _ => right; intros ? E; simpl in E; by simplify_eq
  | |- _ ∉ _ => apply (bool_decide_eq_true_1 _); by vm_compute
  | |- _ => done
  end.

(** The word [a"b $x"${y:-\$ 'c d'} $x] where [x] is [1 2] and [y] is unset. *)
Module Concrete.
Definition w0 : wordT :=
  WPlain 97 (WDouble (QPlain 98 (QPlain 32 (QDollar (DVar [120%Z]) QNil)))
    (WDollar (DMod [121%Z] false (WEsc 36 (WPlain 32 (WSingle [99; 32; 100]%Z WNil))))
      (WPlain 32 (WDollar (DVar [120%Z]) WNil)))).
Definition env0 : list string := ["z"; "x=1 2"; "x=3"].
Definition text0 : string := utf8_string (print_word w0).
End Concrete.

Lemma expansion_meaning_witness :
  @ProcessWord latin1 Concrete.text0 Concrete.env0 = Some (Ok "ab 1 2$ c d 1 2") ∧
  @ProcessWords latin1 Concrete.text0 Concrete.env0 = Some (Ok ["ab 1 2$"; "c"; "d"; "1"; "2"]).
Proof.
  refine (@expansion_meaning latin1 Concrete.w0 Concrete.env0 _).
  solve_wf Concrete.w0.
Defined.
