(* ===== verification/Json.v ===== *)
(** The part of package encoding/json that the Dockerfile parser uses:
    [NewDecoder(r).Decode(&v)] for a [v] of type [[]interface{}].  The decoder
    reads the first value of the text and ignores what follows; the caller only
    looks at the elements that are strings, so the other values are checked and
    forgotten. *)

From Stdlib Require Import Ascii DecimalString.
From S2P Require Import Prelude GoStrings Runes.

Local Open Scope string_scope.

Module json.

(** An element of the array: a string, or anything else. *)
Abbreviation element := (option string).

Definition is_ws (c : ascii) : bool := bool_decide (Z_of_char c = 32 ∨ Z_of_char c = 9 ∨ Z_of_char c = 10 ∨ Z_of_char c = 13)%Z.
Definition skip_ws : string → string := TrimLeftFunc is_ws.

(** ** Strings *)

Definition hex_value (c : ascii) : option Z :=
  let z := Z_of_char c in
  if decide (48 ≤ z ≤ 57)%Z then Some (z - 48)%Z
  else if decide (97 ≤ z ≤ 102)%Z then Some (z - 87)%Z
  else if decide (65 ≤ z ≤ 70)%Z then Some (z - 55)%Z
  else None.

(** The four digits of a [\u] escape. *)
Definition getu4 (s : string) : option (Z * string) :=
  match s with
  | String a (String b (String c (String d s))) =>
      za ← hex_value a; zb ← hex_value b; zc ← hex_value c; zd ← hex_value d;
      Some (((za * 16 + zb) * 16 + zc) * 16 + zd, s)%Z
  | _ => None
  end.

Definition is_surrogate (r : rune) : bool := bool_decide (55296 ≤ r < 57344)%Z.

(** The rune of a [\u] escape; a surrogate takes its other half with it, and
    stands for [RuneError] without it. *)
Definition unicode_escape (s : string) : option (rune * string) :=
  '(r, s) ← getu4 s;
  if is_surrogate r then
    match s with
    | String "\"%char (String "u"%char s') =>
        '(r2, s'') ← getu4 s';
        if decide (55296 ≤ r < 56320 ∧ 56320 ≤ r2 < 57344)%Z
        then Some (((r - 55296) * 1024 + (r2 - 56320) + 65536)%Z, s'')
        else Some (RuneError, s)
    | _ => Some (RuneError, s)
    end
  else Some (r, s).

Definition simple_escape (c : ascii) : option rune :=
  let z := Z_of_char c in
  if decide (z = 34 ∨ z = 92 ∨ z = 47)%Z then Some z
  else if decide (z = 98%Z) then Some 8%Z
  else if decide (z = 102%Z) then Some 12%Z
  else if decide (z = 110%Z) then Some 10%Z
  else if decide (z = 114%Z) then Some 13%Z
  else if decide (z = 116%Z) then Some 9%Z
  else None.

(** A string literal after its opening quote: its value, and what follows it. *)
Fixpoint parse_string (n : nat) (s : string) : option (string * string) :=
  match n, s with
  | S n, String c s' =>
      if decide (Z_of_char c = 34%Z) then Some ("", s')
      else if decide (Z_of_char c = 92%Z) then
        match s' with
        | String "u"%char s1 =>
            '(r, s2) ← unicode_escape s1; '(v, rest) ← parse_string n s2; Some (string_of_rune r +:+ v, rest)
        | String e s1 =>
            r ← simple_escape e; '(v, rest) ← parse_string n s1; Some (string_of_rune r +:+ v, rest)
        | EmptyString => None
        end
      else if decide (Z_of_char c < 32)%Z then None
      else let '(r, s1) := decode_cons c s' in
           '(v, rest) ← parse_string n s1; Some (string_of_rune r +:+ v, rest)
  | _, _ => None
  end.

(** ** Numbers *)

(** The digits at the front of a string. *)
Fixpoint digits (s : string) : string * string :=
  match s with
  | String c s' => if IsDigit c then let '(d, rest) := digits s' in (String c d, rest) else ("", s)
  | EmptyString => ("", "")
  end.
Definition nat_of_digits (d : string) : Z :=
  match NilZero.uint_of_string d with Some u => Z.of_uint u | None => 0%Z end.

(** The value [m * 10 ^ e] is rounded to a finite [float64]. *)
Definition fits_float64 (m : Z) (e : Z) : bool :=
  if decide (m = 0%Z) then true
  else
    let top := (Z.log2 m + 1)%Z in
    (* m * 10^e is below 10^300, or not below 10^400 *)
    if decide (e + top ≤ 300)%Z then true
    else if decide (400 ≤ e)%Z then false
    else if decide (0 ≤ e)%Z then bool_decide (m * 10 ^ e < 2 ^ 1024 - 2 ^ 970)%Z
    else bool_decide (m < (2 ^ 1024 - 2 ^ 970) * 10 ^ (- e))%Z.

(** A number: what follows it, if it is well formed and in range. *)
Definition parse_number (s : string) : option string :=
  let s := match s with String "-"%char s' => s' | _ => s end in
  let '(int, s) := digits s in
  if decide (int = "" ∨ (HasPrefix int "0" = true ∧ int ≠ "0")) then None
  else
    '(frac, s) ← match s with
                 | String "."%char s' => let '(d, s'') := digits s' in if decide (d = "") then None else Some (d, s'')
                 | _ => Some ("", s)
                 end;
    '(exp, s) ← match s with
                | String c s' =>
                    if decide (c = "e"%char ∨ c = "E"%char) then
                      let '(neg, s') := match s' with
                                        | String "-"%char t => (true, t) | String "+"%char t => (false, t) | _ => (false, s')
                                        end in
                      let '(d, s'') := digits s' in
                      if decide (d = "") then None
                      else Some ((if neg : bool then - nat_of_digits d else nat_of_digits d)%Z, s'')
                    else Some (0%Z, s)
                | EmptyString => Some (0%Z, s)
                end;
    if fits_float64 (nat_of_digits (int +:+ frac)) (exp - Z.of_nat (String.length frac)) then Some s else None.

(** ** Values *)

(** A literal name. *)
Definition parse_literal (lit s : string) : option string :=
  if HasPrefix s lit then Some (String.substring (String.length lit) (String.length s) s) else None.

(** A value, the elements of an array and the members of an object. *)
Fixpoint parse_value (n : nat) (s : string) : option (element * string) :=
  match n with
  | O => None
  | S n =>
      match skip_ws s with
      | String c s' =>
          if decide (Z_of_char c = 34%Z) then '(v, rest) ← parse_string (S (String.length s')) s'; Some (Some v, rest)
          else if decide (c = "["%char) then '(_, rest) ← parse_array n s'; Some (None, rest)
          else if decide (c = "{"%char) then
            match skip_ws s' with
            | String "}"%char rest => Some (None, rest)
            | _ => rest ← parse_members n s'; Some (None, rest)
            end
          else if decide (c = "t"%char) then rest ← parse_literal "true" (String c s'); Some (None, rest)
          else if decide (c = "f"%char) then rest ← parse_literal "false" (String c s'); Some (None, rest)
          else if decide (c = "n"%char) then rest ← parse_literal "null" (String c s'); Some (None, rest)
          else rest ← parse_number (String c s'); Some (None, rest)
      | EmptyString => None
      end
  end
with parse_array (n : nat) (s : string) : option (list element * string) :=
  match n with
  | O => None
  | S n =>
      match skip_ws s with
      | String "]"%char rest => Some ([], rest)
      | _ => parse_elements n s
      end
  end
with parse_elements (n : nat) (s : string) : option (list element * string) :=
  match n with
  | O => None
  | S n =>
      '(x, s) ← parse_value n s;
      match skip_ws s with
      | String "]"%char rest => Some ([x], rest)
      | String ","%char s => '(xs, rest) ← parse_elements n s; Some (x :: xs, rest)
      | _ => None
      end
  end
with parse_members (n : nat) (s : string) : option string :=
  match n with
  | O => None
  | S n =>
      match skip_ws s with
      | String c s =>
          if decide (Z_of_char c = 34%Z) then
            '(_, s) ← parse_string (S (String.length s)) s;
            match skip_ws s with
            | String ":"%char s =>
                '(_, s) ← parse_value n s;
                match skip_ws s with
                | String "}"%char rest => Some rest
                | String ","%char s => parse_members n s
                | _ => None
                end
            | _ => None
            end
          else None
      | EmptyString => None
      end
  end.

(** [Decode] into a [[]interface{}], on a text that starts with a bracket; [None]
    is an error.  A byte is consumed at least at every third call. *)
Definition Decode (s : string) : option (list element) :=
  match s with
  | String "["%char s' => fst <$> parse_array (3 * String.length s + 3) s'
  | _ => None
  end.

(** ** Arrays of strings *)

(** A string as a JSON literal, and an array of strings. *)
Definition literal_rune (r : rune) : string :=
  if decide (r = 34 ∨ r = 92)%Z then "\" +:+ string_of_rune r
  else if decide (r < 32)%Z then "\u" +:+ hex 4 r
  else string_of_rune r.
Fixpoint literal_body (l : list rune) : string :=
  match l with [] => "" | r :: l => literal_rune r +:+ literal_body l end.
Definition dquote : ascii := char_of_Z 34.
Definition literal (l : list rune) : string := String dquote (literal_body l +:+ String dquote "").
Fixpoint array_rest (ls : list (list rune)) : string :=
  match ls with
  | [] => "]"
  | l :: ls => "," +:+ literal l +:+ array_rest ls
  end.
Definition array (ls : list (list rune)) : string :=
  match ls with
  | [] => "[]"
  | l :: ls => "[" +:+ literal l +:+ array_rest ls
  end.

(** ** Lemmas *)

Lemma decide_control r : (0 ≤ r < 32)%Z → ∀ t n, parse_string (S n) ("\u" +:+ hex 4 r +:+ t) =
  '(v, rest) ← parse_string n t; Some (string_of_rune r +:+ v, rest).
Proof.
  intros Hr t n.
  rewrite <-(Z2Nat.id r) by lia. assert (Z.to_nat r < 32)%nat as Hk by lia. clear Hr.
  revert Hk. generalize (Z.to_nat r) as k. intros k Hk.
  do 32 (destruct k as [|k]; [done|]). lia.
Qed.

(** A rune of a literal is read back. *)
Lemma parse_string_rune r t n : ValidRune r = true →
  parse_string (S n) (literal_rune r +:+ t) = '(v, rest) ← parse_string n t; Some (string_of_rune r +:+ v, rest).
Proof.
  intros Hv. pose proof (ValidRune_spec r Hv). unfold literal_rune. repeat case_decide.
  - by destruct H0 as [->| ->].
  - rewrite <-string_app_assoc. apply decide_control. lia.
  - destruct (decode_encode r t Hv) as (c & s & E & D). rewrite E, string_app_cons. cbn [parse_string].
    assert (r = Z_of_char c ∨ (128 ≤ Z_of_char c)%Z) as Hc.
    { revert D. unfold decode_cons. case_decide; [intros [= <- _]; by left|]. right. lia. }
    rewrite !decide_False by lia. by rewrite D, E.
Qed.

Lemma parse_string_literal l t n : Forall (λ r, ValidRune r = true) l → (length l < n)%nat →
  parse_string n (literal_body l +:+ String dquote t) = Some (utf8_string l, t).
Proof.
  intros Hl. revert n. induction Hl as [|r l Hr _ IH]; intros [|n] Hn; cbn [length literal_body utf8_string] in *; try lia; [done|].
  rewrite <-string_app_assoc, parse_string_rune by done. by rewrite IH by lia.
Qed.

Lemma length_literal_body l : (length l ≤ String.length (literal_body l))%nat.
Proof.
  induction l as [|r l IH]; [done|]. simpl. rewrite length_string_app.
  assert (1 ≤ String.length (literal_rune r))%nat; [|lia].
  unfold literal_rune, string_of_rune, encode_valid. repeat case_decide; rewrite ?length_string_app; cbn [String.length]; lia.
Qed.

Lemma skip_ws_dquote s : skip_ws (String dquote s) = String dquote s.
Proof. done. Qed.

Lemma skip_ws_comma l ls : skip_ws (array_rest (l :: ls)) = String ","%char (literal l +:+ array_rest ls).
Proof. done. Qed.

Lemma parse_elements_S n s : parse_elements (S n) s =
  '(x, s) ← parse_value n s;
  match skip_ws s with
  | String "]"%char rest => Some ([x], rest)
  | String ","%char s => '(xs, rest) ← parse_elements n s; Some (x :: xs, rest)
  | _ => None
  end.
Proof. done. Qed.

Lemma parse_array_literal n l t : parse_array (S n) (literal l +:+ t) = parse_elements n (literal l +:+ t).
Proof. done. Qed.

Lemma parse_value_literal l t n : Forall (λ r, ValidRune r = true) l →
  parse_value (S n) (literal l +:+ t) = Some (Some (utf8_string l), t).
Proof.
  intros Hl. unfold literal. rewrite string_app_cons, <-string_app_assoc.
  change (String dquote "" +:+ t) with (String dquote t).
  cbn [parse_value]. rewrite skip_ws_dquote, decide_True by done.
  rewrite (parse_string_literal l) by
    (done || (rewrite !length_string_app; pose proof (length_literal_body l); cbn [String.length]; lia)).
  done.
Qed.

Lemma parse_elements_array l ls n : Forall (Forall (λ r, ValidRune r = true)) (l :: ls) → (length ls + 2 ≤ n)%nat →
  parse_elements n (literal l +:+ array_rest ls) = Some (Some <$> (utf8_string <$> l :: ls), "").
Proof.
  intros Hls. revert l n Hls. induction ls as [|l' ls IH]; intros l [|[|n]] Hls Hn; try (simpl in Hn; lia);
    apply Forall_cons_1 in Hls as [Hl Hls]; rewrite parse_elements_S, parse_value_literal by done; [done|].
  cbn [mbind option_bind]. rewrite skip_ws_comma. rewrite IH by (done || (simpl in Hn; lia)). done.
Qed.

Lemma length_array_rest ls : (length ls < String.length (array_rest ls))%nat.
Proof. induction ls as [|l ls IH]; simpl; [lia|]. rewrite length_string_app in *. simpl. lia. Qed.

(** Decoding an array of strings gives the strings. *)
Lemma Decode_array ls : Forall (Forall (λ r, ValidRune r = true)) ls →
  Decode (array ls) = Some (Some <$> (utf8_string <$> ls)).
Proof.
  destruct ls as [|l ls]; intros Hls; [done|].
  set (x := literal l +:+ array_rest ls).
  assert (length ls < String.length x)%nat as Hlen.
  { pose proof (length_array_rest ls). unfold x. rewrite length_string_app. lia. }
  change (Decode (array (l :: ls))) with (fst <$> parse_array (3 * S (String.length x) + 3) x).
  replace (3 * S (String.length x) + 3)%nat with (S (3 * String.length x + 5)) by lia. unfold x at 2.
  rewrite parse_array_literal, parse_elements_array by (done || lia). done.
Qed.
End json.
