(* ===== verification/DockerfileParser.v ===== *)
(** The Dockerfile parser (package builder/dockerfile/parser: parser.go,
    utils.go, line_parsers.go).

    A line of a Dockerfile becomes a [Node]; the arguments of an instruction
    hang off its [Next] field.  The [Directive] is the state of a parse: the
    escape token, from which the regular expression for line continuations is
    made, and whether parser directives are still allowed.  The regular
    expressions of parser.go are written out as the functions they compute.  A
    [Directive] here is one whose escape token has been set: the nil regular
    expression of the zero value, on which [ParseLine] panics, has no
    counterpart. *)

From Stdlib Require Import Ascii.
From S2P Require Import Prelude GoStrings Runes Json.

Local Open Scope string_scope.

(** ** Data *)

Unset Elimination Schemes.
Inductive Node := mkNode {
  Value : string;
  Next : option Node;
  Children : list (option Node);  (* the pointers may be nil *)
  Attributes : gmap string bool;
  Original : string;
  Flags : list string;
  StartLine : Z;
  EndLine : Z }.
Set Elimination Schemes.

Definition newNode (value : string) (next : option Node) : Node := mkNode value next [] ∅ "" [] 0 0.

Record Directive := mkDirective {
  EscapeToken : ascii;
  LookingForDirectives : bool;
  EscapeSeen : bool }.

Abbreviation attrs := (gmap string bool).

(** The command names (builder/dockerfile/command/command.go). *)
Definition Commands : list string :=
  ["add"; "arg"; "cmd"; "copy"; "entrypoint"; "env"; "expose"; "from"; "healthcheck"; "label"; "maintainer"; "onbuild";
   "run"; "shell"; "stopsignal"; "user"; "volume"; "workdir"].

(** ** Regular expressions *)

(** The class of [tokenWhitespace]: tab, vertical tab, form feed, carriage
    return, space. *)
Definition is_token_ws (c : ascii) : bool :=
  bool_decide (Z_of_char c = 9 ∨ Z_of_char c = 11 ∨ Z_of_char c = 12 ∨ Z_of_char c = 13 ∨ Z_of_char c = 32)%Z.
Definition is_blank (c : ascii) : bool := bool_decide (Z_of_char c = 32 ∨ Z_of_char c = 9)%Z.

(** The text in front of the first character in a class, and the rest. *)
Fixpoint break (f : ascii → bool) (s : string) : string * string :=
  match s with
  | "" => ("", "")
  | String c s' => if f c then ("", s) else let '(a, b) := break f s' in (String c a, b)
  end.

(** [tokenWhitespace.Split(s, 2)] and [tokenWhitespace.Split(s, -1)]. *)
Definition Split2 (s : string) : list string :=
  match break is_token_ws s with
  | (a, "") => [a]
  | (a, b) => [a; TrimLeftFunc is_token_ws b]
  end.
Fixpoint splitAll (n : nat) (s : string) : list string :=
  match n, break is_token_ws s with
  | S n, (a, String c b) => a :: splitAll n (TrimLeftFunc is_token_ws (String c b))
  | _, (a, _) => [a]
  end.
Definition SplitAll (s : string) : list string := splitAll (String.length s) s.

(** [tokenEscapeCommand]: the rune after [# escape =], as a string.  If only
    blanks follow the equals sign, the last of them is the one. *)
Definition matchEscape (s : string) : option string :=
  match s with
  | String "#"%char s =>
      let s := TrimLeftFunc is_blank s in
      if HasPrefix s "escape" then
        match TrimLeftFunc is_blank (String.substring 6 (String.length s) s) with
        | String "="%char s =>
            match TrimLeftFunc is_blank s, s with
            | String c t, _ =>
                let '(_, rest) := decode_cons c t in
                Some (String.substring 0 (S (String.length t) - String.length rest) (String c t))
            | "", "" => None
            | "", _ => Some (String.substring (String.length s - 1) 1 s)
            end
        | _ => None
        end
      else None
  | _ => None
  end.

(** [tokenComment] on a line. *)
Definition stripComments (line : string) : string :=
  match line with String "#"%char _ => "" | _ => line end.

(** [LineContinuationRegex]: the escape token and blanks up to the end of the
    line; what is in front of it. *)
Fixpoint matchContinuation (tok : ascii) (line : string) : option string :=
  match line with
  | "" => None
  | String c s =>
      match matchContinuation tok s with
      | Some t => Some (String c t)
      | None => if bool_decide (c = tok) && string_forallb is_blank s then Some "" else None
      end
  end.

(** [SetEscapeToken]. *)
Definition SetEscapeToken (s : string) (d : Directive) : result string Directive :=
  match s with
  | String c "" =>
      if decide (c = "`"%char ∨ c = "\"%char)
      then Ok {| EscapeToken := c; LookingForDirectives := LookingForDirectives d; EscapeSeen := EscapeSeen d |}
      else Err ("invalid ESCAPE '" +:+ s +:+ "'. Must be ` or \")
  | _ => Err ("invalid ESCAPE '" +:+ s +:+ "'. Must be ` or \")
  end.

Definition notLooking (d : Directive) : Directive :=
  {| EscapeToken := EscapeToken d; LookingForDirectives := false; EscapeSeen := EscapeSeen d |}.
Definition escapeSeen (d : Directive) : Directive :=
  {| EscapeToken := EscapeToken d; LookingForDirectives := LookingForDirectives d; EscapeSeen := true |}.

(** ** utils.go *)

(** The phase of a scanner over words. *)
Inductive phaseT := inSpaces | inWord | inQuote (quote : rune).
#[export] Instance phaseT_eq_dec : EqDecision phaseT.
Proof. solve_decision. Defined.

(** Where a word that is not blank by accident is added. *)
Definition addWord (blankOK : bool) (word : string) (words : list string) : list string :=
  if blankOK || bool_decide (word ≠ "") then (words ++ [word])%list else words.

Section parser.
  Context `{Unicode}.

(** [extractBuilderFlags], from one iteration of its loop on: it walks over the
    bytes of the line and takes each for a rune. *)
Fixpoint flagsLoop (phase : phaseT) (word : string) (blankOK : bool) (words : list string) (line : string)
    : string * list string :=
  match line with
  | "" =>
      match phase with
      | inSpaces => ("", words)
      | _ => ("", if decide (word = "--") then words else addWord blankOK word words)
      end
  | String c line' =>
      let ch := Z_of_char c in
      let space := unicode.IsSpace ch in
      let dashes := match line' with String c' _ => bool_decide (ch = 45%Z ∧ Z_of_char c' = 45%Z) | "" => false end in
      match phase with
      | inQuote quote =>
          if decide (ch = quote) then flagsLoop inWord word blankOK words line'
          else if decide (ch = 92%Z) then
            match line' with
            | "" => flagsLoop inWord word blankOK words line'
            | String c' line'' => flagsLoop phase (word +:+ string_of_rune (Z_of_char c')) blankOK words line''
            end
          else flagsLoop phase (word +:+ string_of_rune ch) blankOK words line'
      | _ =>
          if bool_decide (phase = inSpaces) && space then flagsLoop inSpaces word blankOK words line'
          else if bool_decide (phase = inSpaces) && negb dashes then (line, words)
          else if space then
            if decide (word = "--") then (line, words)
            else flagsLoop inSpaces "" false (addWord blankOK word words) line'
          else if decide (ch = 39 ∨ ch = 34)%Z then flagsLoop (inQuote ch) word true words line'
          else if decide (ch = 92%Z) then
            match line' with
            | "" => flagsLoop inWord word blankOK words line'
            | String c' line'' => flagsLoop inWord (word +:+ string_of_rune (Z_of_char c')) blankOK words line''
            end
          else flagsLoop inWord (word +:+ string_of_rune ch) blankOK words line'
      end
  end.
Definition extractBuilderFlags (line : string) : string * list string := flagsLoop inSpaces "" false [] line.

(** [splitCommand]: the command, the flags and the arguments. *)
Definition splitCommand (line : string) : string * list string * string :=
  match Split2 (strings.TrimSpace line) with
  | cmd :: rest =>
      let '(args, flags) := match rest with [a] => extractBuilderFlags a | _ => ("", []) end in
      (strings.ToLower cmd, flags, strings.TrimSpace args)
  | [] => ("", [], "")
  end.

(** ** line_parsers.go *)

(** A list of arguments as a chain of nodes. *)
Fixpoint chain (l : list string) : option Node :=
  match l with [] => None | v :: l => Some (newNode v (chain l)) end.

(** [parseWords], on the runes of the text. *)
Fixpoint wordsLoop (tok : rune) (phase : phaseT) (word : string) (blankOK : bool) (words : list string) (l : list rune)
    : list string :=
  match l with
  | [] => match phase with inSpaces => words | _ => addWord blankOK word words end
  | ch :: l' =>
      match phase with
      | inQuote quote =>
          let phase' := if decide (ch = quote) then inWord else phase in
          if decide (ch = tok ∧ quote ≠ 39%Z) then
            match l' with
            | [] => wordsLoop tok inWord word blankOK words l'
            | ch' :: l'' => wordsLoop tok phase' (word +:+ string_of_rune ch +:+ string_of_rune ch') blankOK words l''
            end
          else wordsLoop tok phase' (word +:+ string_of_rune ch) blankOK words l'
      | _ =>
          if unicode.IsSpace ch then
            match phase with
            | inSpaces => wordsLoop tok inSpaces word blankOK words l'
            | _ => wordsLoop tok inSpaces "" false (addWord blankOK word words) l'
            end
          else
            let isQuote := bool_decide (ch = 39 ∨ ch = 34)%Z in
            let phase' := if isQuote then inQuote ch else inWord in
            let blankOK' := blankOK || isQuote in
            if decide (ch = tok) then
              match l' with
              | [] => wordsLoop tok phase' word blankOK' words l'
              | ch' :: l'' => wordsLoop tok phase' (word +:+ string_of_rune ch +:+ string_of_rune ch') blankOK' words l''
              end
            else wordsLoop tok phase' (word +:+ string_of_rune ch) blankOK' words l'
      end
  end.
Definition parseWords (rest : string) (d : Directive) : list string :=
  wordsLoop (Z_of_char (EscapeToken d)) inSpaces "" false [] (runes rest).

(** What a line parser returns; [Ok (None, _)] is a nil node without an error. *)
Abbreviation parsed := (result string (option Node * attrs)).

Definition parseIgnore (rest : string) : parsed := Ok (Some (newNode "" None), ∅).

(** The words of the form [name=value], split; the first that is not is an error. *)
Fixpoint nameValues (words : list string) : result string (list string) :=
  match words with
  | [] => Ok []
  | word :: words =>
      match cut "="%char word with
      | None => Err ("Syntax error - can't find = in " +:+ Quote word +:+ ". Must be of the form: name=value")
      | Some (name, value) =>
          match nameValues words with Ok l => Ok (name :: value :: l) | Err e => Err e end
      end
  end.

Definition parseNameVal (rest key : string) (d : Directive) : parsed :=
  match parseWords rest d with
  | [] => Ok (None, ∅)
  | word :: words =>
      if ContainsChar "="%char word then
        match nameValues (word :: words) with Ok l => Ok (chain l, ∅) | Err e => Err e end
      else
        match Split2 rest with
        | a :: b :: _ => Ok (chain [a; b], ∅)
        | _ => Err (key +:+ " must have two arguments")
        end
  end.
Definition parseEnv (rest : string) (d : Directive) : parsed := parseNameVal rest "ENV" d.
Definition parseLabel (rest : string) (d : Directive) : parsed := parseNameVal rest "LABEL" d.

Definition parseNameOrNameVal (rest : string) (d : Directive) : parsed := Ok (chain (parseWords rest d), ∅).

Definition parseStringsWhitespaceDelimited (rest : string) : parsed :=
  if decide (rest = "") then Ok (None, ∅) else Ok (chain (SplitAll rest), ∅).

Definition parseString (rest : string) : parsed :=
  if decide (rest = "") then Ok (None, ∅) else Ok (Some (newNode rest None), ∅).

(** [parseJSON]; [None] is an error other than [errDockerfileNotStringArray]. *)
Inductive json_result := JSONArray (l : list string) | NotStringArray | NotJSON.
Definition parseJSON (rest : string) : json_result :=
  let rest := strings.TrimLeftSpace rest in
  if HasPrefix rest "[" then
    match json.Decode rest with
    | None => NotJSON
    | Some l => match mapM id l with Some l => JSONArray l | None => NotStringArray end
    end
  else NotJSON.

Definition errDockerfileNotStringArray : string :=
  "When using JSON array syntax, arrays must be comprised of strings only.".
Definition jsonAttrs : attrs := {[ "json" := true ]}.

Definition parseMaybeJSON (rest : string) : parsed :=
  if decide (rest = "") then Ok (None, ∅)
  else match parseJSON rest with
       | JSONArray l => Ok (chain l, jsonAttrs)
       | NotStringArray => Err errDockerfileNotStringArray
       | NotJSON => Ok (Some (newNode rest None), ∅)
       end.

Definition parseMaybeJSONToList (rest : string) : parsed :=
  match parseJSON rest with
  | JSONArray l => Ok (chain l, jsonAttrs)
  | NotStringArray => Err errDockerfileNotStringArray
  | NotJSON => parseStringsWhitespaceDelimited rest
  end.

Definition isSpaceByte (c : ascii) : bool := unicode.IsSpace (Z_of_char c).
Definition parseHealthConfig (rest : string) : parsed :=
  let '(typ, rest) := break isSpaceByte rest in
  if decide (typ = "") then Ok (None, ∅)
  else match parseMaybeJSON (TrimLeftFunc isSpaceByte rest) with
       | Ok (cmd, attrs) => Ok (Some (newNode typ cmd), attrs)
       | Err e => Err e
       end.

(** The line parsers of the dispatch table but for [onbuild]; a name that is not
    in the table is ignored. *)
Definition lineParser (cmd args : string) (d : Directive) : parsed :=
  if decide (cmd ∈ ["add"; "copy"; "volume"]) then parseMaybeJSONToList args
  else if decide (cmd ∈ ["cmd"; "entrypoint"; "run"; "shell"]) then parseMaybeJSON args
  else if decide (cmd ∈ ["from"; "maintainer"; "stopsignal"; "user"; "workdir"]) then parseString args
  else if decide (cmd = "arg") then parseNameOrNameVal args d
  else if decide (cmd = "env") then parseEnv args d
  else if decide (cmd = "expose") then parseStringsWhitespaceDelimited args
  else if decide (cmd = "healthcheck") then parseHealthConfig args
  else if decide (cmd = "label") then parseLabel args d
  else parseIgnore args.

(** ** parser.go *)

(** [parseSubCommand] and [fullDispatch], over the function that parses a line. *)
Definition parseSubCommand (parse : string → M Directive (result string (string * option Node))) (rest : string)
    : M Directive parsed :=
  if decide (rest = "") then mret (Ok (None, ∅))
  else c ←? parse rest; mret (Ok (Some (mkNode "" None [snd c] ∅ "" [] 0 0), ∅)).
Definition fullDispatch (parse : string → M Directive (result string (string * option Node)))
    (cmd args : string) (d : Directive) : M Directive parsed :=
  if decide (cmd = "onbuild") then parseSubCommand parse args else mret (lineParser cmd args d).

(** [ParseLine].  It returns the text that an unfinished line starts with, or the
    node of a finished one; both are empty for a line without an instruction. *)
Fixpoint ParseLine (n : nat) (line : string) : M Directive (result string (string * option Node)) :=
  match n with
  | O => out_of_fuel
  | S n =>
      looking ← read LookingForDirectives;
      match (if looking : bool then matchEscape (strings.ToLower line) else None) with
      | Some tok =>
          seen ← read EscapeSeen;
          if seen : bool then mret (Err "only one escape parser directive can be used")
          else
            d ← read id;
            match SetEscapeToken tok d with
            | Err e => mret (Err e)
            | Ok d => _ ← modify (λ _, escapeSeen d); mret (Ok ("", None))
            end
      | None =>
          _ ← modify notLooking;
          let line := stripComments line in
          if decide (line = "") then mret (Ok ("", None))
          else
            d ← read id;
            match matchContinuation (EscapeToken d) line with
            | Some line => mret (Ok (line, None))
            | None =>
                let '(cmd, flags, args) := splitCommand line in
                p ←? fullDispatch (ParseLine n) cmd args d;
                mret (Ok ("", Some (mkNode cmd (fst p) [] (snd p) line flags 0 0)))
            end
      end
  end.

Definition parseLine (line : string) : M Directive (result string (string * option Node)) :=
  ParseLine (S (String.length line)) line.

(** The lines that [bufio.Scanner] delivers: they end at a line feed, a carriage
    return in front of it is dropped, and the scanner gives up at a line of 64k
    bytes or more.  The flag says whether it did. *)
Definition dropCR (s : string) : string :=
  match String.get (String.length s - 1) s with
  | Some c => if decide (Z_of_char c = 13%Z) then String.substring 0 (String.length s - 1) s else s
  | None => s
  end.
Definition MaxScanTokenSize : Z := 65536.
Fixpoint scanLines (cur : string) (room : Z) (s : string) : list string * bool :=
  match s with
  | "" => (if decide (cur = "") then [] else [dropCR (String.rev cur)], false)
  | String c s =>
      if decide (Z_of_char c = 10%Z) then let '(l, e) := scanLines "" MaxScanTokenSize s in (dropCR (String.rev cur) :: l, e)
      else if decide (room ≤ 1)%Z then ([], true) else scanLines (String c cur) (room - 1) s
  end.
Definition ScanLines (s : string) : list string * bool := scanLines "" MaxScanTokenSize s.

(** The lines that continue an instruction: the rest of its text or its node, the
    number of the last line read, and the lines that are left. *)
Fixpoint continueLine (line : string) (currentLine : Z) (lines : list string)
    : M Directive (result string (string * option Node * Z * list string)) :=
  match lines with
  | [] => mret (Ok (line, None, currentLine, []))
  | newline :: lines =>
      let currentLine := (currentLine + 1)%Z in
      if decide (stripComments (strings.TrimSpace newline) = "") then continueLine line currentLine lines
      else
        r ←? parseLine (line +:+ newline);
        match snd r with
        | Some child => mret (Ok (fst r, Some child, currentLine, lines))
        | None => continueLine (fst r) currentLine lines
        end
  end.

Definition withLines (start end_ : Z) (n : Node) : Node :=
  mkNode (Value n) (Next n) (Children n) (Attributes n) (Original n) (Flags n) start end_.
Definition addChild (child : Node) (currentLine : Z) (root : Node) : Node :=
  mkNode (Value root) (Next root) (Children root ++ [Some child])%list (Attributes root) (Original root) (Flags root)
    (if decide (StartLine root < 0)%Z then currentLine else StartLine root) currentLine.

Definition utf8bom : string := string_of_rune BOM.
Definition TrimPrefix (s p : string) : string :=
  if HasPrefix s p then String.substring (String.length p) (String.length s) s else s.

(** The loop of [Parse] over the lines. *)
Fixpoint parseLoop (n : nat) (currentLine : Z) (root : Node) (lines : list string) : M Directive (result string Node) :=
  match n, lines with
  | O, _ => out_of_fuel
  | S n, [] => mret (Ok root)
  | S n, scanned :: lines =>
      let scanned := if decide (currentLine = 0%Z) then TrimPrefix scanned utf8bom else scanned in
      let startLine := (currentLine + 1)%Z in
      r ←? parseLine (strings.TrimLeftSpace scanned);
      c ←? (match r with
            | (line, None) =>
                if decide (line = "") then mret (Ok (None, startLine, lines))
                else
                  c ←? continueLine line startLine lines;
                  let '(line, child, currentLine, lines) := c in
                  match child with
                  | Some child => mret (Ok (Some child, currentLine, lines))
                  | None =>
                      if decide (line = "") then mret (Ok (None, currentLine, lines))
                      else r ←? parseLine line; mret (Ok (snd r, currentLine, lines))
                  end
            | (_, Some child) => mret (Ok (Some child, startLine, lines))
            end);
      let '(child, currentLine, lines) := c in
      match child with
      | Some child => parseLoop n currentLine (addChild (withLines startLine currentLine child) currentLine root) lines
      | None => parseLoop n currentLine root lines
      end
  end.

(** [Parse] on the contents of the file; what the scanner has to say at the end
    is not asked for. *)
Definition Parse (text : string) : M Directive (result string Node) :=
  let lines := fst (ScanLines text) in
  parseLoop (S (length lines)) 0 (mkNode "" None [] ∅ "" [] (-1) 0) lines.

(** [Dump]; a nil child is dereferenced. *)
Fixpoint Dump (node : Node) : option string :=
  let '(mkNode value next children _ _ flags _ _) := node in
  kids ← (fix go (l : list (option Node)) : option string :=
            match l with
            | [] => Some ""
            | None :: _ => None
            | Some n :: l => s ← Dump n; t ← go l; Some ("(" +:+ s +:+ ")" +:+ String (char_of_Z 10) "" +:+ t)
            end) children;
  rest ← match next with
         | None => Some ""
         | Some n =>
             (fix go (n : Node) : option string :=
                match n with
                | mkNode v next children _ _ _ _ _ =>
                    s ← match children with [] => Some (Quote v) | _ => Dump n end;
                    t ← match next with None => Some "" | Some n' => go n' end;
                    Some (" " +:+ s +:+ t)
                end) n
         end;
  Some (strings.TrimSpace (value +:+ (match flags with [] => "" | _ => " [" +:+ String.concat " " (Quote <$> flags) +:+ "]" end)
                           +:+ kids +:+ rest)).
End parser.

(** ** Parsing ends *)

Section total.
  Context `{Unicode}.

Lemma length_trim_left_func f s : (String.length (TrimLeftFunc f s) ≤ String.length s)%nat.
Proof. induction s as [|c s IH]; simpl; [done|]. case_match; simpl; lia. Qed.

Lemma length_trim_left n s : (String.length (strings.trim_left n s) ≤ String.length s)%nat.
Proof.
  revert s. induction n as [|n IH]; intros [|c s]; simpl; try done.
  pose proof (decode_cons_length c s). destruct (decode_cons c s) as [r rest]. simpl in *.
  specialize (IH rest). case_match; simpl; lia.
Qed.

Lemma length_substring_le i n s : (String.length (String.substring i n s) ≤ n)%nat.
Proof. revert i n. induction s as [|c s IH]; intros [|i] [|n]; simpl; try lia; [specialize (IH 0%nat n)|specialize (IH i 0%nat)|specialize (IH i (S n))]; lia. Qed.

Lemma length_trim_right n s : (String.length (strings.trim_right n s) ≤ String.length s)%nat.
Proof.
  revert s. induction n as [|n IH]; intros [|c s]; cbn [strings.trim_right]; try (simpl; lia).
  pose proof (decode_cons_length c s). destruct (decode_cons c s) as [r rest]. cbn [snd] in *.
  specialize (IH rest). case_match; [simpl; lia|]. rewrite length_string_app.
  pose proof (length_substring_le 0 (String.length (String c s) - String.length rest) (String c s)).
  cbn [String.length] in *. lia.
Qed.

Lemma length_TrimSpace s : (String.length (strings.TrimSpace s) ≤ String.length s)%nat.
Proof. unfold strings.TrimSpace. etransitivity; [apply length_trim_right|apply length_trim_left]. Qed.

Lemma break_length f s : String.length s = (String.length (break f s).1 + String.length (break f s).2)%nat.
Proof. induction s as [|c s IH]; simpl; [done|]. case_match; simpl; [done|]. destruct (break f s). simpl in *. lia. Qed.

Lemma break_head f s c b : (break f s).2 = String c b → f c = true.
Proof. induction s as [|c' s IH]; simpl; [done|]. case_match; simpl; [by intros [= -> ->]|]. by destruct (break f s). Qed.

Lemma flagsLoop_length ph w b ws s : (String.length (flagsLoop ph w b ws s).1 ≤ String.length s)%nat.
Proof.
  remember (String.length s) as n eqn:En. assert (String.length s ≤ n)%nat as Hn by lia. clear En.
  revert ph w b ws s Hn. induction n as [|n IH]; intros ph w b ws [|c s] Hn; cbn [flagsLoop];
    try (destruct ph; simpl in *; lia). simpl in Hn.
  assert (∀ ph w b ws s', (String.length s' ≤ String.length s)%nat → (String.length (flagsLoop ph w b ws s').1 ≤ S n)%nat) as Hr.
  { intros ph' w' b' ws' s' Hs. specialize (IH ph' w' b' ws' s' ltac:(lia)). lia. }
  repeat (case_match || case_decide); first [apply Hr; simpl; lia | simpl in *; lia].
Qed.

(** The arguments of an instruction are shorter than its line. *)
Lemma splitCommand_args line : let '(cmd, _, args) := splitCommand line in
  cmd ≠ "" → (String.length args < String.length line)%nat.
Proof.
  unfold splitCommand, Split2. pose proof (length_TrimSpace line) as Ht.
  pose proof (break_length is_token_ws (strings.TrimSpace line)) as Hb.
  destruct (break is_token_ws (strings.TrimSpace line)) as [a [|c b]]; simpl in *.
  - intros Ha. destruct a as [|x a]; [done|]. simpl in *. lia.
  - pose proof (flagsLoop_length inSpaces "" false [] (TrimLeftFunc is_token_ws (String c b))) as Hf.
    unfold extractBuilderFlags. destruct (flagsLoop _ _ _ _ _) as [args flags]. cbn [fst] in Hf.
    pose proof (length_TrimSpace args). pose proof (length_trim_left_func is_token_ws (String c b)). simpl in *.
    intros Ha. destruct a as [|x a]; [done|]. simpl in *. lia.
Qed.

(** What a call of [ParseLine] leaves: a node stands for a whole line of text. *)
Definition line_result (r : result string (string * option Node)) : Prop :=
  match r with Ok (rest, Some c) => rest = "" ∧ Original c ≠ "" | _ => True end.

Lemma fullDispatch_total parse cmd args d s :
  (cmd = "onbuild" → wp (parse args) (λ _ _, True) s) → wp (fullDispatch parse cmd args d) (λ _ _, True) s.
Proof.
  intros Hp. unfold fullDispatch, parseSubCommand. case_decide as Hc; [|done]. case_decide; [done|].
  wp_step. eapply wp_mono; [by apply Hp|]. by intros [[? ?]|?] ? _.
Qed.

Ltac step := wp_step; cbv beta.

Lemma ParseLine_total n line s : (String.length line < n)%nat → wp (ParseLine n line) (λ r _, line_result r) s.
Proof.
  revert line s. induction n as [|n IH]; intros line s Hn; [lia|]. cbn [ParseLine].
  do 2 step. destruct (if LookingForDirectives s then _ else _) as [tok|].
  { do 2 step. destruct (EscapeSeen s); [by step|]. do 2 step. destruct (SetEscapeToken tok _); by repeat step. }
  do 2 step. assert (String.length (stripComments line) ≤ String.length line)%nat as Hs.
  { unfold stripComments. repeat (case_match; simpl; try lia). }
  case_decide; [by step|]. do 2 step. destruct (matchContinuation _ _); [by step|].
  pose proof (splitCommand_args (stripComments line)) as Ha.
  destruct (splitCommand (stripComments line)) as [[cmd flags] args].
  step. eapply wp_mono.
  - apply fullDispatch_total. intros ->. eapply wp_mono; [apply IH|done]. specialize (Ha ltac:(done)). lia.
  - intros [p|e] ? _; [|done]. by step.
Qed.

Lemma parseLine_total line s : wp (parseLine line) (λ r _, line_result r) s.
Proof. apply ParseLine_total. lia. Qed.

(** The lines of the nodes of a file, between the lines [lo] and [hi]. *)
Fixpoint ordered (lo : Z) (kids : list Node) (hi : Z) : Prop :=
  match kids with
  | [] => (lo ≤ hi)%Z
  | k :: kids => (lo < StartLine k ≤ EndLine k)%Z ∧ ordered (EndLine k) kids hi
  end.

Lemma ordered_snoc lo kids hi k hi' : ordered lo kids hi → (hi < StartLine k ≤ EndLine k)%Z → (EndLine k ≤ hi')%Z →
  ordered lo (kids ++ [k]) hi'.
Proof.
  revert lo. induction kids as [|k' kids IH]; intros lo Ho Hk Hh; simpl in *; [lia|].
  destruct Ho as [? ?]. split; [done|]. by apply IH.
Qed.

Lemma ordered_mono lo kids hi hi' : ordered lo kids hi → (hi ≤ hi')%Z → ordered lo kids hi'.
Proof. revert lo. induction kids as [|k kids IH]; intros lo Ho Hh; simpl in *; [lia|]. naive_solver. Qed.

(** The tree of a file of [n] lines: one node per instruction, in the order of
    the lines that it spans; the root starts at the line where the first
    instruction ends and ends where the last one does. *)
Definition tree_ok (n : Z) (root : Node) : Prop :=
  ∃ kids : list Node,
    Children root = Some <$> kids ∧ ordered 0 kids n ∧ Forall (λ k, Original k ≠ "") kids ∧
    StartLine root = default (-1)%Z (EndLine <$> head kids) ∧ EndLine root = default 0%Z (EndLine <$> list.last kids).

Lemma addChild_ok cur cur' start root c :
  tree_ok cur root → (cur < start ≤ cur')%Z → (0 ≤ cur)%Z → Original c ≠ "" →
  tree_ok cur' (addChild (withLines start cur' c) cur' root).
Proof.
  intros (kids & Hk & Ho & Hne & Hs & He) Hc H0 Hcne. exists (kids ++ [withLines start cur' c])%list.
  unfold addChild. cbn [Children StartLine EndLine].
  split_and!.
  - by rewrite Hk, fmap_app.
  - eapply ordered_snoc; [done|simpl; lia|simpl; lia].
  - apply Forall_app_2; [done|]. by repeat constructor.
  - rewrite Hs. destruct kids as [|k kids]; simpl in *; [done|]. destruct Ho as [Ho _].
    rewrite decide_False by lia. done.
  - by rewrite last_snoc.
Qed.

Lemma continueLine_total line cur lines s : wp (continueLine line cur lines) (λ r _,
  match r with
  | Ok (_, c, cur', lines') => (cur ≤ cur')%Z ∧ (cur' + Z.of_nat (length lines') = cur + Z.of_nat (length lines))%Z ∧
      ∀ c', c = Some c' → Original c' ≠ ""
  | Err _ => True
  end) s.
Proof.
  revert line cur s. induction lines as [|l lines IH]; intros line cur s; cbn [continueLine].
  { wp_step. split_and!; [lia|simpl; lia|done]. }
  assert (∀ line s, wp (continueLine line (cur + 1) lines) (λ r _,
    match r with
    | Ok (_, c, cur', lines') => (cur ≤ cur')%Z ∧
        (cur' + Z.of_nat (length lines') = cur + Z.of_nat (length (l :: lines)))%Z ∧ ∀ c', c = Some c' → Original c' ≠ ""
    | Err _ => True
    end) s) as Hgo.
  { intros line' s'. eapply wp_mono; [apply IH|]. intros [[[[? ?] ?] ?]|?] ? Hr; [|done].
    destruct Hr as (? & ? & ?). simpl. split_and!; [lia|lia|done]. }
  case_decide; [apply Hgo|]. wp_step. eapply wp_mono; [apply parseLine_total|].
  intros [[rest [c|]]|e] s' Hr; cbn [fst snd]; [|apply Hgo|done].
  wp_step. destruct Hr as [_ Hr]. simpl. split_and!; [lia|lia|]. by intros ? [= <-].
Qed.

(** What the body of the loop of [Parse] finds: a node or none, the line that has
    been reached and the lines that are left. *)
Definition found (start : Z) (lines : list string) (r : result string (option Node * Z * list string)) : Prop :=
  match r with
  | Ok (c, cur, lines') => (start ≤ cur)%Z ∧ (cur + Z.of_nat (length lines') = start + Z.of_nat (length lines))%Z ∧
      ∀ c', c = Some c' → Original c' ≠ ""
  | Err _ => True
  end.

Lemma parseLoop_total n cur root lines s :
  (length lines < n)%nat → (0 ≤ cur)%Z → tree_ok cur root →
  wp (parseLoop n cur root lines)
    (λ r _, ∀ t, r = Ok t → tree_ok (cur + Z.of_nat (length lines)) t) s.
Proof.
  revert cur root lines s. induction n as [|n IH]; intros cur root [|l lines] s Hn Hc Ht; cbn [parseLoop length] in *; try lia.
  { step. intros t [= <-]. by rewrite Z.add_0_r. }
  step. eapply wp_mono; [apply parseLine_total|]. intros [[rest c]|e] s1 Hr; [|by intros ? [=]].
  step. eapply (wp_mono _ (λ r _, found (cur + 1) lines r)).
  - destruct c as [c|]; [step; destruct Hr; split_and!; [lia|lia|by intros ? [= <-]]|].
    case_decide; [step; split_and!; [lia|lia|done]|].
    step. eapply wp_mono; [apply continueLine_total|]. intros [[[[rest' c1] cur'] lines']|e] s2 Hc'; [|done].
    destruct Hc' as (? & ? & Hne). destruct c1 as [c1|]; [step; split_and!; [lia|lia|by intros ? [= <-]; apply Hne]|].
    case_decide; [step; split_and!; [lia|lia|done]|].
    step. eapply wp_mono; [apply parseLine_total|]. intros [[rest2 c2]|e] s3 Hr2; [|done].
    step. split_and!; [lia|lia|]. intros c' E. simpl in E. subst c2. by destruct Hr2.
  - clear c Hr. intros [[[c cur'] lines']|e] s2 Hf; [|by intros ? [=]]. destruct Hf as (? & ? & Hne).
    replace (cur + Z.of_nat (S (length lines)))%Z with (cur' + Z.of_nat (length lines'))%Z by lia.
    destruct c as [c|].
    + eapply IH; [lia|lia|]. apply (addChild_ok cur); [done|lia|lia|by apply Hne].
    + eapply IH; [lia|lia|]. destruct Ht as (kids & ? & Ho & ?). exists kids. split_and!; try tauto.
      eapply ordered_mono; [done|lia].
Qed.
End total.

Lemma Parse_total `{Unicode} text d : ∃ r d', Parse text d = Ret r d' ∧
  ∀ root, r = Ok root → tree_ok (Z.of_nat (length (fst (ScanLines text)))) root.
Proof.
  unfold Parse. destruct (wp_inv _ _ _ (parseLoop_total (S (length (fst (ScanLines text)))) 0
    (mkNode "" None [] ∅ "" [] (-1) 0) (fst (ScanLines text)) d ltac:(lia) ltac:(lia) ltac:(by exists []))) as (r & d' & E & Hr).
  eauto.
Qed.

(** *** Documents *)

Section documents.
  Context `{Unicode}.

(** A Dockerfile as it is written.  White space is trimmed before a line is looked
    at; what is left of a line that does not count is empty or a comment. *)
Definition no_text (s : string) : Prop := s = "" ∨ ∃ r, s = String "#"%char r.

(** The line goes on: [s] is [s'], the escape token and blanks. *)
Definition goes_on (tok : ascii) (s s' : string) : Prop := ∃ ws, s = s' +:+ String tok ws ∧ string_forallb is_blank ws = true.

(** The text of an instruction, from its first line [s] and the lines behind it:
    its text, on how many more lines it is, and the lines left.  Lines that do not
    count may stand between its lines, and it may end with the file. *)
Inductive instruction (tok : ascii) : string → list string → string → nat → list string → Prop :=
| in_last s ls : (∀ s', ¬ goes_on tok s s') → instruction tok s ls s 0 ls
| in_more s s' skipped x ls t k rest : goes_on tok s s' → s' ≠ "" → Forall (λ l, no_text (strings.TrimSpace l)) skipped →
    ¬ no_text (strings.TrimSpace x) → instruction tok (s' +:+ x) ls t k rest →
    instruction tok s (skipped ++ x :: ls) t (length skipped + S k) rest
| in_file s s' skipped : goes_on tok s s' → s' ≠ "" → (∀ s'', ¬ goes_on tok s' s'') →
    Forall (λ l, no_text (strings.TrimSpace l)) skipped → instruction tok s skipped s' (length skipped) [].

(** The instructions of the lines behind line [n]: where they start and end, and
    their texts.  A line of an escape token only does not count either. *)
Inductive document (tok : ascii) : Z → list string → list (Z * Z * string) → Prop :=
| doc_end n : document tok n [] []
| doc_skip n l ls out : no_text (strings.TrimLeftSpace l) ∨ goes_on tok (strings.TrimLeftSpace l) "" →
    document tok (n + 1) ls out → document tok n (l :: ls) out
| doc_instruction n l ls t k rest out : ¬ no_text (strings.TrimLeftSpace l) →
    instruction tok (strings.TrimLeftSpace l) ls t k rest → document tok (n + 1 + Z.of_nat k) rest out →
    document tok n (l :: ls) ((n + 1, n + 1 + Z.of_nat k, t)%Z :: out).

(** The byte order mark in front of the first line. *)
Definition unmarked (lines : list string) : list string :=
  match lines with [] => [] | l :: ls => TrimPrefix l utf8bom :: ls end.

Definition directive_of (l : string) : option string := matchEscape (strings.ToLower (strings.TrimLeftSpace l)).
Definition no_directive (lines : list string) : Prop := match lines with [] => True | l :: _ => directive_of l = None end.

(** A file: it may start with the directive that sets the escape token, if
    directives are looked for.  [d'] is the state in which its instructions are
    parsed, and [n] the number of lines of the directive. *)
Inductive opening (d : Directive) (lines : list string) : Directive → Z → list string → Prop :=
| op_none : LookingForDirectives d = false ∨ no_directive (unmarked lines) → opening d lines (notLooking d) 0 (unmarked lines)
| op_escape l ls c : LookingForDirectives d = true → EscapeSeen d = false → unmarked lines = l :: ls →
    directive_of l = Some (String c "") → c = "`"%char ∨ c = "\"%char → no_directive ls →
    opening d lines (mkDirective c false true) 1 ls.

(** *** One line *)

Lemma no_text_strip s : no_text s ↔ stripComments s = "".
Proof.
  split; [by intros [->|[r ->]]|]. unfold stripComments. destruct s as [|c s]; [by left|].
  destruct (decide (c = "#"%char)) as [->|Hc]; [right; by eexists|]. intros E. exfalso.
  repeat (case_match; try done).
Qed.

Lemma strip_text s : ¬ no_text s → stripComments s = s ∧ s ≠ "".
Proof.
  intros Hs. split; [|intros ->; apply Hs; by left]. destruct s as [|c s]; [done|].
  destruct (decide (c = "#"%char)) as [->|Hc]; [destruct Hs; right; by eexists|]. unfold stripComments.
  repeat (case_match; try done).
Qed.

(** The escape token is not white space. *)
Lemma goes_on_match tok s s' : is_blank tok = false → goes_on tok s s' → matchContinuation tok s = Some s'.
Proof.
  intros Ht (ws & -> & Hws). assert (matchContinuation tok ws = None) as Hn.
  { clear s'. induction ws as [|c ws IH]; [done|]. simpl in *. apply andb_true_iff in Hws as [Hc Hws]. rewrite IH by done.
    rewrite bool_decide_eq_false_2 by (intros ->; congruence). done. }
  induction s' as [|c s' IH]; simpl; [|by rewrite IH]. by rewrite Hn, bool_decide_eq_true_2, Hws.
Qed.

Lemma match_goes_on tok s s' : matchContinuation tok s = Some s' → goes_on tok s s'.
Proof.
  revert s'. induction s as [|c s IH]; intros s'; simpl; [done|]. destruct (matchContinuation tok s) as [t|].
  - intros [= <-]. destruct (IH t eq_refl) as (ws & -> & Hws). by exists ws.
  - destruct (bool_decide (c = tok)) eqn:E; simpl; [|done]. apply bool_decide_eq_true in E as ->.
    destruct (string_forallb is_blank s) eqn:Eb; [|done]. intros [= <-]. by exists s.
Qed.

Lemma no_match tok s : (∀ s', ¬ goes_on tok s s') → matchContinuation tok s = None.
Proof. intros Hs. destruct (matchContinuation tok s) as [s'|] eqn:E; [|done]. by apply match_goes_on in E as ?%Hs. Qed.

(** A state in which directives are not looked for does not change. *)
Definition settled (d : Directive) : Prop := LookingForDirectives d = false ∧ is_blank (EscapeToken d) = false.

Lemma settled_same d : settled d → notLooking d = d.
Proof. intros [Hl _]. destruct d. simpl in *. by rewrite Hl. Qed.

Lemma ParseLine_keeps n line d : settled d → match ParseLine n line d with Ret _ d' => d' = d | _ => True end.
Proof.
  intros Hd. revert line. induction n as [|n IH]; intros line; [done|]. cbn [ParseLine].
  unfold try_bind, mbind, M_bind, read, modify, mret, M_ret. destruct Hd as [Hl Ht] eqn:E. rewrite Hl. cbv beta iota. clear E.
  rewrite settled_same by done. case_decide; [done|]. unfold id. destruct (matchContinuation _ _); [done|].
  destruct (splitCommand _) as [[cmd flags] args]. unfold fullDispatch, parseSubCommand, try_bind, mbind, M_bind, mret, M_ret.
  case_decide; [|by destruct (lineParser _ _ _)]. case_decide; [done|]. specialize (IH args).
  destruct (ParseLine n args d) as [[r|e] d'| |]; done.
Qed.

(** What a line is: nothing, the start of an instruction, or a whole one. *)
Lemma parseLine_nothing s d : settled d → no_text s → parseLine s d = Ret (Ok ("", None)) d.
Proof.
  intros Hd Hs%no_text_strip. unfold parseLine. cbn [ParseLine]. unfold mbind, M_bind, read, modify, mret, M_ret.
  pose proof Hd as [Hl _]. rewrite Hl. cbv beta iota. by rewrite Hs, settled_same.
Qed.

Lemma parseLine_start s s' d : settled d → ¬ no_text s → goes_on (EscapeToken d) s s' → parseLine s d = Ret (Ok (s', None)) d.
Proof.
  intros Hd Hs Hg. pose proof Hd as [Hl Ht]. destruct (strip_text s Hs) as [E Hne].
  unfold parseLine. cbn [ParseLine]. unfold mbind, M_bind, read, modify, mret, M_ret. rewrite Hl. cbv beta iota.
  rewrite E, settled_same, decide_False by done. unfold id. by rewrite (goes_on_match _ _ _ Ht Hg).
Qed.

Lemma parseLine_whole s d : settled d → ¬ no_text s → (∀ s', ¬ goes_on (EscapeToken d) s s') →
  (∃ node, parseLine s d = Ret (Ok ("", Some node)) d ∧ Original node = s) ∨ ∃ e, parseLine s d = Ret (Err e) d.
Proof.
  intros Hd Hs Hg%no_match. pose proof Hd as [Hl Ht]. destruct (strip_text s Hs) as [E Hne].
  pose proof (ParseLine_keeps (S (String.length s)) s d Hd) as Hk.
  pose proof (wp_inv _ _ _ (parseLine_total s d)) as (r & d' & Er & _). unfold parseLine in *. rewrite Er in *. subst d'.
  revert Er. cbn [ParseLine]. unfold try_bind, mbind, M_bind, read, modify, mret, M_ret. rewrite Hl. cbv beta iota.
  rewrite E, settled_same, decide_False by done. unfold id. rewrite Hg. destruct (splitCommand s) as [[cmd flags] args].
  destruct (fullDispatch _ _ _ _ _) as [[p|e] d'| |]; intros [= <- ->]; [left|right]; by eexists.
Qed.

(** *** One instruction *)

Abbreviation answer := (result string (option Node * Z * list string)).

(** The end of the body of the loop of [Parse], behind the lines that continue an
    instruction. *)
Definition settle (c : string * option Node * Z * list string) : M Directive answer :=
  let '(line, child, currentLine, lines) := c in
  match child with
  | Some child => mret (Ok (Some child, currentLine, lines))
  | None =>
      if decide (line = "") then mret (Ok (None, currentLine, lines))
      else r ←? parseLine line; mret (Ok (snd r, currentLine, lines))
  end.
Definition body (startLine : Z) (lines : list string) (r : string * option Node) : M Directive answer :=
  match r with
  | (line, None) => if decide (line = "") then mret (Ok (None, startLine, lines)) else c ←? continueLine line startLine lines; settle c
  | (_, Some child) => mret (Ok (Some child, startLine, lines))
  end.

Lemma parseLoop_body n cur root l lines :
  parseLoop (S n) cur root (l :: lines) =
  (r ←? parseLine (strings.TrimLeftSpace (if decide (cur = 0%Z) then TrimPrefix l utf8bom else l));
   c ←? body (cur + 1) lines r;
   let '(child, cur', lines) := c in
   match child with
   | Some child => parseLoop n cur' (addChild (withLines (cur + 1) cur' child) cur' root) lines
   | None => parseLoop n cur' root lines
   end).
Proof. done. Qed.

(** The node of the text of an instruction. *)
Definition node_of (d : Directive) (t : string) : result string Node :=
  match parseLine t d with
  | Ret (Ok (_, Some node)) _ => Ok node
  | Ret (Err e) _ => Err e
  | _ => Err ""
  end.

Lemma continueLine_skips line cur skipped ls : Forall (λ l, no_text (strings.TrimSpace l)) skipped →
  continueLine line cur (skipped ++ ls) = continueLine line (cur + Z.of_nat (length skipped)) ls.
Proof.
  intros Hs. revert cur. induction Hs as [|l skipped Hl%no_text_strip _ IH]; intros cur; [simpl; f_equal; lia|].
  cbn [continueLine app]. rewrite decide_True by done. rewrite IH. f_equal. simpl. lia.
Qed.

Lemma no_text_prefix s x : s ≠ "" → ¬ no_text (s +:+ x) ↔ ¬ no_text s.
Proof.
  intros Hs. destruct s as [|c s]; [done|]. unfold no_text. simpl.
  split; intros Hn [E|[r E]]; [done| |done|]; apply Hn; right; injection E as -> E; by eexists.
Qed.

Lemma goes_on_text tok s s' : goes_on tok s s' → s' ≠ "" → ¬ no_text s → ¬ no_text s'.
Proof. intros (ws & -> & _) Hs. by rewrite no_text_prefix. Qed.

(** The text [s] is looked at behind line [cur], in the middle of an instruction. *)
Definition look (s : string) (cur : Z) (ls : list string) : M Directive answer :=
  r ←? parseLine s;
  c ←? match snd r with Some child => mret (Ok (fst r, Some child, cur, ls)) | None => continueLine (fst r) cur ls end;
  settle c.

Definition answer_of (d : Directive) (t : string) (cur : Z) (rest : list string) : answer :=
  match node_of d t with Ok node => Ok (Some node, cur, rest) | Err e => Err e end.

Ltac run_lines := unfold try_bind, mbind, M_bind, mret, M_ret; cbv beta iota.

Lemma instruction_look d tok s ls t k rest cur :
  instruction tok s ls t k rest → settled d → tok = EscapeToken d → ¬ no_text s →
  look s cur ls d = Ret (answer_of d t (cur + Z.of_nat k) rest) d.
Proof.
  intros Hi Hd ->. revert cur. induction Hi as [s ls Hs|s s' skipped x ls t k rest Hg Hne Hsk Hx Hi IH|s s' skipped Hg Hne Hl Hsk];
    intros cur Ht; unfold look, answer_of; run_lines.
  - rewrite Z.add_0_r. unfold node_of. destruct (parseLine_whole s d Hd Ht Hs) as [(node & -> & _)|[e ->]]; done.
  - rewrite (parseLine_start s s' d Hd Ht Hg). cbn [fst snd]. rewrite continueLine_skips by done. cbn [continueLine].
    rewrite no_text_strip in Hx. rewrite decide_False by done. pose proof (goes_on_text _ _ _ Hg Hne Ht) as Ht'.
    specialize (IH (cur + Z.of_nat (length skipped) + 1)%Z ltac:(by apply no_text_prefix)).
    unfold look in IH. revert IH. run_lines. unfold answer_of.
    replace (cur + Z.of_nat (length skipped) + 1 + Z.of_nat k)%Z with (cur + Z.of_nat (length skipped + S k))%Z by lia.
    intros <-. destruct (parseLine (s' +:+ x) d) as [[[r [c|]]|e] d'| |]; done.
  - rewrite (parseLine_start s s' d Hd Ht Hg). cbn [fst snd]. rewrite <-(app_nil_r skipped) at 1. rewrite continueLine_skips by done.
    cbn [continueLine]. run_lines. unfold settle. rewrite decide_False by done. run_lines. unfold node_of.
    destruct (parseLine_whole s' d Hd (goes_on_text _ _ _ Hg Hne Ht) Hl) as [(node & -> & _)|[e ->]]; done.
Qed.

(** The body of the loop, on the first line of an instruction. *)
Lemma instruction_body d tok s ls t k rest cur :
  instruction tok s ls t k rest → settled d → tok = EscapeToken d → ¬ no_text s →
  (r ←? parseLine s; body cur ls r) d = Ret (answer_of d t (cur + Z.of_nat k) rest) d.
Proof.
  intros Hi Hd Htok Ht. rewrite <-(instruction_look d tok s ls t k rest cur Hi Hd Htok Ht). unfold look. run_lines.
  assert ((∃ r, parseLine s d = Ret r d ∧ match r with Ok (_, Some _) | Err _ => True | _ => False end) ∨
    ∃ s', parseLine s d = Ret (Ok (s', None)) d ∧ s' ≠ "") as [(r & E & Hr)|(s' & E & Hs')].
  { subst tok. destruct Hi as [s ls Hs|s s' skipped x ls t k rest Hg Hne|s s' skipped Hg Hne].
    - left. destruct (parseLine_whole s d Hd Ht Hs) as [(node & -> & _)|[e ->]]; eexists; split; done.
    - right. exists s'. split; [by apply parseLine_start|done].
    - right. exists s'. split; [by apply parseLine_start|done]. }
  - rewrite E. destruct r as [[r [c|]]|e]; done.
  - rewrite E. unfold body. cbn [fst snd]. by rewrite decide_False.
Qed.

(** *** All the lines *)

Lemma try_bind_two {S E A B C} (m : M S (result E A)) (f : A → M S (result E B)) (k : B → M S (result E C)) s s' a :
  try_bind m f s = Ret a s' →
  try_bind m (λ x, try_bind (f x) k) s = match a with Ok b => k b s' | Err e => Ret (Err e) s' end.
Proof.
  unfold try_bind, mbind, M_bind. destruct (m s) as [[x|e] s1| |]; [intros ->|..]; [by destruct a|by intros [= <- <-]|done|done].
Qed.

Lemma instruction_length tok s ls t k rest : instruction tok s ls t k rest → length ls = (k + length rest)%nat.
Proof. induction 1; rewrite ?length_app; simpl; lia. Qed.

(** The tree, grown by the instructions of a document. *)
Fixpoint grow (d : Directive) (out : list (Z * Z * string)) (root : Node) : result string Node :=
  match out with
  | [] => Ok root
  | (s, e, t) :: out =>
      match node_of d t with
      | Ok node => grow d out (addChild (withLines s e node) e root)
      | Err er => Err er
      end
  end.

Definition lines_at (cur : Z) (lines : list string) : list string := if decide (cur = 0%Z) then unmarked lines else lines.

Lemma parseLoop_document d tok cur lines out fuel root :
  document tok cur (lines_at cur lines) out → settled d → tok = EscapeToken d → (0 ≤ cur)%Z → (length lines < fuel)%nat →
  parseLoop fuel cur root lines d = Ret (grow d out root) d.
Proof.
  intros Hdoc Hd Htok. remember (lines_at cur lines) as ls eqn:E. revert lines fuel root E.
  induction Hdoc as [n|n l ls out Hl Hdoc IH|n l ls t k rest out Hl Hi Hdoc IH]; intros lines [|fuel] root E Hn Hf; try lia.
  - assert (lines = []) as -> by (unfold lines_at in E; by destruct (decide _), lines). done.
  - destruct lines as [|l0 ls0]; [unfold lines_at in E; by case_decide|].
    assert (ls = ls0 ∧ l = if decide (n = 0%Z) then TrimPrefix l0 utf8bom else l0) as [-> El] by (unfold lines_at in E; case_decide; by simplify_eq/=).
    rewrite parseLoop_body, <-El. run_lines. simpl in Hf.
    assert (parseLine (strings.TrimLeftSpace l) d = Ret (Ok ("", None)) d) as ->.
    { destruct (decide (stripComments (strings.TrimLeftSpace l) = "")) as [?%no_text_strip|Hnt]; [by apply parseLine_nothing|].
      rewrite <-no_text_strip in Hnt. subst tok.
      apply parseLine_start; [done|done|]. by destruct Hl. }
    unfold body. rewrite decide_True by done. run_lines. apply IH; [|lia|lia]. unfold lines_at. by rewrite decide_False by lia.
  - destruct lines as [|l0 ls0]; [unfold lines_at in E; by case_decide|].
    assert (ls = ls0 ∧ l = if decide (n = 0%Z) then TrimPrefix l0 utf8bom else l0) as [-> El] by (unfold lines_at in E; case_decide; by simplify_eq/=).
    pose proof (instruction_body d tok _ _ _ _ _ (n + 1) Hi Hd Htok Hl) as Hb. rewrite parseLoop_body, <-El.
    pose proof (instruction_length _ _ _ _ _ _ Hi) as Hlen. simpl in Hf.
    rewrite (try_bind_two _ _ _ _ _ _ Hb). unfold answer_of. cbn [grow]. destruct (node_of d t) as [node|e]; [|done].
    apply IH; [|lia|lia]. unfold lines_at. by rewrite decide_False by lia.
Qed.

(** Directives are looked for in the first line only, or in the first two. *)
Lemma parseLine_looks s d : LookingForDirectives d = false ∨ matchEscape (strings.ToLower s) = None →
  parseLine s d = parseLine s (notLooking d).
Proof.
  intros Hs. unfold parseLine. cbn [ParseLine]. unfold mbind, M_bind, read, modify.
  assert ((if LookingForDirectives d then matchEscape (strings.ToLower s) else None) = None) as ->
    by (destruct Hs as [-> | ->]; [done|by destruct (LookingForDirectives d)]). done.
Qed.

Lemma parseLine_escape s d c : LookingForDirectives d = true → EscapeSeen d = false →
  matchEscape (strings.ToLower s) = Some (String c "") → c = "`"%char ∨ c = "\"%char →
  parseLine s d = Ret (Ok ("", None)) (mkDirective c true true).
Proof.
  intros Hl He Hm Hc. unfold parseLine. cbn [ParseLine]. unfold mbind, M_bind, read, modify. rewrite Hl, Hm, He. unfold SetEscapeToken, id.
  rewrite decide_True by done. unfold mret, M_ret, escapeSeen. simpl. by rewrite Hl.
Qed.

(** A loop whose first line is no directive. *)
Lemma parseLoop_looks n cur root lines d : LookingForDirectives d = false ∨ no_directive (lines_at cur lines) → lines ≠ [] →
  parseLoop n cur root lines d = parseLoop n cur root lines (notLooking d).
Proof.
  intros Hd Hne. destruct n as [|n]; [done|]. destruct lines as [|l lines]; [done|]. rewrite !parseLoop_body. unfold try_bind, mbind, M_bind.
  rewrite parseLine_looks; [done|]. unfold lines_at, no_directive, directive_of, unmarked in Hd. by destruct (decide (cur = 0%Z)).
Qed.

Lemma document_nil tok n out : document tok n [] out → out = [].
Proof. by inversion 1. Qed.

Definition root0 : Node := mkNode "" None [] ∅ "" [] (-1) 0.

Lemma Parse_opening text d d1 n lines out :
  opening d (fst (ScanLines text)) d1 n lines → document (EscapeToken d1) n lines out → is_blank (EscapeToken d1) = false →
  ∃ d', Parse text d = Ret (grow d1 out root0) d'.
Proof.
  intros Ho Hdoc Ht. unfold Parse. fold root0. set (ls := fst (ScanLines text)) in *. clearbody ls.
  destruct Ho as [Hd|l ls' c Hl Hs E Hdir Hc Hno].
  - destruct ls as [|l ls]; [apply document_nil in Hdoc as ->; by eexists|].
    rewrite (parseLoop_looks _ 0 _ (l :: ls)) by done. eexists.
    eapply parseLoop_document; [exact Hdoc|done|done|lia|lia].
  - destruct ls as [|l0 ls]; [done|]. injection E as <- <-. cbn [length]. rewrite parseLoop_body. rewrite decide_True by done.
    unfold try_bind, mbind, M_bind. rewrite (parseLine_escape _ d c Hl Hs Hdir Hc). unfold body. rewrite decide_True by done.
    unfold mret, M_ret. destruct ls as [|l1 ls]; [apply document_nil in Hdoc as ->; by eexists|].
    rewrite (parseLoop_looks _ (0 + 1) _ (l1 :: ls)) by (done || by right). eexists.
    eapply parseLoop_document; [exact Hdoc|done|done|lia|simpl; lia].
Qed.

(** *** The nodes *)

(** The node of an instruction that is written from line [start] to line [end]. *)
Definition made_of (d : Directive) (x : Z * Z * string) (k : Node) : Prop :=
  let '(start, end_, t) := x in
  StartLine k = start ∧ EndLine k = end_ ∧ Original k = t ∧
  ∃ node, parseLine t d = Ret (Ok ("", Some node)) d ∧ k = withLines start end_ node.

(** The text of an instruction is one: not empty, no comment, and complete. *)
Definition whole (tok : ascii) (t : string) : Prop := ¬ no_text t ∧ ∀ s', ¬ goes_on tok t s'.

Lemma instruction_whole tok s ls t k rest : instruction tok s ls t k rest → ¬ no_text s → whole tok t.
Proof.
  induction 1 as [s ls Hs|s s' skipped x ls t k rest Hg Hne Hsk Hx Hi IH|s s' skipped Hg Hne Hl Hsk]; intros Ht; [done| |].
  - apply IH. apply no_text_prefix; [done|]. by eapply goes_on_text.
  - split; [|done]. by eapply goes_on_text.
Qed.

Lemma document_whole tok n lines out : document tok n lines out → Forall (λ x, whole tok x.2) out.
Proof. induction 1; [done|done|]. constructor; [|done]. by eapply instruction_whole. Qed.

Lemma grow_made d out root : settled d → Forall (λ x, whole (EscapeToken d) x.2) out → match grow d out root with
  | Ok t => ∃ kids, Forall2 (made_of d) out kids ∧ Children t = (Children root ++ (Some <$> kids))%list
  | Err e => ∃ out1 x out2 kids, out = (out1 ++ x :: out2)%list ∧ Forall2 (made_of d) out1 kids ∧ parseLine x.2 d = Ret (Err e) d
  end.
Proof.
  intros Hd Hout. revert root. induction Hout as [|[[s e] t] out [Ht Hw] _ IH]; intros root; cbn [grow].
  { exists []. by rewrite app_nil_r. }
  unfold node_of. destruct (parseLine_whole t d Hd Ht Hw) as [(node & E & Ho)|[er E]]; simpl in E; rewrite E.
  - specialize (IH (addChild (withLines s e node) e root)). assert (made_of d (s, e, t) (withLines s e node)) by (split_and!; eauto).
    destruct (grow _ _ _) as [tree|er].
    + destruct IH as (kids & Hk & Hc). exists (withLines s e node :: kids). split; [by constructor|].
      rewrite Hc. simpl. by rewrite <-app_assoc.
    + destruct IH as (out1 & x & out2 & kids & -> & Hk & Hx). exists ((s, e, t) :: out1), x, out2, (withLines s e node :: kids).
      split; [done|]. split; [by constructor|done].
  - exists [], (s, e, t), out, []. split; [done|]. by split; [constructor|].
Qed.
End documents.

(** C33: what [Parse] makes of a file.  It ends on every text and from every state,
    with an error or with a tree of nodes in the order of the lines that they span.
    On a file that is written as an escape directive, if one is looked for, and
    instructions, each on one line or on several that the escape token continues,
    with empty lines and comments anywhere, the tree has one node for each of the
    instructions: with its first and its last line, its text put together, and what
    [ParseLine] makes of that text; or the first instruction that [ParseLine] does
    not accept is the error.  The first line of the root is the one where the first
    instruction ends, not the one where it starts. *)
Theorem parse_tree `{Unicode} text d :
  (∃ r d', Parse text d = Ret r d' ∧ ∀ root, r = Ok root → tree_ok (Z.of_nat (length (fst (ScanLines text)))) root) ∧
  ∀ d1 n lines out,
    opening d (fst (ScanLines text)) d1 n lines → document (EscapeToken d1) n lines out → is_blank (EscapeToken d1) = false →
    ∃ r d', Parse text d = Ret r d' ∧
      match r with
      | Ok root => ∃ kids, Children root = Some <$> kids ∧ Forall2 (made_of d1) out kids ∧
          StartLine root = default (-1)%Z (EndLine <$> head kids) ∧ EndLine root = default 0%Z (EndLine <$> list.last kids)
      | Err e => ∃ out1 x out2 kids, out = (out1 ++ x :: out2)%list ∧ Forall2 (made_of d1) out1 kids ∧
          parseLine x.2 d1 = Ret (Err e) d1
      end.
Proof.
  split; [apply Parse_total|]. intros d1 n lines out Ho Hdoc Ht.
  assert (Hd1 : settled d1) by (destruct Ho; done).
  destruct (Parse_opening text d d1 n lines out Ho Hdoc Ht) as [d' E].
  destruct (Parse_total text d) as (r & d'' & E' & Htree). rewrite E in E'. injection E' as <- <-.
  pose proof (grow_made d1 out root0 Hd1 (document_whole _ _ _ _ Hdoc)) as Hg.
  exists (grow d1 out root0), d'. split; [done|]. destruct (grow d1 out root0) as [root|e]; [|done].
  destruct Hg as (kids & Hk & Hc). destruct (Htree root eq_refl) as (kids' & Hc' & _ & _ & Hs & He).
  assert (kids = kids') as <-; [|by exists kids]. rewrite Hc in Hc'. simpl in Hc'. by apply (inj (fmap Some)) in Hc'.
Qed.

(** ** The words of a line *)

(** A word as written: plain runes, runes after the escape token, and quoted
    parts, in which the escape token counts between double quotes only. *)
Inductive qpiece := QChar (r : rune) | QEscape (r : rune).
Inductive piece := PChar (r : rune) | PEscape (r : rune) | PQuote (q : rune) (body : list qpiece).

Section words.
  Context `{Unicode}.
  Variable tok : rune.

Definition print_qpiece (p : qpiece) : list rune := match p with QChar r => [r] | QEscape r => [tok; r] end.
Definition print_piece (p : piece) : list rune :=
  match p with
  | PChar r => [r]
  | PEscape r => [tok; r]
  | PQuote q body => (q :: (body ≫= print_qpiece) ++ [q])%list
  end.
Definition print_word (w : list piece) : list rune := w ≫= print_piece.

Definition wf_qpiece (q : rune) (p : qpiece) : Prop :=
  match p with
  | QChar r => r ≠ q ∧ (q = 39%Z ∨ r ≠ tok)
  | QEscape r => q = 34%Z
  end.
Definition wf_piece (p : piece) : Prop :=
  match p with
  | PChar r => unicode.IsSpace r = false ∧ (r ∉ [tok; 39; 34]%Z)
  | PEscape r => True
  | PQuote q body => (q = 39 ∨ q = 34)%Z ∧ Forall (wf_qpiece q) body
  end.

(** A line: words, each behind the white space that separates it from the one
    before. *)
Fixpoint print_line (ws : list (list rune * list piece)) : list rune :=
  match ws with
  | [] => []
  | (sp, w) :: ws => (sp ++ print_word w ++ print_line ws)%list
  end.
Definition spaces (sp : list rune) : Prop := Forall (λ r, unicode.IsSpace r = true) sp.
Definition wf_words (ws : list (list rune * list piece)) : Prop :=
  Forall (λ x, spaces x.1 ∧ x.2 ≠ [] ∧ Forall wf_piece x.2) ws ∧ Forall (λ x, x.1 ≠ []) (tail ws).

(** The escape token is [\] or a back quote. *)
  Hypothesis Htok : (tok = 92 ∨ tok = 96)%Z.

Lemma quoted_loop q body word b words k : (q = 39 ∨ q = 34)%Z → Forall (wf_qpiece q) body →
  wordsLoop tok (inQuote q) word b words ((body ≫= print_qpiece) ++ q :: k)%list =
  wordsLoop tok inWord (word +:+ utf8_string ((body ≫= print_qpiece) ++ [q])%list) b words k.
Proof using Htok.
  intros Hq Hb. revert word. induction Hb as [|p body Hp _ IH]; intros word; simpl.
  { rewrite decide_False by lia. rewrite decide_True by done. by rewrite app_empty_r. }
  destruct p as [r|r]; simpl in *.
  - rewrite (decide_False (P := r = q)) by tauto. rewrite decide_False by (intros [-> ?]; tauto).
    rewrite IH. by rewrite <-!string_app_assoc.
  - subst q. rewrite decide_True by done. rewrite decide_False by lia. rewrite IH. by rewrite <-!string_app_assoc.
Qed.

Lemma not_space r : (r = 39 ∨ r = 34 ∨ r = 92 ∨ r = 96)%Z → unicode.IsSpace r = false.
Proof. by intros [->|[->|[->| ->]]]. Qed.

(** Reading a piece of a word. *)
Lemma piece_loop p word b words k : wf_piece p → ∃ b',
  wordsLoop tok inWord word b words (print_piece p ++ k)%list =
  wordsLoop tok inWord (word +:+ utf8_string (print_piece p)) b' words k.
Proof using Htok.
  destruct p as [r|r|q body]; intros Hp; simpl in *.
  - destruct Hp as [Hs Hr]. rewrite !not_elem_of_cons in Hr. destruct Hr as (Ht & H1 & H2 & _).
    rewrite Hs, decide_False by done. rewrite bool_decide_eq_false_2 by lia. rewrite app_empty_r. eauto.
  - rewrite not_space, decide_True by lia. rewrite bool_decide_eq_false_2 by lia. rewrite app_empty_r. eauto.
  - destruct Hp as [Hq Hb]. rewrite not_space, decide_False by lia. rewrite bool_decide_eq_true_2 by lia.
    rewrite <-(assoc_L (++)). simpl. rewrite quoted_loop by done. rewrite <-string_app_assoc. eauto.
Qed.

Lemma word_loop w word b words k : Forall wf_piece w → ∃ b',
  wordsLoop tok inWord word b words (print_word w ++ k)%list =
  wordsLoop tok inWord (word +:+ utf8_string (print_word w)) b' words k.
Proof using Htok.
  intros Hw. revert word b. induction Hw as [|p w Hp _ IH]; intros word b; simpl; [rewrite app_empty_r; eauto|].
  rewrite <-(assoc_L (++)), utf8_string_app. destruct (piece_loop p word b words (print_word w ++ k)%list Hp) as [b' ->].
  rewrite string_app_assoc. apply IH.
Qed.

(** The first rune of a word is not white space. *)
Lemma word_start w k : w ≠ [] → Forall wf_piece w → ∃ r l, (print_word w ++ k)%list = r :: l ∧ unicode.IsSpace r = false.
Proof using Htok.
  destruct w as [|p w]; intros Hne Hw; [done|]. apply Forall_cons_1 in Hw as [Hp _].
  destruct p as [r|r|q body]; simpl in *; eexists _, _; (split; [reflexivity|]).
  - tauto.
  - apply not_space. tauto.
  - apply not_space. tauto.
Qed.

Lemma start_word word b words r l : unicode.IsSpace r = false →
  wordsLoop tok inSpaces word b words (r :: l) = wordsLoop tok inWord word b words (r :: l).
Proof. intros Hr. simpl. by rewrite Hr. Qed.

Lemma skip_spaces sp words k : spaces sp →
  wordsLoop tok inSpaces "" false words (sp ++ k)%list = wordsLoop tok inSpaces "" false words k.
Proof. induction 1 as [|r sp Hr _ IH]; [done|]. simpl. by rewrite Hr. Qed.

Lemma print_word_nonempty w : w ≠ [] → utf8_string (print_word w) ≠ "".
Proof.
  destruct w as [|p w]; [done|]. intros _. destruct p; simpl; unfold string_of_rune, encode_valid;
    repeat case_decide; done.
Qed.

Lemma addWord_nonempty b word words : word ≠ "" → addWord b word words = (words ++ [word])%list.
Proof. intros Hw. unfold addWord. by rewrite bool_decide_eq_true_2, orb_true_r. Qed.

Lemma end_word word b words k : (∀ r, head k = Some r → unicode.IsSpace r = true) →
  wordsLoop tok inWord word b words k = wordsLoop tok inSpaces "" false (addWord b word words) k.
Proof. destruct k as [|r k]; intros Hk; [done|]. simpl. by rewrite Hk. Qed.

Lemma next_word ws trail r : wf_words ws → Forall (λ x, x.1 ≠ []) ws → spaces trail →
  head (print_line ws ++ trail)%list = Some r → unicode.IsSpace r = true.
Proof.
  intros [Hws _] Hne Ht. destruct Hws as [|[sp w] ws (Hsp & _) _]; simpl.
  - destruct Ht as [|r' t Hr _]; [done|]. by intros [= <-].
  - apply Forall_cons_1 in Hne as [Hne _]. simpl in *; destruct Hsp as [|r' sp' Hr _]; [done|]. simpl; by intros [= <-].
Qed.

Lemma wf_words_tail x ws : wf_words (x :: ws) → wf_words ws ∧ Forall (λ x, x.1 ≠ []) ws.
Proof.
  intros [Hws Hsep]. apply Forall_cons_1 in Hws as [_ Hws]. simpl in Hsep. split; [split; [done|]|done].
  destruct Hsep; simpl; [constructor|done].
Qed.

Lemma line_loop ws trail words : wf_words ws → spaces trail →
  wordsLoop tok inSpaces "" false words (print_line ws ++ trail)%list =
  (words ++ ((λ x, utf8_string (print_word x.2)) <$> ws))%list.
Proof using Htok.
  intros Hws Htrail. revert words Hws. induction ws as [|[sp w] ws IH]; intros words Hws.
  { simpl. rewrite <-(app_nil_r trail), skip_spaces by done. simpl. by rewrite app_nil_r. }
  destruct (wf_words_tail _ _ Hws) as [Hws' Hsep]. destruct Hws as [Hws _].
  apply Forall_cons_1 in Hws as [(Hsp & Hne & Hw) _]. cbn [print_line fst snd] in *.
  rewrite <-!(assoc_L (++)), skip_spaces by done.
  destruct (word_start w (print_line ws ++ trail)%list Hne Hw) as (r & l & E & Hr). rewrite E, start_word by done. rewrite <-E.
  destruct (word_loop w "" false words (print_line ws ++ trail)%list Hw) as [b ->].
  rewrite end_word by (intros r'; by apply next_word). rewrite IH by done.
  rewrite addWord_nonempty by (by apply print_word_nonempty). by rewrite <-(assoc_L (++)).
Qed.
End words.

(** The words of a line are found whatever their quotes and escapes hide: on
    words made of plain runes, escaped runes and quoted parts, separated by white
    space, [parseWords] returns exactly these words, with their quotes and escape
    tokens kept for the expansion that follows. *)
Theorem parseWords_words `{Unicode} d ws trail :
  EscapeToken d = "\"%char ∨ EscapeToken d = "`"%char →
  wf_words (Z_of_char (EscapeToken d)) ws → spaces trail →
  Forall (λ r, ValidRune r = true) (print_line (Z_of_char (EscapeToken d)) ws ++ trail)%list →
  parseWords (utf8_string (print_line (Z_of_char (EscapeToken d)) ws ++ trail)%list) d =
  (λ x, utf8_string (print_word (Z_of_char (EscapeToken d)) x.2)) <$> ws.
Proof.
  intros Htok Hws Ht Hv. unfold parseWords. rewrite runes_utf8 by done.
  apply line_loop; [|done|done]. by destruct Htok as [->| ->]; [left|right].
Qed.

(** Two words with quotes and escapes, and a trailing space. *)
Module WordsConcrete.
Definition words0 : list (list rune * list piece) :=
  [([], [PChar 97; PChar 61; PQuote 34 [QChar 98; QChar 32; QChar 99]]%Z);
   ([32; 9], [PChar 100; PEscape 32; PChar 101; PChar 61; PQuote 39 [QChar 32; QChar 34; QChar 92]])%Z].
Definition d0 : Directive := mkDirective "\" true false.
End WordsConcrete.

Lemma parseWords_words_witness : ∃ s, @parseWords latin1 s WordsConcrete.d0 =
  (λ x, utf8_string (print_word 92 x.2)) <$> WordsConcrete.words0 ∧ length WordsConcrete.words0 = 2%nat.
Proof.
  eexists. split; [|reflexivity].
  apply (@parseWords_words latin1 WordsConcrete.d0 WordsConcrete.words0 [32%Z]);
    [by left| |by repeat constructor|by repeat constructor].
  split; repeat constructor; try done; apply (bool_decide_eq_true_1 _); by vm_compute.
Defined.

(** ** The exec form *)

(** Well-formed UTF-8. *)
Definition utf8 (s : string) : Prop := ∃ l, Forall (λ r, ValidRune r = true) l ∧ s = utf8_string l.

Lemma utf8_app a b : utf8 a → utf8 b → utf8 (a +:+ b).
Proof.
  intros (l & Hl & ->) (k & Hk & ->). exists (l ++ k)%list. split; [by apply Forall_app_2|]. by rewrite utf8_string_app.
Qed.

Lemma utf8_rune r : ValidRune r = true → utf8 (string_of_rune r).
Proof. intros Hr. exists [r]. split; [by constructor|]. simpl. by rewrite app_empty_r. Qed.

Lemma string_of_ascii c : (Z_of_char c < 128)%Z → ValidRune (Z_of_char c) = true ∧ string_of_rune (Z_of_char c) = String c "".
Proof.
  intros Hc. pose proof (Z_of_char_range c). assert (ValidRune (Z_of_char c) = true) as Hv.
  { unfold ValidRune. apply bool_decide_eq_true_2. lia. }
  split; [done|]. unfold string_of_rune, encode_valid. rewrite Hv, decide_True by done.
  f_equal. unfold char_of_Z, Z_of_char. rewrite N2Z.id. apply ascii_N_embedding.
Qed.

Lemma utf8_ascii s : string_forallb (λ c, bool_decide (Z_of_char c < 128)%Z) s = true → utf8 s.
Proof.
  induction s as [|c s IH]; simpl; [intros _; by exists []|].
  intros [Hc%bool_decide_eq_true Hs]%andb_true_iff. destruct (string_of_ascii c Hc) as [Hv E].
  change (String c s) with (String c "" +:+ s). rewrite <-E. apply utf8_app; [by apply utf8_rune|by apply IH].
Qed.

Lemma hex_ascii n z : string_forallb (λ c, bool_decide (Z_of_char c < 128)%Z) (hex n z) = true.
Proof.
  assert (∀ a b, string_forallb (λ c, bool_decide (Z_of_char c < 128)%Z) a = true →
    string_forallb (λ c, bool_decide (Z_of_char c < 128)%Z) b = true →
    string_forallb (λ c, bool_decide (Z_of_char c < 128)%Z) (a +:+ b) = true) as Happ.
  { induction a as [|c a IH]; intros b Ha Hb; [done|]. rewrite string_app_cons. simpl in *.
    apply andb_true_iff in Ha as [-> Ha]. by apply IH. }
  revert z. induction n as [|n IH]; intros z; [done|]. cbn [hex]. apply Happ; [done|]. simpl. rewrite andb_true_r.
  apply bool_decide_eq_true_2. unfold hex_digit. pose proof (Z.mod_pos_bound z 16 eq_refl).
  case_decide; rewrite Z_of_char_of_Z; lia.
Qed.

Lemma utf8_literal l : Forall (λ r, ValidRune r = true) l → utf8 (json.literal l).
Proof.
  intros Hl. unfold json.literal. change (String json.dquote ?s) with (String json.dquote "" +:+ s).
  apply utf8_app; [by apply utf8_ascii|]. apply utf8_app; [|by apply utf8_ascii].
  induction Hl as [|r l Hr _ IH]; simpl; [by apply utf8_ascii|]. apply utf8_app; [|done].
  unfold json.literal_rune. repeat case_decide.
  - apply utf8_app; [by apply utf8_ascii|by apply utf8_rune].
  - apply utf8_app; [by apply utf8_ascii|]. apply utf8_ascii, hex_ascii.
  - by apply utf8_rune.
Qed.

(** An array is a bracket, well-formed text and a bracket. *)
Lemma array_brackets ls : Forall (Forall (λ r, ValidRune r = true)) ls → ∃ m, utf8 m ∧ json.array ls = "[" +:+ m +:+ "]".
Proof.
  assert (∀ ls, Forall (Forall (λ r, ValidRune r = true)) ls → ∃ m, utf8 m ∧ json.array_rest ls = m +:+ "]") as Hrest.
  { induction 1 as [|l ls' Hl _ (m & Hm & E)]; simpl; [exists ""; split; [by apply utf8_ascii|done]|].
    exists ("," +:+ json.literal l +:+ m). rewrite E. split; [|by rewrite !string_app_assoc].
    apply utf8_app; [by apply utf8_ascii|]. by apply utf8_app; [apply utf8_literal|]. }
  destruct 1 as [|l ls Hl Hls]; [exists ""; split; [by apply utf8_ascii|done]|].
  destruct (Hrest ls Hls) as (m & Hm & E). exists (json.literal l +:+ m). simpl. rewrite E.
  split; [apply utf8_app; [by apply utf8_literal|done]|]. by rewrite !string_app_assoc.
Qed.

Lemma substring_app_l (a b : string) : String.substring 0 (String.length a) (a +:+ b) = a.
Proof. induction a as [|c a IH]; [by destruct b|]. rewrite string_app_cons. simpl. by rewrite IH. Qed.

Lemma app_bracket_nonempty a : a +:+ "]" ≠ "".
Proof. by destruct a. Qed.

Lemma matchContinuation_bracket tok a : tok ≠ "]"%char → matchContinuation tok (a +:+ "]") = None.
Proof.
  intros Ht. assert (∀ a, string_forallb is_blank (a +:+ "]") = false) as Hb.
  { clear a. induction a as [|c a IH]; [done|]. rewrite string_app_cons. simpl. by rewrite IH, andb_false_r. }
  induction a as [|c a IH]; [change ("" +:+ "]") with "]"; simpl; by rewrite bool_decide_eq_false_2 by congruence|].
  rewrite string_app_cons. cbn [matchContinuation]. by rewrite IH, Hb, andb_false_r.
Qed.

Section exec.
  Context `{Unicode}.

Lemma trim_right_bracket n a : utf8 a → (String.length (a +:+ "]") ≤ n)%nat → strings.trim_right n (a +:+ "]") = a +:+ "]".
Proof.
  intros (l & Hl & ->). revert n. induction Hl as [|r l Hr _ IH]; intros n Hn; cbn [utf8_string].
  { destruct n as [|n]; [simpl in Hn; lia|]. destruct n; done. }
  destruct (decode_encode r (utf8_string l +:+ "]") Hr) as (c & s & E & D).
  cbn [utf8_string] in Hn. rewrite E, <-string_app_assoc, string_app_cons in *. destruct n as [|n]; [simpl in Hn; lia|].
  cbn [strings.trim_right]. rewrite D, IH by
    (cbn [String.length] in Hn; rewrite !length_string_app in *; lia).
  rewrite bool_decide_eq_false_2, andb_false_r by apply app_bracket_nonempty.
  rewrite <-string_app_cons, length_string_app, Nat.add_sub. by rewrite substring_app_l.
Qed.

Lemma TrimSpace_bracket c a : (Z_of_char c < 128)%Z → unicode.IsSpace (Z_of_char c) = false → utf8 a →
  strings.TrimSpace (String c (a +:+ "]")) = String c (a +:+ "]").
Proof.
  intros Hc Hs Ha. unfold strings.TrimSpace.
  assert (strings.TrimLeftSpace (String c (a +:+ "]")) = String c (a +:+ "]")) as ->.
  { unfold strings.TrimLeftSpace. simpl. unfold decode_cons. rewrite decide_True by done. by rewrite Hs. }
  destruct (string_of_ascii c Hc) as [Hv E].
  change (String c (a +:+ "]")) with ((String c "" +:+ a) +:+ "]"). apply trim_right_bracket; [|done].
  apply utf8_app; [|done]. rewrite <-E. by apply utf8_rune.
Qed.

Lemma extractBuilderFlags_bracket s : extractBuilderFlags (String "["%char s) = (String "["%char s, []).
Proof. unfold extractBuilderFlags. simpl. by destruct s. Qed.

Lemma parseMaybeJSON_array ls : Forall (Forall (λ r, ValidRune r = true)) ls →
  parseMaybeJSON (json.array ls) = Ok (chain (utf8_string <$> ls), jsonAttrs).
Proof.
  intros Hls. unfold parseMaybeJSON, parseJSON. destruct (array_brackets ls Hls) as (m & Hm & E).
  assert (strings.TrimLeftSpace (json.array ls) = json.array ls) as -> by (rewrite E; reflexivity).
  assert (HasPrefix (json.array ls) "[" = true) as ->.
  { rewrite E, string_app_cons. cbn [HasPrefix]. rewrite bool_decide_eq_true_2 by done. by destruct ("" +:+ _). }
  rewrite decide_False by (by rewrite E). rewrite json.Decode_array by done.
  assert (mapM id (Some <$> (utf8_string <$> ls)) = Some (utf8_string <$> ls)) as ->; [|done].
  clear. generalize (utf8_string <$> ls). intros l. induction l as [|x l IH]; [done|].
  rewrite fmap_cons. cbn [mapM]. by rewrite IH.
Qed.

Definition execCommands : list string := ["CMD"; "RUN"; "ENTRYPOINT"; "SHELL"].
Lemma execCommands_cases (P : string → Prop) : P "CMD" → P "RUN" → P "ENTRYPOINT" → P "SHELL" → ∀ cmd, cmd ∈ execCommands → P cmd.
Proof. intros ???? cmd. unfold execCommands. rewrite !elem_of_cons. by intros [->|[->|[->|[->|[]%elem_of_nil]]]]. Qed.

Lemma splitCommand_exec m cmd : utf8 m → cmd ∈ execCommands →
  splitCommand (cmd +:+ " " +:+ "[" +:+ m +:+ "]") = (strings.ToLower cmd, [], "[" +:+ m +:+ "]").
Proof.
  intros Hm. revert cmd. assert (∀ c w, (Z_of_char c < 128)%Z → unicode.IsSpace (Z_of_char c) = false → utf8 w →
    Split2 (String c w +:+ " " +:+ "[" +:+ m +:+ "]") = [String c w; "[" +:+ m +:+ "]"] →
    splitCommand (String c w +:+ " " +:+ "[" +:+ m +:+ "]") = (strings.ToLower (String c w), [], "[" +:+ m +:+ "]")) as Hgo.
  { intros c w Hc Hs Hw E. unfold splitCommand.
    assert (strings.TrimSpace (String c w +:+ " " +:+ "[" +:+ m +:+ "]") = String c w +:+ " " +:+ "[" +:+ m +:+ "]") as ->.
    { rewrite string_app_cons, !string_app_assoc. apply TrimSpace_bracket; [done|done|].
      apply utf8_app; [|done]. apply utf8_app; [|by apply utf8_ascii]. apply utf8_app; [done|by apply utf8_ascii]. }
    rewrite E. change ("[" +:+ m +:+ "]") with (String "["%char (m +:+ "]")). rewrite extractBuilderFlags_bracket.
    by rewrite TrimSpace_bracket. }
  apply execCommands_cases; apply Hgo; done || by apply utf8_ascii.
Qed.

Lemma fullDispatch_exec parse args d cmd : cmd ∈ execCommands →
  fullDispatch parse (strings.ToLower cmd) args d = mret (parseMaybeJSON args).
Proof. revert cmd. by apply execCommands_cases. Qed.

(** C35: the exec form.  An array of strings after [CMD], [RUN], [ENTRYPOINT] or
    [SHELL] comes back string by string, whatever the strings hold, as the
    arguments of the instruction, with the attribute that says so. *)
Theorem exec_form cmd ls d :
  cmd ∈ execCommands → Forall (Forall (λ r, ValidRune r = true)) ls →
  EscapeToken d = "\"%char ∨ EscapeToken d = "`"%char →
  let line := cmd +:+ " " +:+ json.array ls in
  parseLine line d =
  Ret (Ok ("", Some (mkNode (strings.ToLower cmd) (chain (utf8_string <$> ls)) [] jsonAttrs line [] 0 0))) (notLooking d).
Proof.
  intros Hcmd Hls Htok line. destruct (array_brackets ls Hls) as (m & Hm & E).
  assert (matchEscape (strings.ToLower line) = None ∧ stripComments line = line ∧ line ≠ "") as (He & Hsc & Hne).
  { unfold line. revert cmd Hcmd line. by apply execCommands_cases. }
  assert (matchContinuation (EscapeToken d) line = None) as Hmc.
  { unfold line. rewrite E, !string_app_assoc. apply matchContinuation_bracket. by destruct Htok as [->| ->]. }
  assert (splitCommand line = (strings.ToLower cmd, [], json.array ls)) as Hsp.
  { unfold line. rewrite E. by apply splitCommand_exec. }
  unfold parseLine. cbn [ParseLine]. unfold read, modify, try_bind, mbind, M_bind, mret, M_ret.
  replace (if LookingForDirectives d then matchEscape (strings.ToLower line) else None) with (@None string)
    by (by destruct (LookingForDirectives d)).
  rewrite Hsc, decide_False by done. cbn [EscapeToken notLooking id]. rewrite Hmc, Hsp.
  rewrite fullDispatch_exec, parseMaybeJSON_array by done. done.
Qed.
End exec.

Lemma exec_form_witness : ∃ d',
  @parseLine latin1 ("CMD " +:+ json.array [[97; 32; 34; 10]; [233; 8364]]%Z) WordsConcrete.d0 =
  Ret (Ok ("", Some (mkNode "cmd" (chain (utf8_string <$> [[97; 32; 34; 10]; [233; 8364]]%Z)) [] jsonAttrs
    ("CMD " +:+ json.array [[97; 32; 34; 10]; [233; 8364]]%Z) [] 0 0))) d'.
Proof.
  eexists. apply (@exec_form latin1 "CMD" [[97; 32; 34; 10]; [233; 8364]]%Z WordsConcrete.d0);
    [by apply list_elem_of_here|by repeat constructor|by left].
Defined.

(** ** A file *)

Module FileConcrete.
Definition lines0 : list string :=
  ["# escape=`"; "FROM base"; ""; "RUN a `"; "  # why"; "  && b `  "; " && c"; "CMD d `"; "# end"].
Definition text0 : string := String.concat (String (char_of_Z 10) "") lines0.
Definition out0 : list (Z * Z * string) := [(2, 2, "FROM base"); (4, 7, "RUN a   && b  && c"); (8, 9, "CMD d ")]%Z.

#[local] Existing Instance latin1.

Lemma whole_text tok s : is_blank tok = false → matchContinuation tok s = None → ∀ s', ¬ goes_on tok s s'.
Proof. intros Ht Hn s' Hg%goes_on_match; [congruence|done]. Qed.
Lemma some_text s : stripComments s ≠ "" → ¬ no_text s.
Proof. by rewrite no_text_strip. Qed.

Ltac doc_facts := first
  [ apply some_text; by vm_compute
  | apply (whole_text "`"%char); by vm_compute
  | repeat (constructor; [by (left + (right; eexists))|]); by constructor
  | done ].

Lemma document0 : document "`" 1 (tail lines0) out0.
Proof.
  refine (doc_instruction "`"%char 1 "FROM base" (drop 2 lines0) "FROM base" 0 (drop 2 lines0) _ _ _ _).
  { doc_facts. }
  { apply in_last. doc_facts. }
  refine (doc_skip "`"%char 2 "" (drop 3 lines0) _ _ _); [left; by left|].
  refine (doc_instruction "`"%char 3 "RUN a `" (drop 4 lines0) "RUN a   && b  && c" 3 (drop 7 lines0) _ _ _ _).
  { doc_facts. }
  { refine (in_more "`"%char "RUN a `" "RUN a " ["  # why"] "  && b `  " (drop 6 lines0) _ 1 _ _ _ _ _ _); [by exists ""|doc_facts..|].
    refine (in_more "`"%char _ "RUN a   && b " [] " && c" (drop 7 lines0) _ 0 _ _ _ _ _ _); [by exists "  "|doc_facts..|].
    apply in_last. doc_facts. }
  refine (doc_instruction "`"%char 7 "CMD d `" ["# end"] "CMD d " 1 [] _ _ _ (doc_end _ _)).
  { doc_facts. }
  refine (in_file "`"%char "CMD d `" "CMD d " ["# end"] _ _ _ _); [by exists ""|doc_facts..].
Qed.

(** What the tree says of the lines and the texts of its nodes. *)
Definition summary (o : outcome Directive (result string Node)) : list (option (Z * Z * string)) :=
  match o with
  | Ret (Ok root) _ => List.map (option_map (λ n, (StartLine n, EndLine n, Original n))) (Children root)
  | _ => []
  end.

Lemma parse_tree_witness :
  summary (Parse text0 WordsConcrete.d0) = Some <$> out0 ∧
  ∃ r d', Parse text0 WordsConcrete.d0 = Ret r d' ∧
    ∀ root, r = Ok root → ∃ kids, Children root = Some <$> kids ∧ Forall2 (made_of (mkDirective "`" false true)) out0 kids.
Proof.
  split; [by vm_compute|].
  destruct (proj2 (parse_tree text0 WordsConcrete.d0) (mkDirective "`" false true) 1%Z (tail lines0) out0) as (r & d' & E & H).
  - refine (op_escape WordsConcrete.d0 _ "# escape=`" (tail lines0) "`"%char eq_refl eq_refl _ _ _ _); [by vm_compute|by vm_compute|by left|by vm_compute].
  - exact document0.
  - reflexivity.
  - exists r, d'. split; [done|]. intros root ->. destruct H as (kids & ? & ? & _). by exists kids.
Defined.

(** A last line that ends in two escape tokens is continued twice, and lost. *)
Example twice_continued_lost :
  summary (Parse (String.concat (String (char_of_Z 10) "") ["FROM base"; "RUN a \\"]) WordsConcrete.d0) = [Some (1, 1, "FROM base")]%Z.
Proof. by vm_compute. Qed.
End FileConcrete.
