(* ===== verification/GoSlices.v ===== *)
(** Go's slices of strings, with the arrays behind them.

    A slice is a window on an array that other slices may share; [append]
    writes into the array when it has room and moves to a new one when it has
    not.  How much room a new array has is up to the runtime. *)

From S2P Require Import Prelude.

(** The arrays, and a slice that starts at the beginning of its array. *)
Abbreviation heap := (list (list string)).
Record slice := mkSlice { s_arr : option nat; s_len : nat }.

Definition nil_slice : slice := mkSlice None 0.

(** The cells of the array of a slice; their number is the slice's capacity. *)
Definition cells (h : heap) (s : slice) : list string := default [] (s_arr s ≫= λ a, h !! a).
Definition contents (h : heap) (s : slice) : list string := take (s_len s) (cells h s).
Definition cap (h : heap) (s : slice) : nat := length (cells h s).

(** The runtime: the capacity of the array that takes over when one of capacity
    [old] is too small for [needed] elements. *)
Class Runtime := growslice : nat → nat → nat.

(** The rule of the gc runtime for small slices of strings: twice the capacity,
    if that is enough. *)
Definition gc_growslice : Runtime := λ old needed, if decide (needed ≤ 2 * old)%nat then (2 * old)%nat else needed.

Section slices.
  Context `{Runtime}.

(** [append(s, xs...)]. *)
Definition go_append (s : slice) (xs : list string) (h : heap) : slice * heap :=
  let n := (s_len s + length xs)%nat in
  if decide (n ≤ cap h s)%nat then
    match s_arr s with
    | Some a => (mkSlice (Some a) n, <[a := contents h s ++ xs ++ drop n (cells h s)]> h)
    | None => (s, h)
    end
  else
    let room := (growslice (cap h s) n - n)%nat in
    (mkSlice (Some (length h)) n, h ++ [contents h s ++ xs ++ replicate room ""%string]).

(** A composite literal [[]string{...}]: an array of its own, without room. *)
Definition go_literal (xs : list string) (h : heap) : slice * heap :=
  (mkSlice (Some (length h)) (length xs), h ++ [xs]).

(** Repeated [append] of one element. *)
Fixpoint append_each (s : slice) (xs : list string) (h : heap) : slice * heap :=
  match xs with
  | [] => (s, h)
  | x :: xs => let '(s, h) := go_append s [x] h in append_each s xs h
  end.
End slices.

(** [s[i] = x] within the bounds of the slice. *)
Definition go_store (s : slice) (i : nat) (x : string) (h : heap) : heap :=
  match s_arr s with
  | Some a => alter (λ c, <[i := x]> c) a h
  | None => h
  end.

(** A slice whose array holds it. *)
Definition valid (h : heap) (s : slice) : Prop :=
  (s_len s ≤ cap h s)%nat ∧ ∀ a, s_arr s = Some a → (a < length h)%nat.

(** ** Lemmas *)

Lemma cells_lookup h a n c : h !! a = Some c → cells h (mkSlice (Some a) n) = c.
Proof. intros E. unfold cells. simpl. by rewrite E. Qed.

Lemma length_contents h s : valid h s → length (contents h s) = s_len s.
Proof. intros [Hl _]. unfold contents. rewrite length_take. unfold cap in Hl. lia. Qed.

Lemma valid_nil h : valid h nil_slice.
Proof. split; simpl; [lia|done]. Qed.

Lemma go_literal_spec xs h : let '(s, h') := go_literal xs h in
  contents h' s = xs ∧ valid h' s ∧ cap h' s = length xs ∧ (∀ t, valid h t → contents h' t = contents h t ∧ valid h' t).
Proof.
  unfold go_literal. assert (cells (h ++ [xs]) (mkSlice (Some (length h)) (length xs)) = xs) as E.
  { apply cells_lookup. by rewrite lookup_app_r, Nat.sub_diag by lia. }
  unfold contents, valid, cap. rewrite E. split_and!; simpl; [by rewrite firstn_all|lia| |done|].
  { intros a [= <-]. rewrite length_app. simpl. lia. }
  intros t [Ht Ha]. assert (cells (h ++ [xs]) t = cells h t) as ->.
  { unfold cells. destruct (s_arr t) as [a|]; [|done]. simpl. rewrite lookup_app_l by (by apply Ha). done. }
  split; [done|]. split; [done|]. intros a Hs. rewrite length_app. specialize (Ha a Hs). simpl. lia.
Qed.

(** The result of an append holds what it should. *)
Lemma go_append_contents `{Runtime} s xs h : valid h s → let '(s', h') := go_append s xs h in
  contents h' s' = contents h s ++ xs ∧ valid h' s' ∧ (length h ≤ length h')%nat.
Proof.
  intros Hv. pose proof (length_contents h s Hv) as Hlen. destruct Hv as [Hl Ha]. unfold go_append.
  case_decide as Hn.
  - destruct (s_arr s) as [a|] eqn:Es.
    + specialize (Ha a eq_refl).
      assert (<[a:=contents h s ++ xs ++ drop (s_len s + length xs) (cells h s)]> h !! a =
        Some (contents h s ++ xs ++ drop (s_len s + length xs) (cells h s))) as E.
      { rewrite list_lookup_insert_eq by done. done. }
      unfold contents, valid, cap at 1. rewrite (cells_lookup _ _ _ _ E). simpl.
      fold (contents h s). rewrite length_insert. split_and!; [|rewrite !length_app, length_drop, Hlen; unfold cap in Hn; lia|naive_solver|done].
      rewrite (assoc_L (++)), take_app_le by (rewrite length_app; lia). rewrite take_ge by (rewrite length_app; lia). done.
    + assert (cap h s = 0%nat) as Hc by (unfold cap, cells; by rewrite Es).
      assert (xs = []) as -> by (destruct xs; simpl in *; [done|lia]). rewrite app_nil_r. split_and!; [done| |done].
      split; [done|]. intros a. by rewrite Es.
  - set (c := contents h s ++ xs ++ _).
    assert ((h ++ [c]) !! length h = Some c) as E by (by rewrite lookup_app_r, Nat.sub_diag by lia).
    unfold contents, valid, cap. rewrite (cells_lookup _ _ _ _ E). simpl. fold (contents h s).
    rewrite length_app. simpl. split_and!; [|unfold c; rewrite !length_app, Hlen; lia|naive_solver lia|lia].
    unfold c. rewrite (assoc_L (++)), take_app_le by (rewrite length_app; lia). rewrite take_ge by (rewrite length_app; lia). done.
Qed.

(** An append leaves the slices alone that do not reach into the part of the
    array it writes. *)
Lemma go_append_frame `{Runtime} s xs h t : valid h s → valid h t →
  s_arr t ≠ s_arr s ∨ (s_len t ≤ s_len s)%nat ∨ (cap h s < s_len s + length xs)%nat →
  let '(_, h') := go_append s xs h in contents h' t = contents h t ∧ valid h' t.
Proof.
  intros Hv Ht Hsep. pose proof (length_contents h s Hv) as Hlen. unfold go_append. case_decide as Hn.
  - destruct (s_arr s) as [a|] eqn:Es; [|done].
    destruct Ht as [Ht Hta]. destruct (decide (s_arr t = Some a)) as [Et|Et].
    + assert (s_len t ≤ s_len s)%nat as Hle by (destruct Hsep as [?|[?|?]]; [congruence|done|lia]).
      assert (cells h t = cells h s) as E by (unfold cells; by rewrite Es, Et).
      assert (∀ c, cells (<[a:=c]> h) t = c) as Ec.
      { intros c. unfold cells. rewrite Et. simpl. rewrite list_lookup_insert_eq by (by apply Hta). done. }
      unfold contents at 1, valid, cap. rewrite Ec, length_insert. split_and!; [|rewrite length_app, Hlen; lia|done].
      rewrite take_app_le by lia. unfold contents. by rewrite take_take, Nat.min_l, E by done.
    + assert (∀ c, cells (<[a:=c]> h) t = cells h t) as E.
      { intros c. unfold cells. destruct (s_arr t) as [b|]; [|done]. simpl. rewrite list_lookup_insert_ne by congruence. done. }
      unfold contents, valid, cap. rewrite E, length_insert. done.
  - destruct (go_literal_spec (contents h s ++ xs ++ replicate (growslice (cap h s) (s_len s + length xs) - (s_len s + length xs)) ""%string) h)
      as (_ & _ & _ & Hf). by apply Hf.
Qed.

Lemma cells_app h xs t : valid h t → cells (h ++ [xs]) t = cells h t.
Proof.
  intros [_ Ha]. unfold cells. destruct (s_arr t) as [a|]; [|done]. simpl. by rewrite lookup_app_l by (by apply Ha).
Qed.

(** Two appends to the same slice that both find room give the same slice. *)
Lemma go_append_room `{Runtime} s xs h : valid h s → (s_len s + length xs ≤ cap h s)%nat → xs ≠ [] →
  (go_append s xs h).1 = mkSlice (s_arr s) (s_len s + length xs) ∧ cap (go_append s xs h).2 s = cap h s.
Proof.
  intros Hv Hn Hx. pose proof (length_contents h s Hv) as Hlen. destruct Hv as [Hl Ha]. unfold go_append.
  rewrite decide_True by done. destruct (s_arr s) as [a|] eqn:Es.
  - split; [done|]. unfold cap, cells at 1. rewrite Es. simpl. rewrite list_lookup_insert_eq by (by apply Ha). simpl.
    rewrite !length_app, length_drop, Hlen. unfold cap in Hn. lia.
  - unfold cap, cells in Hn. rewrite Es in Hn. destruct xs; simpl in *; [done|lia].
Qed.

Lemma go_append_no_room `{Runtime} s xs h : valid h s → (cap h s < s_len s + length xs)%nat →
  cap (go_append s xs h).2 s = cap h s.
Proof. intros Hv Hn. unfold go_append. rewrite decide_False by lia. unfold cap. simpl. by rewrite cells_app. Qed.

(** An append keeps every slice within its array, and its result is in the same
    array or in a new one. *)
Lemma go_append_valid `{Runtime} s xs h t : valid h s → valid h t → valid (go_append s xs h).2 t.
Proof.
  intros Hv [Hl Ha]. pose proof (length_contents h s Hv) as Hlen. unfold go_append. case_decide as Hn; simpl.
  - destruct (s_arr s) as [a|] eqn:Es; simpl; [|by split]. split; [|intros b Hb; rewrite length_insert; by apply Ha].
    etrans; [exact Hl|]. unfold cap, cells. destruct (s_arr t) as [b|] eqn:Et; [simpl|done].
    destruct (decide (a = b)) as [->|Hne]; [|by rewrite list_lookup_insert_ne].
    specialize (Ha b eq_refl). rewrite list_lookup_insert_eq by done. simpl. unfold cap, cells in *. rewrite Es in *. simpl in *.
    destruct (lookup_lt_is_Some_2 h b Ha) as [c Hc]. rewrite Hc in *. simpl in *.
    rewrite !length_app, Hlen, length_drop. lia.
  - split; [unfold cap; rewrite cells_app by (by split); done|]. intros b Hb. rewrite length_app. specialize (Ha b Hb). simpl. lia.
Qed.

Lemma go_append_arr `{Runtime} s xs h : s_arr (go_append s xs h).1 = s_arr s ∨ s_arr (go_append s xs h).1 = Some (length h).
Proof. unfold go_append. case_decide; [|by right]. left. by destruct (s_arr s) eqn:E; simpl. Qed.

Lemma append_each_valid `{Runtime} s xs h t : valid h s → valid h t → valid (append_each s xs h).2 t.
Proof.
  revert s h. induction xs as [|x xs IH]; intros s h Hs Ht; simpl; [done|].
  pose proof (go_append_contents s [x] h Hs) as Hc. pose proof (go_append_valid s [x] h t Hs Ht) as Hv.
  destruct (go_append s [x] h) as [s1 h1]. apply IH; [by apply Hc|done].
Qed.

Lemma go_store_valid s i x h t : valid h t → valid (go_store s i x h) t.
Proof.
  intros [Hl Ha]. unfold go_store. destruct (s_arr s) as [a|]; [|by split].
  split; [|intros b Hb; rewrite length_alter; by apply Ha]. etrans; [exact Hl|]. unfold cap, cells.
  destruct (s_arr t) as [b|] eqn:Et; [simpl|done]. destruct (decide (a = b)) as [->|Hne]; [|by rewrite list_lookup_alter_ne].
  rewrite list_lookup_alter_eq. destruct (h !! b); simpl; [by rewrite length_insert|done].
Qed.

(** ** Slices in arrays of their own *)

(** The slice lives, if anywhere, in an array that did not exist when there were
    [n] of them. *)
Definition newer (n : nat) (s : slice) : Prop := ∀ a, s_arr s = Some a → (n ≤ a)%nat.
Definition older (n : nat) (s : slice) : Prop := ∀ a, s_arr s = Some a → (a < n)%nat.

Lemma newer_nil n : newer n nil_slice.
Proof. by intros a. Qed.

Lemma valid_older h s : valid h s → older (length h) s.
Proof. by intros [_ ?]. Qed.

Lemma go_append_newer `{Runtime} n s xs h : valid h s → newer n s → (n ≤ length h)%nat →
  let '(s', h') := go_append s xs h in
  newer n s' ∧ (n ≤ length h')%nat ∧ ∀ t, valid h t → older n t → contents h' t = contents h t ∧ valid h' t.
Proof.
  intros Hv Hn Hlen. pose proof (go_append_contents s xs h Hv) as Hc.
  assert (∀ t, valid h t → older n t → let '(_, h') := go_append s xs h in contents h' t = contents h t ∧ valid h' t) as Hf.
  { intros t Ht Ho. destruct (decide (s_arr t = s_arr s)) as [E|E]; [|apply go_append_frame; auto].
    assert (s_arr t = None) as Et.
    { destruct (s_arr t) as [a|] eqn:Et; [|done]. specialize (Ho a Et). specialize (Hn a (eq_sym E)). lia. }
    apply go_append_frame; [done|done|]. right; left. destruct Ht as [Ht _].
    unfold cap, cells in Ht. rewrite Et in Ht. simpl in Ht. lia. }
  assert (newer n (go_append s xs h).1) as Hs'.
  { unfold go_append. repeat case_match; intros b; simpl; try (intros [= <-]; try (apply Hn; congruence); lia). by apply Hn. }
  destruct (go_append s xs h) as [s' h']. destruct Hc as (_ & _ & ?). split_and!; [done|lia|done].
Qed.

(** Repeated appends hold what they should and leave the shorter slices alone. *)
Lemma append_each_spec `{Runtime} s xs h : valid h s → let '(s', h') := append_each s xs h in
  contents h' s' = contents h s ++ xs ∧ valid h' s' ∧ (length h ≤ length h')%nat ∧
  ∀ t, valid h t → (s_len t ≤ s_len s)%nat → contents h' t = contents h t ∧ valid h' t.
Proof.
  revert s h. induction xs as [|x xs IH]; intros s h Hv; simpl; [by rewrite app_nil_r|].
  pose proof (go_append_contents s [x] h Hv) as Hc. pose proof (λ t Ht, go_append_frame s [x] h t Hv Ht) as Hf.
  assert (s_len s ≤ s_len (go_append s [x] h).1)%nat as Hlen by (unfold go_append; repeat case_match; simpl; lia).
  destruct (go_append s [x] h) as [s1 h1]. destruct Hc as (Hc & Hv1 & Hl1). cbn [fst] in Hlen.
  specialize (IH s1 h1 Hv1). destruct (append_each s1 xs h1) as [s2 h2]. destruct IH as (Hc2 & Hv2 & Hl2 & Hf2).
  split_and!; [by rewrite Hc2, Hc, <-(assoc_L (++))|done|lia|].
  intros t Ht Htl. destruct (Hf t Ht) as [<- Ht1]; [by right; left|]. apply Hf2; [done|lia].
Qed.

Lemma append_each_newer `{Runtime} n s xs h : valid h s → newer n s → (n ≤ length h)%nat →
  let '(s', h') := append_each s xs h in
  contents h' s' = contents h s ++ xs ∧ valid h' s' ∧ newer n s' ∧ (n ≤ length h')%nat ∧
  ∀ t, valid h t → older n t → contents h' t = contents h t ∧ valid h' t.
Proof.
  revert s h. induction xs as [|x xs IH]; intros s h Hv Hn Hl; simpl; [by rewrite app_nil_r|].
  pose proof (go_append_contents s [x] h Hv) as Hc. pose proof (go_append_newer n s [x] h Hv Hn Hl) as Hw.
  destruct (go_append s [x] h) as [s1 h1]. destruct Hc as (Hc & Hv1 & _), Hw as (Hn1 & Hl1 & Hf1).
  specialize (IH s1 h1 Hv1 Hn1 Hl1). destruct (append_each s1 xs h1) as [s2 h2]. destruct IH as (Hc2 & ? & ? & ? & Hf2).
  split_and!; [by rewrite Hc2, Hc, <-(assoc_L (++))|done|done|done|].
  intros t Ht Ho. destruct (Hf1 t Ht Ho) as [<- Ht1]. by apply Hf2.
Qed.
