(* ===== verification/GoPath.v ===== *)
(** Package path/filepath on Unix: [Clean], [Join], [IsAbs]. *)

From Stdlib Require Import Ascii.
From S2P Require Import Prelude GoStrings Runes.

Local Open Scope string_scope.

(** [strings.Split] at a character, and [strings.Join]. *)
Fixpoint split_on (sep : ascii) (s : string) : list string :=
  match s with
  | "" => [""]
  | String c s =>
      match split_on sep s with
      | w :: ws => if decide (c = sep) then "" :: w :: ws else String c w :: ws
      | [] => []
      end
  end.
Definition join_with (sep : string) (l : list string) : string := String.concat sep l.

Module filepath.

Definition IsAbs (p : string) : bool := HasPrefix p "/".

(** The elements that [Clean] keeps, last one first. *)
Fixpoint clean_elems (rooted : bool) (kept : list string) (l : list string) : list string :=
  match l with
  | [] => kept
  | e :: l =>
      if decide (e = "" ∨ e = ".") then clean_elems rooted kept l
      else if decide (e = "..") then
        match kept with
        | k :: kept' => if decide (k = "..") then clean_elems rooted (e :: kept) l else clean_elems rooted kept' l
        | [] => clean_elems rooted (if rooted then [] else [e]) l
        end
      else clean_elems rooted (e :: kept) l
  end.

Definition render (rooted : bool) (l : list string) : string :=
  if rooted then "/" +:+ join_with "/" l
  else match l with [] => "." | _ => join_with "/" l end.

Definition Clean (p : string) : string :=
  let rooted := IsAbs p in render rooted (reverse (clean_elems rooted [] (split_on "/"%char p))).

(** [Join]: the elements from the first that is not empty on. *)
Fixpoint Join (l : list string) : string :=
  match l with
  | [] => ""
  | e :: l' => if decide (e = "") then Join l' else Clean (join_with "/" l)
  end.

End filepath.
