(* ===== verification/BFlags.v ===== *)
(** The flags of Dockerfile instructions (builder/dockerfile/bflag.go). *)

From Stdlib Require Import Ascii.
From S2P Require Import Prelude GoStrings Runes.

Local Open Scope string_scope.

Inductive FlagType := boolType | stringType.
#[export] Instance FlagType_eq_dec : EqDecision FlagType.
Proof. solve_decision. Defined.

Record Flag := mkFlag { name : string; flagType : FlagType; fValue : string }.

Record BFlags := mkBFlags {
  Args : list string;
  flags : gmap string Flag;
  used : gset string;
  Err_ : option string }.

Definition NewBFlags : BFlags := mkBFlags [] ∅ ∅ None.

(** A pointer to a flag is the name it has in [flags]; [None] is nil. *)
Definition addFlag (n : string) (t : FlagType) (def : string) (bf : BFlags) : option string * BFlags :=
  match flags bf !! n with
  | Some _ => (None, mkBFlags (Args bf) (flags bf) (used bf) (Some ("Duplicate flag defined: " +:+ n)))
  | None => (Some n, mkBFlags (Args bf) (<[n := mkFlag n t def]> (flags bf)) (used bf) (Err_ bf))
  end.
Definition AddBool (n : string) (def : bool) : BFlags → option string * BFlags :=
  addFlag n boolType (if def then "true" else "false").
Definition AddString (n def : string) : BFlags → option string * BFlags := addFlag n stringType def.

Definition flagValue (bf : BFlags) (n : string) : string := from_option fValue "" (flags bf !! n).

Definition IsUsed (bf : BFlags) (n : string) : bool := bool_decide (n ∈ used bf).

(** [IsTrue] of a flag that exists; it panics on one that is not boolean. *)
Definition IsTrue (bf : BFlags) (n : string) : option bool :=
  f ← flags bf !! n;
  if decide (flagType f = boolType) then Some (bool_decide (fValue f = "true")) else None.

(** The name and the value of an argument without its dashes; [None] stands for
    an argument without an equals sign. *)
Definition splitArg (arg : string) : string * option string :=
  match cut "="%char arg with Some (a, v) => (a, Some v) | None => (arg, None) end.

Section parse.
  Context `{Unicode}.

(** The value that a flag takes. *)
Definition newValue (arg : string) (t : FlagType) (value : option string) : result string string :=
  match t with
  | boolType =>
      if decide (value = Some "") then Err ("Missing a value on flag: " +:+ arg)
      else
        let v := default "" value in
        let lower := strings.ToLower v in
        if decide (lower = "") then Ok "true"
        else if decide (lower = "true" ∨ lower = "false") then Ok lower
        else Err ("Expecting boolean value for flag " +:+ arg +:+ ", not: " +:+ v)
  | stringType =>
      match value with
      | None => Err ("Missing a value on flag: " +:+ arg)
      | Some v => Ok v
      end
  end.

(** [Parse], on the arguments that are left; what has been set before an error
    stays set. *)
Fixpoint parseArgs (args : list string) (bf : BFlags) : option string * BFlags :=
  match args with
  | [] => (None, bf)
  | arg :: args =>
      if HasPrefix arg "--" then
        if decide (arg = "--") then (None, bf)
        else
          let '(arg, value) := splitArg (String.substring 2 (String.length arg) arg) in
          match flags bf !! arg with
          | None => (Some ("Unknown flag: " +:+ arg), bf)
          | Some f =>
              if decide (arg ∈ used bf) then (Some ("Duplicate flag specified: " +:+ arg), bf)
              else
                let bf := mkBFlags (Args bf) (flags bf) ({[ arg ]} ∪ used bf) (Err_ bf) in
                match newValue arg (flagType f) value with
                | Err e => (Some e, bf)
                | Ok v => parseArgs args (mkBFlags (Args bf) (<[arg := mkFlag (name f) (flagType f) v]> (flags bf)) (used bf) (Err_ bf))
                end
          end
      else (Some ("Arg should start with -- : " +:+ arg), bf)
  end.

Definition Parse (bf : BFlags) : option string * BFlags :=
  match Err_ bf with
  | Some e => (Some ("Error setting up flags: " +:+ e), bf)
  | None => parseArgs (Args bf) bf
  end.
End parse.
