(* ===== verification/Builder.v ===== *)
(** The Dockerfile builder (package builder/dockerfile: builder.go, evaluator.go,
    dispatchers.go, internals.go, support.go).

    The state of a build is the [Builder] record: the configuration under
    construction, the image reached so far, the build arguments, and the engine
    behind the [Backend] interface, whose methods are the fields of a class.  The
    slices of the configuration are kept with their arrays (GoSlices), since
    instructions share them.  What the builder prints is left out. *)

From Stdlib Require Import Ascii.
From S2P Require Import Prelude GoStrings Runes GoPath GoSlices Json Reference.
From S2P Require ShellParser.
From S2P Require Import DockerfileParser BFlags.

Local Open Scope string_scope.

(** ** Data *)

(** [container.HealthConfig]. *)
Record HealthConfig := mkHealth { Test : list string; Interval : Z; Timeout : Z; Retries : Z }.

(** [container.Config], over the representation of its lists: slices in the
    builder, their contents at the backend. *)
Record Config (L : Type) := mkConfig {
  User : string;
  WorkingDir : string;
  Image : string;
  StopSignal : string;
  Env : L;
  Cmd : L;
  Entrypoint : L;
  Shell : L;
  OnBuild : L;
  ExposedPorts : gset string;
  Volumes : gset string;
  Labels : gmap string string;
  Healthcheck : option HealthConfig;
  ArgsEscaped : bool }.
Arguments mkConfig {L}.
Arguments User {L} _.
Arguments WorkingDir {L} _.
Arguments Image {L} _.
Arguments StopSignal {L} _.
Arguments Env {L} _.
Arguments Cmd {L} _.
Arguments Entrypoint {L} _.
Arguments Shell {L} _.
Arguments OnBuild {L} _.
Arguments ExposedPorts {L} _.
Arguments Volumes {L} _.
Arguments Labels {L} _.
Arguments Healthcheck {L} _.
Arguments ArgsEscaped {L} _.

Definition set_User {L} (v : string) (c : Config L) : Config L :=
  mkConfig v (WorkingDir c) (Image c) (StopSignal c) (Env c) (Cmd c) (Entrypoint c) (Shell c) (OnBuild c) (ExposedPorts c) (Volumes c) (Labels c) (Healthcheck c) (ArgsEscaped c).
Definition set_WorkingDir {L} (v : string) (c : Config L) : Config L :=
  mkConfig (User c) v (Image c) (StopSignal c) (Env c) (Cmd c) (Entrypoint c) (Shell c) (OnBuild c) (ExposedPorts c) (Volumes c) (Labels c) (Healthcheck c) (ArgsEscaped c).
Definition set_Image {L} (v : string) (c : Config L) : Config L :=
  mkConfig (User c) (WorkingDir c) v (StopSignal c) (Env c) (Cmd c) (Entrypoint c) (Shell c) (OnBuild c) (ExposedPorts c) (Volumes c) (Labels c) (Healthcheck c) (ArgsEscaped c).
Definition set_StopSignal {L} (v : string) (c : Config L) : Config L :=
  mkConfig (User c) (WorkingDir c) (Image c) v (Env c) (Cmd c) (Entrypoint c) (Shell c) (OnBuild c) (ExposedPorts c) (Volumes c) (Labels c) (Healthcheck c) (ArgsEscaped c).
Definition set_Env {L} (v : L) (c : Config L) : Config L :=
  mkConfig (User c) (WorkingDir c) (Image c) (StopSignal c) v (Cmd c) (Entrypoint c) (Shell c) (OnBuild c) (ExposedPorts c) (Volumes c) (Labels c) (Healthcheck c) (ArgsEscaped c).
Definition set_Cmd {L} (v : L) (c : Config L) : Config L :=
  mkConfig (User c) (WorkingDir c) (Image c) (StopSignal c) (Env c) v (Entrypoint c) (Shell c) (OnBuild c) (ExposedPorts c) (Volumes c) (Labels c) (Healthcheck c) (ArgsEscaped c).
Definition set_Entrypoint {L} (v : L) (c : Config L) : Config L :=
  mkConfig (User c) (WorkingDir c) (Image c) (StopSignal c) (Env c) (Cmd c) v (Shell c) (OnBuild c) (ExposedPorts c) (Volumes c) (Labels c) (Healthcheck c) (ArgsEscaped c).
Definition set_Shell {L} (v : L) (c : Config L) : Config L :=
  mkConfig (User c) (WorkingDir c) (Image c) (StopSignal c) (Env c) (Cmd c) (Entrypoint c) v (OnBuild c) (ExposedPorts c) (Volumes c) (Labels c) (Healthcheck c) (ArgsEscaped c).
Definition set_OnBuild {L} (v : L) (c : Config L) : Config L :=
  mkConfig (User c) (WorkingDir c) (Image c) (StopSignal c) (Env c) (Cmd c) (Entrypoint c) (Shell c) v (ExposedPorts c) (Volumes c) (Labels c) (Healthcheck c) (ArgsEscaped c).
Definition set_ExposedPorts {L} (v : gset string) (c : Config L) : Config L :=
  mkConfig (User c) (WorkingDir c) (Image c) (StopSignal c) (Env c) (Cmd c) (Entrypoint c) (Shell c) (OnBuild c) v (Volumes c) (Labels c) (Healthcheck c) (ArgsEscaped c).
Definition set_Volumes {L} (v : gset string) (c : Config L) : Config L :=
  mkConfig (User c) (WorkingDir c) (Image c) (StopSignal c) (Env c) (Cmd c) (Entrypoint c) (Shell c) (OnBuild c) (ExposedPorts c) v (Labels c) (Healthcheck c) (ArgsEscaped c).
Definition set_Labels {L} (v : gmap string string) (c : Config L) : Config L :=
  mkConfig (User c) (WorkingDir c) (Image c) (StopSignal c) (Env c) (Cmd c) (Entrypoint c) (Shell c) (OnBuild c) (ExposedPorts c) (Volumes c) v (Healthcheck c) (ArgsEscaped c).
Definition set_Healthcheck {L} (v : option HealthConfig) (c : Config L) : Config L :=
  mkConfig (User c) (WorkingDir c) (Image c) (StopSignal c) (Env c) (Cmd c) (Entrypoint c) (Shell c) (OnBuild c) (ExposedPorts c) (Volumes c) (Labels c) v (ArgsEscaped c).
Definition set_ArgsEscaped {L} (v : bool) (c : Config L) : Config L :=
  mkConfig (User c) (WorkingDir c) (Image c) (StopSignal c) (Env c) (Cmd c) (Entrypoint c) (Shell c) (OnBuild c) (ExposedPorts c) (Volumes c) (Labels c) (Healthcheck c) v.

Definition emptyConfig : Config slice :=
  mkConfig "" "" "" "" nil_slice nil_slice nil_slice nil_slice nil_slice ∅ ∅ ∅ None false.

(** The options of a build that the builder itself looks at. *)
Record Options := mkOptions {
  PullParent : bool;
  NoCache : bool;
  Remove : bool;
  ForceRemove : bool;
  BuildArgs : gmap string string;
  optLabels : gmap string string;
  Tags : list string }.
Definition set_BuildArgs (m : gmap string string) (o : Options) : Options :=
  mkOptions (PullParent o) (NoCache o) (Remove o) (ForceRemove o) m (optLabels o) (Tags o).

(** An image as the builder sees it: its ID and, if it has one, its
    configuration. *)
Record Image_ := mkImage { ImageID : string; RunConfig : option (Config (list string)) }.

(** A source of [ADD] or [COPY]. *)
Record copyInfo := mkCopyInfo { ciName : string; ciHash : option string; ciPath : string; decompress : bool }.

(** ** The world around the builder *)

(** [builder.Backend] and [builder.ImageCache], on the state of the engine; a
    method that is given a configuration returns it as it leaves it.  Every call
    returns: an engine that never answers, or a container that never exits, has no
    counterpart here. *)
Class Backend (B : Type) := {
  GetImageOnBuild : string → B → option Image_;
  PullOnBuild : string → B → result string Image_ * B;
  ContainerCreate : Config (list string) → B → result string string * Config (list string) * B;
  ContainerUpdateCmdOnBuild : string → list string → B → option string * B;
  ContainerAttachRaw : string → B → option string * B;
  ContainerStart : string → B → option string * B;
  ContainerWait : string → B → Z * B;
  ContainerRm : string → B → option string * B;
  CopyOnBuild : string → string → copyInfo → B → option string * B;
  Commit : string → string → Config (list string) → B → result string string * Config (list string) * B;
  TagImageWithReference : string → Named → B → option string * B;
  GetCachedImageOnBuild : option (string → Config (list string) → B → result string string) }.

(** The rest: [time.ParseDuration], [nat.ParsePortSpecs] of the vendored package
    go-connections, the format of a health configuration, SHA-256, the sources
    of a build context ([download] and [calcCopyInfo]) and whether the client has
    gone away. *)
Class Externs (B : Type) := {
  ParseDuration : string → result string Z;
  ParsePortSpecs : list string → result string (list string);
  formatHealth : option HealthConfig → string;
  sha256_hex : string → string;
  hasContext : bool;
  download : string → B → result string copyInfo * B;
  calcCopyInfo : string → string → bool → B → result string (list copyInfo);
  cancelled : B → bool }.

Record Builder (B : Type) := mkBuilder {
  heap_ : heap;
  runConfig : Config slice;
  bflags : BFlags;
  tmpContainers : gset string;
  image : string;
  noBaseImage : bool;
  maintainer_ : string;
  cmdSet : bool;
  disableCommit : bool;
  cacheBusted : bool;
  allowedBuildArgs : gset string;
  directive : Directive;
  options : Options;
  docker : B }.
Arguments mkBuilder {B}.
Arguments heap_ {B} _.
Arguments runConfig {B} _.
Arguments bflags {B} _.
Arguments tmpContainers {B} _.
Arguments image {B} _.
Arguments noBaseImage {B} _.
Arguments maintainer_ {B} _.
Arguments cmdSet {B} _.
Arguments disableCommit {B} _.
Arguments cacheBusted {B} _.
Arguments allowedBuildArgs {B} _.
Arguments directive {B} _.
Arguments options {B} _.
Arguments docker {B} _.

Definition set_heap_ {B} (v : heap) (b : Builder B) : Builder B :=
  mkBuilder v (runConfig b) (bflags b) (tmpContainers b) (image b) (noBaseImage b) (maintainer_ b) (cmdSet b) (disableCommit b) (cacheBusted b) (allowedBuildArgs b) (directive b) (options b) (docker b).
Definition set_runConfig {B} (v : Config slice) (b : Builder B) : Builder B :=
  mkBuilder (heap_ b) v (bflags b) (tmpContainers b) (image b) (noBaseImage b) (maintainer_ b) (cmdSet b) (disableCommit b) (cacheBusted b) (allowedBuildArgs b) (directive b) (options b) (docker b).
Definition set_bflags {B} (v : BFlags) (b : Builder B) : Builder B :=
  mkBuilder (heap_ b) (runConfig b) v (tmpContainers b) (image b) (noBaseImage b) (maintainer_ b) (cmdSet b) (disableCommit b) (cacheBusted b) (allowedBuildArgs b) (directive b) (options b) (docker b).
Definition set_tmpContainers {B} (v : gset string) (b : Builder B) : Builder B :=
  mkBuilder (heap_ b) (runConfig b) (bflags b) v (image b) (noBaseImage b) (maintainer_ b) (cmdSet b) (disableCommit b) (cacheBusted b) (allowedBuildArgs b) (directive b) (options b) (docker b).
Definition set_image {B} (v : string) (b : Builder B) : Builder B :=
  mkBuilder (heap_ b) (runConfig b) (bflags b) (tmpContainers b) v (noBaseImage b) (maintainer_ b) (cmdSet b) (disableCommit b) (cacheBusted b) (allowedBuildArgs b) (directive b) (options b) (docker b).
Definition set_noBaseImage {B} (v : bool) (b : Builder B) : Builder B :=
  mkBuilder (heap_ b) (runConfig b) (bflags b) (tmpContainers b) (image b) v (maintainer_ b) (cmdSet b) (disableCommit b) (cacheBusted b) (allowedBuildArgs b) (directive b) (options b) (docker b).
Definition set_maintainer_ {B} (v : string) (b : Builder B) : Builder B :=
  mkBuilder (heap_ b) (runConfig b) (bflags b) (tmpContainers b) (image b) (noBaseImage b) v (cmdSet b) (disableCommit b) (cacheBusted b) (allowedBuildArgs b) (directive b) (options b) (docker b).
Definition set_cmdSet {B} (v : bool) (b : Builder B) : Builder B :=
  mkBuilder (heap_ b) (runConfig b) (bflags b) (tmpContainers b) (image b) (noBaseImage b) (maintainer_ b) v (disableCommit b) (cacheBusted b) (allowedBuildArgs b) (directive b) (options b) (docker b).
Definition set_disableCommit {B} (v : bool) (b : Builder B) : Builder B :=
  mkBuilder (heap_ b) (runConfig b) (bflags b) (tmpContainers b) (image b) (noBaseImage b) (maintainer_ b) (cmdSet b) v (cacheBusted b) (allowedBuildArgs b) (directive b) (options b) (docker b).
Definition set_cacheBusted {B} (v : bool) (b : Builder B) : Builder B :=
  mkBuilder (heap_ b) (runConfig b) (bflags b) (tmpContainers b) (image b) (noBaseImage b) (maintainer_ b) (cmdSet b) (disableCommit b) v (allowedBuildArgs b) (directive b) (options b) (docker b).
Definition set_allowedBuildArgs {B} (v : gset string) (b : Builder B) : Builder B :=
  mkBuilder (heap_ b) (runConfig b) (bflags b) (tmpContainers b) (image b) (noBaseImage b) (maintainer_ b) (cmdSet b) (disableCommit b) (cacheBusted b) v (directive b) (options b) (docker b).
Definition set_directive {B} (v : Directive) (b : Builder B) : Builder B :=
  mkBuilder (heap_ b) (runConfig b) (bflags b) (tmpContainers b) (image b) (noBaseImage b) (maintainer_ b) (cmdSet b) (disableCommit b) (cacheBusted b) (allowedBuildArgs b) v (options b) (docker b).
Definition set_options {B} (v : Options) (b : Builder B) : Builder B :=
  mkBuilder (heap_ b) (runConfig b) (bflags b) (tmpContainers b) (image b) (noBaseImage b) (maintainer_ b) (cmdSet b) (disableCommit b) (cacheBusted b) (allowedBuildArgs b) (directive b) v (docker b).
Definition set_docker {B} (v : B) (b : Builder B) : Builder B :=
  mkBuilder (heap_ b) (runConfig b) (bflags b) (tmpContainers b) (image b) (noBaseImage b) (maintainer_ b) (cmdSet b) (disableCommit b) (cacheBusted b) (allowedBuildArgs b) (directive b) (options b) v.

(** ** Small steps *)

Section builder.
  Context `{Unicode, Runtime} {B : Type} `{Backend B, Externs B}.

Abbreviation BM A := (M (Builder B) A).
Abbreviation BR A := (M (Builder B) (result string A)).

Definition config {A} (f : Config slice → A) : BM A := read (λ b, f (runConfig b)).
Definition updConfig (f : Config slice → Config slice) : BM unit :=
  modify (λ b : Builder B, set_runConfig (f (runConfig b)) b).
Definition list_of (s : slice) : BM (list string) := read (λ b, contents (heap_ b) s).
Definition appendB (s : slice) (xs : list string) : BM slice :=
  λ b, let '(s', h) := go_append s xs (heap_ b) in Ret s' (set_heap_ h b).
Definition appendEachB (s : slice) (xs : list string) : BM slice :=
  λ b, let '(s', h) := append_each s xs (heap_ b) in Ret s' (set_heap_ h b).
Definition literalB (xs : list string) : BM slice :=
  λ b, let '(s', h) := go_literal xs (heap_ b) in Ret s' (set_heap_ h b).
Definition backend {A} (f : B → A * B) : BM A := λ b, let '(a, d) := f (docker b) in Ret a (set_docker d b).
Definition fail {A} (e : string) : BR A := mret (Err e).
Definition ok : BR unit := mret (Ok ()).

(** [if err := ...; err != nil { return err }]. *)
Definition check (m : BM (option string)) : BR unit := e ← m; mret (match e with Some e => Err e | None => Ok () end).

(** The contents of a configuration, and a configuration over fresh slices. *)
Definition values (h : heap) (c : Config slice) : Config (list string) :=
  mkConfig (User c) (WorkingDir c) (Image c) (StopSignal c) (contents h (Env c)) (contents h (Cmd c))
    (contents h (Entrypoint c)) (contents h (Shell c)) (contents h (OnBuild c)) (ExposedPorts c) (Volumes c) (Labels c)
    (Healthcheck c) (ArgsEscaped c).

(** A slice after a call that has put [l] there: the same one if nothing changed. *)
Definition adoptList (s : slice) (l : list string) : BM slice :=
  old ← list_of s; if decide (old = l) then mret s else literalB l.
Definition adopt (c : Config (list string)) : BM unit :=
  old ← config id;
  env ← adoptList (Env old) (Env c); cmd ← adoptList (Cmd old) (Cmd c);
  entrypoint ← adoptList (Entrypoint old) (Entrypoint c); shell ← adoptList (Shell old) (Shell c);
  onbuild ← adoptList (OnBuild old) (OnBuild c);
  updConfig (λ _, mkConfig (User c) (WorkingDir c) (Image c) (StopSignal c) env cmd entrypoint shell onbuild
    (ExposedPorts c) (Volumes c) (Labels c) (Healthcheck c) (ArgsEscaped c)).

(** [defaultShell], the array that the package has at the start of the heap. *)
Definition defaultShell : slice := mkSlice (Some 0%nat) 2.
Definition initialHeap : heap := [["/bin/sh"; "-c"]].

Definition getShell : BM slice :=
  c ← config id; mret (if decide (s_len (Shell c) = 0%nat) then defaultShell else Shell c).

(** [strings.Join(l, " ")], and a list under the verbs [v] and [q]. *)
Definition spaced (l : list string) : string := String.concat " " l.
Definition verb_v (l : list string) : string := "[" +:+ spaced l +:+ "]".
Definition verb_q (l : list string) : string := "[" +:+ spaced (Quote <$> l) +:+ "]".

(** [handleJSONArgs] (support.go). *)
Definition handleJSONArgs (args : slice) (attributes : attrs) : BM slice :=
  if decide (s_len args = 0%nat) then literalB []
  else if decide (attributes !! "json" = Some true) then mret args
  else l ← list_of args; literalB [spaced l].
Definition isJSON (attributes : attrs) : bool := bool_decide (attributes !! "json" = Some true).

(** ** internals.go *)

Definition probeCache : BR bool :=
  b ← read id;
  match GetCachedImageOnBuild with
  | None => mret (Ok false)
  | Some lookup =>
      if NoCache (options b) || cacheBusted b then mret (Ok false)
      else match lookup (image b) (values (heap_ b) (runConfig b)) (docker b) with
           | Err e => fail e
           | Ok cache =>
               if decide (cache = "") then _ ← modify (set_cacheBusted true); mret (Ok false)
               else _ ← modify (set_image cache); mret (Ok true)
           end
  end.

Definition ContainerCreateB : BR string :=
  b ← read id;
  '(r, c) ← backend (λ d, let '(r, c, d) := ContainerCreate (values (heap_ b) (runConfig b)) d in ((r, c), d));
  _ ← adopt c;
  mret r.

Definition addTmp (cID : string) : BM unit :=
  modify (λ b : Builder B, set_tmpContainers ({[ cID ]} ∪ tmpContainers b) b).

Definition create : BR string :=
  b ← read id;
  if decide (image b = "" ∧ noBaseImage b = false) then fail "Please provide a source image with `from` prior to run"
  else
    _ ← updConfig (set_Image (image b));
    cmd ← config Cmd;
    cID ←? ContainerCreateB;
    _ ← addTmp cID;
    cmd ← list_of cmd;
    _ ←? check (backend (ContainerUpdateCmdOnBuild cID cmd));
    mret (Ok cID).

(** The maps of a configuration are shared with its copies. *)
Definition adoptMaps (c : Config (list string)) : BM unit :=
  updConfig (λ c', set_ExposedPorts (ExposedPorts c) (set_Volumes (Volumes c) (set_Labels (Labels c) c'))).

Definition commitContainer (cID : string) (autoCmd : slice) : BR unit :=
  b ← read id;
  let autoConfig := values (heap_ b) (set_Cmd autoCmd (runConfig b)) in
  '(r, c) ← backend (λ d, let '(r, c, d) := Commit cID (maintainer_ b) autoConfig d in ((r, c), d));
  _ ← adoptMaps c;
  match r with
  | Err e => fail e
  | Ok imageID => _ ← modify (set_image imageID); ok
  end.

(** [defer func() { b.runConfig.Cmd = cmd }()]. *)
Definition restoringCmd {A} (cmd : slice) (m : BR A) : BR A := r ← m; _ ← updConfig (set_Cmd cmd); mret r.

Definition commit (cID : string) (autoCmd : slice) (comment : string) : BR unit :=
  b ← read id;
  if disableCommit b then ok
  else if decide (image b = "" ∧ noBaseImage b = false) then fail "Please provide a source image with `from` prior to commit"
  else
    _ ← updConfig (set_Image (image b));
    if decide (cID = "") then
      cmd ← config Cmd;
      sh ← getShell;
      nop ← appendB sh ["#(nop) "; comment];
      _ ← updConfig (set_Cmd nop);
      restoringCmd cmd (
        hit ←? probeCache;
        if hit : bool then ok
        else cID ←? create; commitContainer cID autoCmd)
    else commitContainer cID autoCmd.

Definition isURL (s : string) : bool := HasPrefix s "http://" || HasPrefix s "https://".
Definition HasSuffixSlash (s : string) : bool :=
  match String.get (String.length s - 1) s with Some c => bool_decide (c = "/"%char) | None => false end.

(** The sources of [ADD] and [COPY]. *)
Fixpoint copyInfos (cmdName : string) (allowRemote allowDecompress : bool) (origs : list string) : BR (list copyInfo) :=
  match origs with
  | [] => mret (Ok [])
  | orig :: origs =>
      infos ←? (if isURL orig then
                  if allowRemote then
                    fi ←? backend (download orig);
                    mret (Ok [mkCopyInfo (ciName fi) (ciHash fi) (ciPath fi) false])
                  else fail ("Source can't be a URL for " +:+ cmdName)
                else d ← read docker; mret (calcCopyInfo cmdName orig allowDecompress d));
      rest ←? copyInfos cmdName allowRemote allowDecompress origs;
      mret (Ok (infos ++ rest)%list)
  end.

(** The string that stands for the sources in the cache, and their names. *)
Definition srcHash (infos : list copyInfo) : string * string :=
  match infos with
  | [fi] => (default "" (ciHash fi), ciName fi)
  | _ => ("multi:" +:+ sha256_hex (String.concat "," (omap ciHash infos)), spaced (ciName <$> infos))
  end.

(** [normaliseDest] and [normaliseWorkdir] (internals_unix.go, dispatchers_unix.go). *)
Definition normaliseDest (workingDir requested : string) : string :=
  if filepath.IsAbs requested then requested
  else filepath.Join ["/"; workingDir; requested] +:+ (if HasSuffixSlash requested then "/" else "").
Definition normaliseWorkdir (current requested : string) : result string string :=
  if decide (requested = "") then Err "cannot normalise nothing"
  else Ok (if filepath.IsAbs requested then requested else filepath.Join ["/"; current; requested]).

Fixpoint copyAll (cID dest : string) (infos : list copyInfo) : BR unit :=
  match infos with
  | [] => ok
  | info :: infos => _ ←? check (backend (CopyOnBuild cID dest info)); copyAll cID dest infos
  end.

Definition runContextCommand (args : slice) (allowRemote allowDecompress : bool) (cmdName : string) : BR unit :=
  l ← list_of args;
  match reverse l with
  | dest :: src :: srcs =>
      if negb hasContext then fail ("No context given. Impossible to use " +:+ cmdName)
      else
        img ← read image;
        _ ← updConfig (set_Image img);
        infos ←? copyInfos cmdName allowRemote allowDecompress (reverse (src :: srcs));
        if decide (infos = []) then fail "No source files were specified"
        else if bool_decide (1 < length infos)%nat && negb (HasSuffixSlash dest) then
          fail ("When using " +:+ cmdName +:+ " with more than one source file, the destination must be a directory and end with a /")
        else
          let '(hash, origPaths) := srcHash infos in
          cmd ← config Cmd;
          sh ← getShell;
          nop ← appendB sh ["#(nop) " +:+ cmdName +:+ " " +:+ hash +:+ " in " +:+ dest +:+ " "];
          _ ← updConfig (set_Cmd nop);
          restoringCmd cmd (
            hit ←? probeCache;
            if hit : bool then ok
            else
              cID ←? ContainerCreateB;
              _ ← addTmp cID;
              wd ← config WorkingDir;
              _ ←? copyAll cID (normaliseDest wd dest) infos;
              commit cID cmd (cmdName +:+ " " +:+ origPaths +:+ " in " +:+ dest))
  | _ => if negb hasContext then fail ("No context given. Impossible to use " +:+ cmdName)
         else fail ("Invalid " +:+ cmdName +:+ " format - at least two arguments required")
  end.

(** [run] (internals.go): start the container, read its output to the end, wait
    for it; a client that has gone away by then has had the container killed and
    removed. *)
Definition runContainer (cID : string) : BR unit :=
  _ ←? check (backend (ContainerStart cID));
  _ ←? check (backend (ContainerAttachRaw cID));
  ret ← backend (ContainerWait cID);
  if decide (ret ≠ 0%Z) then
    cmd ← config Cmd; cmd ← list_of cmd;
    fail ("The command '" +:+ spaced cmd +:+ "' returned a non-zero code: " +:+ Itoa ret)
  else
    d ← read docker;
    if cancelled d then fail "build cancelled" else ok.

(** [removeContainer] and [clearTmp]: it stops at the first container that cannot
    be removed. *)
Definition removeContainer (cID : string) : BM (option string) := backend (ContainerRm cID).
Fixpoint clearList (l : list string) : BM unit :=
  match l with
  | [] => mret ()
  | c :: l =>
      e ← removeContainer c;
      match e with
      | Some _ => mret ()
      | None => _ ← modify (λ b : Builder B, set_tmpContainers (tmpContainers b ∖ {[ c ]}) b); clearList l
      end
  end.
Definition clearTmp : BM unit := l ← read (λ b, elements (tmpContainers b)); clearList l.

Definition BuiltinAllowedBuildArgs : gset string :=
  {[ "HTTP_PROXY"; "http_proxy"; "HTTPS_PROXY"; "https_proxy"; "FTP_PROXY"; "ftp_proxy"; "NO_PROXY"; "no_proxy" ]}.
Definition isBuildArgAllowed (b : Builder B) (arg : string) : bool :=
  bool_decide (arg ∈ BuiltinAllowedBuildArgs) || bool_decide (arg ∈ allowedBuildArgs b).

(** The build arguments that are allowed, as variables. *)
Definition allowedVars (b : Builder B) : list (string * string) :=
  filter (λ kv, isBuildArgAllowed b kv.1 = true) (map_to_list (BuildArgs (options b))).
Definition envVar (kv : string * string) : string := kv.1 +:+ "=" +:+ kv.2.

(** [ConvertKVStringsToMap] (runconfig/opts/parse.go). *)
Definition kvOf (value : string) : string * string := default (value, "") (cut "="%char value).
Fixpoint ConvertKVStringsToMap (values : list string) : gmap string string :=
  match values with
  | [] => ∅
  | v :: vs => let m := ConvertKVStringsToMap vs in
      match m !! (kvOf v).1 with Some _ => m | None => <[(kvOf v).1 := (kvOf v).2]> m end
  end.

(** ** dispatchers.go *)

Definition errAtLeastOneArgument (command : string) : string := command +:+ " requires at least one argument".
Definition errExactlyOneArgument (command : string) : string := command +:+ " requires exactly one argument".
Definition errTooManyArguments (command : string) : string := "Bad input to " +:+ command +:+ ", too many arguments".
Definition errNotJSON (command : string) : string := command +:+ " requires the arguments to be in JSON form".

(** [b.flags.Parse()]. *)
Definition parseFlags : BR unit :=
  λ b, let '(e, f) := BFlags.Parse (bflags b) in
       Ret (match e with Some e => Err e | None => Ok () end) (set_bflags f b).

(** [b.commit("", b.runConfig.Cmd, comment)]. *)
Definition commitNop (comment : string) : BR unit := cmd ← config Cmd; commit "" cmd comment.

(** One variable of [ENV]: the first variable of that name is replaced, in the
    array that holds the environment; a new one is appended. *)
Definition setEnvVar (name value : string) : BM unit :=
  env ← config Env;
  l ← list_of env;
  match list_find (λ v, (kvOf v).1 = name) l with
  | Some (i, _) => modify (λ b : Builder B, set_heap_ (go_store env i (name +:+ "=" +:+ value) (heap_ b)) b)
  | None => env ← appendB env [name +:+ "=" +:+ value]; updConfig (set_Env env)
  end.
Fixpoint setEnvVars (args : list string) : BM unit :=
  match args with
  | name :: value :: args => _ ← setEnvVar name value; setEnvVars args
  | _ => mret ()
  end.

(** The arguments of [ENV] and [LABEL], as the comment of the commit. *)
Fixpoint pairsComment (args : list string) : string :=
  match args with
  | name :: value :: args => " " +:+ name +:+ "=" +:+ value +:+ pairsComment args
  | _ => ""
  end.

Definition env (args : slice) : BR unit :=
  l ← list_of args;
  if decide (l = []) then fail (errAtLeastOneArgument "ENV")
  else if decide (length l `mod` 2 ≠ 0)%nat then fail (errTooManyArguments "ENV")
  else
    _ ←? parseFlags;
    _ ← setEnvVars l;
    commitNop ("ENV" +:+ pairsComment l).

Definition maintainer (args : slice) : BR unit :=
  l ← list_of args;
  match l with
  | [a] => _ ←? parseFlags; _ ← modify (set_maintainer_ a); commitNop ("MAINTAINER " +:+ a)
  | _ => fail (errExactlyOneArgument "MAINTAINER")
  end.

Fixpoint setLabels (args : list string) (m : gmap string string) : gmap string string :=
  match args with
  | name :: value :: args => setLabels args (<[name := value]> m)
  | _ => m
  end.
Definition label (args : slice) : BR unit :=
  l ← list_of args;
  if decide (l = []) then fail (errAtLeastOneArgument "LABEL")
  else if decide (length l `mod` 2 ≠ 0)%nat then fail (errTooManyArguments "LABEL")
  else
    _ ←? parseFlags;
    _ ← updConfig (λ c, set_Labels (setLabels l (Labels c)) c);
    commitNop ("LABEL" +:+ pairsComment l).

Definition add (args : slice) : BR unit :=
  if decide (s_len args < 2)%nat then fail (errAtLeastOneArgument "ADD")
  else _ ←? parseFlags; runContextCommand args true true "ADD".
Definition dispatchCopy (args : slice) : BR unit :=
  if decide (s_len args < 2)%nat then fail (errAtLeastOneArgument "COPY")
  else _ ←? parseFlags; runContextCommand args false false "COPY".

(** [regexp.MustCompile(`(?i)^\s*ONBUILD\s*`).ReplaceAllString(original, "")]. *)
Definition is_re_space (c : ascii) : bool :=
  bool_decide (Z_of_char c = 9 ∨ Z_of_char c = 10 ∨ Z_of_char c = 12 ∨ Z_of_char c = 13 ∨ Z_of_char c = 32)%Z.
Definition stripOnbuild (s : string) : string :=
  let t := TrimLeftFunc is_re_space s in
  if decide (GoStrings.ToUpper (String.substring 0 7 t) = "ONBUILD")
  then TrimLeftFunc is_re_space (String.substring 7 (String.length t) t) else s.

(** The instructions that cannot be triggers. *)
Definition badTrigger (upper shown : string) : option string :=
  if decide (upper = "ONBUILD") then Some "Chaining ONBUILD via `ONBUILD ONBUILD` isn't allowed"
  else if decide (upper = "MAINTAINER" ∨ upper = "FROM") then Some (shown +:+ " isn't allowed as an ONBUILD trigger")
  else None.

Definition onbuild (args : slice) (original : string) : BR unit :=
  l ← list_of args;
  match l with
  | [] => fail (errAtLeastOneArgument "ONBUILD")
  | a :: _ =>
      _ ←? parseFlags;
      let trigger := strings.ToUpper (strings.TrimSpace a) in
      match badTrigger trigger trigger with
      | Some e => fail e
      | None =>
          let original := stripOnbuild original in
          ob ← config OnBuild;
          ob ← appendB ob [original];
          _ ← updConfig (set_OnBuild ob);
          commitNop ("ONBUILD " +:+ original)
      end
  end.

Definition workdir (args : slice) : BR unit :=
  l ← list_of args;
  match l with
  | [a] =>
      _ ←? parseFlags;
      wd ← config WorkingDir;
      match normaliseWorkdir wd a with
      | Err e => _ ← updConfig (set_WorkingDir ""); fail e
      | Ok wd => _ ← updConfig (set_WorkingDir wd); commitNop ("WORKDIR " +:+ wd)
      end
  | _ => fail (errExactlyOneArgument "WORKDIR")
  end.

(** The arguments of [RUN], [CMD] and the like: behind the shell if they are not
    in JSON form. *)
Definition shellForm (args : slice) (attributes : attrs) : BM slice :=
  args ← handleJSONArgs args attributes;
  if isJSON attributes then mret args
  else sh ← getShell; l ← list_of args; appendB sh l.

(** [sort.Strings]. *)
Fixpoint insert_sorted (x : string) (l : list string) : list string :=
  match l with
  | [] => [x]
  | y :: l' => if String.leb x y then x :: l else y :: insert_sorted x l'
  end.
Definition sortStrings (l : list string) : list string := foldr insert_sorted [] l.

(** The build arguments that [RUN] adds to the environment. *)
Definition cmdBuildEnv (b : Builder B) : list string :=
  let configEnv := ConvertKVStringsToMap (contents (heap_ b) (Env (runConfig b))) in
  sortStrings (envVar <$> filter (λ kv, configEnv !! kv.1 = None) (allowedVars b)).

Definition run (args : slice) (attributes : attrs) : BR unit :=
  b ← read id;
  if decide (image b = "" ∧ noBaseImage b = false) then fail "Please provide a source image with `from` prior to run"
  else
    _ ←? parseFlags;
    configCmd ← shellForm args attributes;
    c ← config id;
    let cmd := Cmd c in
    let env := Env c in
    _ ← (if decide (s_len (Entrypoint c) = 0%nat ∧ s_len cmd = 0%nat) then updConfig (set_Cmd configCmd) else mret ());
    r ← (buildEnv ← read cmdBuildEnv;
         saveCmd ← (if decide (buildEnv = []) then mret configCmd
                    else t ← literalB ["|" +:+ Itoa (Z.of_nat (length buildEnv))];
                         t ← appendB t buildEnv; l ← list_of configCmd; appendB t l);
         _ ← updConfig (set_Cmd saveCmd);
         hit ←? probeCache;
         if hit : bool then ok
         else
           _ ← updConfig (set_Cmd configCmd);
           e ← config Env;
           e ← appendB e buildEnv;
           _ ← updConfig (set_Env e);
           _ ← updConfig (set_ArgsEscaped true);
           cID ←? create;
           _ ←? runContainer cID;
           _ ← updConfig (set_Env env);
           _ ← updConfig (set_Cmd saveCmd);
           commit cID cmd "run");
    _ ← updConfig (set_Env env);
    _ ← updConfig (set_Cmd cmd);
    mret r.

Definition cmd (args : slice) (attributes : attrs) : BR unit :=
  _ ←? parseFlags;
  cmdSlice ← shellForm args attributes;
  _ ← updConfig (set_Cmd cmdSlice);
  l ← list_of cmdSlice;
  _ ←? commitNop ("CMD " +:+ verb_q l);
  _ ← (if decide (s_len args = 0%nat) then mret () else modify (set_cmdSet true));
  ok.

Definition parseOptInterval (bf : BFlags) (name : string) : result string Z :=
  let s := flagValue bf name in
  if decide (s = "") then Ok 0%Z
  else match ParseDuration s with
       | Err e => Err e
       | Ok d => if decide (d ≤ 0)%Z then Err ("Interval " +:+ Quote name +:+ " must be positive") else Ok d
       end.

(** [strconv.ParseInt(s, 10, 32)]. *)
Definition ParseInt32 (s : string) : result string Z :=
  let err e := Err ("strconv.ParseInt: parsing " +:+ Quote s +:+ ": " +:+ e) in
  match ParseInt64 s with
  | Err e => err e
  | Ok z => if decide (- 2 ^ 31 ≤ z < 2 ^ 31)%Z then Ok z else err "value out of range"
  end.
Definition parseRetries (s : string) : result string Z :=
  if decide (s = "") then Ok 0%Z
  else match ParseInt32 s with
       | Err e => Err e
       | Ok z => if decide (z < 1)%Z then Err ("--retries must be at least 1 (not " +:+ Itoa z +:+ ")") else Ok z
       end.

Definition result_of {A} (r : result string A) : BR A := mret r.

Definition healthcheck (args : slice) (attributes : attrs) : BR unit :=
  l ← list_of args;
  match l with
  | [] => fail "HEALTHCHECK requires an argument"
  | a :: rest =>
      let typ := strings.ToUpper a in
      if decide (typ = "NONE") then
        if decide (rest = []) then
          _ ← updConfig (set_Healthcheck (Some (mkHealth [typ] 0 0 0)));
          h ← config Healthcheck; commitNop ("HEALTHCHECK " +:+ formatHealth h)
        else fail "HEALTHCHECK NONE takes no arguments"
      else
        _ ← modify (λ b : Builder B, set_bflags (AddString "retries" "" (AddString "timeout" "" (AddString "interval" "" (bflags b)).2).2).2 b);
        _ ←? parseFlags;
        if decide (typ = "CMD") then
          let cmdSlice := if decide (rest = []) then [] else if isJSON attributes then rest else [spaced rest] in
          if decide (cmdSlice = []) then fail "Missing command after HEALTHCHECK CMD"
          else
            bf ← read bflags;
            interval ←? result_of (parseOptInterval bf "interval");
            timeout ←? result_of (parseOptInterval bf "timeout");
            retries ←? result_of (parseRetries (flagValue bf "retries"));
            _ ← updConfig (set_Healthcheck (Some (mkHealth ((if isJSON attributes then typ else "CMD-SHELL") :: cmdSlice) interval timeout retries)));
            h ← config Healthcheck; commitNop ("HEALTHCHECK " +:+ formatHealth h)
        else fail ("Unknown type " +:+ Quote typ +:+ " in HEALTHCHECK (try CMD)")
  end.

Definition entrypoint (args : slice) (attributes : attrs) : BR unit :=
  _ ←? parseFlags;
  parsed ← handleJSONArgs args attributes;
  l ← list_of parsed;
  _ ← (if isJSON attributes then updConfig (set_Entrypoint parsed)
       else match l with
            | [] => updConfig (set_Entrypoint nil_slice)
            | a :: _ => sh ← getShell; e ← appendB sh [a]; updConfig (set_Entrypoint e)
            end);
  set ← read cmdSet;
  _ ← (if set : bool then mret () else updConfig (set_Cmd nil_slice));
  e ← config Entrypoint;
  e ← list_of e;
  commitNop ("ENTRYPOINT " +:+ verb_q e).

Definition expose (args : slice) : BR unit :=
  l ← list_of args;
  if decide (l = []) then fail (errAtLeastOneArgument "EXPOSE")
  else
    _ ←? parseFlags;
    ports ←? result_of (ParsePortSpecs l);
    _ ← updConfig (λ c, set_ExposedPorts (ExposedPorts c ∪ list_to_set ports) c);
    commitNop ("EXPOSE " +:+ spaced (sortStrings ports)).

Definition user (args : slice) : BR unit :=
  l ← list_of args;
  match l with
  | [a] => _ ←? parseFlags; _ ← updConfig (set_User a); commitNop ("USER " +:+ verb_v l)
  | _ => fail (errExactlyOneArgument "USER")
  end.

(** The volumes are added up to the first empty one. *)
Fixpoint addVolumes (l : list string) : BR unit :=
  match l with
  | [] => ok
  | v :: l =>
      let v := strings.TrimSpace v in
      if decide (v = "") then fail "Volume specified can not be an empty string"
      else _ ← updConfig (λ c, set_Volumes ({[ v ]} ∪ Volumes c) c); addVolumes l
  end.
Definition volume (args : slice) : BR unit :=
  l ← list_of args;
  if decide (l = []) then fail (errAtLeastOneArgument "VOLUME")
  else
    _ ←? parseFlags;
    _ ←? addVolumes l;
    commitNop ("VOLUME " +:+ verb_v l).

(** [signal.ParseSignal] (pkg/signal): a number other than zero, or a name with or
    without its prefix. *)
Definition SignalMap : list (string * Z) :=
  [("ABRT", 6); ("ALRM", 14); ("BUS", 7); ("CHLD", 17); ("CLD", 17); ("CONT", 18); ("FPE", 8); ("HUP", 1); ("ILL", 4);
   ("INT", 2); ("IO", 29); ("IOT", 6); ("KILL", 9); ("PIPE", 13); ("POLL", 29); ("PROF", 27); ("PWR", 30); ("QUIT", 3);
   ("SEGV", 11); ("STKFLT", 16); ("STOP", 19); ("SYS", 31); ("TERM", 15); ("TRAP", 5); ("TSTP", 20); ("TTIN", 21);
   ("TTOU", 22); ("UNUSED", 31); ("URG", 23); ("USR1", 10); ("USR2", 12); ("VTALRM", 26); ("WINCH", 28); ("XCPU", 24);
   ("XFSZ", 25); ("RTMIN", 34)]%Z ++
  ((λ i, ("RTMIN+" +:+ Itoa i, 34 + i)%Z) <$> seqZ 1 15) ++
  ((λ i, ("RTMAX-" +:+ Itoa i, 64 - i)%Z) <$> seqZ 1 14) ++ [("RTMAX", 64%Z)].
Definition ParseSignal (raw : string) : result string Z :=
  let err := Err ("Invalid signal: " +:+ raw) in
  match ParseInt64 raw with
  | Ok s => if decide (s = 0%Z) then err else Ok s
  | Err _ =>
      match list_find (λ x, x.1 = TrimPrefix (strings.ToUpper raw) "SIG") SignalMap with
      | Some (_, (_, s)) => Ok s
      | None => err
      end
  end.

Definition stopSignal (args : slice) : BR unit :=
  l ← list_of args;
  match l with
  | [sig] =>
      _ ←? result_of (ParseSignal sig);
      _ ← updConfig (set_StopSignal sig);
      commitNop ("STOPSIGNAL " +:+ verb_v l)
  | _ => fail "STOPSIGNAL requires exactly one argument"
  end.

Definition arg (args : slice) : BR unit :=
  l ← list_of args;
  match l with
  | [a] =>
      let '(name, def) := match cut "="%char a with Some (n, v) => (n, Some v) | None => (a, None) end in
      _ ← modify (λ b : Builder B, set_allowedBuildArgs ({[ name ]} ∪ allowedBuildArgs b) b);
      _ ← modify (λ b : Builder B,
            match BuildArgs (options b) !! name, def with
            | None, Some v => set_options (set_BuildArgs (<[name := v]> (BuildArgs (options b))) (options b)) b
            | _, _ => b
            end);
      commitNop ("ARG " +:+ a)
  | _ => fail "ARG requires exactly one argument definition"
  end.

Definition shell (args : slice) (attributes : attrs) : BR unit :=
  _ ←? parseFlags;
  shellSlice ← handleJSONArgs args attributes;
  if decide (s_len shellSlice = 0%nat) then fail (errAtLeastOneArgument "SHELL")
  else if isJSON attributes then
    _ ← updConfig (set_Shell shellSlice);
    l ← list_of shellSlice;
    commitNop ("SHELL " +:+ verb_v l)
  else fail (errNotJSON "SHELL").

(** ** evaluator.go *)

Definition replaceEnvAllowed (cmd : string) : bool :=
  bool_decide (cmd ∈ ["env"; "label"; "add"; "copy"; "workdir"; "expose"; "volume"; "user"; "stopsignal"; "arg"]).
Definition allowWordExpansion (cmd : string) : bool := bool_decide (cmd = "expose").

(** The chain of nodes behind a node. *)
Fixpoint chainValues (n : Node) : list string :=
  match n with
  | mkNode _ next _ _ _ _ _ _ => match next with None => [] | Some n' => Value n' :: chainValues n' end
  end.

(** The words of one argument. *)
Definition expand (cmd str : string) (envs : list string) : BR (list string) :=
  if replaceEnvAllowed cmd then
    if allowWordExpansion cmd then
      match ShellParser.ProcessWords str envs with
      | Some r => result_of r
      | None => out_of_fuel
      end
    else
      match ShellParser.ProcessWord str envs with
      | Some (Ok s) => mret (Ok [s])
      | Some (Err e) => fail e
      | None => out_of_fuel
      end
  else mret (Ok [str]).
Fixpoint expandAll (cmd : string) (strs : list string) (envs : slice) (strList : slice) : BR slice :=
  match strs with
  | [] => mret (Ok strList)
  | str :: strs =>
      l ← list_of envs;
      words ←? expand cmd str l;
      strList ← (if allowWordExpansion cmd then appendB strList words else appendEachB strList words);
      expandAll cmd strs envs strList
  end.

(** [Value] and [Next] of the node that an instruction is dispatched with; for
    [ONBUILD] the node of the trigger. *)
Definition nilDeref : string := "runtime error: invalid memory address or nil pointer dereference".
Definition triggerOf (ast : Node) : BR Node :=
  match Next ast with
  | None => fail "ONBUILD requires at least one argument"
  | Some n =>
      match Children n with
      | [] => panic "runtime error: index out of range"
      | None :: _ => panic nilDeref
      | Some t :: _ => mret (Ok t)
      end
  end.

(** [processImageFrom] and [from], over the function that dispatches a trigger. *)
Definition DefaultPathEnv : string := "/usr/local/sbin:/usr/local/bin:/usr/sbin:/usr/bin:/sbin:/bin".
Definition NoBaseImageSpecifier : string := "scratch".

Definition loadConfig (c : Config (list string)) : BM unit :=
  env ← literalB (Env c); cmd ← literalB (Cmd c); entrypoint ← literalB (Entrypoint c); shell ← literalB (Shell c);
  onbuild ← literalB (OnBuild c);
  updConfig (λ _, mkConfig (User c) (WorkingDir c) (Image c) (StopSignal c) env cmd entrypoint shell onbuild
    (ExposedPorts c) (Volumes c) (Labels c) (Healthcheck c) (ArgsEscaped c)).

Definition parseText (text : string) : BR Node :=
  λ b, match DockerfileParser.Parse text (directive b) with
       | Ret r d => Ret r (set_directive d b)
       | Panic m => Panic m
       | OutOfFuel => OutOfFuel
       end.

Fixpoint triggers (go : Node → BR unit) (kids : list (option Node)) : BR unit :=
  match kids with
  | [] => ok
  | None :: _ => panic nilDeref
  | Some n :: kids =>
      match badTrigger (strings.ToUpper (Value n)) (Value n) with
      | Some e => fail e
      | None => _ ←? go n; triggers go kids
      end
  end.
Fixpoint runTriggers (go : Node → BR unit) (steps : list string) : BR unit :=
  match steps with
  | [] => ok
  | step :: steps => ast ←? parseText step; _ ←? triggers go (Children ast); runTriggers go steps
  end.

Definition processImageFrom (go : Node → BR unit) (img : option Image_) : BR unit :=
  _ ← match img with
      | Some i => _ ← modify (set_image (ImageID i));
                  match RunConfig i with Some c => loadConfig c | None => mret () end
      | None => mret ()
      end;
  e ← config Env;
  l ← list_of e;
  _ ← match ConvertKVStringsToMap l !! "PATH" with
      | None => e ← appendB e ["PATH=" +:+ DefaultPathEnv]; updConfig (set_Env e)
      | Some _ => mret ()
      end;
  match img with
  | None => ok
  | Some _ =>
      ob ← config OnBuild;
      steps ← list_of ob;
      none ← literalB [];
      _ ← updConfig (set_OnBuild none);
      runTriggers go steps
  end.

Definition from (go : Node → BR unit) (args : slice) : BR unit :=
  l ← list_of args;
  match l with
  | [name] =>
      _ ←? parseFlags;
      if decide (name = NoBaseImageSpecifier) then
        _ ← modify (set_image ""); _ ← modify (set_noBaseImage true);
        processImageFrom go None
      else
        b ← read id;
        match (if PullParent (options b) then None else GetImageOnBuild name (docker b)) with
        | Some i => processImageFrom go (Some i)
        | None => i ←? backend (PullOnBuild name); processImageFrom go (Some i)
        end
  | _ => fail (errExactlyOneArgument "FROM")
  end.

(** [evaluateTable]. *)
Definition evaluate (go : Node → BR unit) (cmd_ : string) (args : slice) (attributes : attrs) (original : string)
    : option (BR unit) :=
  if decide (cmd_ = "add") then Some (add args)
  else if decide (cmd_ = "arg") then Some (arg args)
  else if decide (cmd_ = "cmd") then Some (cmd args attributes)
  else if decide (cmd_ = "copy") then Some (dispatchCopy args)
  else if decide (cmd_ = "entrypoint") then Some (entrypoint args attributes)
  else if decide (cmd_ = "env") then Some (env args)
  else if decide (cmd_ = "expose") then Some (expose args)
  else if decide (cmd_ = "from") then Some (from go args)
  else if decide (cmd_ = "healthcheck") then Some (healthcheck args attributes)
  else if decide (cmd_ = "label") then Some (label args)
  else if decide (cmd_ = "maintainer") then Some (maintainer args)
  else if decide (cmd_ = "onbuild") then Some (onbuild args original)
  else if decide (cmd_ = "run") then Some (run args attributes)
  else if decide (cmd_ = "shell") then Some (shell args attributes)
  else if decide (cmd_ = "stopsignal") then Some (stopSignal args)
  else if decide (cmd_ = "user") then Some (user args)
  else if decide (cmd_ = "volume") then Some (volume args)
  else if decide (cmd_ = "workdir") then Some (workdir args)
  else None.

(** [dispatch]; the depth bounds the triggers of triggers. *)
Fixpoint dispatch (depth : nat) (ast : Node) : BR unit :=
  match depth with
  | O => out_of_fuel
  | S depth =>
      let cmd := Value ast in
      node ←? (if decide (cmd = "onbuild") then triggerOf ast else mret (Ok ast));
      strList ← (if decide (cmd = "onbuild") then appendB nil_slice [Value node] else mret nil_slice);
      envs ← config Env;
      vars ← read allowedVars;
      envs ← appendEachB envs (envVar <$> vars);
      strList ←? expandAll cmd (chainValues node) envs strList;
      match evaluate (dispatch depth) cmd strList (Attributes ast) (Original ast) with
      | Some f => _ ← modify (set_bflags (mkBFlags (Flags ast) ∅ ∅ None)); f
      | None => fail ("Unknown instruction: " +:+ strings.ToUpper cmd)
      end
  end.

(** Triggers cannot be triggers of others, so two levels are enough. *)
Definition dispatchB (ast : Node) : BR unit := dispatch 2 ast.

(** ** builder.go *)

(** [sanitizeRepoAndTags]: the references to tag the image with, each once. *)
Fixpoint sanitize (seen : gset string) (names : list string) : result string (list Named) :=
  match names with
  | [] => Ok []
  | repo :: names =>
      if decide (repo = "") then sanitize seen names
      else
        match ParseNamed repo with
        | Err e => Err e
        | Ok ref =>
            let ref := WithDefaultTag ref in
            if IsCanonical ref then Err "build tag cannot contain a digest"
            else
              match (if IsTagged ref then Ok ref else WithTag ref DefaultTag) with
              | Err e => Err e
              | Ok ref =>
                  if decide (ref_String ref ∈ seen) then sanitize seen names
                  else match sanitize ({[ ref_String ref ]} ∪ seen) names with
                       | Err e => Err e
                       | Ok l => Ok (ref :: l)
                       end
              end
        end
  end.
Definition sanitizeRepoAndTags (names : list string) : result string (list Named) := sanitize ∅ names.

(** The line that stands for the labels of the options. *)
Definition labelLine (labels : gmap string string) : string :=
  "LABEL " +:+ String.concat "" ((λ kv, Quote kv.1 +:+ "=" +:+ Quote kv.2 +:+ " ") <$> map_to_list labels).
Definition parseLabels : BR (list (option Node)) :=
  o ← read options;
  if decide (optLabels o = ∅) then mret (Ok [])
  else
    λ b, match DockerfileParser.parseLine (labelLine (optLabels o)) (directive b) with
         | Ret (Ok (_, n)) d => Ret (Ok [n]) (set_directive d b)
         | Ret (Err e) d => Ret (Err e) (set_directive d b)
         | Panic m => Panic m
         | OutOfFuel => OutOfFuel
         end.

(** The steps of a build. *)
Fixpoint steps (kids : list (option Node)) : BR unit :=
  match kids with
  | [] => ok
  | k :: kids =>
      b ← read id;
      if cancelled (docker b) then fail "Build cancelled"
      else
        r ← match k with None => panic nilDeref | Some n => dispatchB n end;
        match r with
        | Err e => _ ← (if ForceRemove (options b) then clearTmp else mret ()); fail e
        | Ok _ => _ ← (if Remove (options b) then clearTmp else mret ()); steps kids
        end
  end.

Fixpoint tagAll (imageID : string) (l : list Named) : BR unit :=
  match l with
  | [] => ok
  | rt :: l => _ ←? check (backend (TagImageWithReference imageID rt)); tagAll imageID l
  end.

(** [build], on the text of the Dockerfile. *)
Definition build (text : string) : BR string :=
  dockerfile ←? parseText text;
  o ← read options;
  repoAndTags ←? result_of (sanitizeRepoAndTags (Tags o));
  labels ←? parseLabels;
  _ ←? steps (Children dockerfile ++ labels)%list;
  b ← read id;
  let leftover := filter (λ kv, isBuildArgAllowed b kv.1 = false) (map_to_list (BuildArgs (options b))) in
  if decide (leftover ≠ []) then
    fail ("One or more build-args " +:+ verb_v (fst <$> leftover) +:+ " were not consumed, failing build.")
  else if decide (image b = "") then fail "No image was generated. Is your Dockerfile empty?"
  else _ ←? tagAll (image b) repoAndTags; mret (Ok (image b)).

(** A new builder: the default escape token, nothing configured. *)
Definition newDirective : Directive := mkDirective "\"%char true false.
Definition NewBuilder (o : Options) (d : B) : Builder B :=
  mkBuilder initialHeap emptyConfig NewBFlags ∅ "" false "" false false false ∅ newDirective o d.

(** [BuildFromConfig]: the changes of [docker commit], on a configuration. *)
Definition validCommitCommands : list string :=
  ["cmd"; "entrypoint"; "healthcheck"; "env"; "expose"; "label"; "onbuild"; "user"; "volume"; "workdir"].
Fixpoint checkCommands (kids : list (option Node)) : BR unit :=
  match kids with
  | [] => ok
  | None :: _ => panic nilDeref
  | Some n :: kids =>
      if decide (Value n ∈ validCommitCommands) then checkCommands kids
      else fail (Value n +:+ " is not a valid change command")
  end.
Fixpoint dispatchAll (kids : list (option Node)) : BR unit :=
  match kids with
  | [] => ok
  | None :: _ => panic nilDeref
  | Some n :: kids => _ ←? dispatchB n; dispatchAll kids
  end.
Definition BuildFromConfig (c : Config (list string)) (changes : list string) : BR (Config (list string)) :=
  ast ←? parseText (String.concat (String (char_of_Z 10) "") changes);
  _ ←? checkCommands (Children ast);
  _ ← loadConfig c;
  _ ← modify (set_disableCommit true);
  _ ←? dispatchAll (Children ast);
  b ← read id;
  mret (Ok (values (heap_ b) (runConfig b))).
End builder.
