(* ===== verification/BuilderProofs.v ===== *)
(** Theorems about the Dockerfile builder: builds end, the changes of
    [docker commit] never reach the engine, the shell form of instructions, the
    scope of [ENV], and a trigger that is a comment. *)

From Stdlib Require Import Ascii.
From S2P Require Import Prelude GoStrings Runes GoPath GoSlices Json Reference.
From S2P Require ShellParser.
From S2P Require Import DockerfileParser BFlags Builder.

Local Open Scope string_scope.

(** ** Handlers *)

Section handlers.
  Context `{Unicode, Runtime} {B : Type} `{Backend B, Externs B}.
  Variable I : Builder B → Prop.

  (** The invariant does not depend on what the handlers of the configuration
      write. *)
Record stable : Prop := mkStable {
  st_heap v b : I b → I (set_heap_ v b);
  st_config v b : I b → I (set_runConfig v b);
  st_flags v b : I b → I (set_bflags v b);
  st_directive v b : I b → I (set_directive v b);
  st_cmdSet v b : I b → I (set_cmdSet v b) }.

  Hypothesis Hst : stable.
  Hypothesis Hcommit : ∀ cID c s, preserves I (commit cID c s).

Lemma keeps_updConfig f : preserves I (updConfig f).
Proof using Hst. apply preserves_modify. intros b. apply st_config, Hst. Qed.
Lemma keeps_appendB s xs : preserves I (appendB s xs).
Proof using Hst. intros b Hb. unfold appendB. destruct (go_append _ _ _). by apply st_heap. Qed.
Lemma keeps_appendEachB s xs : preserves I (appendEachB s xs).
Proof using Hst. intros b Hb. unfold appendEachB. destruct (append_each _ _ _). by apply st_heap. Qed.
Lemma keeps_literalB xs : preserves I (literalB xs).
Proof using Hst. intros b Hb. unfold literalB. destruct (go_literal _ _). by apply st_heap. Qed.
Lemma keeps_parseFlags : preserves I parseFlags.
Proof using Hst. intros b Hb. unfold parseFlags. destruct (BFlags.Parse _). by apply st_flags. Qed.
Lemma keeps_parseText t : preserves I (parseText t).
Proof using Hst.
  intros b Hb. unfold parseText. destruct (Parse_total t (directive b)) as (r & d & -> & _). by apply st_directive.
Qed.
Lemma keeps_list_of s : preserves I (list_of s).
Proof. apply preserves_read. Qed.
Lemma keeps_config {A} (f : Config slice → A) : preserves I (config f).
Proof. apply preserves_read. Qed.
Lemma keeps_fail {A} e : preserves I (fail (A := A) e).
Proof. apply preserves_ret. Qed.
Lemma keeps_ok : preserves I ok.
Proof. apply preserves_ret. Qed.
Lemma keeps_result_of {A} (r : result string A) : preserves I (result_of r).
Proof. apply preserves_ret. Qed.
  #[local] Hint Resolve keeps_updConfig keeps_appendB keeps_appendEachB keeps_literalB keeps_parseFlags keeps_parseText
    keeps_list_of keeps_config keeps_fail keeps_ok keeps_result_of Hcommit : preserves.

Lemma keeps_getShell : preserves I getShell.
Proof. unfold getShell. preserve. Qed.
Lemma keeps_handleJSONArgs args a : preserves I (handleJSONArgs args a).
Proof using Hst. unfold handleJSONArgs. preserve. Qed.
  #[local] Hint Resolve keeps_getShell keeps_handleJSONArgs : preserves.
Lemma keeps_shellForm args a : preserves I (shellForm args a).
Proof using Hst. unfold shellForm. preserve. Qed.
Lemma keeps_commitNop s : preserves I (commitNop s).
Proof using Hcommit. unfold commitNop. preserve. Qed.
  #[local] Hint Resolve keeps_shellForm keeps_commitNop : preserves.

Lemma keeps_setEnvVars l : preserves I (setEnvVars l).
Proof using Hst.
  remember (length l) as n eqn:En. assert (length l ≤ n)%nat as Hn by lia. clear En. revert l Hn.
  induction n as [|n IH]; intros [|a [|v l]] Hn; simpl in *; try (apply preserves_ret || lia).
  preserve_step; [|apply IH; lia]. unfold setEnvVar. preserve. apply preserves_modify. intros b. apply st_heap, Hst.
Qed.
Lemma keeps_env args : preserves I (env args).
Proof using Hst Hcommit. unfold env. pose proof keeps_setEnvVars. preserve. Qed.
Lemma keeps_label args : preserves I (label args).
Proof using Hst Hcommit. unfold label. preserve. Qed.
Lemma keeps_onbuild args o : preserves I (onbuild args o).
Proof using Hst Hcommit. unfold onbuild. preserve. Qed.
Lemma keeps_workdir args : preserves I (workdir args).
Proof using Hst Hcommit. unfold workdir. preserve. Qed.
Lemma keeps_cmd args a : preserves I (cmd args a).
Proof using Hst Hcommit. unfold cmd. preserve. apply preserves_modify. intros b. apply st_cmdSet, Hst. Qed.
Lemma keeps_healthcheck args a : preserves I (healthcheck args a).
Proof using Hst Hcommit. unfold healthcheck. preserve. apply preserves_modify. intros b. apply st_flags, Hst. Qed.
Lemma keeps_entrypoint args a : preserves I (entrypoint args a).
Proof using Hst Hcommit. unfold entrypoint. preserve. Qed.
Lemma keeps_expose args : preserves I (expose args).
Proof using Hst Hcommit. unfold expose. preserve. Qed.
Lemma keeps_user args : preserves I (user args).
Proof using Hst Hcommit. unfold user. preserve. Qed.
Lemma keeps_addVolumes l : preserves I (addVolumes l).
Proof using Hst. induction l as [|v l IH]; simpl; preserve. Qed.
Lemma keeps_volume args : preserves I (volume args).
Proof using Hst Hcommit. unfold volume. pose proof keeps_addVolumes. preserve. Qed.
Lemma keeps_shell args a : preserves I (shell args a).
Proof using Hst Hcommit. unfold shell. preserve. Qed.
Lemma keeps_stopSignal args : preserves I (stopSignal args).
Proof using Hst Hcommit. unfold stopSignal. preserve. Qed.

Lemma keeps_expand c s envs : preserves I (expand c s envs).
Proof.
  destruct (ShellParser.ProcessWord_returns s envs) as [[r E1] [r' E2]]. unfold expand. rewrite E1, E2. preserve.
Qed.
Lemma keeps_expandAll c strs envs l : preserves I (expandAll c strs envs l).
Proof using Hst. pose proof keeps_expand. revert l. induction strs as [|s strs IH]; intros l; simpl; preserve. Qed.
Lemma keeps_triggerOf ast : preserves I (triggerOf ast).
Proof. unfold triggerOf. preserve. Qed.

(** Dispatching preserves the invariant if the handler of the instruction does. *)
Lemma keeps_dispatch depth ast :
  (∀ args f, evaluate (dispatch depth) (Value ast) args (Attributes ast) (Original ast) = Some f → preserves I f) →
  preserves I (dispatch (S depth) ast).
Proof using Hst.
  intros Hf. simpl. pose proof keeps_triggerOf. pose proof keeps_expandAll.
  preserve_step; [preserve|]. preserve_step; [preserve|]. preserve_step; [preserve|]. preserve_step; [preserve|]. preserve_step; [preserve|]. preserve_step; [preserve|].
  destruct (evaluate _ _ _ _ _) as [f|] eqn:E; [|preserve].
  preserve_step; [apply preserves_modify; intros b; apply st_flags, Hst|]. by eapply Hf.
Qed.
End handlers.

(** ** Builds end *)

Section ends.
  Context `{Unicode, Runtime} {B : Type} `{Backend B, Externs B}.

Let T : Builder B → Prop := λ _, True.

Lemma stable_T : stable T.
Proof. by constructor. Qed.

Lemma ends_modify f : preserves T (modify f).
Proof. by apply preserves_modify. Qed.
Lemma ends_backend {A} (f : B → A * B) : preserves T (backend f).
Proof. intros b _. unfold backend. by destruct (f (docker b)). Qed.
  #[local] Hint Resolve stable_T ends_modify ends_backend keeps_updConfig keeps_appendB keeps_appendEachB keeps_literalB
    keeps_parseFlags keeps_parseText keeps_list_of keeps_config keeps_fail keeps_ok keeps_result_of keeps_getShell
    keeps_handleJSONArgs keeps_shellForm : preserves.

Lemma ends_check m : preserves T m → preserves T (check m).
Proof. intros Hm. unfold check. preserve. Qed.
Lemma ends_probeCache : preserves T probeCache.
Proof. unfold probeCache. preserve. Qed.
Lemma ends_adoptList s l : preserves T (adoptList s l).
Proof. unfold adoptList. preserve. Qed.
Lemma ends_adopt c : preserves T (adopt c).
Proof. unfold adopt. pose proof ends_adoptList. preserve. Qed.
Lemma ends_ContainerCreateB : preserves T ContainerCreateB.
Proof. unfold ContainerCreateB. pose proof ends_adopt. preserve. Qed.
  #[local] Hint Resolve ends_check ends_probeCache ends_ContainerCreateB : preserves.
Lemma ends_create : preserves T create.
Proof. unfold create, addTmp. preserve. Qed.
Lemma ends_commitContainer i c : preserves T (commitContainer i c).
Proof. unfold commitContainer, adoptMaps. preserve. Qed.
  #[local] Hint Resolve ends_create ends_commitContainer : preserves.
Lemma ends_commit i c s : preserves T (commit i c s).
Proof. unfold commit, restoringCmd. preserve. Qed.
  #[local] Hint Resolve ends_commit : preserves.
Lemma ends_commitNop s : preserves T (commitNop s).
Proof. apply keeps_commitNop, ends_commit. Qed.
  #[local] Hint Resolve ends_commitNop : preserves.
Lemma ends_copyInfos c r d l : preserves T (copyInfos c r d l).
Proof. induction l as [|o l IH]; simpl; preserve. Qed.
Lemma ends_copyAll c d l : preserves T (copyAll c d l).
Proof. induction l as [|o l IH]; simpl; preserve. Qed.
  #[local] Hint Resolve ends_copyInfos ends_copyAll : preserves.
Lemma ends_runContextCommand args r d c : preserves T (runContextCommand args r d c).
Proof. unfold runContextCommand, restoringCmd, addTmp. preserve. Qed.
Lemma ends_runContainer c : preserves T (runContainer c).
Proof. unfold runContainer. preserve. Qed.
  #[local] Hint Resolve ends_runContextCommand ends_runContainer : preserves.
Lemma ends_run args a : preserves T (run args a).
Proof. unfold run. preserve. Qed.
Lemma ends_arg args : preserves T (arg args).
Proof. unfold arg. preserve. Qed.
Lemma ends_maintainer args : preserves T (maintainer args).
Proof. unfold maintainer. preserve. Qed.
Lemma ends_clearTmp : preserves T clearTmp.
Proof.
  assert (∀ l, preserves T (clearList l)) as Hl by (induction l as [|c l IH]; simpl; unfold removeContainer; preserve).
  unfold clearTmp. preserve.
Qed.
Lemma ends_loadConfig c : preserves T (loadConfig c).
Proof. unfold loadConfig. preserve. Qed.

(** The triggers of an image are never [FROM]. *)
Lemma ends_triggers go kids : (∀ n, Value n ≠ "from" → preserves T (go n)) → preserves T (triggers go kids).
Proof.
  intros Hgo. induction kids as [|[n|] kids IH]; simpl; [preserve|..|preserve].
  destruct (badTrigger _ _) as [e|] eqn:E; [preserve|]. preserve_step; [|done]. apply Hgo. intros E'. by rewrite E' in E.
Qed.
Lemma ends_processImageFrom go img : (∀ n, Value n ≠ "from" → preserves T (go n)) → preserves T (processImageFrom go img).
Proof.
  intros Hgo. assert (∀ l, preserves T (runTriggers go l)).
  { induction l as [|s l IH]; simpl; pose proof ends_triggers; preserve. }
  unfold processImageFrom. pose proof ends_loadConfig. preserve.
Qed.
Lemma ends_from go args : (∀ n, Value n ≠ "from" → preserves T (go n)) → preserves T (from go args).
Proof. intros Hgo. unfold from. pose proof ends_processImageFrom. preserve. Qed.

Lemma ends_evaluate go c args a o f : (c = "from" → ∀ n, Value n ≠ "from" → preserves T (go n)) →
  evaluate go c args a o = Some f → preserves T f.
Proof.
  intros Hgo E. unfold evaluate in E.
  repeat (case_decide; [injection E as <-; subst; eauto using keeps_env, keeps_label, keeps_onbuild, keeps_workdir, keeps_cmd,
    keeps_healthcheck, keeps_entrypoint, keeps_expose, keeps_user, keeps_volume, keeps_shell, keeps_stopSignal, stable_T,
    ends_commit, ends_run, ends_arg, ends_maintainer, ends_from|]); [| |done].
  - unfold add. preserve.
  - unfold dispatchCopy. preserve.
Qed.

Lemma ends_dispatch ast : preserves T (dispatchB ast).
Proof.
  apply keeps_dispatch; [apply stable_T|]. intros args f. apply ends_evaluate. intros _ n Hn.
  apply keeps_dispatch; [apply stable_T|]. intros args' f'. apply ends_evaluate. done.
Qed.
  #[local] Hint Resolve ends_dispatch ends_clearTmp : preserves.

Lemma ends_steps kids : preserves T (steps kids).
Proof. induction kids as [|[n|] kids IH]; simpl; preserve. Qed.
Lemma ends_tagAll i l : preserves T (tagAll i l).
Proof. induction l as [|t l IH]; simpl; preserve. Qed.
Lemma ends_parseLabels : preserves T parseLabels.
Proof.
  unfold parseLabels. preserve_step; [preserve|]. case_decide; [preserve|]. intros b _.
  destruct (wp_inv _ _ _ (parseLine_total (labelLine (optLabels a)) (directive b))) as (r & d & -> & _).
  by destruct r as [[? ?]|?].
Qed.
  #[local] Hint Resolve ends_steps ends_tagAll ends_parseLabels : preserves.
Lemma ends_build text : preserves T (build text).
Proof. unfold build. preserve. Qed.
End ends.

(** The two levels of [dispatch] are enough for every Dockerfile, since a trigger
    of a base image cannot be [FROM]: with an engine whose calls all return, as
    those of the class [Backend] do, a build returns an image or an error or
    panics. *)
Theorem build_ends `{Unicode, Runtime} {B} `{Backend B, Externs B} text (b : Builder B) :
  build text b ≠ OutOfFuel.
Proof. pose proof (ends_build text b I) as Hb. by destruct (build text b). Qed.

(** ** The changes of docker commit *)

Section changes.
  Context `{Unicode, Runtime} {B : Type} `{Backend B, Externs B}.
  Variables (d : B) (i : string) (t : gset string).

  (** The engine, the image and the containers are as they were. *)
Let untouched (b : Builder B) : Prop := docker b = d ∧ image b = i ∧ tmpContainers b = t.
Let quiet (b : Builder B) : Prop := disableCommit b = true ∧ untouched b.

Lemma stable_untouched : stable untouched.
Proof. by constructor. Qed.
Lemma stable_quiet : stable quiet.
Proof. by constructor. Qed.

Lemma quiet_commit c a s : preserves quiet (commit c a s).
Proof. intros b Hb. unfold commit, mbind, M_bind, read, id. destruct Hb as [E Hb]. by rewrite E. Qed.

Lemma quiet_dispatch n : Value n ∈ validCommitCommands → preserves quiet (dispatchB n).
Proof.
  intros Hv. assert (bool_decide (Value n ∈ validCommitCommands) = true) as Hn by (by apply bool_decide_eq_true_2).
  clear Hv. pose proof stable_quiet. pose proof quiet_commit.
  apply keeps_dispatch; [done|]. intros args f E.
  unfold evaluate in E.
  repeat (let Hc := fresh in case_decide as Hc; [injection E as <-; first
    [by apply keeps_env | by apply keeps_label | by apply keeps_onbuild | by apply keeps_workdir | by apply keeps_cmd
    |by apply keeps_healthcheck | by apply keeps_entrypoint | by apply keeps_expose | by apply keeps_user
    |by apply keeps_volume | by apply keeps_shell | by apply keeps_stopSignal
    |rewrite Hc in Hn; vm_compute in Hn; discriminate Hn]|]). done.
Qed.

Lemma quiet_dispatchAll kids :
  (∀ n, Some n ∈ kids → Value n ∈ validCommitCommands) → preserves quiet (dispatchAll kids).
Proof.
  induction kids as [|[n|] kids IH]; intros Hk; simpl; [apply preserves_ret| |preserve].
  preserve_step; [apply quiet_dispatch, Hk, list_elem_of_here|]. apply IH. intros m Hm. by apply Hk, list_elem_of_further.
Qed.

Lemma checkCommands_spec kids (b : Builder B) :
  match checkCommands kids b with
  | Ret r b' => b' = b ∧ (r = Ok () → ∀ n, Some n ∈ kids → Value n ∈ validCommitCommands)
  | Panic _ => True
  | OutOfFuel => False
  end.
Proof.
  induction kids as [|[n|] kids IH]; simpl; [split; [done|]; by intros _ n ?%elem_of_nil| |done].
  case_decide as Hn; [|done]. destruct (checkCommands kids b) as [r b'| |]; [|done|done].
  destruct IH as [-> Hk]. split; [done|]. intros Hr m [[= ->]|Hm]%elem_of_cons; [done|]. by apply Hk.
Qed.

Lemma changes_quiet c kids : (∀ n, Some n ∈ kids → Value n ∈ validCommitCommands) →
  preserves untouched (_ ← loadConfig c; _ ← modify (set_disableCommit true); _ ←? dispatchAll kids;
                   b ← read id; mret (Ok (values (heap_ b) (runConfig b)))).
Proof.
  intros Hk. preserve_step.
  { pose proof (keeps_literalB _ stable_untouched). pose proof (keeps_updConfig _ stable_untouched). unfold loadConfig. preserve. }
  intros b Hb. unfold mbind at 1, M_bind at 1, modify.
  assert (preserves quiet (_ ←? dispatchAll kids; b ← read id; mret (Ok (values (heap_ b) (runConfig b))))) as Hq.
  { pose proof (quiet_dispatchAll kids Hk). preserve. }
  specialize (Hq (set_disableCommit true b) (conj eq_refl Hb)). by destruct (try_bind _ _ _) as [? ? | |]; [destruct Hq|..].
Qed.
End changes.

(** The changes of [docker commit] stay in the configuration.  The builder
    behind [BuildFromConfig] has no engine and must not use one; whatever the
    changes, it ends, and neither the engine nor the image nor the list of
    intermediate containers has been touched. *)
Theorem changes_untouched `{Unicode, Runtime} {B} `{Backend B, Externs B} c changes (b : Builder B) :
  match BuildFromConfig c changes b with
  | Ret _ b' => docker b' = docker b ∧ image b' = image b ∧ tmpContainers b' = tmpContainers b
  | Panic _ => True
  | OutOfFuel => False
  end.
Proof.
  set (I0 := λ b' : Builder B, docker b' = docker b ∧ image b' = image b ∧ tmpContainers b' = tmpContainers b).
  change (match BuildFromConfig c changes b with Ret _ b' => I0 b' | Panic _ => True | OutOfFuel => False end).
  assert (preserves I0 (BuildFromConfig c changes)) as Hk; [|by apply Hk].
  unfold BuildFromConfig. pose proof (stable_untouched (docker b) (image b) (tmpContainers b)) as Hst.
  preserve_step; [by apply keeps_parseText|]. rename a into ast. intros b1 Hb1. unfold try_bind, mbind at 1, M_bind at 1.
  pose proof (checkCommands_spec (Children ast) b1) as Hc.
  destruct (checkCommands (Children ast) b1) as [[[]|e] b2| |]; [|by destruct Hc as [-> _]|done|done].
  destruct Hc as [-> Hc]. by apply changes_quiet; [apply Hc|].
Qed.

(** ** The shell form *)

Section shellForm.
  Context `{Unicode, Runtime}.

  (** What [shellForm] does to the heap for a command [x] behind the shell [sh]. *)
Definition shellAppend (sh : slice) (x : string) (h : heap) : slice * heap :=
  go_append sh [x] (go_literal [x] h).2.

Definition shellOf {B} (b : Builder B) : slice :=
  if decide (s_len (Shell (runConfig b)) = 0%nat) then defaultShell else Shell (runConfig b).

Lemma shellForm_run {B} `{Backend B, Externs B} args a (b : Builder B) :
  isJSON a = false → s_len args ≠ 0%nat →
  let '(c, h) := shellAppend (shellOf b) (spaced (contents (heap_ b) args)) (heap_ b) in
  shellForm args a b = Ret c (set_heap_ h b).
Proof.
  intros Ha Hl. unfold shellForm, handleJSONArgs, shellAppend.
  rewrite decide_False by done. unfold isJSON in *. apply bool_decide_eq_false in Ha. rewrite decide_False by done.
  rewrite bool_decide_eq_false_2 by done. destruct (go_append _ _ _) as [c h] eqn:E.
  unfold mbind, M_bind, list_of, literalB, read, go_literal, getShell, config, mret, M_ret, appendB, mbind, M_bind, read, id. simpl.
  unfold shellOf in E. unfold go_literal in E. simpl in E.
  assert (contents (heap_ b ++ [[spaced (contents (heap_ b) args)]]) (mkSlice (Some (length (heap_ b))) 1) =
    [spaced (contents (heap_ b) args)]) as ->.
  { unfold contents at 1, cells. simpl. by rewrite lookup_app_r, Nat.sub_diag by lia. }
  rewrite E. done.
Qed.

Lemma shellAppend_spec sh x h : valid h sh → let '(c, h') := shellAppend sh x h in
  contents h' c = (contents h sh ++ [x])%list ∧ valid h' c ∧ valid h' sh ∧ contents h' sh = contents h sh ∧
  cap h' sh = cap h sh ∧
  (s_len sh < cap h sh → c = mkSlice (s_arr sh) (S (s_len sh)))%nat ∧
  (∀ t, valid h t → (cap h sh ≤ s_len sh)%nat → contents h' t = contents h t).
Proof.
  intros Hv. unfold shellAppend. set (h1 := (go_literal [x] h).2).
  assert (∀ t, valid h t → contents h1 t = contents h t ∧ valid h1 t) as Hf by (by destruct (go_literal_spec [x] h) as (_ & _ & _ & ?)).
  assert (cap h1 sh = cap h sh) as Hcap by (unfold cap, h1; simpl; by rewrite cells_app).
  clearbody h1. destruct (Hf sh Hv) as [Hc Hv1].
  pose proof (go_append_contents sh [x] h1 Hv1) as Ha.
  pose proof (go_append_frame sh [x] h1 sh Hv1 Hv1 ltac:(right; left; lia)) as Hs.
  pose proof (go_append_room sh [x] h1 Hv1) as Hr. pose proof (go_append_no_room sh [x] h1 Hv1) as Hn.
  pose proof (λ t Ht, go_append_frame sh [x] h1 t Hv1 Ht) as Ht.
  destruct (go_append sh [x] h1) as [c h2]. cbn [fst snd length] in *.
  rewrite Hcap in Hr, Hn, Ht. rewrite Hc in Ha, Hs.
  destruct Ha as (? & ? & _), Hs as [? ?]. split_and!; try done.
  - destruct (decide (s_len sh + 1 ≤ cap h sh)%nat) as [Hle|Hle]; [by apply Hr|apply Hn; lia].
  - intros Hroom. destruct (Hr ltac:(lia) ltac:(done)) as [-> _]. f_equal. lia.
  - intros t Hvt Hfull. destruct (Hf t Hvt) as [<- Hvt1]. apply Ht; [done|]. right; right. lia.
Qed.
End shellForm.

(** The shell form of [CMD], [RUN] and the like.  The result is the shell and
    the command, but it lives in the array of the shell when that array has room
    for one more string: then the next instruction in shell form overwrites it, and
    an earlier [CMD] has become the command of a later [RUN].  When the array is
    full, as the default shell's is, earlier results stay as they were. *)
Theorem shell_form_shares `{Unicode, Runtime} {B} `{Backend B, Externs B} (b : Builder B) args a args' a' c1 b1 c2 b2 :
  isJSON a = false → s_len args ≠ 0%nat → isJSON a' = false → s_len args' ≠ 0%nat →
  valid (heap_ b) (shellOf b) →
  shellForm args a b = Ret c1 b1 → shellForm args' a' b1 = Ret c2 b2 →
  let sh := contents (heap_ b) (shellOf b) in
  let x := spaced (contents (heap_ b) args) in
  let y := spaced (contents (heap_ b1) args') in
  contents (heap_ b1) c1 = (sh ++ [x])%list ∧
  contents (heap_ b2) c2 = (sh ++ [y])%list ∧
  contents (heap_ b2) c1 =
    (sh ++ [if decide (s_len (shellOf b) < cap (heap_ b) (shellOf b))%nat then y else x])%list.
Proof.
  intros Ha Hl Ha' Hl' Hv E1 E2 sh x y.
  pose proof (shellForm_run args a b Ha Hl) as R1. fold x in R1.
  pose proof (shellAppend_spec (shellOf b) x (heap_ b) Hv) as S1.
  destruct (shellAppend (shellOf b) x (heap_ b)) as [d1 h1]. rewrite E1 in R1. injection R1 as -> ->.
  destruct S1 as (Hc1 & Hd1 & Hv1 & Hs1 & Hcap1 & Hroom1 & _).
  pose proof (shellForm_run args' a' (set_heap_ h1 b) Ha' Hl') as R2. fold y in R2.
  change (shellOf (set_heap_ h1 b)) with (shellOf b) in R2. simpl in R2.
  pose proof (shellAppend_spec (shellOf b) y h1 Hv1) as S2.
  destruct (shellAppend (shellOf b) y h1) as [d2 h2]. rewrite E2 in R2. injection R2 as -> ->.
  destruct S2 as (Hc2 & _ & _ & _ & _ & Hroom2 & Hfull2). simpl.
  rewrite Hs1 in Hc2. rewrite Hcap1 in Hroom2, Hfull2.
  split_and!; [done|done|]. case_decide as Hr.
  - rewrite Hroom1 by done. rewrite <-(Hroom2 Hr). done.
  - rewrite Hfull2 by (done || lia). done.
Qed.

(** ** The scope of ENV *)

(** A variable is found at its first definition. *)
Lemma getEnv_find l k : ShellParser.getEnv l k =
  match list_find (λ v, (kvOf v).1 = k) l with Some (_, v) => (kvOf v).2 | None => "" end.
Proof.
  induction l as [|e l IH]; [done|].
  assert (ShellParser.getEnv (e :: l) k = if decide ((kvOf e).1 = k) then (kvOf e).2 else ShellParser.getEnv l k) as ->.
  { simpl. destruct (cut "="%char e) as [[a v]|] eqn:E.
    - assert (kvOf e = (a, v)) as -> by (unfold kvOf; by rewrite E). simpl. repeat case_decide; congruence.
    - assert (kvOf e = (e, "")) as -> by (unfold kvOf; by rewrite E). simpl. repeat case_decide; congruence. }
  rewrite IH. simpl. case_decide; [done|]. by destruct (list_find _ l) as [[? ?]|].
Qed.

Definition plain_name (n : string) : Prop := string_forallb (λ c, negb (bool_decide (c = "="%char))) n = true.

Lemma kvOf_var n v : plain_name n → kvOf (n +:+ "=" +:+ v) = (n, v).
Proof. intros Hn. unfold kvOf. change ("=" +:+ v) with (String "="%char v). by rewrite (cut_app "="%char n v). Qed.

(** Replacing the first definition of a variable, or appending one. *)
Definition update_env (l : list string) (n v : string) : list string :=
  match list_find (λ v, (kvOf v).1 = n) l with
  | Some (i, _) => <[i := n +:+ "=" +:+ v]> l
  | None => (l ++ [n +:+ "=" +:+ v])%list
  end.

Lemma getEnv_update l n v k : plain_name n →
  ShellParser.getEnv (update_env l n v) k = if decide (k = n) then v else ShellParser.getEnv l k.
Proof.
  intros Hn. rewrite !getEnv_find. unfold update_env.
  induction l as [|e l IH]; simpl.
  { rewrite kvOf_var by done. simpl. destruct (decide (n = k)) as [->|Hk]; [by rewrite decide_True, kvOf_var|].
    by rewrite decide_False by congruence. }
  destruct (decide ((kvOf e).1 = n)) as [He|He]; simpl.
  - rewrite kvOf_var by done. simpl. destruct (decide (n = k)) as [->|Hk].
    + rewrite decide_True by done. by rewrite kvOf_var.
    + rewrite decide_False by congruence. by rewrite (decide_False (P := (kvOf e).1 = k)) by congruence.
  - destruct (list_find (λ v0, (kvOf v0).1 = n) l) as [[i e']|]; simpl in *.
    + destruct (decide ((kvOf e).1 = k)) as [Hk|Hk]; [by rewrite decide_False by congruence|].
      destruct (list_find _ (<[i:=_]> l)) as [[? ?]|], (list_find _ l) as [[? ?]|]; simpl in *; done.
    + destruct (decide ((kvOf e).1 = k)) as [Hk|Hk]; [by rewrite decide_False by congruence|].
      destruct (list_find _ (l ++ _)) as [[? ?]|], (list_find _ l) as [[? ?]|]; simpl in *; done.
Qed.

Section scope.
  Context `{Unicode, Runtime} {B : Type} `{Backend B, Externs B}.

(** The arguments of an instruction whose words are expanded one by one. *)
Lemma expandAll_run c strs vs envs strList (b : Builder B) n :
  replaceEnvAllowed c = true → allowWordExpansion c = false →
  Forall2 (λ str v, ShellParser.ProcessWord str (contents (heap_ b) envs) = Some (Ok v)) strs vs →
  valid (heap_ b) envs → older n envs → valid (heap_ b) strList → newer n strList → (n ≤ length (heap_ b))%nat →
  ∃ s h, expandAll c strs envs strList b = Ret (Ok s) (set_heap_ h b) ∧
    contents h s = (contents (heap_ b) strList ++ vs)%list ∧ valid h s ∧
    ∀ t, valid (heap_ b) t → older n t → contents h t = contents (heap_ b) t ∧ valid h t.
Proof.
  intros Hr Hw Hstrs. revert strList b Hstrs. revert vs. induction strs as [|str strs IH]; intros vs strList b Hstrs He Ho Hs Hn Hl.
  { apply Forall2_nil_inv_l in Hstrs as ->. exists strList, (heap_ b). rewrite app_nil_r. by destruct b. }
  apply Forall2_cons_inv_l in Hstrs as (v & vs' & Hv & Hvs & ->).
  cbn [expandAll]. unfold try_bind, mbind, M_bind, list_of, read. cbv beta. unfold expand. rewrite Hr, Hw, Hv.
  unfold mret, M_ret. cbv beta iota. unfold appendEachB. simpl.
  pose proof (go_append_contents strList [v] (heap_ b) Hs) as Hc.
  pose proof (go_append_newer n strList [v] (heap_ b) Hs Hn Hl) as Hw'.
  destruct (go_append strList [v] (heap_ b)) as [s1 h1]. destruct Hc as (Hc & Hv1 & _), Hw' as (Hn1 & Hl1 & Hf1).
  destruct (Hf1 envs He Ho) as [Hce He1].
  destruct (IH vs' s1 (set_heap_ h1 b)) as (s & h & E & Hcs & Hvs' & Hf); simpl; try done.
  { by rewrite Hce. }
  exists s, h. split_and!; [exact E|by rewrite Hcs; simpl; rewrite Hc, <-(assoc_L (++))|done|].
  intros t Ht Hot. destruct (Hf1 t Ht Hot) as [<- Ht1]. by apply Hf.
Qed.

(** One variable. *)
Definition envOf (b : Builder B) : list string := contents (heap_ b) (Env (runConfig b)).

Lemma contents_store h s i x : valid h s → (i < s_len s)%nat →
  contents (go_store s i x h) s = <[i := x]> (contents h s) ∧ valid (go_store s i x h) s.
Proof.
  intros [Hl Ha] Hi. unfold go_store. destruct (s_arr s) as [a|] eqn:E.
  2:{ unfold cap, cells in Hl. rewrite E in Hl. simpl in Hl. lia. }
  assert (cells (alter (λ c, <[i:=x]> c) a h) s = <[i:=x]> (cells h s)) as Ec.
  { unfold cells. rewrite E. simpl. rewrite list_lookup_alter_eq. specialize (Ha a eq_refl).
    destruct (lookup_lt_is_Some_2 h a Ha) as [c ->]. done. }
  unfold contents, valid, cap. rewrite Ec, length_insert. split_and!; [by rewrite take_insert_lt|done|].
  intros a' E'. rewrite length_alter. apply Ha; congruence.
Qed.

(** The shell is in an array that the environment does not use. *)
Definition apart (b : Builder B) : Prop :=
  valid (heap_ b) (shellOf b) ∧ s_arr (shellOf b) ≠ s_arr (Env (runConfig b)).

Lemma setEnvVar_run n v (b : Builder B) : valid (heap_ b) (Env (runConfig b)) → ∃ b',
  setEnvVar n v b = Ret () b' ∧ disableCommit b' = disableCommit b ∧ valid (heap_ b') (Env (runConfig b')) ∧
  envOf b' = update_env (envOf b) n v ∧ (apart b → apart b').
Proof.
  intros Hv. unfold setEnvVar, mbind, M_bind, config, list_of, read. fold (envOf b). unfold update_env.
  destruct (list_find _ (envOf b)) as [[i e]|] eqn:E.
  - eexists. split; [reflexivity|]. apply list_find_Some in E as [Hi _].
    assert (i < s_len (Env (runConfig b)))%nat as Hlt.
    { rewrite <-(length_contents _ _ Hv). by apply lookup_lt_is_Some_1. }
    destruct (contents_store (heap_ b) (Env (runConfig b)) i (n +:+ "=" +:+ v) Hv Hlt) as [Hc Hv']. split_and!; try done.
    intros [Hs Ha]. split; [|done]. by apply go_store_valid.
  - unfold appendB. pose proof (go_append_contents (Env (runConfig b)) [n +:+ "=" +:+ v] (heap_ b) Hv) as Hc.
    pose proof (go_append_valid (Env (runConfig b)) [n +:+ "=" +:+ v] (heap_ b) (shellOf b) Hv) as Hsv.
    pose proof (go_append_arr (Env (runConfig b)) [n +:+ "=" +:+ v] (heap_ b)) as Har.
    destruct (go_append _ _ _) as [s h]. destruct Hc as (Hc & Hv' & _). eexists. split_and!; try done.
    intros [Hs Ha]. split; [by apply Hsv|]. simpl in *. destruct Har as [-> | ->]; [done|].
    intros E'. pose proof (proj2 Hs _ E'). lia.
Qed.

(** Names and values, as the arguments of [ENV]. *)
Fixpoint flat {A} (nvs : list (A * A)) : list A :=
  match nvs with [] => [] | (n, v) :: nvs => n :: v :: flat nvs end.

Lemma setEnvVars_run nvs (b : Builder B) : valid (heap_ b) (Env (runConfig b)) → ∃ b',
  setEnvVars (flat nvs) b = Ret () b' ∧ disableCommit b' = disableCommit b ∧
  valid (heap_ b') (Env (runConfig b')) ∧ envOf b' = foldl (λ l nv, update_env l nv.1 nv.2) (envOf b) nvs ∧
  (apart b → apart b').
Proof.
  revert b. induction nvs as [|[n v] nvs IH]; intros b Hv; simpl; [by eexists|].
  destruct (setEnvVar_run n v b Hv) as (b1 & E1 & Hd1 & Hv1 & He1 & Ha1).
  destruct (IH b1 Hv1) as (b2 & E2 & Hd2 & Hv2 & He2 & Ha2).
  exists b2. unfold mbind, M_bind. rewrite E1, E2. split_and!; [done|congruence|done|by rewrite He2, He1|auto].
Qed.

(** *** The commit of an instruction *)

(** The environment of the builder is [l], in an array. *)
Definition env_is (l : list string) (b : Builder B) : Prop := valid (heap_ b) (Env (runConfig b)) ∧ envOf b = l.

(** The engine does not change the environment of a configuration that it
    creates a container from. *)
Definition create_keeps_env : Prop := ∀ c d r c' d', ContainerCreate c d = (r, c', d') → Env c' = Env c.

Lemma adoptList_env s l (b : Builder B) :
  wp (adoptList s l) (λ s' b', (contents (heap_ b) s = l → s' = s) ∧ ∃ h, b' = set_heap_ h b ∧
    ∀ t, valid (heap_ b) t → contents h t = contents (heap_ b) t ∧ valid h t) b.
Proof.
  unfold adoptList, list_of. wp_steps. case_decide as E.
  - wp_steps. split; [done|]. exists (heap_ b). by destruct b.
  - unfold wp, literalB. pose proof (go_literal_spec l (heap_ b)) as Hl. destruct (go_literal l (heap_ b)) as [s' h].
    split; [done|]. exists h. split; [done|]. apply Hl.
Qed.

#[local] Arguments adoptList : simpl never.
#[local] Arguments adopt : simpl never.

Lemma adopt_env l c (b : Builder B) : env_is l b → Env c = l → wp (adopt c) (λ _, env_is l) b.
Proof.
  intros [Hv He] Hc. unfold adopt, config. wp_steps. wp_apply adoptList_env. intros e b1 [Hs (h1 & -> & Hf1)].
  rewrite (Hs ltac:(by rewrite Hc)). clear Hs e. destruct (Hf1 _ Hv) as [Hc1 Hv1]. unfold id in *.
  do 4 (wp_steps; wp_apply adoptList_env; intros ? ? [_ (? & -> & ?Hf)]).
  simpl in *. unfold updConfig. wp_steps. unfold env_is, envOf. simpl.
  destruct (Hf _ Hv1) as [Hc2 Hv2]. destruct (Hf0 _ Hv2) as [Hc3 Hv3].
  destruct (Hf2 _ Hv3) as [Hc4 Hv4]. destruct (Hf3 _ Hv4) as [Hc5 Hv5].
  split; [done|]. unfold envOf in He. congruence.
Qed.


Lemma appendB_env l xs (b : Builder B) : env_is l b → apart b → wp (appendB (shellOf b) xs) (λ _, env_is l) b.
Proof.
  intros [Hv He] [Hs Ha]. unfold wp, appendB. pose proof (go_append_frame (shellOf b) xs (heap_ b) _ Hs Hv) as Hf.
  destruct (go_append (shellOf b) xs (heap_ b)) as [s h]. destruct Hf as [Hc Hv']; [left; congruence|].
  split; [done|]. unfold envOf in *. simpl. congruence.
Qed.

(** A call that keeps the environment, whatever it answers. *)
Definition env_kept {A} (m : M (Builder B) A) : Prop := ∀ l b, env_is l b → wp m (λ _, env_is l) b.

Lemma probeCache_env : env_kept probeCache.
Proof.
  intros l b Hb. unfold probeCache, fail. wp_steps. destruct GetCachedImageOnBuild as [f|]; [|by wp_steps].
  destruct (NoCache _ || _); [by wp_steps|]. destruct (f _ _ _) as [c|e]; [|by wp_steps]. case_decide; by wp_steps.
Qed.

Lemma backend_env {A} (f : B → A * B) : env_kept (backend f).
Proof. intros l b Hb. unfold wp, backend. by destruct (f (docker b)). Qed.

Lemma create_env : create_keeps_env → env_kept create.
Proof.
  intros Hk l b Hb. unfold create, fail, updConfig, config, list_of, addTmp, check. wp_steps. case_decide; [by wp_steps|]. wp_steps.
  unfold ContainerCreateB. wp_steps. unfold wp at 1, backend. simpl.
  destruct (ContainerCreate _ _) as [[r c] d] eqn:E. wp_steps.
  wp_apply (adopt_env l c); [done| |].
  { rewrite (Hk _ _ _ _ _ E). apply Hb. }
  intros [] b2 Hb2. destruct r as [cID|e]; wp_steps; [|done]. wp_apply (backend_env _ l); [done|].
  intros [e|] b3 Hb3; by wp_steps.
Qed.

Lemma commitContainer_env cID cmd : env_kept (commitContainer cID cmd).
Proof.
  intros l b Hb. unfold commitContainer, adoptMaps, updConfig, fail, ok. wp_steps. wp_apply (backend_env _ l); [done|].
  intros [r c] b1 Hb1. wp_steps. destruct r; by wp_steps.
Qed.

Lemma commit_env cmd comment l (b : Builder B) :
  create_keeps_env → env_is l b → apart b → wp (commit "" cmd comment) (λ _, env_is l) b.
Proof.
  intros Hk Hb Ha. unfold commit, ok, fail, updConfig, config. wp_steps. destruct (disableCommit b); [by wp_steps|].
  case_decide; [by wp_steps|]. wp_steps. unfold getShell, config. wp_steps. unfold id.
  wp_apply (appendB_env l _ (set_runConfig (set_Image (image b) (runConfig b)) b)); [done|done|]. intros nop b1 Hb1. wp_steps.
  unfold restoringCmd, updConfig. wp_steps. wp_apply (probeCache_env l); [done|]. intros [[]|e] b2 Hb2; wp_steps; [done| |done].
  wp_apply (create_env Hk l); [done|]. intros [cID|e] b3 Hb3; wp_steps; [|done].
  wp_apply (commitContainer_env cID cmd l); [done|]. intros r b4 Hb4. by wp_steps.
Qed.

Lemma length_flat {A} (nvs : list (A * A)) : length (flat nvs) = (2 * length nvs)%nat.
Proof. induction nvs as [|[n v] nvs IH]; simpl; lia. Qed.

(** In a build, the shell has an array of its own and the engine keeps the
    environment; the changes of a commit need neither. *)
Definition may_commit (b : Builder B) : Prop := disableCommit b = true ∨ apart b ∧ create_keeps_env.

Lemma env_run args nvs (b : Builder B) : may_commit b → bflags b = mkBFlags [] ∅ ∅ None → nvs ≠ [] →
  contents (heap_ b) args = flat nvs → valid (heap_ b) (Env (runConfig b)) → ∃ r b',
  env args b = Ret r b' ∧ (disableCommit b = true → r = Ok ()) ∧
  envOf b' = foldl (λ l nv, update_env l nv.1 nv.2) (envOf b) nvs.
Proof.
  intros Hd Hf Hne Hargs Hv. unfold env, mbind at 1, M_bind at 1, list_of, read. rewrite Hargs.
  rewrite decide_False by (destruct nvs as [|[? ?] ?]; done).
  rewrite decide_False by (rewrite length_flat, Nat.mul_comm, Nat.Div0.mod_mul; lia).
  unfold try_bind, mbind at 1, M_bind at 1. unfold parseFlags. rewrite Hf. simpl.
  destruct (setEnvVars_run nvs (set_bflags (mkBFlags [] ∅ ∅ None) b) Hv) as (b1 & E & Hd1 & Hv1 & He & Ha).
  unfold mbind at 1, M_bind at 1. rewrite E. simpl in Hd1. unfold commitNop, config, mbind at 1, M_bind at 1, read.
  destruct (disableCommit b) eqn:Hdb.
  - exists (Ok ()), b1. split_and!; [|done|done]. unfold commit, mbind, M_bind, read, id. by rewrite Hd1.
  - destruct Hd as [?|[Hap Hk]]; [congruence|].
    destruct (wp_inv _ _ _ (commit_env (Cmd (runConfig b1)) ("ENV" +:+ pairsComment (flat nvs)) (envOf b1) b1 Hk (conj Hv1 eq_refl) (Ha Hap)))
      as (r & b' & E' & _ & He'). exists r, b'. split_and!; [done|done|by rewrite He'].
Qed.

Lemma chainValues_chain v l c a o f s e : chainValues (mkNode v (chain l) c a o f s e) = l.
Proof.
  revert v c a o f s e. induction l as [|x l IH]; intros v c a o f s e; simpl; [done|]. f_equal.
  exact (IH x [] ∅ "" [] 0%Z 0%Z).
Qed.

(** The environment that the words of an instruction see: the variables of the
    configuration, then the build arguments. *)
Definition visible (b : Builder B) : list string := (envOf b ++ (envVar <$> allowedVars b))%list.

Lemma dispatch_env strs nvs attrs orig sl el (b : Builder B) :
  may_commit b → valid (heap_ b) (Env (runConfig b)) → nvs ≠ [] →
  Forall2 (λ str v, ShellParser.ProcessWord str (visible b) = Some (Ok v)) strs (flat nvs) →
  ∃ r b', dispatchB (mkNode "env" (chain strs) [] attrs orig [] sl el) b = Ret r b' ∧ (disableCommit b = true → r = Ok ()) ∧
    envOf b' = foldl (λ l nv, update_env l nv.1 nv.2) (envOf b) nvs.
Proof.
  intros Hd Hv Hne Hstrs. unfold dispatchB. cbn [dispatch]. unfold try_bind, mbind, M_bind, mret, M_ret, config, read.
  cbn [Value]. rewrite decide_False by done. rewrite decide_False by done. unfold appendEachB.
  pose proof (append_each_spec (Env (runConfig b)) (envVar <$> allowedVars b) (heap_ b) Hv) as Ha.
  pose proof (append_each_valid (Env (runConfig b)) (envVar <$> allowedVars b) (heap_ b) (shellOf b) Hv) as Hsh.
  destruct (append_each _ _ (heap_ b)) as [envs h1]. destruct Ha as (Hc & Hve & Hl & Hf).
  destruct (Hf _ Hv (Nat.le_refl _)) as [Henv Hv1].
  rewrite chainValues_chain.
  destruct (expandAll_run "env" strs (flat nvs) envs nil_slice (set_heap_ h1 b) (length h1)) as (args & h2 & E & Hargs & _ & Hf2);
    simpl; try done.
  { by rewrite Hc. }
  { by apply valid_older. }
  rewrite E.
  destruct (Hf2 _ Hv1 (valid_older _ _ Hv1)) as [Henv2 Hv2].
  destruct (env_run args nvs (set_bflags (mkBFlags [] ∅ ∅ None) (set_heap_ h2 (set_heap_ h1 b)))) as (r & b' & E' & Hr & He);
    simpl; try done.
  { destruct Hd as [?|[[Hs Hap] Hk]]; [by left|right]. split; [|done]. split; [|done].
    specialize (Hsh Hs). exact (proj2 (Hf2 _ Hsh (valid_older _ _ Hsh))). }
  exists r, b'. split_and!; [exact E'|done|]. rewrite He. f_equal. unfold envOf. simpl. by rewrite Henv2.
Qed.

Lemma getEnv_updates l nvs k : Forall (λ nv, plain_name nv.1) nvs →
  ShellParser.getEnv (foldl (λ l nv, update_env l nv.1 nv.2) l nvs) k =
  foldl (λ v nv, if decide (k = nv.1) then nv.2 else v) (ShellParser.getEnv l k) nvs.
Proof.
  intros Hn. revert l. induction Hn as [|[n v] nvs Hn _ IH]; intros l; simpl; [done|]. by rewrite IH, getEnv_update.
Qed.
End scope.


(** ** A trigger that is a comment *)

Lemma trim_right_ascii `{Unicode} n c s : (Z_of_char c < 128)%Z →
  unicode.IsSpace (Z_of_char c) = false ∨ strings.trim_right n s ≠ "" →
  strings.trim_right (S n) (String c s) = String c (strings.trim_right n s).
Proof.
  intros Hc Hs. cbn [strings.trim_right]. unfold decode_cons. rewrite decide_True by done.
  assert (unicode.IsSpace (Z_of_char c) && bool_decide (strings.trim_right n s = "") = false) as ->.
  { destruct Hs as [->|Hs]; [done|]. by rewrite bool_decide_eq_false_2, andb_false_r. }
  cbn [String.length]. rewrite Nat.sub_succ_l, Nat.sub_diag by lia. by destruct s.
Qed.

Lemma TrimSpace_hash `{Unicode} s : ∃ t, strings.TrimSpace (String "#"%char s) = String "#"%char t.
Proof. eexists. unfold strings.TrimSpace. cbn. apply trim_right_ascii; [done|by left]. Qed.

Lemma TrimSpace_onbuild `{Unicode} s : ∃ t, strings.TrimSpace ("ONBUILD #" +:+ s) = "ONBUILD #" +:+ t.
Proof.
  eexists. unfold strings.TrimSpace.
  change (strings.TrimLeftSpace ("ONBUILD #" +:+ s)) with ("ONBUILD #" +:+ s).
  repeat (rewrite string_app_cons; cbn [String.length]).
  do 7 (rewrite trim_right_ascii; [f_equal|done|by left]).
  rewrite trim_right_ascii; [f_equal|done|right; by rewrite trim_right_ascii by (done || by left)].
  rewrite trim_right_ascii; [f_equal|done|by left].
Qed.

Lemma splitCommand_onbuild `{Unicode} s : ∃ t, splitCommand ("ONBUILD #" +:+ s) = ("onbuild", [], String "#"%char t).
Proof.
  destruct (TrimSpace_onbuild s) as [t Et]. unfold splitCommand. rewrite Et.
  assert (Split2 ("ONBUILD #" +:+ t) = ["ONBUILD"; String "#"%char t]) as -> by done.
  assert (extractBuilderFlags (String "#"%char t) = (String "#"%char t, [])) as ->.
  { unfold extractBuilderFlags. simpl. by destruct t. }
  destruct (TrimSpace_hash t) as [u ->]. by exists u.
Qed.

(** A trigger that is a comment.  [ONBUILD] with nothing but a comment behind
    it is an instruction for the parser, with a trigger that is nil, and whatever
    the builder is, dispatching it dereferences the nil. *)
Theorem onbuild_comment_panics `{Unicode, Runtime} {B} `{Backend B, Externs B} (b : Builder B) s d :
  let line := "ONBUILD #" +:+ s in
  matchContinuation (EscapeToken d) line = None →
  ∃ node d', parseLine line d = Ret (Ok ("", Some node)) d' ∧ dispatchB node b = Panic nilDeref.
Proof.
  intros line Hmc. destruct (splitCommand_onbuild s) as [t Hsp].
  exists (mkNode "onbuild" (Some (mkNode "" None [None] ∅ "" [] 0 0)) [] ∅ line [] 0 0), (notLooking d).
  split; [|done].
  unfold parseLine. cbn [ParseLine]. unfold read, modify, try_bind, mbind, M_bind, mret, M_ret.
  replace (if LookingForDirectives d then matchEscape (strings.ToLower line) else None) with (@None string)
    by (by destruct (LookingForDirectives d)).
  change (stripComments line) with line. rewrite decide_False by done.
  cbn [EscapeToken notLooking id]. unfold line in *. rewrite Hmc, Hsp. done.
Qed.

(** ** A concrete engine *)

(** An engine that only keeps the configurations it has been asked to commit, the
    last one first. *)
Module Engine.
Abbreviation state := (list (Config (list string))).

Definition methods : Backend state := {|
  GetImageOnBuild _ _ := Some (mkImage "base" None);
  PullOnBuild _ d := (Err "no such image", d);
  ContainerCreate c d := (Ok "container", c, d);
  ContainerUpdateCmdOnBuild _ _ d := (None, d);
  ContainerAttachRaw _ d := (None, d);
  ContainerStart _ d := (None, d);
  ContainerWait _ d := (0%Z, d);
  ContainerRm _ d := (None, d);
  CopyOnBuild _ _ _ d := (None, d);
  Commit _ _ c d := (Ok ("image-" +:+ Itoa (Z.of_nat (length d))), c, c :: d);
  TagImageWithReference _ _ d := (None, d);
  GetCachedImageOnBuild := None |}.

Definition world : Externs state := {|
  ParseDuration _ := Err "not a duration";
  ParsePortSpecs l := Ok l;
  formatHealth _ := "";
  sha256_hex s := s;
  hasContext := true;
  download _ d := (Err "no network", d);
  calcCopyInfo _ p _ _ := Ok [mkCopyInfo p None p false];
  cancelled _ := false |}.

#[local] Existing Instances latin1 gc_growslice methods world.

Definition nl : string := String (char_of_Z 10) "".
Definition options0 : Options := mkOptions false false false false ∅ ∅ [].
Definition builder0 : Builder state := NewBuilder options0 [].

(** The configurations that the build of a Dockerfile commits. *)
Definition committed (lines : list string) : option (list (Config (list string))) :=
  match build (String.concat nl lines) builder0 with Ret (Ok _) b => Some (docker b) | _ => None end.

(** The builder after [SHELL] with three strings. *)
Definition shell3 : list string := ["/bin/bash"; "-e"; "-c"].
Definition shellLine : string := "SHELL " +:+ json.array (runes <$> shell3).
Definition builder3 : Builder state :=
  let '(s, h) := append_each nil_slice shell3 (heap_ builder0) in
  set_runConfig (set_Shell s emptyConfig) (set_heap_ h builder0).

(** The same with the arguments of a [CMD] and of a [RUN] at hand. *)
Definition builderC : Builder state := set_heap_ (heap_ builder3 ++ [["foo"]; ["echo hi"]])%list builder3.
Definition argsCmd : slice := mkSlice (Some (length (heap_ builder3))) 1.
Definition argsRun : slice := mkSlice (Some (S (length (heap_ builder3)))) 1.
Definition returned {S A} (d : A * S) (o : outcome S A) : A * S := match o with Ret a s => (a, s) | _ => d end.
Definition afterCmd : slice * Builder state := returned (nil_slice, builderC) (shellForm argsCmd ∅ builderC).
Definition afterRun : slice * Builder state := returned (nil_slice, builderC) (shellForm argsRun ∅ afterCmd.2).

(** A builder with a base image, a variable and a build argument. *)
Definition builderE : Builder state :=
  set_image "base" (set_allowedBuildArgs {[ "ver" ]} (set_options (set_BuildArgs {[ "ver" := "7" ]} options0)
    (set_runConfig (set_Env (mkSlice (Some 1%nat) 1) emptyConfig) (set_heap_ (initialHeap ++ [["a=1"]])%list builder0)))).

(** The words [a], [$a$ver], [b] and [${b:-"x y"}]. *)
Definition wordsE : list (ShellParser.wordT * ShellParser.wordT) :=
  [(ShellParser.WPlain 97 ShellParser.WNil,
    ShellParser.WDollar (ShellParser.DVar [97%Z]) (ShellParser.WDollar (ShellParser.DVar [118; 101; 114]%Z) ShellParser.WNil));
   (ShellParser.WPlain 98 ShellParser.WNil,
    ShellParser.WDollar (ShellParser.DMod [98%Z] false
      (ShellParser.WDouble (ShellParser.QPlain 120 (ShellParser.QPlain 32 (ShellParser.QPlain 121 ShellParser.QNil))) ShellParser.WNil))
      ShellParser.WNil)].
End Engine.

#[local] Existing Instances latin1 gc_growslice Engine.methods Engine.world.

Lemma shell_form_shares_witness :
  (let '(c1, b1) := Engine.afterCmd in let '(_, b2) := Engine.afterRun in
   contents (heap_ b1) c1 = (Engine.shell3 ++ ["foo"])%list ∧
   contents (heap_ b2) c1 = (Engine.shell3 ++ ["echo hi"])%list) ∧
  fmap (M := option) (fmap (M := list) Cmd) (Engine.committed ["FROM base"; Engine.shellLine; "CMD foo"; "RUN echo hi"]) =
  Some [(Engine.shell3 ++ ["echo hi"])%list; (Engine.shell3 ++ ["foo"])%list; []].
Proof.
  split; [|by vm_compute].
  assert (valid (heap_ Engine.builderC) (shellOf Engine.builderC)) as Hv.
  { split; [vm_compute; lia|]. intros a [= <-]. vm_compute. lia. }
  destruct (shell_form_shares Engine.builderC Engine.argsCmd ∅ Engine.argsRun ∅ Engine.afterCmd.1 Engine.afterCmd.2
    Engine.afterRun.1 Engine.afterRun.2
    ltac:(by vm_compute) ltac:(done) ltac:(by vm_compute) ltac:(done) Hv ltac:(by vm_compute) ltac:(by vm_compute)) as (E1 & _ & E2).
  exact (conj E1 E2).
Defined.


(** A build with such a line ends in a panic. *)
Lemma onbuild_comment_panics_witness :
  (∃ node d', parseLine "ONBUILD # later" DockerfileParser.WordsConcrete.d0 = Ret (Ok ("", Some node)) d' ∧
    dispatchB node Engine.builder0 = Panic nilDeref) ∧
  build (String.concat Engine.nl ["FROM base"; "ONBUILD # later"]) Engine.builder0 = Panic nilDeref.
Proof.
  split; [|by vm_compute].
  exact (onbuild_comment_panics Engine.builder0 " later" DockerfileParser.WordsConcrete.d0 ltac:(by vm_compute)).
Defined.
