(* ===== verification/Xfer.v ===== *)
(** The transfers of layers (distribution/xfer): the transfer manager, which
    deduplicates transfers by key and limits how many run at once, a transfer
    with its watchers and its broadcaster (transfer.go), and the functions that
    download, re-register and upload a layer (download.go, upload.go).

    The goroutines are the broadcaster, the job and the manager's goroutine of
    every transfer, one goroutine for every watcher, and the calls of clients.
    They interleave at every access to a channel and at every critical section;
    a channel that is only ever closed is the boolean that says it is closed.
    The downloads and uploads themselves and the layer store are outside:
    whatever they answer is an argument of an action.  An item of progress is its
    message.  [t_sent] and [w_due] are history: nothing reads them. *)

From S2P Require Import Prelude.
From stdpp Require Import pretty.

Local Open Scope string_scope.

(** ** Jobs *)

(** The function that performs a transfer: [makeDownloadFunc] with the chain ID
    or the transfer of the parent, [makeDownloadFuncFromDownload] with the
    transfers of the source and of the parent, [makeUploadFunc]. *)
Inductive kind : Type :=
| Download (parentLayer : string) (parentDownload : option nat)
| FromDownload (sourceDownload parentDownload : nat)
| Upload.

(** Where the goroutine of that function is: it sends an item of progress and
    goes on at [next] in [PSend]; after [PDone] the items are over. *)
Inductive phase : Type :=
| PStart
| PAwaitStart
| PCheckParent
| PTry (retries : nat)
| PRetry (retries delay : nat)
| PTick (retries delay : nat)
| PInactive
| PAwaitParent
| PAwaitSource (parentLayer : string)
| PRegister (parentLayer : string)
| PFinish
| PSend (p : string) (next : phase)
| PDone.

(** The job: what it returned, whether it holds a reference on the layer, and
    its channels [start] and [inactive]. *)
Record job := mkJob {
  j_kind : kind;
  j_phase : phase;
  j_result : option (result string string);
  j_layer : bool;
  j_start : bool;
  j_inactive : bool }.

Definition goto (p : phase) (j : job) : job := mkJob (j_kind j) p (j_result j) (j_layer j) (j_start j) (j_inactive j).
Definition finish (r : result string string) (j : job) : job := mkJob (j_kind j) PDone (Some r) (j_layer j) (j_start j) (j_inactive j).
Definition open_start (j : job) : job := mkJob (j_kind j) (j_phase j) (j_result j) (j_layer j) true (j_inactive j).

Definition parents (k : kind) : list nat :=
  match k with
  | Download _ (Some p) => [p]
  | Download _ None | Upload => []
  | FromDownload a b => [a; b]
  end.

(** ** Transfers and watchers *)

(** The broadcaster: at its first [select], at the second one, with an item in
    hand, with the end of the items in hand, about to close [running], over. *)
Inductive bphase : Type := BTop | BSelect | BGot (p : string) | BEnd | BClose | BOver.

Record transfer := mkTransfer {
  t_watchers : gset nat;
  t_cancelled : bool;
  t_lastProgress : option string;
  t_running : bool;
  t_released : bool;
  t_broadcastDone : bool;
  t_closed : bool;
  t_bc : bphase;
  t_sent : list string }.

(** [NewTransfer]. *)
Definition NewTransfer : transfer := mkTransfer ∅ false None false false false false BTop [].

Definition with_watchers (ws : gset nat) (t : transfer) : transfer :=
  mkTransfer ws (t_cancelled t) (t_lastProgress t) (t_running t) (t_released t) (t_broadcastDone t) (t_closed t) (t_bc t) (t_sent t).
Definition with_bc (b : bphase) (t : transfer) : transfer :=
  mkTransfer (t_watchers t) (t_cancelled t) (t_lastProgress t) (t_running t) (t_released t) (t_broadcastDone t) (t_closed t) b (t_sent t).

(** The goroutine of a watcher: about to look at the progress (with its variable
    [done]), with what it has seen, at its [select], pinging the broadcaster,
    over; [WLate] is a watcher added when the items were over, which has none. *)
Inductive wphase : Type := WTop (finished : bool) | WWrite (finished : bool) (p : option string) | WSelect | WSync | WOver | WLate.

(** Who has a watcher: the manager, until [Transfer] returns it; the client; or
    a [Release] that has taken it off the transfer, that has closed
    [releaseChan], that has returned. *)
Inductive wowner : Type := Manager | Held | Removed | Waiting | Returned.

Record Watcher := mkWatcher {
  w_transfer : nat;
  w_phase : wphase;
  w_owner : wowner;
  w_written : list string;
  w_due : nat }.
Definition at_phase (p : wphase) (w : Watcher) : Watcher := mkWatcher (w_transfer w) p (w_owner w) (w_written w) (w_due w).
Definition owned_by (o : wowner) (w : Watcher) : Watcher := mkWatcher (w_transfer w) (w_phase w) o (w_written w) (w_due w).

(** The watcher's [running] is closed. *)
Definition w_over (w : Watcher) : bool := match w_phase w with WOver | WLate => true | _ => false end.
(** [releaseChan] is closed. *)
Definition w_released (w : Watcher) : bool := match w_owner w with Waiting | Returned => true | _ => false end.

(** ** The manager *)

(** The goroutine that waits for a transfer: for [inactive] or the end; for the
    end only; the transfer is not tracked any more; it was closed. *)
Inductive mphase : Type := MWatch | MIdle | MRemoved | MClosed.

Record xfer := mkXfer { x_key : string; x_mgr : mphase; x_job : job; x_tr : transfer }.

(** A call of [Transfer]: at the head of its loop; watching a transfer it found;
    releasing it again; waiting for its end; back with a transfer and a watcher. *)
Inductive cphase : Type :=
| CTop
| CWatched (i w : nat)
| CReleasing (i w : nat)
| CWait (i : nat)
| CGot (i w : nat).
Record call := mkCall { c_key : string; c_kind : kind; c_phase : cphase }.

(** [tm_mu] is the call that holds the lock of the manager, if a call holds it
    for more than one step; a start channel of [waitingTransfers] is the number
    of its transfer.  Transfers, watchers and calls are numbered in the order of
    their creation. *)
Record transferManager := mkTM {
  tm_mu : option nat;
  concurrencyLimit : Z;
  activeTransfers : Z;
  transfers : gmap string nat;
  waitingTransfers : list nat;
  xfers : gmap nat xfer;
  watchers : gmap nat Watcher;
  calls : gmap nat call;
  n_xfers : nat;
  n_watchers : nat;
  n_calls : nat }.

Definition set_mu (m : option nat) (s : transferManager) : transferManager :=
  mkTM m (concurrencyLimit s) (activeTransfers s) (transfers s) (waitingTransfers s) (xfers s) (watchers s) (calls s)
    (n_xfers s) (n_watchers s) (n_calls s).
Definition set_limit (n : Z) (s : transferManager) : transferManager :=
  mkTM (tm_mu s) n (activeTransfers s) (transfers s) (waitingTransfers s) (xfers s) (watchers s) (calls s)
    (n_xfers s) (n_watchers s) (n_calls s).
Definition set_slots (a : Z) (l : list nat) (s : transferManager) : transferManager :=
  mkTM (tm_mu s) (concurrencyLimit s) a (transfers s) l (xfers s) (watchers s) (calls s) (n_xfers s) (n_watchers s) (n_calls s).
Definition set_transfers (m : gmap string nat) (s : transferManager) : transferManager :=
  mkTM (tm_mu s) (concurrencyLimit s) (activeTransfers s) m (waitingTransfers s) (xfers s) (watchers s) (calls s)
    (n_xfers s) (n_watchers s) (n_calls s).
Definition set_xfers (m : gmap nat xfer) (s : transferManager) : transferManager :=
  mkTM (tm_mu s) (concurrencyLimit s) (activeTransfers s) (transfers s) (waitingTransfers s) m (watchers s) (calls s)
    (n_xfers s) (n_watchers s) (n_calls s).
Definition set_watchers (m : gmap nat Watcher) (s : transferManager) : transferManager :=
  mkTM (tm_mu s) (concurrencyLimit s) (activeTransfers s) (transfers s) (waitingTransfers s) (xfers s) m (calls s)
    (n_xfers s) (n_watchers s) (n_calls s).
Definition set_calls (m : gmap nat call) (s : transferManager) : transferManager :=
  mkTM (tm_mu s) (concurrencyLimit s) (activeTransfers s) (transfers s) (waitingTransfers s) (xfers s) (watchers s) m
    (n_xfers s) (n_watchers s) (n_calls s).
Definition set_counts (x w c : nat) (s : transferManager) : transferManager :=
  mkTM (tm_mu s) (concurrencyLimit s) (activeTransfers s) (transfers s) (waitingTransfers s) (xfers s) (watchers s) (calls s) x w c.

Definition NewTransferManager (limit : Z) : transferManager := mkTM None limit 0 ∅ [] ∅ ∅ ∅ 0 0 0.

Abbreviation TM := (M transferManager).

Definition closedTwice : string := "close of closed channel".
Definition nilDeref : string := "invalid memory address or nil pointer dereference".

Definition get_xfer (i : nat) : TM xfer := λ s, match xfers s !! i with Some x => Ret x s | None => Panic nilDeref end.
Definition get_watcher (i : nat) : TM Watcher := λ s, match watchers s !! i with Some w => Ret w s | None => Panic nilDeref end.
Definition put_xfer (i : nat) (x : xfer) : TM unit := modify (λ s, set_xfers (<[i := x]> (xfers s)) s).
Definition put_watcher (i : nat) (w : Watcher) : TM unit := modify (λ s, set_watchers (<[i := w]> (watchers s)) s).
Definition put_tr (i : nat) (x : xfer) (t : transfer) : TM unit := put_xfer i (mkXfer (x_key x) (x_mgr x) (x_job x) t).
Definition put_job (i : nat) (x : xfer) (j : job) : TM unit := put_xfer i (mkXfer (x_key x) (x_mgr x) j (x_tr x)).
Definition put_mgr (i : nat) (x : xfer) (m : mphase) : TM unit := put_xfer i (mkXfer (x_key x) m (x_job x) (x_tr x)).
Definition put_call (c : nat) (cl : call) (p : cphase) : TM unit :=
  modify (λ s, set_calls (<[c := mkCall (c_key cl) (c_kind cl) p]> (calls s)) s).

(** A step that is not possible in the state leaves it alone and says so. *)
Definition disabled : TM bool := mret false.
Definition enabled (m : TM unit) : TM bool := _ ← m; mret true.
Definition when (b : bool) (m : TM unit) : TM bool := if b then enabled m else disabled.

(** *** The methods of a transfer (transfer.go) *)

(** [Watch]. *)
Definition Watch (i : nat) : TM nat :=
  x ← get_xfer i;
  s ← read id;
  let w := n_watchers s in
  let t := x_tr x in
  _ ← put_tr i x (with_watchers ({[w]} ∪ t_watchers t) t);
  _ ← put_watcher w (mkWatcher i (if t_broadcastDone t then WLate else WTop false) Manager [] 0);
  _ ← modify (set_counts (n_xfers s) (S w) (n_calls s));
  mret w.

(** [Release], its critical section: the watcher leaves the transfer. *)
Definition Release (i w : nat) : TM unit :=
  x ← get_xfer i;
  wt ← get_watcher w;
  let t := x_tr x in
  let rest := t_watchers t ∖ {[w]} in
  let empty := bool_decide (rest = ∅) in
  _ ← put_tr i x (mkTransfer rest (t_cancelled t || (empty && negb (t_closed t))) (t_lastProgress t) (t_running t)
                    (t_released t || (empty && t_closed t)) (t_broadcastDone t) (t_closed t) (t_bc t) (t_sent t));
  put_watcher w (mkWatcher (w_transfer wt) (w_phase wt) Removed (w_written wt) (length (t_sent t))).

(** The rest of [Release]. *)
Definition releaseStep (w : nat) : TM bool :=
  wt ← get_watcher w;
  match w_owner wt with
  | Removed => enabled (put_watcher w (owned_by Waiting wt))
  | Waiting => when (w_over wt) (put_watcher w (owned_by Returned wt))
  | _ => disabled
  end.

(** A client calls [Release] for a watcher that [Transfer] has returned. *)
Definition clientRelease (w : nat) : TM bool :=
  wt ← get_watcher w;
  match w_owner wt with
  | Held => enabled (Release (w_transfer wt) w)
  | _ => disabled
  end.

(** [Close]. *)
Definition Close (i : nat) : TM bool :=
  x ← get_xfer i;
  let t := x_tr x in
  match x_mgr x with
  | MRemoved =>
      enabled (let empty := bool_decide (t_watchers t = ∅) in
               if empty && t_released t then panic closedTwice
               else put_xfer i (mkXfer (x_key x) MClosed (x_job x)
                      (mkTransfer (t_watchers t) (t_cancelled t) (t_lastProgress t) (t_running t) (t_released t || empty)
                         (t_broadcastDone t) true (t_bc t) (t_sent t))))
  | _ => disabled
  end.

(** The signal of the broadcaster: a watcher that is not at its [select] misses it. *)
Definition signal (ws : gset nat) (m : gmap nat Watcher) : gmap nat Watcher :=
  map_imap (λ w wt, Some (match w_phase wt with
                          | WSelect => if bool_decide (w ∈ ws) then at_phase (WTop false) wt else wt
                          | _ => wt
                          end)) m.

(** [Broadcast]: receiving from the job, storing an item and signalling, noting
    the end, closing [running]. *)
Definition broadcastStep (i : nat) : TM bool :=
  x ← get_xfer i;
  let t := x_tr x in
  let j := x_job x in
  match t_bc t, j_phase j with
  | (BTop | BSelect), PSend p next =>
      enabled (put_xfer i (mkXfer (x_key x) (x_mgr x) (goto next j)
                 (mkTransfer (t_watchers t) (t_cancelled t) (t_lastProgress t) (t_running t) (t_released t)
                    (t_broadcastDone t) (t_closed t) (BGot p) (p :: t_sent t)%list)))
  | (BTop | BSelect), PDone => enabled (put_tr i x (with_bc BEnd t))
  | BTop, _ => enabled (put_tr i x (with_bc BSelect t))
  | BSelect, _ => disabled
  | BGot p, _ =>
      enabled (_ ← put_tr i x (mkTransfer (t_watchers t) (t_cancelled t) (Some p) (t_running t) (t_released t)
                                 (t_broadcastDone t) (t_closed t) BTop (t_sent t));
               modify (λ s, set_watchers (signal (t_watchers t) (watchers s)) s))
  | BEnd, _ =>
      enabled (put_tr i x (mkTransfer (t_watchers t) (t_cancelled t) (t_lastProgress t) (t_running t) (t_released t)
                             true (t_closed t) BClose (t_sent t)))
  | BClose, _ =>
      enabled (if t_running t then panic closedTwice
               else put_tr i x (mkTransfer (t_watchers t) (t_cancelled t) (t_lastProgress t) true (t_released t)
                                  (t_broadcastDone t) (t_closed t) BOver (t_sent t)))
  | BOver, _ => disabled
  end.

(** The goroutine of a watcher, where it does not wait. *)
Definition watcherStep (w : nat) : TM bool :=
  wt ← get_watcher w;
  match w_phase wt with
  | WTop d => enabled (x ← get_xfer (w_transfer wt); put_watcher w (at_phase (WWrite d (t_lastProgress (x_tr x))) wt))
  | WWrite d p =>
      let written :=
        match p with
        | Some q => if negb d || bool_decide (head (w_written wt) ≠ Some q) then q :: w_written wt else w_written wt
        | None => w_written wt
        end%list in
      enabled (put_watcher w (mkWatcher (w_transfer wt) (if d then WOver else WSelect) (w_owner wt) written (w_due wt)))
  | _ => disabled
  end.

(** Its [select]: [releaseChan] is closed; [running] is closed, also while it
    pings; the broadcaster takes the ping. *)
Definition watcherReleased (w : nat) : TM bool :=
  wt ← get_watcher w;
  match w_phase wt with
  | WSelect => when (w_released wt) (put_watcher w (at_phase WSync wt))
  | _ => disabled
  end.
Definition watcherRunning (w : nat) : TM bool :=
  wt ← get_watcher w;
  x ← get_xfer (w_transfer wt);
  match w_phase wt with
  | WSelect | WSync => when (t_running (x_tr x)) (put_watcher w (at_phase (WTop true) wt))
  | _ => disabled
  end.
Definition broadcastSync (w : nat) : TM bool :=
  wt ← get_watcher w;
  x ← get_xfer (w_transfer wt);
  match w_phase wt, t_bc (x_tr x) with
  | WSync, BSelect => enabled (_ ← put_tr (w_transfer wt) x (with_bc BTop (x_tr x)); put_watcher w (at_phase (WTop true) wt))
  | _, _ => disabled
  end.

(** *** The methods of the manager (transfer.go) *)

(** [inactivate]. *)
Definition inactivate (i : nat) : TM unit :=
  x ← get_xfer i;
  if j_start (x_job x) then
    s ← read id;
    match waitingTransfers s with
    | k :: rest =>
        y ← get_xfer k;
        if j_start (x_job y) then panic closedTwice
        else _ ← put_job k y (open_start (x_job y)); modify (set_slots (activeTransfers s) rest)
    | [] => modify (set_slots (activeTransfers s - 1) [])
    end
  else mret ().

(** The goroutine of a transfer: [inactive] is closed, or the transfer is over. *)
Definition mgrInactive (i : nat) : TM bool :=
  x ← get_xfer i;
  s ← read id;
  match x_mgr x with
  | MWatch =>
      when (bool_decide (tm_mu s = None) && j_inactive (x_job x))
        (_ ← inactivate i; x ← get_xfer i; put_mgr i x MIdle)
  | _ => disabled
  end.
Definition mgrDone (i : nat) : TM bool :=
  x ← get_xfer i;
  s ← read id;
  match x_mgr x with
  | MWatch | MIdle =>
      when (bool_decide (tm_mu s = None) && t_running (x_tr x))
        (_ ← match x_mgr x with MWatch => inactivate i | _ => mret () end;
         _ ← modify (λ s, set_transfers (delete (x_key x) (transfers s)) s);
         x ← get_xfer i; put_mgr i x MRemoved)
  | _ => disabled
  end.

(** [SetConcurrency]. *)
Definition SetConcurrency (n : Z) : TM bool :=
  s ← read id; when (bool_decide (tm_mu s = None)) (modify (set_limit n)).

(** [Transfer] when the key is not in use. *)
Definition startTransfer (c : nat) (cl : call) : TM unit :=
  s ← read id;
  let i := n_xfers s in
  let start := bool_decide (concurrencyLimit s = 0 ∨ activeTransfers s < concurrencyLimit s)%Z in
  _ ← modify (if start then set_slots (activeTransfers s + 1) (waitingTransfers s)
              else set_slots (activeTransfers s) (waitingTransfers s ++ [i])%list);
  let first := match c_kind cl with FromDownload _ _ => PAwaitStart | _ => PStart end in
  _ ← put_xfer i (mkXfer (c_key cl) MWatch (mkJob (c_kind cl) first None false start false) NewTransfer);
  _ ← modify (set_counts (S i) (n_watchers s) (n_calls s));
  w ← Watch i;
  wt ← get_watcher w;
  _ ← put_watcher w (owned_by Held wt);
  _ ← modify (λ s, set_transfers (<[c_key cl := i]> (transfers s)) s);
  put_call c cl (CGot i w).

(** A call of [Transfer]: its start, with transfers that the client was given,
    and every further step. *)
Definition beginTransfer (key : string) (k : kind) : TM bool :=
  s ← read id;
  when (forallb (λ p, match xfers s !! p with Some x => match j_kind (x_job x) with Upload => false | _ => true end | None => false end) (parents k))
    (_ ← put_call (n_calls s) (mkCall key k CTop) CTop; modify (set_counts (n_xfers s) (n_watchers s) (S (n_calls s)))).

Definition transferStep (c : nat) : TM bool :=
  s ← read id;
  match calls s !! c with
  | None => disabled
  | Some cl =>
      match c_phase cl with
      | CTop =>
          when (bool_decide (tm_mu s = None))
            (match transfers s !! c_key cl with
             | Some i => w ← Watch i; _ ← modify (set_mu (Some c)); put_call c cl (CWatched i w)
             | None => startTransfer c cl
             end)
      | CWatched i w =>
          enabled (x ← get_xfer i;
                   if t_cancelled (x_tr x) then
                     _ ← Release i w; put_call c cl (CReleasing i w)
                   else
                     wt ← get_watcher w;
                     _ ← put_watcher w (owned_by Held wt);
                     _ ← modify (set_mu None);
                     put_call c cl (CGot i w))
      | CReleasing i w =>
          wt ← get_watcher w;
          match w_owner wt with
          | Returned => enabled (_ ← modify (set_mu None); put_call c cl (CWait i))
          | _ => disabled
          end
      | CWait i => x ← get_xfer i; when (t_running (x_tr x)) (put_call c cl CTop)
      | CGot _ _ => disabled
      end
  end.

(** *** The jobs (download.go, upload.go) *)

Definition maxAttempts : nat := 5.
Definition retryMessage (delay : nat) : string :=
  "Retrying in " ++ pretty delay ++ " second" ++ (if decide (delay = 1) then "" else "s").

(** [result] of another download, once its [Done] is closed. *)
Definition download_result (x : xfer) : TM (result string string) :=
  match j_result (x_job x) with Some r => mret r | None => panic nilDeref end.

(** The loop around [select] between two attempts: a message, a tick. *)
Definition retryStep (i : nat) (x : xfer) : TM bool :=
  let j := x_job x in
  match j_phase j with
  | PRetry r d => enabled (put_job i x (goto (PSend (retryMessage d) (PTick r d)) j))
  | PTick r d => enabled (put_job i x (goto (if decide (d - 1 = 0) then PTry r else PRetry r (d - 1)) j))
  | _ => disabled
  end.

(** [inactive] is closed. *)
Definition closeInactive (i : nat) (x : xfer) (next : phase) : TM unit :=
  let j := x_job x in
  if j_inactive j then panic closedTwice
  else put_job i x (mkJob (j_kind j) next (j_result j) (j_layer j) (j_start j) true).

(** The goroutine of [makeDownloadFunc], where it does not wait for an answer. *)
Definition downloadStep (i : nat) (x : xfer) (parentLayer : string) (parentDownload : option nat) : TM bool :=
  let j := x_job x in
  match j_phase j with
  | PStart => enabled (put_job i x (goto (if j_start j then PCheckParent else PSend "Waiting" PAwaitStart) j))
  | PAwaitStart => when (j_start j) (put_job i x (goto PCheckParent j))
  | PCheckParent =>
      enabled (match parentDownload with
               | Some p =>
                   y ← get_xfer p;
                   if t_running (x_tr y) then
                     r ← download_result y;
                     put_job i x (match r with Err e => finish (Err e) j | Ok _ => goto (PTry 0) j end)
                   else put_job i x (goto (PTry 0) j)
               | None => put_job i x (goto (PTry 0) j)
               end)
  | PInactive => enabled (closeInactive i x (match parentDownload with Some _ => PAwaitParent | None => PRegister parentLayer end))
  | PFinish => enabled (put_job i x (goto PDone j))
  | _ => retryStep i x
  end.

(** That of [makeDownloadFuncFromDownload]. *)
Definition fromDownloadStep (i : nat) (x : xfer) : TM bool :=
  let j := x_job x in
  match j_phase j with
  | PAwaitStart => when (j_start j) (put_job i x (goto PInactive j))
  | PInactive => enabled (closeInactive i x PAwaitParent)
  | PFinish => enabled (put_job i x (goto PDone j))
  | _ => disabled
  end.

(** That of [makeUploadFunc]. *)
Definition uploadStep (i : nat) (x : xfer) : TM bool :=
  let j := x_job x in
  match j_phase j with
  | PStart => enabled (put_job i x (goto (if j_start j then PTry 0 else PSend "Waiting" PAwaitStart) j))
  | PAwaitStart => when (j_start j) (put_job i x (goto (PTry 0) j))
  | _ => retryStep i x
  end.

Definition jobStep (i : nat) : TM bool :=
  x ← get_xfer i;
  match j_kind (x_job x) with
  | Download l p => downloadStep i x l p
  | FromDownload _ _ => fromDownloadStep i x
  | Upload => uploadStep i x
  end.

(** The job waits for [Done] of another download, and then for its result. *)
Definition awaitDownload (i : nat) (x : xfer) (p : nat) (next : string → phase) : TM bool :=
  y ← get_xfer p;
  when (t_running (x_tr y))
    (r ← download_result y;
     put_job i x (match r with Err e => finish (Err e) (x_job x) | Ok l => goto (next l) (x_job x) end)).

(** [makeDownloadFunc] waits for the parent. *)
Definition downloadParent (i : nat) (x : xfer) (parentDownload : option nat) : TM bool :=
  match j_phase (x_job x), parentDownload with
  | PAwaitParent, Some p => awaitDownload i x p PRegister
  | _, _ => disabled
  end.
(** [makeDownloadFuncFromDownload] waits for the parent, then for the source. *)
Definition fromDownloadParent (i : nat) (x : xfer) (sourceDownload parentDownload : nat) : TM bool :=
  match j_phase (x_job x) with
  | PAwaitParent => awaitDownload i x parentDownload PAwaitSource
  | PAwaitSource l => awaitDownload i x sourceDownload (λ _, PRegister l)
  | _ => disabled
  end.
Definition jobParent (i : nat) : TM bool :=
  x ← get_xfer i;
  match j_kind (x_job x) with
  | Download _ p => downloadParent i x p
  | FromDownload q p => fromDownloadParent i x q p
  | Upload => disabled
  end.

(** The context of the transfer is cancelled at a [select] of the job. *)
Definition jobCancelled (i : nat) : TM bool :=
  x ← get_xfer i;
  let j := x_job x in
  let stop msg := when (t_cancelled (x_tr x)) (put_job i x (finish (Err msg) j)) in
  match j_phase j with
  | PTick _ _ =>
      stop (match j_kind j with Upload => "upload cancelled during retry delay" | _ => "download cancelled during retry delay" end)
  | PAwaitParent | PAwaitSource _ => stop "layer registration cancelled"
  | _ => disabled
  end.

(** The download or the upload reports progress, and so does the extraction. *)
Definition jobProgress (i : nat) (p : string) : TM bool :=
  x ← get_xfer i;
  let j := x_job x in
  match j_phase j, j_kind j with
  | PTry _, _ | PRegister _, Download _ _ => enabled (put_job i x (goto (PSend p (j_phase j)) j))
  | _, _ => disabled
  end.

(** An attempt has failed: the context was cancelled, it was the last attempt, or
    the error is a [DoNotRetry]; otherwise there is another one after a while. *)
Definition failedTry (cancelled : bool) (n : nat) (e : string) (doNotRetry : bool) (j : job) : job :=
  if cancelled then finish (Err e) j
  else if doNotRetry || bool_decide (S n = maxAttempts) then finish (Err e) j
  else goto (PRetry (S n) (S n * 5)) j.

(** [descriptor.Download] returns: a stream, or an error with whether it is a
    [DoNotRetry]; [descriptor.Upload] returns: a remote descriptor, or an error. *)
Definition downloadTried (cancelled : bool) (n : nat) (r : result (string * bool) string) (j : job) : job :=
  match r with
  | Ok _ => goto PInactive j
  | Err (e, doNotRetry) => failedTry cancelled n e doNotRetry j
  end.
Definition uploadTried (cancelled : bool) (n : nat) (r : result (string * bool) string) (j : job) : job :=
  match r with
  | Ok remoteDescriptor => finish (Ok remoteDescriptor) j
  | Err (e, doNotRetry) => failedTry cancelled n e doNotRetry j
  end.
Definition jobTried (i : nat) (r : result (string * bool) string) : TM bool :=
  x ← get_xfer i;
  let j := x_job x in
  match j_phase j with
  | PTry n =>
      enabled (put_job i x (match j_kind j with
                            | Upload => uploadTried (t_cancelled (x_tr x)) n r j
                            | _ => downloadTried (t_cancelled (x_tr x)) n r j
                            end))
  | _ => disabled
  end.

(** The registration of [makeDownloadFunc] returns: the layer, or an error with
    whether it is the stream that could not be opened. *)
Definition registered (next : phase) (l : string) (j : job) : job :=
  mkJob (j_kind j) next (Some (Ok l)) true (j_start j) (j_inactive j).
Definition downloadRegistered (cancelled : bool) (r : result (bool * string) string) (j : job) : job :=
  match r with
  | Ok l => registered (PSend "Pull complete" PFinish) l j
  | Err (true, e) => finish (Err ("could not get decompression stream: " ++ e)) j
  | Err (false, e) => finish (Err (if cancelled then "layer registration cancelled" else "failed to register layer: " ++ e)) j
  end.
(** That of [makeDownloadFuncFromDownload]. *)
Definition fromDownloadRegistered (r : result (bool * string) string) (j : job) : job :=
  match r with
  | Ok l => registered PFinish l j
  | Err (true, e) => finish (Err e) j
  | Err (false, e) => finish (Err ("failed to register layer: " ++ e)) j
  end.
Definition jobRegistered (i : nat) (r : result (bool * string) string) : TM bool :=
  x ← get_xfer i;
  let j := x_job x in
  match j_phase j with
  | PRegister _ =>
      enabled (put_job i x (match j_kind j with
                            | FromDownload _ _ => fromDownloadRegistered r j
                            | _ => downloadRegistered (t_cancelled (x_tr x)) r j
                            end))
  | _ => disabled
  end.

(** The goroutine that the job leaves behind: the transfer is released, and so is
    the layer. *)
Definition layerRelease (i : nat) : TM bool :=
  x ← get_xfer i;
  let j := x_job x in
  match j_phase j with
  | PDone =>
      when (j_layer j && t_released (x_tr x))
        (put_job i x (mkJob (j_kind j) (j_phase j) (j_result j) false (j_start j) (j_inactive j)))
  | _ => disabled
  end.

(** ** Runs *)

Inductive action : Type :=
| ACall (key : string) (k : kind)
| ASetConcurrency (n : Z)
| ARelease (w : nat)
| AProgress (i : nat) (p : string)
| ATransfer (c : nat)
| AReleaseStep (w : nat)
| AWatcher (w : nat)
| AWatcherReleased (w : nat)
| AWatcherRunning (w : nat)
| ASync (w : nat)
| ABroadcast (i : nat)
| AInactive (i : nat)
| AFinished (i : nat)
| AClose (i : nat)
| AJob (i : nat)
| AParent (i : nat)
| ACancelled (i : nat)
| ATried (i : nat) (r : result (string * bool) string)
| ARegistered (i : nat) (r : result (bool * string) string)
| ALayerRelease (i : nat).

Definition exec (a : action) : TM bool :=
  match a with
  | ACall key k => beginTransfer key k
  | ASetConcurrency n => SetConcurrency n
  | ARelease w => clientRelease w
  | AProgress i p => jobProgress i p
  | ATransfer c => transferStep c
  | AReleaseStep w => releaseStep w
  | AWatcher w => watcherStep w
  | AWatcherReleased w => watcherReleased w
  | AWatcherRunning w => watcherRunning w
  | ASync w => broadcastSync w
  | ABroadcast i => broadcastStep i
  | AInactive i => mgrInactive i
  | AFinished i => mgrDone i
  | AClose i => Close i
  | AJob i => jobStep i
  | AParent i => jobParent i
  | ACancelled i => jobCancelled i
  | ATried i r => jobTried i r
  | ARegistered i r => jobRegistered i r
  | ALayerRelease i => layerRelease i
  end.

(** The action is about transfers and watchers that exist. *)
Definition exists_xfer (s : transferManager) (i : nat) : bool := bool_decide (is_Some (xfers s !! i)).
Definition exists_watcher (s : transferManager) (w : nat) : bool := bool_decide (is_Some (watchers s !! w)).
Definition possible (s : transferManager) (a : action) : bool :=
  match a with
  | ACall _ _ | ASetConcurrency _ | ATransfer _ => true
  | ARelease w | AReleaseStep w | AWatcher w | AWatcherReleased w | AWatcherRunning w | ASync w => exists_watcher s w
  | AProgress i _ | ABroadcast i | AInactive i | AFinished i | AClose i | AJob i | AParent i | ACancelled i | ATried i _
  | ARegistered i _ | ALayerRelease i => exists_xfer s i
  end.

(** A run under a condition on the limits that are set. *)
Definition limit_ok (P : Z → Prop) (a : action) : Prop := match a with ASetConcurrency n => P n | _ => True end.
Inductive reachable (P : Z → Prop) : transferManager → Prop :=
| reachable_new n : P n → reachable P (NewTransferManager n)
| reachable_step s a b s' :
    reachable P s → limit_ok P a → possible s a = true → exec a s = Ret b s' → reachable P s'.

(** The steps of the engine itself: neither a client's nor a new item of progress. *)
Definition internal (a : action) : bool :=
  match a with ACall _ _ | ASetConcurrency _ | ARelease _ | AProgress _ _ => false | _ => true end.
Definition engine_step (s s' : transferManager) : Prop :=
  ∃ a, internal a = true ∧ possible s a = true ∧ exec a s = Ret true s'.

(** Several actions in a row, with the state after them if all were possible. *)
Fixpoint exec_all (l : list action) (s : transferManager) : option transferManager :=
  match l with
  | [] => Some s
  | a :: rest =>
      if possible s a then match exec a s with Ret true s' => exec_all rest s' | _ => None end else None
  end.
