(* ===== verification/XferInv.v ===== *)
(** What holds between the steps of the transfer manager of Xfer.v, and that
    every step keeps it and does not panic: the jobs, the broadcasters and the
    manager's goroutines agree on which channels are closed, the slots are
    counted exactly, the waiting transfers are those that have not started, and
    what a watcher has shown is not older than what was due to it. *)

From Stdlib Require Import Sorted.
From S2P Require Import Prelude Xfer.

Local Open Scope nat_scope.

(** ** The invariant *)

Definition is_from (k : kind) : bool := match k with FromDownload _ _ => true | _ => false end.
Definition is_upload (k : kind) : bool := match k with Upload => true | _ => false end.

(** The states of a job: what is known at each phase of its goroutine. *)
Definition untried (j : job) : Prop := j_inactive j = false ∧ j_result j = None.
Definition transferring (j : job) : Prop := untried j ∧ j_start j = true ∧ is_from (j_kind j) = false.
Definition registering (j : job) : Prop :=
  is_upload (j_kind j) = false ∧ j_start j = true ∧ j_inactive j = true ∧ j_result j = None.

Fixpoint phase_ok (j : job) (p : phase) : Prop :=
  match p with
  | PStart => untried j ∧ is_from (j_kind j) = false
  | PAwaitStart => untried j
  | PCheckParent => transferring j ∧ is_upload (j_kind j) = false
  | PTry n => transferring j ∧ n < maxAttempts
  | PRetry n d | PTick n d => transferring j ∧ n < maxAttempts ∧ 0 < d
  | PInactive => untried j ∧ j_start j = true ∧ is_upload (j_kind j) = false
  | PAwaitParent => registering j ∧ parents (j_kind j) ≠ []
  | PAwaitSource _ => registering j ∧ is_from (j_kind j) = true
  | PRegister _ => registering j
  | PFinish => is_upload (j_kind j) = false ∧ j_start j = true ∧ (∃ l, j_result j = Some (Ok l))
  | PSend _ n => match n with PSend _ _ | PDone => False | _ => phase_ok j n end
  | PDone => j_start j = true ∧ is_Some (j_result j)
  end.

Record job_ok (j : job) : Prop := {
  jo_phase : phase_ok j (j_phase j);
  jo_layer : j_layer j = true → is_upload (j_kind j) = false ∧ ∃ l, j_result j = Some (Ok l) }.

(** The items that the broadcaster has stored. *)
Definition stored (t : transfer) : list string := match t_bc t with BGot _ => tail (t_sent t) | _ => t_sent t end.
Definition ended (b : bphase) : bool := match b with BEnd | BClose | BOver => true | _ => false end.

Record tr_ok (t : transfer) : Prop := {
  to_done : t_broadcastDone t = match t_bc t with BClose | BOver => true | _ => false end;
  to_running : t_running t = match t_bc t with BOver => true | _ => false end;
  to_released : t_released t = t_closed t && bool_decide (t_watchers t = ∅);
  to_got : ∀ p, t_bc t = BGot p → ∃ l, t_sent t = p :: l;
  to_last : t_lastProgress t = head (stored t) }.

Definition tracked (m : mphase) : bool := match m with MWatch | MIdle => true | _ => false end.

Record x_ok (x : xfer) : Prop := {
  xo_job : job_ok (x_job x);
  xo_tr : tr_ok (x_tr x);
  xo_ended : ended (t_bc (x_tr x)) = true → j_phase (x_job x) = PDone;
  xo_start : j_start (x_job x) = false → x_mgr x = MWatch;
  xo_removed : tracked (x_mgr x) = false → t_running (x_tr x) = true;
  xo_closed : t_closed (x_tr x) = match x_mgr x with MClosed => true | _ => false end;
  xo_layer : ∀ l, j_result (x_job x) = Some (Ok l) → is_upload (j_kind (x_job x)) = false →
    t_released (x_tr x) = false → j_layer (x_job x) = true }.

(** It has a slot. *)
Definition holding (x : xfer) : bool := j_start (x_job x) && match x_mgr x with MWatch => true | _ => false end.

Definition slots (m : gmap nat xfer) : nat := msum (λ x, if holding x then 1 else 0) m.
Lemma slots_put m i x x' :
  m !! i = Some x → slots (<[i := x']> m) + (if holding x then 1 else 0) = slots m + (if holding x' then 1 else 0).
Proof. apply (msum_put (λ x, if holding x then 1 else 0)). Qed.

(** The [k]-th item that was sent. *)
Definition item (sent : list string) (k : nat) : option string := head (drop (length sent - k) sent).

(** The number of items that the watcher must have seen when its goroutine ends. *)
Definition attached (w : Watcher) : bool := match w_owner w with Manager | Held => true | _ => false end.
Definition due (w : Watcher) (t : transfer) : nat := if attached w then length (t_sent t) else w_due w.
Definition ending (p : wphase) : bool := match p with WTop true | WWrite true _ | WOver => true | _ => false end.

Record w_ok (w : nat) (wt : Watcher) (t : transfer) : Prop := {
  wo_member : w ∈ t_watchers t ↔ attached wt = true;
  wo_live : w_owner wt = Held → t_cancelled t = false;
  wo_returned : w_owner wt = Returned → w_over wt = true;
  wo_sync : w_phase wt = WSync → w_released wt = true;
  wo_ending : ending (w_phase wt) = true → w_released wt = false → t_running t = true;
  wo_late : w_phase wt = WLate → t_broadcastDone t = true;
  wo_due : due wt t ≤ length (t_sent t);
  wo_top : w_phase wt = WTop true → due wt t ≤ length (stored t);
  wo_write : ∀ d q, w_phase wt = WWrite d q →
    (q = None → w_written wt = []) ∧ (q ≠ None → t_lastProgress t ≠ None) ∧
    (d = true → ∃ k, due wt t ≤ k ≤ length (t_sent t) ∧ q = item (t_sent t) k);
  wo_written : w_written wt ≠ [] → t_lastProgress t ≠ None;
  wo_over : w_phase wt = WOver → ∃ k, due wt t ≤ k ≤ length (t_sent t) ∧ head (w_written wt) = item (t_sent t) k }.

(** A transfer that can be a parent. *)
Definition download_at (m : gmap nat xfer) (p : nat) : Prop := ∃ x, m !! p = Some x ∧ is_upload (j_kind (x_job x)) = false.

Section invariant.
  Context (P : Z → Prop).

(** [d] is the number of slots that are accounted for and not counted yet, in the
    middle of a step. *)
Record core (d : Z) (s : transferManager) : Prop := {
  i_xfer : ∀ i x, xfers s !! i = Some x → i < n_xfers s ∧ x_ok x;
  i_parents : ∀ i x p, xfers s !! i = Some x → p ∈ parents (j_kind (x_job x)) → p < i ∧ download_at (xfers s) p;
  i_sorted : StronglySorted lt (waitingTransfers s);
  i_waiting : ∀ i, i ∈ waitingTransfers s ↔ ∃ x, xfers s !! i = Some x ∧ j_start (x_job x) = false;
  i_map : ∀ key i, transfers s !! key = Some i ↔ ∃ x, xfers s !! i = Some x ∧ x_key x = key ∧ tracked (x_mgr x) = true;
  i_active : activeTransfers s = (Z.of_nat (slots (xfers s)) + d)%Z;
  i_busy : waitingTransfers s ≠ [] → (0 < activeTransfers s)%Z;
  i_limit : P (concurrencyLimit s);
  i_bound : ∀ n, (∀ c, P c → 0 < c ≤ n)%Z → (activeTransfers s ≤ n)%Z;
  i_watcher : ∀ w wt, watchers s !! w = Some wt →
    w < n_watchers s ∧ ∃ x, xfers s !! w_transfer wt = Some x ∧ w_ok w wt (x_tr x);
  i_member : ∀ i x w, xfers s !! i = Some x → w ∈ t_watchers (x_tr x) →
    ∃ wt, watchers s !! w = Some wt ∧ w_transfer wt = i }.

Definition call_ok (s : transferManager) (c : nat) (cl : call) : Prop :=
  match c_phase cl with
  | CTop => True
  | CWatched i w =>
      tm_mu s = Some c ∧ ∃ wt, watchers s !! w = Some wt ∧ w_transfer wt = i ∧ w_owner wt = Manager
  | CReleasing i w =>
      tm_mu s = Some c ∧ is_Some (xfers s !! i) ∧
      ∃ wt, watchers s !! w = Some wt ∧ w_transfer wt = i ∧ attached wt = false
  | CWait i => is_Some (xfers s !! i)
  | CGot i w => ∃ wt, watchers s !! w = Some wt ∧ w_transfer wt = i ∧ w_owner wt ≠ Manager
  end.
Definition busy_call (cl : call) : bool := match c_phase cl with CWatched _ _ | CReleasing _ _ => true | _ => false end.

Record calls_ok (s : transferManager) : Prop := {
  i_call : ∀ c cl, calls s !! c = Some cl →
    c < n_calls s ∧ call_ok s c cl ∧ ∀ p, p ∈ parents (c_kind cl) → download_at (xfers s) p;
  i_mu : ∀ c, tm_mu s = Some c → ∃ cl, calls s !! c = Some cl ∧ busy_call cl = true }.

Definition inv (s : transferManager) : Prop := core 0%Z s ∧ calls_ok s.

(** ** Changing one transfer and the watchers *)

(** What the rest of the state knows of a transfer. *)
Definition same_frame (x x' : xfer) : Prop :=
  x_key x' = x_key x ∧ j_kind (x_job x') = j_kind (x_job x) ∧ j_start (x_job x') = j_start (x_job x) ∧
  tracked (x_mgr x') = tracked (x_mgr x) ∧ holding x' = holding x.

Lemma download_at_put m i x x' p :
  m !! i = Some x → j_kind (x_job x') = j_kind (x_job x) → download_at m p → download_at (<[i:=x']> m) p.
Proof.
  intros Hi Hk (y & Hy & Hu). destruct (decide (p = i)) as [->|Hne].
  - simplify_eq. exists x'. by rewrite lookup_insert_eq, Hk.
  - exists y. by rewrite lookup_insert_ne.
Qed.

Lemma parents_put (m : gmap nat xfer) i x x' :
  (∀ k y p, m !! k = Some y → p ∈ parents (j_kind (x_job y)) → p < k ∧ download_at m p) →
  m !! i = Some x → j_kind (x_job x') = j_kind (x_job x) →
  ∀ k y p, <[i := x']> m !! k = Some y → p ∈ parents (j_kind (x_job y)) → p < k ∧ download_at (<[i := x']> m) p.
Proof.
  intros Hm Hi Hk k y p Hy Hp. assert (p < k ∧ download_at m p) as [Hlt Hd]; [|split; [done|by eapply download_at_put]].
  apply lookup_insert_Some in Hy as [[<- <-]|[Hne Hy]]; [|by eapply Hm]. rewrite Hk in Hp. by eapply Hm.
Qed.

(** The watchers, when a transfer changes and its part of them does not. *)
Lemma watcher_put n (W : gmap nat Watcher) (m : gmap nat xfer) i x x' :
  (∀ w wt, W !! w = Some wt → w < n ∧ ∃ y, m !! w_transfer wt = Some y ∧ w_ok w wt (x_tr y)) →
  m !! i = Some x → x_tr x' = x_tr x →
  ∀ w wt, W !! w = Some wt → w < n ∧ ∃ y, <[i := x']> m !! w_transfer wt = Some y ∧ w_ok w wt (x_tr y).
Proof.
  intros HW Hi Ht w wt Hw. destruct (HW _ _ Hw) as (Hlt & y & Hy & Ho). split; [done|]. destruct (decide (w_transfer wt = i)) as [Hd|Hne].
  - rewrite Hd in *. simplify_eq. exists x'. by rewrite lookup_insert_eq, Ht.
  - exists y. by rewrite lookup_insert_ne.
Qed.
Lemma member_put (W : gmap nat Watcher) (m : gmap nat xfer) i x x' :
  (∀ k y w, m !! k = Some y → w ∈ t_watchers (x_tr y) → ∃ wt, W !! w = Some wt ∧ w_transfer wt = k) →
  m !! i = Some x → x_tr x' = x_tr x →
  ∀ k y w, <[i := x']> m !! k = Some y → w ∈ t_watchers (x_tr y) → ∃ wt, W !! w = Some wt ∧ w_transfer wt = k.
Proof. intros HW Hi Ht k y w Hy Hw. apply lookup_insert_Some in Hy as [[-> <-]|[Hne Hy]]; [rewrite Ht in Hw|]; by eapply HW. Qed.

(** The watchers after a step on the transfer [i]: those of other transfers are as
    before, those of [i] are right for the new state of it. *)
Definition watchers_step (i : nat) (t' : transfer) (W W' : gmap nat Watcher) : Prop :=
  dom W' = dom W ∧
  ∀ w wt', W' !! w = Some wt' → ∃ wt, W !! w = Some wt ∧ w_transfer wt' = w_transfer wt ∧
    (if decide (w_transfer wt = i) then w_ok w wt' t' else wt' = wt).

Lemma core_update d s i x x' W' :
  core d s → xfers s !! i = Some x → same_frame x x' → x_ok x' → t_watchers (x_tr x') ⊆ t_watchers (x_tr x) →
  watchers_step i (x_tr x') (watchers s) W' →
  core d (set_watchers W' (set_xfers (<[i := x']> (xfers s)) s)).
Proof.
  intros C Hi (Hkey & Hk & Hst & Htr & Hh) Hx' Hsub [Hdom HW]. destruct C. constructor; simpl; try done.
  - intros k y. rewrite lookup_insert_Some. intros [[-> <-]|[Hne Hy]]; [|by apply i_xfer0]. split; [by eapply i_xfer0|done].
  - by apply (parents_put _ i x).
  - intros k. rewrite i_waiting0. split; intros (y & Hy & Hs).
    + destruct (decide (k = i)) as [->|Hne]; [|exists y; by rewrite lookup_insert_ne].
      simplify_eq. exists x'. by rewrite lookup_insert_eq, Hst.
    + apply lookup_insert_Some in Hy as [[-> <-]|[Hne Hy]]; [|by eauto]. exists x. by rewrite <-Hst.
  - intros key k. rewrite i_map0. split; intros (y & Hy & Hs & Ht).
    + destruct (decide (k = i)) as [->|Hne]; [|exists y; by rewrite lookup_insert_ne].
      simplify_eq. exists x'. by rewrite lookup_insert_eq, Hkey, Htr.
    + apply lookup_insert_Some in Hy as [[-> <-]|[Hne Hy]]; [|by eauto]. exists x. by rewrite <-Hkey, <-Htr.
  - rewrite i_active0. pose proof (slots_put _ i x x' Hi) as E. rewrite Hh in E. lia.
  - intros w wt' Hw. destruct (HW _ _ Hw) as (wt & Hwt & Ht & Hok). destruct (i_watcher0 _ _ Hwt) as (Hlt & y & Hy & Hyo).
    split; [done|]. rewrite Ht. destruct (decide (w_transfer wt = i)) as [->|Hne].
    + exists x'. by rewrite lookup_insert_eq.
    + subst wt'. exists y. by rewrite lookup_insert_ne.
  - intros k y w Hy Hw. assert (∃ z, xfers s !! k = Some z ∧ w ∈ t_watchers (x_tr z)) as (z & Hz & Hwz).
    { apply lookup_insert_Some in Hy as [[-> <-]|[Hne Hy]]; eauto. }
    destruct (i_member0 _ _ _ Hz Hwz) as (wt & Hwt & Ht).
    assert (is_Some (W' !! w)) as [wt' Hw'] by (apply elem_of_dom; rewrite Hdom; apply elem_of_dom; eauto).
    destruct (HW _ _ Hw') as (? & ? & ? & _). simplify_eq. exists wt'. split; [done|congruence].
Qed.

(** The watchers keep their owners, as far as the calls know them. *)
Definition owners_step (W W' : gmap nat Watcher) : Prop :=
  ∀ w wt, W !! w = Some wt → ∃ wt', W' !! w = Some wt' ∧ w_transfer wt' = w_transfer wt ∧
    (w_owner wt = Manager ↔ w_owner wt' = Manager) ∧ (attached wt = false → attached wt' = false).

Lemma owners_refl W : owners_step W W.
Proof. intros w wt Hw. by exists wt. Qed.

Lemma calls_update s i x x' W' :
  calls_ok s → xfers s !! i = Some x → j_kind (x_job x') = j_kind (x_job x) → owners_step (watchers s) W' →
  calls_ok (set_watchers W' (set_xfers (<[i := x']> (xfers s)) s)).
Proof.
  intros [Hc Hm] Hi Hk HW. constructor; simpl; [|done]. intros c cl Hcl. destruct (Hc _ _ Hcl) as (Hlt & Hok & Hp).
  split_and!; [done| |intros p Hpp; eapply download_at_put; eauto].
  assert (Hsome : ∀ k, is_Some (xfers s !! k) → is_Some (<[i:=x']> (xfers s) !! k)) by (intros k Hs; apply lookup_insert_is_Some'; eauto).
  unfold call_ok in *; simpl. destruct (c_phase cl); [done| | |by apply Hsome|].
  - destruct Hok as (? & wt & Hwt & ? & ?). split; [done|]. destruct (HW _ _ Hwt) as (wt' & ? & ? & ? & ?). exists wt'. naive_solver.
  - destruct Hok as (? & ? & wt & Hwt & ? & ?). split_and!; [done|by apply Hsome|]. destruct (HW _ _ Hwt) as (wt' & ? & ? & ? & ?). exists wt'. naive_solver.
  - destruct Hok as (wt & Hwt & ? & ?). destruct (HW _ _ Hwt) as (wt' & ? & ? & ? & ?). exists wt'. naive_solver.
Qed.

Lemma inv_step_update s i x x' W' :
  inv s → xfers s !! i = Some x → same_frame x x' → x_ok x' → t_watchers (x_tr x') ⊆ t_watchers (x_tr x) →
  watchers_step i (x_tr x') (watchers s) W' → owners_step (watchers s) W' →
  inv (set_watchers W' (set_xfers (<[i := x']> (xfers s)) s)).
Proof. intros [] ? (? & ? & ?) ????. split; [by eapply core_update|by eapply calls_update]. Qed.

(** A step of the job: the transfer itself is as it was. *)
Lemma inv_job s i x j' :
  inv s → xfers s !! i = Some x → j_kind j' = j_kind (x_job x) → j_start j' = j_start (x_job x) →
  x_ok (mkXfer (x_key x) (x_mgr x) j' (x_tr x)) →
  inv (set_xfers (<[i := mkXfer (x_key x) (x_mgr x) j' (x_tr x)]> (xfers s)) s).
Proof.
  intros I Hi Hk Hs Hx. refine (inv_step_update s i x _ (watchers s) I Hi _ Hx _ _ (owners_refl _)); [|done|].
  - unfold same_frame, holding. simpl. by rewrite Hk, Hs.
  - split; [done|]. intros w wt Hw. exists wt. split_and!; [done..|]. destruct (i_watcher _ _ (proj1 I) _ _ Hw) as (_ & y & Hy & Ho).
    case_decide as Hd; [|done]. rewrite Hd in Hy. by simplify_eq.
Qed.

(** A step of one watcher. *)
Lemma inv_watcher s w wt wt' x :
  inv s → watchers s !! w = Some wt → xfers s !! w_transfer wt = Some x →
  w_transfer wt' = w_transfer wt → w_ok w wt' (x_tr x) →
  (w_owner wt = Manager ↔ w_owner wt' = Manager) → (attached wt = false → attached wt' = false) →
  inv (set_watchers (<[w := wt']> (watchers s)) s).
Proof.
  intros I Hw Hx Ht Hok Hm Ha.
  assert (E : set_watchers (<[w := wt']> (watchers s)) s = set_watchers (<[w := wt']> (watchers s)) (set_xfers (<[w_transfer wt := x]> (xfers s)) s)).
  { unfold set_watchers, set_xfers. simpl. by rewrite (insert_id (xfers s) _ x). }
  rewrite E. eapply inv_step_update; [done|done|done|by eapply (i_xfer _ _ (proj1 I))|done| |].
  - split; [rewrite dom_insert_lookup_L; [done|by exists wt]|]. intros v vt. rewrite lookup_insert_Some.
    intros [[<- <-]|[Hne Hv]]; [exists wt; by rewrite decide_True|]. exists vt. split_and!; [done..|].
    destruct (i_watcher _ _ (proj1 I) _ _ Hv) as (_ & y & Hy & Ho). case_decide as Hd; [|done]. rewrite Hd in Hy. by simplify_eq.
  - intros v vt Hv. destruct (decide (v = w)) as [->|Hne].
    + simplify_eq. exists wt'. by rewrite lookup_insert_eq.
    + exists vt. by rewrite lookup_insert_ne.
Qed.

(** ** The steps of the jobs *)

Lemma wp_get_xfer i x (Q : xfer → transferManager → Prop) s : xfers s !! i = Some x → Q x s → wp (get_xfer i) Q s.
Proof. intros Hi HQ. unfold wp, get_xfer. by rewrite Hi. Qed.
Lemma wp_get_watcher w wt (Q : Watcher → transferManager → Prop) s : watchers s !! w = Some wt → Q wt s → wp (get_watcher w) Q s.
Proof. intros Hi HQ. unfold wp, get_watcher. by rewrite Hi. Qed.
Lemma wp_enabled m (Q : bool → transferManager → Prop) s : wp m (λ _, Q true) s → wp (enabled m) Q s.
Proof. intros H. by apply wp_bind. Qed.
Lemma wp_disabled (I : transferManager → Prop) s : I s → wp disabled (λ _, I) s.
Proof. done. Qed.
Lemma wp_when b m (I : transferManager → Prop) s : I s → (b = true → wp m (λ _, I) s) → wp (when b m) (λ _, I) s.
Proof. intros HI Hm. destruct b; [by apply wp_enabled, Hm|done]. Qed.

Lemma inv_goto s i x j' :
  inv s → xfers s !! i = Some x → j_phase (x_job x) ≠ PDone → j_kind j' = j_kind (x_job x) → j_start j' = j_start (x_job x) →
  job_ok j' → (∀ l, j_result j' = Some (Ok l) → is_upload (j_kind j') = false → j_layer j' = true) →
  wp (put_job i x j') (λ _, inv) s.
Proof.
  intros I Hi Hph Hk Hs Hj Hl. apply wp_modify, (inv_job s i x); [done..|].
  destruct (i_xfer _ _ (proj1 I) i x Hi) as (_ & Hx). destruct Hx. constructor; simpl; try done.
  - intros E. by apply xo_ended0 in E.
  - rewrite Hs. done.
  - eauto.
Qed.

(** No reference on a layer before the registration. *)
Lemma no_result_layer j : job_ok j → j_result j = None → j_layer j = false.
Proof. intros [_ Hl] Hr. destruct (j_layer j); [|done]. destruct Hl as (_ & l & Hl); [done|congruence]. Qed.

Lemma phase_ok_goto j p q : phase_ok j p → phase_ok (goto q j) p.
Proof. intros Hp. induction p; simpl in *; try done. by destruct p0. Qed.

(** The job moves on before it has a result; it ends with one. *)
Lemma inv_move s i x p :
  inv s → xfers s !! i = Some x → j_result (x_job x) = None → phase_ok (x_job x) p →
  j_phase (x_job x) ≠ PDone → wp (put_job i x (goto p (x_job x))) (λ _, inv) s.
Proof.
  intros I Hi Hr Hp Hd. pose proof (xo_job _ (proj2 (i_xfer _ _ (proj1 I) i x Hi))) as Hj.
  pose proof (no_result_layer _ Hj Hr) as Hl. apply inv_goto; try done.
  - split; simpl; [by apply phase_ok_goto|by rewrite Hl].
  - simpl. congruence.
Qed.
Lemma inv_finish s i x r :
  inv s → xfers s !! i = Some x → j_result (x_job x) = None → j_start (x_job x) = true →
  j_phase (x_job x) ≠ PDone → (∀ l, r = Ok l → is_upload (j_kind (x_job x)) = true) →
  wp (put_job i x (finish r (x_job x))) (λ _, inv) s.
Proof.
  intros I Hi Hr Hs Hd Hu. pose proof (xo_job _ (proj2 (i_xfer _ _ (proj1 I) i x Hi))) as Hj.
  pose proof (no_result_layer _ Hj Hr) as Hl. apply inv_goto; try done.
  - split; simpl; [by split; [|eexists]|by rewrite Hl].
  - simpl. intros l [= ->] Hup. rewrite (Hu l) in Hup by done. done.
Qed.

(** What is known at the phase of a job. *)
Lemma inv_phase s i x : inv s → xfers s !! i = Some x → phase_ok (x_job x) (j_phase (x_job x)).
Proof. intros I Hi. apply (jo_phase _ (xo_job _ (proj2 (i_xfer _ _ (proj1 I) i x Hi)))). Qed.

(** A parent that is over has a result. *)
Lemma inv_parent s i x p :
  inv s → xfers s !! i = Some x → p ∈ parents (j_kind (x_job x)) →
  ∃ y, xfers s !! p = Some y ∧ (t_running (x_tr y) = true → is_Some (j_result (x_job y))).
Proof.
  intros I Hi Hp. destruct (i_parents _ _ (proj1 I) _ _ _ Hi Hp) as (_ & y & Hy & _). exists y. split; [done|]. intros Hr.
  pose proof (proj2 (i_xfer _ _ (proj1 I) _ _ Hy)) as Hyo. rewrite (to_running _ (xo_tr _ Hyo)) in Hr.
  assert (E : j_phase (x_job y) = PDone) by (apply (xo_ended _ Hyo); by destruct (t_bc (x_tr y))).
  pose proof (jo_phase _ (xo_job _ Hyo)) as Hph. rewrite E in Hph. apply Hph.
Qed.

Lemma wp_download_result y (Q : result string string → transferManager → Prop) s :
  is_Some (j_result (x_job y)) → (∀ r, Q r s) → wp (download_result y) Q s.
Proof. intros [r Hr] HQ. unfold download_result. rewrite Hr. apply wp_ret, HQ. Qed.

Ltac phase_facts := repeat match goal with H : transferring _ |- _ => destruct H | H : untried _ |- _ => destruct H | H : registering _ |- _ => destruct H | H : _ ∧ _ |- _ => destruct H end.
Ltac solve_phase := simpl in *; unfold registering, transferring, untried, maxAttempts in *; phase_facts;
  repeat match goal with H : j_kind _ = _ |- _ => rewrite H in *; clear H end; simpl in *; split_and?; (done || lia).

Lemma retryStep_inv s i x : inv s → xfers s !! i = Some x → wp (retryStep i x) (λ _, inv) s.
Proof.
  intros I Hi. pose proof (inv_phase s i x I Hi) as Hph. unfold retryStep. destruct (j_phase (x_job x)) eqn:E; try by apply wp_disabled.
  all: destruct Hph as (Ht & ? & ?); pose proof Ht as [[]]; apply wp_enabled, inv_move; rewrite ?E; try done.
  case_decide; simpl; [done|]. split_and!; [done|done|lia].
Qed.

Lemma closeInactive_inv s i x next :
  inv s → xfers s !! i = Some x → j_phase (x_job x) = PInactive →
  (next = PAwaitParent ∧ parents (j_kind (x_job x)) ≠ [] ∨ ∃ l, next = PRegister l) →
  wp (closeInactive i x next) (λ _, inv) s.
Proof.
  intros I Hi E Hnext. pose proof (inv_phase s i x I Hi) as Hph. rewrite E in Hph. destruct Hph as ([Hin Hr] & Hs & Hu).
  unfold closeInactive. rewrite Hin. pose proof (no_result_layer _ (xo_job _ (proj2 (i_xfer _ _ (proj1 I) i x Hi))) Hr) as Hl.
  apply inv_goto; rewrite ?E; try done; simpl; [|congruence].
  split; simpl; [|by rewrite Hl]. destruct Hnext as [[-> Hp]|[l ->]]; simpl; unfold registering; simpl; by split_and?.
Qed.

Lemma inv_end s i x : inv s → xfers s !! i = Some x → j_phase (x_job x) = PFinish → wp (put_job i x (goto PDone (x_job x))) (λ _, inv) s.
Proof.
  intros I Hi E. pose proof (inv_phase s i x I Hi) as Hph. rewrite E in Hph. destruct Hph as (Hu & Hs & l & Hl). apply inv_goto; rewrite ?E; try done; simpl.
  - split; simpl; [by rewrite Hs, Hl; eauto|]. intros _. by eauto.
  - intros l' _ _. assert (t_released (x_tr x) = false) as Hrel; [|by eapply (xo_layer _ (proj2 (i_xfer _ _ (proj1 I) i x Hi)))].
    destruct (i_xfer _ _ (proj1 I) i x Hi) as (_ & Hx). rewrite (to_released _ (xo_tr _ Hx)), (xo_closed _ Hx).
    destruct (x_mgr x) eqn:Hm; try done. exfalso. pose proof (xo_removed _ Hx) as Hrun. rewrite Hm in Hrun. specialize (Hrun eq_refl).
    rewrite (to_running _ (xo_tr _ Hx)) in Hrun. assert (j_phase (x_job x) = PDone); [|congruence]. apply (xo_ended _ Hx). by destruct (t_bc (x_tr x)).
Qed.

(** The look at a parent that may have failed already. *)
Lemma checkParent_inv s i x p :
  inv s → xfers s !! i = Some x → j_phase (x_job x) = PCheckParent → (∀ q, p = Some q → q ∈ parents (j_kind (x_job x))) →
  wp (match p with
      | Some q =>
          y ← get_xfer q;
          if t_running (x_tr y) then
            r ← download_result y;
            put_job i x (match r with Err e => finish (Err e) (x_job x) | Ok _ => goto (PTry 0) (x_job x) end)
          else put_job i x (goto (PTry 0) (x_job x))
      | None => put_job i x (goto (PTry 0) (x_job x))
      end) (λ _, inv) s.
Proof.
  intros I Hi E Hp. pose proof (inv_phase s i x I Hi) as Hph. rewrite E in Hph. pose proof Hph as [[[? ?] ?] ?].
  assert (Hgo : wp (put_job i x (goto (PTry 0) (x_job x))) (λ _, inv) s) by (apply inv_move; rewrite ?E; [done..| |done]; solve_phase).
  destruct p as [q|]; [|done]. destruct (inv_parent s i x q I Hi) as (y & Hy & Hr); [by apply Hp|]. wp_step. apply (wp_get_xfer q y); [done|].
  destruct (t_running (x_tr y)); [|done]. wp_step. apply wp_download_result; [by apply Hr|]. intros [l|e]; [done|].
  apply inv_finish; rewrite ?E; try done. tauto.
Qed.

Lemma jobStep_inv s i : inv s → exists_xfer s i = true → wp (jobStep i) (λ _, inv) s.
Proof.
  intros I Hex. apply bool_decide_eq_true in Hex as [x Hi]. pose proof (inv_phase s i x I Hi) as Hph. pose proof (retryStep_inv s i x I Hi) as Hretry.
  unfold jobStep. wp_step. apply (wp_get_xfer i x); [done|].
  destruct (j_kind (x_job x)) as [pl p|q p|] eqn:Hk; unfold downloadStep, fromDownloadStep, uploadStep;
    destruct (j_phase (x_job x)) eqn:E; try exact Hretry; try by apply wp_disabled.
  (* The phases that a job moves on from with no more than its start. *)
  all: try (apply wp_enabled, inv_move; rewrite ?E; [done|done|solve_phase| |done]; destruct (j_start (x_job x)) eqn:Hs; solve_phase).
  all: try (apply wp_when; [done|]; intros Hs; apply inv_move; rewrite ?E; [done|done|solve_phase|solve_phase|done]).
  all: apply wp_enabled; try by apply inv_end.
  - apply checkParent_inv; [done..|]. intros r ->. rewrite Hk. set_solver.
  - apply closeInactive_inv; [done..|]. destruct p; [left; by rewrite Hk|right; by eauto].
  - apply closeInactive_inv; [done..|]. left. by rewrite Hk.
Qed.

(** Waiting for another download: it ends with its error, or goes on. *)
Lemma awaitDownload_inv s i x p f :
  inv s → xfers s !! i = Some x → p ∈ parents (j_kind (x_job x)) → registering (x_job x) → j_phase (x_job x) ≠ PDone →
  (∀ l, phase_ok (x_job x) (f l)) → wp (awaitDownload i x p f) (λ _, inv) s.
Proof.
  intros I Hi Hp Hreg Hd Hf. destruct (inv_parent s i x p I Hi Hp) as (y & Hy & Hr). destruct Hreg as (Hu & Hs & _ & Hn).
  unfold awaitDownload. wp_step. apply (wp_get_xfer p y); [done|]. apply wp_when; [done|]. intros Hrun. wp_step. apply wp_download_result; [by apply Hr|].
  intros [l|e]; [by apply inv_move|by apply inv_finish].
Qed.

Lemma jobParent_inv s i : inv s → exists_xfer s i = true → wp (jobParent i) (λ _, inv) s.
Proof.
  intros I Hex. apply bool_decide_eq_true in Hex as [x Hi]. pose proof (inv_phase s i x I Hi) as Hph.
  unfold jobParent. wp_step. apply (wp_get_xfer i x); [done|].
  destruct (j_kind (x_job x)) as [pl [pd|]|q pd|] eqn:Hk; unfold downloadParent, fromDownloadParent;
    destruct (j_phase (x_job x)) eqn:E; try by apply wp_disabled.
  all: destruct Hph as [Hreg Hpar]; apply awaitDownload_inv; rewrite ?E; try done; try (rewrite Hk; set_solver); try (intros l); solve_phase.
Qed.

Lemma jobCancelled_inv s i : inv s → exists_xfer s i = true → wp (jobCancelled i) (λ _, inv) s.
Proof.
  intros I Hex. apply bool_decide_eq_true in Hex as [x Hi]. pose proof (inv_phase s i x I Hi) as Hph.
  unfold jobCancelled. wp_step. apply (wp_get_xfer i x); [done|].
  destruct (j_phase (x_job x)) eqn:E; try by apply wp_disabled.
  all: apply wp_when; [done|]; intros _; destruct Hph; apply inv_finish; rewrite ?E; try done; try solve_phase.
Qed.

Lemma jobProgress_inv s i p : inv s → exists_xfer s i = true → wp (jobProgress i p) (λ _, inv) s.
Proof.
  intros I Hex. apply bool_decide_eq_true in Hex as [x Hi]. pose proof (inv_phase s i x I Hi) as Hph.
  unfold jobProgress. wp_step. apply (wp_get_xfer i x); [done|].
  destruct (j_phase (x_job x)) eqn:E; destruct (j_kind (x_job x)) eqn:Hk; try by apply wp_disabled.
  all: apply wp_enabled, inv_move; rewrite ?E; try done; try solve_phase.
Qed.

Lemma failedTry_inv s i x n e dnr :
  inv s → xfers s !! i = Some x → j_phase (x_job x) = PTry n →
  wp (put_job i x (failedTry (t_cancelled (x_tr x)) n e dnr (x_job x))) (λ _, inv) s.
Proof.
  intros I Hi E. pose proof (inv_phase s i x I Hi) as Hph. rewrite E in Hph. destruct Hph as [Ht Hn]. pose proof Ht as [[] []].
  assert (Hend : wp (put_job i x (finish (Err e) (x_job x))) (λ _, inv) s) by (apply inv_finish; rewrite ?E; done).
  unfold failedTry. destruct (t_cancelled (x_tr x)); [done|]. destruct (dnr || _) eqn:Hb; [done|]. apply orb_false_iff in Hb as [_ Hb%bool_decide_eq_false].
  apply inv_move; rewrite ?E; [done..| |done]. split_and!; [done|unfold maxAttempts in *; lia|lia].
Qed.

Lemma jobTried_inv s i r : inv s → exists_xfer s i = true → wp (jobTried i r) (λ _, inv) s.
Proof.
  intros I Hex. apply bool_decide_eq_true in Hex as [x Hi]. pose proof (inv_phase s i x I Hi) as Hph.
  unfold jobTried. wp_step. apply (wp_get_xfer i x); [done|].
  destruct (j_phase (x_job x)) eqn:E; try by apply wp_disabled. apply wp_enabled. destruct Hph as [Ht Hn]. pose proof Ht as [[] []].
  destruct (j_kind (x_job x)) eqn:Hk; unfold downloadTried, uploadTried; destruct r as [d|[e dnr]]; try by apply failedTry_inv.
  all: try (apply inv_move; rewrite ?E; try done; solve_phase).
  apply inv_finish; rewrite ?E; try done. by rewrite Hk.
Qed.

Lemma jobRegistered_inv s i r : inv s → exists_xfer s i = true → wp (jobRegistered i r) (λ _, inv) s.
Proof.
  intros I Hex. apply bool_decide_eq_true in Hex as [x Hi]. pose proof (inv_phase s i x I Hi) as Hph.
  unfold jobRegistered. wp_step. apply (wp_get_xfer i x); [done|].
  destruct (j_phase (x_job x)) eqn:E; try by apply wp_disabled. apply wp_enabled. destruct Hph as (Hu & Hs & Hin & Hr).
  destruct (j_kind (x_job x)) eqn:Hk; unfold downloadRegistered, fromDownloadRegistered; destruct r as [l|[[] e]];
    try (apply inv_finish; rewrite ?E; done).
  all: apply inv_goto; rewrite ?E; try done; split; simpl; rewrite ?Hk; eauto.
Qed.

Lemma layerRelease_inv s i : inv s → exists_xfer s i = true → wp (layerRelease i) (λ _, inv) s.
Proof.
  intros I Hex. apply bool_decide_eq_true in Hex as [x Hi]. pose proof (inv_phase s i x I Hi) as Hph.
  unfold layerRelease. wp_step. apply (wp_get_xfer i x); [done|].
  destruct (j_phase (x_job x)) eqn:E; try by apply wp_disabled. apply wp_when; [done|]. intros [Hl Hrel]%andb_true_iff.
  apply wp_modify, (inv_job s i x); [done..|]. destruct (i_xfer _ _ (proj1 I) i x Hi) as (_ & []). constructor; simpl; try done.
  - congruence.
Qed.

(** ** The steps of a transfer *)

Lemma item_grow l sent k : k ≤ length sent → item (l ++ sent) k = item sent k.
Proof.
  intros Hk. unfold item. rewrite length_app. replace (length l + length sent - k) with (length l + (length sent - k)) by lia.
  by rewrite <-drop_drop, drop_app_length.
Qed.
Lemma item_all sent : item sent (length sent) = head sent.
Proof. unfold item. by rewrite Nat.sub_diag. Qed.

(** A watcher is as right as before when its transfer has moved on. *)
Lemma w_ok_mono w wt t t' :
  w_ok w wt t → t_watchers t' = t_watchers t → t_cancelled t' = t_cancelled t →
  (t_running t = true → t_running t' = true ∧ t_sent t' = t_sent t ∧ stored t' = stored t) →
  (t_broadcastDone t = true → t_broadcastDone t' = true) →
  (∃ l, t_sent t' = l ++ t_sent t) → length (stored t) ≤ length (stored t') →
  (t_lastProgress t ≠ None → t_lastProgress t' ≠ None) → w_ok w wt t'.
Proof.
  intros [] Hw Hc Hrun Hdone [l Hsent] Hst Hlast.
  assert (Hdue : ending (w_phase wt) = true → due wt t' = due wt t).
  { intros He. unfold due. destruct (attached wt) eqn:Ha; [|done]. assert (w_released wt = false) as Hr; [by unfold attached, w_released in *; destruct (w_owner wt)|].
    destruct (Hrun (wo_ending0 He Hr)) as (_ & -> & _). done. }
  constructor; rewrite ?Hw, ?Hc; try done.
  - intros He Hr. by apply Hrun, wo_ending0.
  - eauto.
  - unfold due in *. rewrite Hsent, length_app. destruct (attached wt); lia.
  - intros Hp. rewrite Hdue by (by rewrite Hp). etrans; [by apply wo_top0|done].
  - intros d q Hp. destruct (wo_write0 _ _ Hp) as (H1 & H2 & H3). split_and!; [done|auto|]. intros ->. rewrite Hdue by (by rewrite Hp).
    destruct (H3 eq_refl) as (k & Hk & ->). exists k. rewrite Hsent, length_app, item_grow by lia. split; [lia|done].
  - auto.
  - intros Hp. rewrite Hdue by (by rewrite Hp). destruct (wo_over0 Hp) as (k & Hk & ->). exists k.
    rewrite Hsent, length_app, item_grow by lia. split; [lia|done].
Qed.

(** A watcher at a phase that carries nothing. *)
Definition plain (p : wphase) : bool := match p with WTop false | WSelect | WSync => true | _ => false end.
Lemma w_ok_plain w wt t p :
  w_ok w wt t → plain p = true → w_over wt = false → (p = WSync → w_released wt = true) → w_ok w (at_phase p wt) t.
Proof.
  intros [] Hp Ho Hs. constructor; simpl; try done.
  - intros H. rewrite wo_returned0 in Ho; done.
  - by destruct p as [[]|[]| | | |].
  - by destruct p as [[]|[]| | | |].
  - by destruct p as [[]|[]| | | |].
  - by destruct p as [[]|[]| | | |].
  - by destruct p as [[]|[]| | | |].
Qed.

(** The watchers after the broadcaster's signal. *)
Definition signalled (ws : gset nat) (w : nat) (wt : Watcher) : Watcher :=
  match w_phase wt with
  | WSelect => if bool_decide (w ∈ ws) then at_phase (WTop false) wt else wt
  | _ => wt
  end.
Lemma lookup_signal ws m w : signal ws m !! w = signalled ws w <$> m !! w.
Proof. unfold signal. rewrite map_lookup_imap. by destruct (m !! w) as [wt|]. Qed.
Lemma signalled_same ws w wt : w_transfer (signalled ws w wt) = w_transfer wt ∧ w_owner (signalled ws w wt) = w_owner wt.
Proof. unfold signalled. destruct (w_phase wt); try done. by case_bool_decide. Qed.
Lemma signalled_ok ws w wt t : w_ok w wt t → w_ok w (signalled ws w wt) t.
Proof.
  intros Hw. unfold signalled. destruct (w_phase wt) eqn:E; try done. case_bool_decide; [|done].
  apply w_ok_plain; try done. unfold w_over. by rewrite E.
Qed.
Lemma dom_signal ws m : dom (signal ws m) = dom m.
Proof. apply set_eq. intros w. rewrite !elem_of_dom, lookup_signal, fmap_is_Some. done. Qed.
Lemma owners_signal ws m : owners_step m (signal ws m).
Proof.
  intros w wt Hw. exists (signalled ws w wt). rewrite lookup_signal, Hw. destruct (signalled_same ws w wt) as (E1 & E2).
  unfold attached. by rewrite E1, E2.
Qed.

(** The watchers of a transfer that moves on. *)
Lemma watchers_mono s i x t' W' :
  inv s → xfers s !! i = Some x → (∀ w wt, w_ok w wt (x_tr x) → w_ok w wt t') → W' = watchers s →
  watchers_step i t' (watchers s) W'.
Proof.
  intros I Hi Hm ->. split; [done|]. intros w wt Hw. exists wt. split_and!; [done..|]. case_decide as Hd; [|done].
  destruct (i_watcher _ _ (proj1 I) _ _ Hw) as (_ & y & Hy & Ho). rewrite Hd in Hy. simplify_eq. auto.
Qed.

(** A step of the broadcaster. *)
Lemma inv_tr s i x j' t' :
  inv s → xfers s !! i = Some x → j_kind j' = j_kind (x_job x) → j_start j' = j_start (x_job x) →
  x_ok (mkXfer (x_key x) (x_mgr x) j' t') → t_watchers t' = t_watchers (x_tr x) →
  (∀ w wt, w_ok w wt (x_tr x) → w_ok w wt t') →
  inv (set_xfers (<[i := mkXfer (x_key x) (x_mgr x) j' t']> (xfers s)) s).
Proof.
  intros I Hi Hk Hs Hx Hw Hm. refine (inv_step_update s i x _ (watchers s) I Hi _ Hx _ (watchers_mono _ _ _ _ _ I Hi Hm eq_refl) (owners_refl _)).
  - unfold same_frame, holding. simpl. by rewrite Hk, Hs.
  - simpl. by rewrite Hw.
Qed.

(** A transfer that is not over is tracked and not released. *)
Lemma x_ok_live x : x_ok x → t_running (x_tr x) = false → tracked (x_mgr x) = true ∧ t_released (x_tr x) = false.
Proof.
  intros Hx Hr. rewrite (to_released _ (xo_tr _ Hx)), (xo_closed _ Hx).
  destruct (x_mgr x) eqn:E; try done; pose proof (xo_removed _ Hx) as H; rewrite E in H; by rewrite H in Hr.
Qed.

Ltac tr_facts := repeat match goal with H : tr_ok _ |- _ => destruct H | H : job_ok _ |- _ => destruct H | H : x_ok _ |- _ => destruct H end.

(** The broadcaster receives an item. *)
Lemma receive_inv s i x p next :
  inv s → xfers s !! i = Some x → j_phase (x_job x) = PSend p next → t_bc (x_tr x) = BTop ∨ t_bc (x_tr x) = BSelect →
  inv (set_xfers (<[i := mkXfer (x_key x) (x_mgr x) (goto next (x_job x))
         (mkTransfer (t_watchers (x_tr x)) (t_cancelled (x_tr x)) (t_lastProgress (x_tr x)) (t_running (x_tr x)) (t_released (x_tr x))
            (t_broadcastDone (x_tr x)) (t_closed (x_tr x)) (BGot p) (p :: t_sent (x_tr x)))]> (xfers s)) s).
Proof.
  intros I Hi E Hbc. pose proof (proj2 (i_xfer _ _ (proj1 I) i x Hi)) as Hx.
  assert (stored (x_tr x) = t_sent (x_tr x)) as Hst by (unfold stored; by destruct Hbc as [-> | ->]).
  assert (t_running (x_tr x) = false ∧ t_broadcastDone (x_tr x) = false) as [Hr Hd].
  { rewrite (to_running _ (xo_tr _ Hx)), (to_done _ (xo_tr _ Hx)). by destruct Hbc as [-> | ->]. }
  apply (inv_tr s i x); simpl; try done.
  - tr_facts. constructor; simpl; try done.
    + split; simpl; [|done]. apply phase_ok_goto. rewrite E in jo_phase0. simpl in jo_phase0. by destruct next.
    + constructor; simpl; try done; [naive_solver|]. by rewrite to_last0, Hst.
  - intros w wt Hw. eapply w_ok_mono; [exact Hw|..]; simpl; try done; try congruence; [by exists [p]|].
    unfold stored at 2. simpl. by rewrite Hst.
Qed.

(** It stores the item. *)
Lemma store_inv s i x p :
  inv s → xfers s !! i = Some x → t_bc (x_tr x) = BGot p →
  inv (set_watchers (signal (t_watchers (x_tr x)) (watchers s))
        (set_xfers (<[i := mkXfer (x_key x) (x_mgr x) (x_job x)
           (mkTransfer (t_watchers (x_tr x)) (t_cancelled (x_tr x)) (Some p) (t_running (x_tr x)) (t_released (x_tr x))
              (t_broadcastDone (x_tr x)) (t_closed (x_tr x)) BTop (t_sent (x_tr x)))]> (xfers s)) s)).
Proof.
  intros I Hi E. pose proof (proj2 (i_xfer _ _ (proj1 I) i x Hi)) as Hx. destruct (to_got _ (xo_tr _ Hx) p E) as [l Hl].
  assert (t_running (x_tr x) = false ∧ t_broadcastDone (x_tr x) = false) as [Hr Hd].
  { rewrite (to_running _ (xo_tr _ Hx)), (to_done _ (xo_tr _ Hx)). by rewrite E. }
  apply (inv_step_update s i x); simpl; try done; [| |apply owners_signal].
  - tr_facts. constructor; simpl; try done. constructor; simpl; try done. by rewrite Hl.
  - split; [apply dom_signal|]. intros w wt'. rewrite lookup_signal, fmap_Some. intros (wt & Hw & ->).
    exists wt. split_and!; [done|apply signalled_same|]. destruct (i_watcher _ _ (proj1 I) _ _ Hw) as (_ & y & Hy & Ho).
    case_decide as Hd'.
    + rewrite Hd' in Hy. simplify_eq. apply signalled_ok. eapply w_ok_mono; [exact Ho|..]; simpl; try done; try congruence; [by exists []|].
      unfold stored. simpl. rewrite E, Hl. simpl. lia.
    + unfold signalled. destruct (w_phase wt); try done. case_bool_decide as Hin; [|done]. exfalso.
      destruct (i_member _ _ (proj1 I) _ _ _ Hi Hin) as (? & ? & ?). by simplify_eq.
Qed.

(** Steps that leave the items: the state of the broadcaster and its channels. *)
Lemma bc_inv s i x run dn b :
  inv s → xfers s !! i = Some x →
  (ended b = true → j_phase (x_job x) = PDone) →
  dn = match b with BClose | BOver => true | _ => false end → run = match b with BOver => true | _ => false end →
  (∀ p, b ≠ BGot p) → (∀ p, t_bc (x_tr x) ≠ BGot p) →
  (t_running (x_tr x) = true → run = true) → (t_broadcastDone (x_tr x) = true → dn = true) →
  inv (set_xfers (<[i := mkXfer (x_key x) (x_mgr x) (x_job x)
         (mkTransfer (t_watchers (x_tr x)) (t_cancelled (x_tr x)) (t_lastProgress (x_tr x)) run (t_released (x_tr x))
            dn (t_closed (x_tr x)) b (t_sent (x_tr x)))]> (xfers s)) s).
Proof.
  intros I Hi He Hdn Hrun Hb Hb' Hr Hd. pose proof (proj2 (i_xfer _ _ (proj1 I) i x Hi)) as Hx.
  set (t' := mkTransfer _ _ _ _ _ _ _ _ _). assert (stored t' = stored (x_tr x)) as Hst.
  { unfold stored, t'. simpl. destruct b; try (by destruct (Hb p)); destruct (t_bc (x_tr x)) eqn:Eb; try done; by destruct (Hb' p). }
  apply (inv_tr s i x); simpl; try done.
  - tr_facts. constructor; simpl; try done; [|by eauto]. constructor; simpl; try done; [intros p ->; by destruct (Hb p)|]. by rewrite Hst.
  - intros w wt Hw. eapply w_ok_mono; [exact Hw|..]; simpl; try done; [auto|by exists []|by rewrite Hst].
Qed.

Lemma broadcastStep_inv s i : inv s → exists_xfer s i = true → wp (broadcastStep i) (λ _, inv) s.
Proof.
  intros I Hex. apply bool_decide_eq_true in Hex as [x Hi]. pose proof (proj2 (i_xfer _ _ (proj1 I) i x Hi)) as Hx.
  unfold broadcastStep. wp_step. apply (wp_get_xfer i x); [done|].
  pose proof (to_running _ (xo_tr _ Hx)) as Hrun. pose proof (to_done _ (xo_tr _ Hx)) as Hdn.
  assert (Hgo : ∀ b, ended b = false ∨ j_phase (x_job x) = PDone → (b = BSelect ∨ b = BEnd) → t_bc (x_tr x) = BTop ∨ t_bc (x_tr x) = BSelect →
    wp (put_tr i x (with_bc b (x_tr x))) (λ _, inv) s).
  { intros b Hb Hb' E. apply wp_modify, bc_inv; try done.
    - intros E'. destruct Hb; congruence.
    - rewrite Hdn. by destruct E as [-> | ->], Hb' as [-> | ->].
    - rewrite Hrun. by destruct E as [-> | ->], Hb' as [-> | ->].
    - by destruct Hb' as [-> | ->].
    - by destruct E as [-> | ->]. }
  destruct (t_bc (x_tr x)) eqn:E.
  1: destruct (j_phase (x_job x)) eqn:Ep; apply wp_enabled; try (apply Hgo; auto); apply wp_modify, receive_inv; auto.
  1: destruct (j_phase (x_job x)) eqn:Ep; try (by apply wp_disabled); apply wp_enabled; try (apply Hgo; auto); apply wp_modify, receive_inv; auto.
  - apply wp_enabled. wp_step. apply wp_modify, wp_modify, (store_inv s i x p I Hi E).
  - apply wp_enabled, wp_modify, bc_inv; try done; [|intros q; by rewrite E..]. intros _. apply (xo_ended _ Hx). by rewrite E.
  - apply wp_enabled. rewrite Hrun. apply wp_modify, bc_inv; try done; [|intros q; by rewrite E..]. intros _. apply (xo_ended _ Hx). by rewrite E.
  - by apply wp_disabled.
Qed.

(** ** The steps of the watchers *)

Lemma exists_watcher_inv s w :
  inv s → exists_watcher s w = true →
  ∃ wt x, watchers s !! w = Some wt ∧ xfers s !! w_transfer wt = Some x ∧ w_ok w wt (x_tr x) ∧ x_ok x.
Proof.
  intros I Hex. apply bool_decide_eq_true in Hex as [wt Hw]. destruct (i_watcher _ _ (proj1 I) _ _ Hw) as (_ & x & Hx & Ho).
  exists wt, x. split_and!; [done..|]. by eapply (i_xfer _ _ (proj1 I)).
Qed.

(** The goroutine of the watcher moves; who has the watcher does not change. *)
Lemma inv_at_phase s w wt x ph l :
  inv s → watchers s !! w = Some wt → xfers s !! w_transfer wt = Some x →
  w_ok w (mkWatcher (w_transfer wt) ph (w_owner wt) l (w_due wt)) (x_tr x) →
  inv (set_watchers (<[w := mkWatcher (w_transfer wt) ph (w_owner wt) l (w_due wt)]> (watchers s)) s).
Proof. intros I Hw Hx Ho. by eapply inv_watcher. Qed.

(** What was due is stored, when the watcher has pinged the broadcaster or the
    transfer is over. *)
Lemma w_ok_final w wt t :
  w_ok w wt t → w_over wt = false → stored t = t_sent t → (w_released wt = false → t_running t = true) →
  w_ok w (at_phase (WTop true) wt) t.
Proof.
  intros [] Ho Hst Hr. constructor; simpl; try done.
  - intros H. rewrite wo_returned0 in Ho; done.
  - intros _. by rewrite Hst.
Qed.

(** It looks at the progress, and shows it. *)
Lemma w_ok_look w wt t d :
  w_ok w wt t → tr_ok t → w_phase wt = WTop d → w_ok w (at_phase (WWrite d (t_lastProgress t)) wt) t.
Proof.
  intros [] Ht E. assert (w_over wt = false) as Ho by (unfold w_over; by rewrite E). constructor; simpl; try done.
  - intros H. rewrite wo_returned0 in Ho; done.
  - intros He. apply wo_ending0. rewrite E. by destruct d.
  - intros d' q [= -> <-]. split_and!; [|done|].
    + intros Hn. destruct (w_written wt) eqn:Ew; [done|]. destruct wo_written0; [done|]. done.
    + intros ->. exists (length (stored t)). specialize (wo_top0 E). unfold due in *. simpl.
      assert (∃ l, t_sent t = l ++ stored t) as [l Hl].
      { unfold stored. destruct (t_bc t) eqn:Eb; try by exists []. destruct (to_got _ Ht _ Eb) as [l ->]. by exists [p]. }
      split; [rewrite Hl, length_app in *; unfold attached in *; simpl; lia|]. rewrite Hl, item_grow, item_all by lia. apply (to_last _ Ht).
Qed.
Definition shown (d : bool) (p : option string) (l : list string) : list string :=
  match p with
  | Some q => if negb d || bool_decide (head l ≠ Some q) then q :: l else l
  | None => l
  end.
Lemma head_shown p l : (p = None → l = []) → head (shown true p l) = p.
Proof. intros Hp. unfold shown. destruct p as [q|]; simpl; [|by rewrite Hp]. case_bool_decide as H; done. Qed.

Lemma w_ok_show w wt t d q :
  w_ok w wt t → w_phase wt = WWrite d q →
  w_ok w (mkWatcher (w_transfer wt) (if d then WOver else WSelect) (w_owner wt) (shown d q (w_written wt)) (w_due wt)) t.
Proof.
  intros [] E. assert (w_over wt = false) as Ho by (unfold w_over; by rewrite E). destruct (wo_write0 _ _ E) as (H1 & H2 & H3).
  constructor; simpl; try done.
  - intros H. rewrite wo_returned0 in Ho; done.
  - by destruct d.
  - intros He. apply wo_ending0. rewrite E. by destruct d.
  - by destruct d.
  - by destruct d.
  - by destruct d.
  - intros Hne. destruct q as [q|]; [by apply H2|]. simpl in Hne. auto.
  - destruct d; [|done]. intros _. destruct (H3 eq_refl) as (k & Hk & ->). exists k. split; [done|]. by rewrite head_shown.
Qed.

Lemma watcherStep_inv s w : inv s → exists_watcher s w = true → wp (watcherStep w) (λ _, inv) s.
Proof.
  intros I Hex. destruct (exists_watcher_inv s w I Hex) as (wt & x & Hw & Hx & Ho & Hxo).
  unfold watcherStep. wp_step. apply (wp_get_watcher w wt); [done|]. destruct (w_phase wt) eqn:E; try by apply wp_disabled.
  - apply wp_enabled. wp_step. apply (wp_get_xfer _ x); [done|]. apply wp_modify, (inv_at_phase s w wt x); [done..|].
    apply w_ok_look; [done|apply Hxo|done].
  - apply wp_enabled, wp_modify, (inv_at_phase s w wt x); [done..|]. by apply w_ok_show.
Qed.

Lemma watcherReleased_inv s w : inv s → exists_watcher s w = true → wp (watcherReleased w) (λ _, inv) s.
Proof.
  intros I Hex. destruct (exists_watcher_inv s w I Hex) as (wt & x & Hw & Hx & Ho & Hxo).
  unfold watcherReleased. wp_step. apply (wp_get_watcher w wt); [done|]. destruct (w_phase wt) eqn:E; try by apply wp_disabled.
  apply wp_when; [done|]. intros Hr. apply wp_modify, (inv_at_phase s w wt x); [done..|]. apply w_ok_plain; try done. unfold w_over. by rewrite E.
Qed.

Lemma watcherRunning_inv s w : inv s → exists_watcher s w = true → wp (watcherRunning w) (λ _, inv) s.
Proof.
  intros I Hex. destruct (exists_watcher_inv s w I Hex) as (wt & x & Hw & Hx & Ho & Hxo).
  unfold watcherRunning. wp_step. apply (wp_get_watcher w wt); [done|]. wp_step. apply (wp_get_xfer _ x); [done|].
  destruct (w_phase wt) eqn:E; try by apply wp_disabled.
  all: apply wp_when; [done|]; intros Hr; apply wp_modify, (inv_at_phase s w wt x); [done..|]; apply w_ok_final; try done.
  all: try (unfold w_over; by rewrite E). all: unfold stored; rewrite (to_running _ (xo_tr _ Hxo)) in Hr; by destruct (t_bc (x_tr x)).
Qed.

(** The broadcaster takes the ping of a watcher. *)
Lemma broadcastSync_inv s w : inv s → exists_watcher s w = true → wp (broadcastSync w) (λ _, inv) s.
Proof.
  intros I Hex. destruct (exists_watcher_inv s w I Hex) as (wt & x & Hw & Hx & Ho & Hxo).
  unfold broadcastSync. wp_step. apply (wp_get_watcher w wt); [done|]. wp_step. apply (wp_get_xfer _ x); [done|].
  destruct (w_phase wt) eqn:E, (t_bc (x_tr x)) eqn:Eb; try by apply wp_disabled.
  apply wp_enabled. wp_step. apply wp_modify. set (s1 := set_xfers _ s).
  assert (inv s1) as I1.
  { apply (bc_inv s _ x _ _ BTop I Hx); try done.
    - by rewrite (to_done _ (xo_tr _ Hxo)), Eb.
    - by rewrite (to_running _ (xo_tr _ Hxo)), Eb.
    - by rewrite Eb.
  }
  apply wp_modify, (inv_at_phase s1 w wt (mkXfer (x_key x) (x_mgr x) (x_job x) (with_bc BTop (x_tr x)))); [done|done|by apply lookup_insert_eq|].
  destruct (i_watcher _ _ (proj1 I1) w wt Hw) as (_ & y & Hy & Hyo). simpl in Hy. rewrite lookup_insert_eq in Hy. simplify_eq.
  apply w_ok_final; [done| |done|].
  - unfold w_over. by rewrite E.
  - rewrite (wo_sync _ _ _ Ho E). done.
Qed.

(** [Release] goes on. *)
Lemma releaseStep_inv s w : inv s → exists_watcher s w = true → wp (releaseStep w) (λ _, inv) s.
Proof.
  intros I Hex. destruct (exists_watcher_inv s w I Hex) as (wt & x & Hw & Hx & Ho & Hxo).
  unfold releaseStep. wp_step. apply (wp_get_watcher w wt); [done|]. destruct (w_owner wt) eqn:E; try by apply wp_disabled.
  - apply wp_enabled, wp_modify, (inv_watcher s w wt _ x); try done; [|by simpl; rewrite E].
    destruct Ho. unfold due, attached, w_released in *. rewrite E in *. constructor; simpl; done.
  - apply wp_when; [done|]. intros Hov. apply wp_modify, (inv_watcher s w wt _ x); try done; [|by simpl; rewrite E].
    destruct Ho. unfold due, attached, w_released in *. rewrite E in *. constructor; simpl; done.
Qed.

(** [Close]. *)
Lemma Close_inv s i : inv s → exists_xfer s i = true → wp (Close i) (λ _, inv) s.
Proof.
  intros I Hex. apply bool_decide_eq_true in Hex as [x Hi]. pose proof (proj2 (i_xfer _ _ (proj1 I) i x Hi)) as Hx.
  unfold Close. wp_step. apply (wp_get_xfer i x); [done|]. destruct (x_mgr x) eqn:E; try by apply wp_disabled. apply wp_enabled.
  assert (t_closed (x_tr x) = false) as Hcl by (rewrite (xo_closed _ Hx); by rewrite E).
  assert (t_released (x_tr x) = false) as Hrel by (rewrite (to_released _ (xo_tr _ Hx)); by rewrite Hcl).
  assert (t_running (x_tr x) = true) as Hrun by (apply (xo_removed _ Hx); by rewrite E).
  rewrite Hrel, andb_false_r. apply wp_modify, (inv_step_update s i x _ (watchers s)); try done; [| | |apply owners_refl].
  - unfold same_frame, holding. simpl. rewrite E. done.
  - tr_facts. constructor; simpl; try done.
    + intros Hs. specialize (xo_start0 Hs). congruence.
    + intros l Hl Hu Hw. eapply xo_layer0; done.
  - apply (watchers_mono s i x); try done. intros w wt Hw. eapply w_ok_mono; [exact Hw|..]; simpl; try done. by exists [].
Qed.

(** *** Leaving a transfer *)

Lemma w_ok_leave w wt t :
  w_ok w wt t → tr_ok t → attached wt = true → ∀ t',
  t_watchers t' = t_watchers t ∖ {[w]} → t_sent t' = t_sent t → stored t' = stored t → t_running t' = t_running t →
  t_broadcastDone t' = t_broadcastDone t → t_lastProgress t' = t_lastProgress t →
  w_ok w (mkWatcher (w_transfer wt) (w_phase wt) Removed (w_written wt) (length (t_sent t))) t'.
Proof.
  intros [] Ht Ha t' Hw Hs Hst Hr Hb Hl. unfold due, w_released in *. rewrite Ha in *. constructor; unfold due; simpl; rewrite ?Hw, ?Hs, ?Hst, ?Hr, ?Hb, ?Hl; try done.
  - set_solver.
  - intros H. specialize (wo_sync0 H). unfold attached in Ha. by destruct (w_owner wt).
  - intros He _. apply wo_ending0; [done|]. unfold attached in Ha. by destruct (w_owner wt).
Qed.

Lemma w_ok_stay w v vt t :
  w_ok v vt t → v ≠ w → ∀ t',
  t_watchers t' = t_watchers t ∖ {[w]} → (t_watchers t ∖ {[w]} ≠ ∅ → t_cancelled t' = t_cancelled t) →
  t_sent t' = t_sent t → stored t' = stored t → t_running t' = t_running t →
  t_broadcastDone t' = t_broadcastDone t → t_lastProgress t' = t_lastProgress t → w_ok v vt t'.
Proof.
  intros [] Hne t' Hw Hc Hs Hst Hr Hb Hl. unfold due in *. constructor; unfold due; rewrite ?Hw, ?Hs, ?Hst, ?Hr, ?Hb, ?Hl; try done.
  - set_solver.
  - intros Ho. rewrite Hc; [by apply wo_live0|]. assert (v ∈ t_watchers t); [apply wo_member0; unfold attached; by rewrite Ho|]. set_solver.
Qed.

Lemma Release_core s i w wt x (Q : unit → transferManager → Prop) :
  core 0%Z s → watchers s !! w = Some wt → w_transfer wt = i → xfers s !! i = Some x → attached wt = true →
  (∀ s', core 0%Z s' → calls s' = calls s → tm_mu s' = tm_mu s → n_calls s' = n_calls s → 
     (∀ p, download_at (xfers s) p → download_at (xfers s') p) → (∀ p, is_Some (xfers s !! p) → is_Some (xfers s' !! p)) →
     (∃ wt', watchers s' !! w = Some wt' ∧ w_transfer wt' = i ∧ w_owner wt' = Removed) →
     (∀ v, v ≠ w → watchers s' !! v = watchers s !! v) → Q () s') →
  wp (Release i w) Q s.
Proof.
  intros C Hw Ht Hi Ha HQ. unfold Release. wp_step. apply (wp_get_xfer i x); [done|]. wp_step. apply (wp_get_watcher w wt); [done|].
  wp_step. apply wp_modify. apply wp_modify. pose proof (proj2 (i_xfer _ _ C i x Hi)) as Hx.
  set (t' := mkTransfer _ _ _ _ _ _ _ _ _). set (wt' := mkWatcher _ _ _ _ _).
  refine (HQ (set_watchers (<[w := wt']> (watchers s)) (set_xfers (<[i := mkXfer (x_key x) (x_mgr x) (x_job x) t']> (xfers s)) s)) _ eq_refl eq_refl eq_refl _ _ _ _).
  - apply (core_update 0%Z s i x); try done; simpl.
    + tr_facts. constructor; simpl; try done.
      * constructor; simpl; try done. rewrite to_released0. destruct (t_closed (x_tr x)); simpl; [|by rewrite andb_false_r].
        rewrite andb_true_r. case_bool_decide as H1; case_bool_decide as H2; try done. set_solver.
      * intros l Hl Hu Hr. apply orb_false_iff in Hr as [Hr _]. by eapply xo_layer0.
    + set_solver.
    + split; [rewrite dom_insert_lookup_L; [done|by exists wt]|]. intros v vt. rewrite lookup_insert_Some.
      intros [[<- <-]|[Hne Hv]]; [exists wt; split_and!; [done..|]|exists vt; split_and!; [done..|]].
      * rewrite decide_True by done. destruct (i_watcher _ _ C _ _ Hw) as (_ & y & Hy & Ho). rewrite Ht in Hy. simplify_eq.
        by eapply (w_ok_leave w wt); [done|apply Hx|..].
      * case_decide as Hd; [|done]. destruct (i_watcher _ _ C _ _ Hv) as (_ & y & Hy & Ho). rewrite Hd in Hy. simplify_eq.
        eapply (w_ok_stay w); [exact Ho|done|done| |done..]. simpl. intros Hne'. by rewrite bool_decide_eq_false_2, orb_false_r by done.
  - simpl. intros p Hp. by eapply download_at_put.
  - simpl. intros p Hp. apply lookup_insert_is_Some'. by right.
  - exists wt'. simpl. by rewrite lookup_insert_eq.
  - intros v Hv. simpl. by rewrite lookup_insert_ne.
Qed.

Lemma clientRelease_inv s w : inv s → exists_watcher s w = true → wp (clientRelease w) (λ _, inv) s.
Proof.
  intros I Hex. destruct (exists_watcher_inv s w I Hex) as (wt & x & Hw & Hx & Ho & Hxo).
  unfold clientRelease. wp_step. apply (wp_get_watcher w wt); [done|]. destruct (w_owner wt) eqn:E; try by apply wp_disabled.
  apply wp_enabled. eapply Release_core; [apply I|done|done|done|unfold attached; by rewrite E|].
  intros s' C' Ec Em En Hd Hs (wt' & Hw' & Ht' & Ho') Hv. split; [done|]. destruct (proj2 I) as [Hc Hm]. constructor; rewrite ?Ec, ?Em; [|done].
  intros c cl Hcl. destruct (Hc _ _ Hcl) as (Hlt & Hok & Hp). rewrite En. split_and!; [done| |by auto].
  unfold call_ok in *. rewrite Em. destruct (c_phase cl); [done| | |by auto|].
  - destruct Hok as (Hmu & vt & Hvt & ? & ?). split; [done|]. exists vt. rewrite Hv; [done|]. intros ->. simplify_eq. congruence.
  - destruct Hok as (Hmu & ? & vt & Hvt & ? & Ha). split_and!; [done|by auto|]. exists vt. rewrite Hv; [done|]. intros ->. simplify_eq. unfold attached in Ha. by rewrite E in Ha.
  - destruct Hok as (vt & Hvt & ? & ?). destruct (decide (w0 = w)) as [->|Hne]; [|exists vt; by rewrite Hv].
    simplify_eq. exists wt'. rewrite Ho'. done.
Qed.

(** ** The steps of the manager *)

(** The calls look at little of the rest of the state. *)
Definition calls_same (s s' : transferManager) : Prop :=
  calls s' = calls s ∧ tm_mu s' = tm_mu s ∧ n_calls s' = n_calls s ∧ watchers s' = watchers s ∧
  (∀ p, download_at (xfers s) p → download_at (xfers s') p) ∧ (∀ p, is_Some (xfers s !! p) → is_Some (xfers s' !! p)).
Lemma calls_frame s s' : calls_ok s → calls_same s s' → calls_ok s'.
Proof.
  intros [Hc Hm] (Ec & Em & En & Ew & Hd & Hs). constructor; rewrite ?Ec, ?Em, ?En; [|done].
  intros c cl Hcl. destruct (Hc _ _ Hcl) as (Hlt & Hok & Hp). split_and!; [done| |by auto].
  unfold call_ok in *. rewrite Em, Ew. destruct (c_phase cl); naive_solver.
Qed.
Lemma calls_same_put s s' i x x' :
  xfers s !! i = Some x → xfers s' = <[i := x']> (xfers s) → j_kind (x_job x') = j_kind (x_job x) →
  calls s' = calls s → tm_mu s' = tm_mu s → n_calls s' = n_calls s → watchers s' = watchers s → calls_same s s'.
Proof.
  intros Hi Ex Hk ????. split_and!; try done; rewrite Ex; intros p Hp; [by eapply download_at_put|]. apply lookup_insert_is_Some'. by right.
Qed.

(** The first transfer that waits is started, in the place of another one. *)
Definition started (x : xfer) : xfer := mkXfer (x_key x) (x_mgr x) (open_start (x_job x)) (x_tr x).
Lemma started_ok x : x_ok x → x_ok (started x).
Proof.
  intros []. constructor; simpl; try done. destruct xo_job0 as [Hp Hl]. split; [|done]. simpl.
  generalize (j_phase (x_job x)) as p, Hp. clear. intros p Hp. induction p; simpl in *; try done; try solve_phase. by destruct p0; auto.
Qed.
Lemma core_start s k rest x :
  core 0 s → waitingTransfers s = k :: rest → xfers s !! k = Some x → j_start (x_job x) = false →
  core (-1) (set_slots (activeTransfers s) rest (set_xfers (<[k := started x]> (xfers s)) s)).
Proof.
  intros C E Hk Hs. pose proof (xo_start _ (proj2 (i_xfer _ _ C k x Hk)) Hs) as Hm. destruct C. constructor; simpl; try done.
  - intros i y. rewrite lookup_insert_Some. intros [[-> <-]|[Hne Hy]]; [|by apply i_xfer0]. split; [by eapply i_xfer0|]. apply started_ok. by eapply i_xfer0.
  - by apply (parents_put _ k x).
  - rewrite E in i_sorted0. by apply StronglySorted_inv in i_sorted0 as [].
  - rewrite E in i_sorted0. apply StronglySorted_inv in i_sorted0 as [_ Hlt]. rewrite List.Forall_forall in Hlt.
    intros i. specialize (i_waiting0 i). rewrite E, elem_of_cons in i_waiting0. split.
    + intros Hi. destruct (proj1 i_waiting0 (or_intror Hi)) as (y & Hy & Hys). exists y. rewrite lookup_insert_ne; [done|].
      intros <-. apply list_elem_of_In, Hlt in Hi. lia.
    + intros (y & Hy & Hys). apply lookup_insert_Some in Hy as [[-> <-]|[Hne Hy]]; [done|]. destruct (proj2 i_waiting0) as [->|]; [by eauto|done|done].
  - intros key i. rewrite i_map0. split; intros (y & Hy & Hs' & Ht).
    + destruct (decide (i = k)) as [->|Hne]; [|exists y; by rewrite lookup_insert_ne]. simplify_eq. exists (started x). by rewrite lookup_insert_eq.
    + apply lookup_insert_Some in Hy as [[-> <-]|[Hne Hy]]; [|by eauto]. by exists x.
  - rewrite i_active0. pose proof (slots_put _ k x (started x) Hk) as Hp. unfold holding in Hp. simpl in Hp. rewrite Hs, Hm in Hp. simpl in Hp. lia.
  - intros _. apply i_busy0. by rewrite E.
  - by apply (watcher_put _ _ _ k x).
  - by apply (member_put _ _ k x).
Qed.

(** Its slot is free. *)
Lemma core_idle s : core 0 s → waitingTransfers s = [] → core (-1) (set_slots (activeTransfers s - 1) [] s).
Proof.
  intros [] E. rewrite E in *. constructor; simpl; try done; [lia|]. intros n Hn. specialize (i_bound0 n Hn). lia.
Qed.

(** The goroutine of the manager notes that a transfer has given its slot back, or
    that it is not tracked any more. *)
Lemma core_mgr d s i x m :
  core d s → xfers s !! i = Some x → j_start (x_job x) = true → tracked (x_mgr x) = true → m = MIdle ∨ m = MRemoved ∧ t_running (x_tr x) = true →
  core (d + if holding x then 1 else 0)
    (set_xfers (<[i := mkXfer (x_key x) m (x_job x) (x_tr x)]> (xfers s))
       (set_transfers (if tracked m then transfers s else delete (x_key x) (transfers s)) s)).
Proof.
  intros C Hi Hs Ht Hm. set (x' := mkXfer _ _ _ _). pose proof (slots_put _ i x x' Hi) as Hp.
  assert (holding x' = false) as Hh by (unfold holding; simpl; by destruct Hm as [-> |[-> _]]; rewrite andb_false_r). rewrite Hh in Hp.
  destruct C. constructor; simpl; try done.
  - intros k y. rewrite lookup_insert_Some. intros [[-> <-]|[Hne Hy]]; [|by apply i_xfer0]. destruct (i_xfer0 _ _ Hi) as (Hlt & Hx). split; [done|].
    destruct Hx. constructor; simpl; try done; [congruence|by destruct Hm as [-> |[-> Hm]]|]. rewrite xo_closed0. by destruct Hm as [-> |[-> _]], (x_mgr x).
  - by apply (parents_put _ i x).
  - intros k. rewrite i_waiting0. split; intros (y & Hy & Hys).
    + exists y. rewrite lookup_insert_ne; [done|]. intros <-. congruence.
    + apply lookup_insert_Some in Hy as [[-> <-]|[Hne Hy]]; [simpl in Hys; congruence|by eauto].
  - intros key k. assert (Hk : ∀ y, xfers s !! k = Some y → x_key y = x_key x → tracked (x_mgr y) = true → k = i).
    { intros y Hy Hyk Hyt. assert (transfers s !! x_key x = Some k) as E1 by (apply i_map0; eauto).
      assert (transfers s !! x_key x = Some i) as E2 by (apply i_map0; eauto). congruence. }
    destruct Hm as [-> |[-> Hrun]]; simpl; rewrite ?lookup_delete_Some, i_map0; split.
    + intros (y & Hy & Hys & Hyt). destruct (decide (k = i)) as [->|Hne]; [simplify_eq; exists x'|exists y]; by rewrite ?lookup_insert_eq, ?lookup_insert_ne.
    + intros (y & Hy & Hys & Hyt). apply lookup_insert_Some in Hy as [[-> <-]|[Hne Hy]]; [by exists x|by eauto].
    + intros (Hne & y & Hy & Hys & Hyt). exists y. rewrite lookup_insert_ne; [done|]. intros <-. by simplify_eq.
    + intros (y & Hy & Hys & Hyt). apply lookup_insert_Some in Hy as [[-> <-]|[Hne Hy]]; [done|]. split; [|by eauto].
      intros <-. destruct Hne. symmetry. by eapply Hk.
  - rewrite i_active0. destruct (holding x); lia.
  - by apply (watcher_put _ _ _ i x).
  - by apply (member_put _ _ i x).
Qed.

Lemma inactivate_core s i x (Q : unit → transferManager → Prop) :
  core 0 s → xfers s !! i = Some x → j_start (x_job x) = true →
  (∀ s', core (-1) s' → calls_same s s' → xfers s' !! i = Some x → transfers s' = transfers s → Q () s') →
  wp (inactivate i) Q s.
Proof.
  intros C Hi Hs HQ. unfold inactivate. wp_step. apply (wp_get_xfer i x); [done|]. rewrite Hs. wp_steps. unfold id.
  destruct (waitingTransfers s) as [|k rest] eqn:E.
  - apply wp_modify, HQ; try done. by apply core_idle.
  - assert (k ∈ waitingTransfers s) as Hk by (rewrite E; set_solver). apply (i_waiting _ _ C) in Hk as (y & Hk & Hys).
    wp_step. apply (wp_get_xfer k y); [done|]. rewrite Hys. wp_step. apply wp_modify. wp_steps. apply HQ; try done.
    + by apply (core_start s k rest y).
    + by eapply (calls_same_put s _ k y).
    + simpl. rewrite lookup_insert_ne; [done|]. intros ->. congruence.
Qed.

(** A job that has closed [inactive] has started, and so has one that is over. *)
Lemma inactive_start j : job_ok j → j_inactive j = true → j_start j = true.
Proof.
  intros [Hp _] Hi. generalize (j_phase j) as p, Hp. clear Hp. intros p Hp.
  induction p; simpl in *; unfold transferring, registering, untried in *; try (intuition congruence). by destruct p0; auto.
Qed.
Lemma over_start x : x_ok x → t_running (x_tr x) = true → j_start (x_job x) = true.
Proof.
  intros Hx Hr. rewrite (to_running _ (xo_tr _ Hx)) in Hr. assert (j_phase (x_job x) = PDone) as E by (apply (xo_ended _ Hx); by destruct (t_bc (x_tr x))).
  pose proof (jo_phase _ (xo_job _ Hx)) as Hp. rewrite E in Hp. apply Hp.
Qed.

Lemma mgrInactive_inv s i : inv s → exists_xfer s i = true → wp (mgrInactive i) (λ _, inv) s.
Proof.
  intros I Hex. apply bool_decide_eq_true in Hex as [x Hi]. pose proof (proj2 (i_xfer _ _ (proj1 I) i x Hi)) as Hx.
  unfold mgrInactive. wp_step. apply (wp_get_xfer i x); [done|]. wp_steps. unfold id. destruct (x_mgr x) eqn:E; try by apply wp_disabled.
  apply wp_when; [done|]. intros [_ Hin]%andb_true_iff. pose proof (inactive_start _ (xo_job _ Hx) Hin) as Hs.
  wp_step. apply (inactivate_core s i x); [apply I|done|done|]. intros s' C' Hsame Hi' Et. wp_step. apply (wp_get_xfer i x); [done|].
  pose proof (core_mgr _ _ _ _ MIdle C' Hi' Hs) as C''. rewrite E in C''. specialize (C'' eq_refl (or_introl eq_refl)).
  unfold holding in C''. rewrite Hs, E in C''. simpl in C''. apply wp_modify. split; [by destruct s'|].
  eapply calls_frame; [by eapply calls_frame; [apply I|]|]. by eapply (calls_same_put s' _ i x).
Qed.

Lemma mgrDone_inv s i : inv s → exists_xfer s i = true → wp (mgrDone i) (λ _, inv) s.
Proof.
  intros I Hex. apply bool_decide_eq_true in Hex as [x Hi]. pose proof (proj2 (i_xfer _ _ (proj1 I) i x Hi)) as Hx.
  unfold mgrDone. wp_step. apply (wp_get_xfer i x); [done|]. wp_steps. unfold id. destruct (x_mgr x) eqn:E; try by apply wp_disabled.
  all: apply wp_when; [done|]; intros [_ Hr]%andb_true_iff; pose proof (over_start _ Hx Hr) as Hs; wp_step.
  - apply (inactivate_core s i x); [apply I|done|done|]. intros s' C' Hsame Hi' Et. wp_steps. apply (wp_get_xfer i x); [done|].
    pose proof (core_mgr _ _ _ _ MRemoved C' Hi' Hs) as C''. rewrite E in C''. specialize (C'' eq_refl (or_intror (conj eq_refl Hr))).
    unfold holding in C''. rewrite Hs, E in C''. apply wp_modify. split; [exact C''|].
    eapply calls_frame; [by eapply calls_frame; [apply I|]|]. by eapply (calls_same_put s' _ i x).
  - wp_steps. apply (wp_get_xfer i x); [done|].
    pose proof (core_mgr _ _ _ _ MRemoved (proj1 I) Hi Hs) as C''. rewrite E in C''. specialize (C'' eq_refl (or_intror (conj eq_refl Hr))).
    unfold holding in C''. rewrite Hs, E in C''. apply wp_modify. split; [exact C''|].
    eapply calls_frame; [apply I|]. by eapply (calls_same_put s _ i x).
Qed.

Lemma SetConcurrency_inv s n : inv s → P n → wp (SetConcurrency n) (λ _, inv) s.
Proof.
  intros I Hn. unfold SetConcurrency. wp_steps. apply wp_when; [done|]. intros _. apply wp_modify. split.
  - destruct (proj1 I). by constructor.
  - by apply (calls_frame s); [apply I|].
Qed.

(** *** Calls of [Transfer] *)

Lemma beginTransfer_inv s key k : inv s → wp (beginTransfer key k) (λ _, inv) s.
Proof.
  intros [C [Hc Hm]]. unfold beginTransfer. wp_steps. apply wp_when; [done|]. intros Hp. wp_step. apply wp_modify. apply wp_modify. unfold id in *. split.
  - destruct C. by constructor.
  - constructor; simpl.
    + intros c cl. rewrite lookup_insert_Some. intros [[<- <-]|[Hne Hcl]].
      * split_and!; [lia|done|]. simpl. intros p Hpp. apply list_elem_of_In in Hpp. rewrite forallb_forall in Hp. specialize (Hp p Hpp). simpl in Hp.
        destruct (xfers s !! p) as [x|] eqn:Ex; [|done]. exists x. split; [done|]. by destruct (j_kind (x_job x)).
      * destruct (Hc _ _ Hcl) as (? & Hok & ?). split_and!; [lia|exact Hok|done].
    + intros c Hmu. destruct (Hm _ Hmu) as (cl & Hcl & Hb). exists cl. split; [|done]. rewrite lookup_insert_ne; [done|].
      destruct (Hc _ _ Hcl) as (? & _). lia.
Qed.

(** The state after [Watch]. *)
Definition with_watcher (w : nat) (x : xfer) : xfer :=
  mkXfer (x_key x) (x_mgr x) (x_job x) (with_watchers ({[w]} ∪ t_watchers (x_tr x)) (x_tr x)).
Definition new_watcher (i : nat) (x : xfer) (o : wowner) : Watcher :=
  mkWatcher i (if t_broadcastDone (x_tr x) then WLate else WTop false) o [] 0.
Definition watched (i : nat) (x : xfer) (o : wowner) (s : transferManager) : transferManager :=
  set_counts (n_xfers s) (S (n_watchers s)) (n_calls s)
    (set_watchers (<[n_watchers s := new_watcher i x o]> (watchers s))
       (set_xfers (<[i := with_watcher (n_watchers s) x]> (xfers s)) s)).
Lemma Watch_run s i x : xfers s !! i = Some x → Watch i s = Ret (n_watchers s) (watched i x Manager s).
Proof. intros Hi. unfold Watch, get_xfer, mbind, M_bind. by rewrite Hi. Qed.

Lemma new_watcher_ok w i x o :
  tr_ok (x_tr x) → o = Manager ∨ o = Held ∧ t_cancelled (x_tr x) = false → w_ok w (new_watcher i x o) (x_tr (with_watcher w x)).
Proof.
  intros Ht Ho. assert (attached (new_watcher i x o) = true ∧ w_released (new_watcher i x o) = false) as [Ha Hr]
    by (unfold attached, w_released; simpl; by destruct Ho as [-> |[-> _]]).
  destruct (t_broadcastDone (x_tr x)) eqn:E.
  all: constructor; unfold due; rewrite ?Ha, ?Hr; simpl; rewrite ?E; try done; [set_solver|by destruct Ho as [-> |[-> ?]]|by destruct Ho as [-> |[-> ?]]].
Qed.
Lemma w_ok_join w v vt x : w_ok v vt (x_tr x) → v ≠ w → w_ok v vt (x_tr (with_watcher w x)).
Proof. intros [] Hne. constructor; simpl; try done. set_solver. Qed.

Lemma watched_core s i x o :
  core 0 s → xfers s !! i = Some x → tracked (x_mgr x) = true → o = Manager ∨ o = Held ∧ t_cancelled (x_tr x) = false →
  core 0 (watched i x o s).
Proof.
  intros C Hi Ht Ho. pose proof (proj2 (i_xfer _ _ C i x Hi)) as Hx.
  assert (x_ok (with_watcher (n_watchers s) x)) as Hx'.
  { assert (t_closed (x_tr x) = false) as Hcl by (rewrite (xo_closed _ Hx); by destruct (x_mgr x)). tr_facts. constructor; simpl; try done. constructor; simpl; try done.
    by rewrite to_released0, Hcl. }
  assert (watchers s !! n_watchers s = None) as Hfresh.
  { destruct (watchers s !! n_watchers s) as [wt|] eqn:E; [|done]. apply (i_watcher _ _ C) in E as [? _]. lia. }
  pose proof (slots_put _ i x (with_watcher (n_watchers s) x) Hi) as Hp. unfold holding in Hp. simpl in Hp.
  destruct C. constructor; simpl; try done.
  - intros k y. rewrite lookup_insert_Some. intros [[-> <-]|[Hne Hy]]; [|by apply i_xfer0]. split; [by eapply i_xfer0|done].
  - by apply (parents_put _ i x).
  - intros k. rewrite i_waiting0. split; intros (y & Hy & Hys).
    + destruct (decide (k = i)) as [->|Hne]; [simplify_eq; exists (with_watcher (n_watchers s) x)|exists y]; by rewrite ?lookup_insert_eq, ?lookup_insert_ne.
    + apply lookup_insert_Some in Hy as [[-> <-]|[Hne Hy]]; by eauto.
  - intros key k. rewrite i_map0. split; intros (y & Hy & Hys & Hyt).
    + destruct (decide (k = i)) as [->|Hne]; [simplify_eq; exists (with_watcher (n_watchers s) x)|exists y]; by rewrite ?lookup_insert_eq, ?lookup_insert_ne.
    + apply lookup_insert_Some in Hy as [[-> <-]|[Hne Hy]]; by eauto.
  - rewrite i_active0. lia.
  - intros w wt. rewrite lookup_insert_Some. intros [[<- <-]|[Hne Hw]].
    + split; [lia|]. exists (with_watcher (n_watchers s) x). simpl. rewrite lookup_insert_eq. split; [done|]. by apply new_watcher_ok; [apply Hx|].
    + destruct (i_watcher0 _ _ Hw) as (Hlt & y & Hy & Hwo). split; [lia|]. destruct (decide (w_transfer wt = i)) as [Hd|Hd].
      * rewrite Hd in *. simplify_eq. eexists. rewrite lookup_insert_eq. split; [done|]. by apply w_ok_join.
      * exists y. by rewrite lookup_insert_ne.
  - intros k y w Hy Hw. destruct (decide (w = n_watchers s)) as [->|Hne].
    + exists (new_watcher i x o). rewrite lookup_insert_eq. split; [done|]. simpl. apply lookup_insert_Some in Hy as [[-> <-]|[Hne Hy]]; [done|].
      destruct (i_member0 _ _ _ Hy Hw) as (? & ? & ?). congruence.
    + rewrite lookup_insert_ne by done. apply lookup_insert_Some in Hy as [[-> <-]|[Hne' Hy]]; [|by eauto]. eapply i_member0; [done|]. simpl in Hw. set_solver.
Qed.

(** A new transfer, in the map of the manager. *)
Definition new_xfer (cl : call) (start : bool) : xfer :=
  mkXfer (c_key cl) MWatch (mkJob (c_kind cl) (match c_kind cl with FromDownload _ _ => PAwaitStart | _ => PStart end) None false start false) NewTransfer.
Definition can_start (s : transferManager) : bool := bool_decide (concurrencyLimit s = 0 ∨ activeTransfers s < concurrencyLimit s)%Z.
Definition created (cl : call) (s : transferManager) : transferManager :=
  set_transfers (<[c_key cl := n_xfers s]> (transfers s))
    (set_counts (S (n_xfers s)) (n_watchers s) (n_calls s)
       (set_xfers (<[n_xfers s := new_xfer cl (can_start s)]> (xfers s))
          (if can_start s then set_slots (activeTransfers s + 1) (waitingTransfers s) s
           else set_slots (activeTransfers s) (waitingTransfers s ++ [n_xfers s]) s))).

Lemma new_xfer_ok cl b : x_ok (new_xfer cl b).
Proof.
  constructor; simpl; try done. split; simpl; [|done]. by destruct (c_kind cl).
Qed.

Lemma StronglySorted_snoc l n : StronglySorted lt l → (∀ i, i ∈ l → i < n) → StronglySorted lt (l ++ [n]).
Proof.
  induction 1 as [|a l Hs IH Ha]; intros Hn; simpl; [by repeat constructor|]. constructor; [apply IH; set_solver|].
  rewrite List.Forall_forall in *. intros b Hb. apply in_app_or in Hb as [Hb|[<-|[]]]; [by apply Ha|]. apply Hn. set_solver.
Qed.

Lemma fresh_xfer s : core 0 s → xfers s !! n_xfers s = None.
Proof. intros C. destruct (xfers s !! n_xfers s) as [y|] eqn:E; [|done]. destruct (i_xfer _ _ C _ _ E). lia. Qed.

(** The slots and the queue after [Transfer] has looked at the limit. *)
Lemma created_slots s cl :
  core 0 s → (∀ c, P c → 0 ≤ c)%Z →
  activeTransfers (created cl s) = (Z.of_nat (slots (xfers (created cl s))) + 0)%Z ∧
  (waitingTransfers (created cl s) ≠ [] → 0 < activeTransfers (created cl s))%Z ∧
  (∀ n, (∀ c, P c → 0 < c ≤ n)%Z → (activeTransfers (created cl s) ≤ n)%Z).
Proof.
  intros C HP. pose proof (fresh_xfer s C) as Hfresh. destruct C.
  assert (slots (xfers (created cl s)) = (if can_start s then 1 else 0) + slots (xfers s)) as Hsl.
  { unfold created. simpl. unfold slots. rewrite msum_new by done. unfold holding. simpl. by destruct (can_start s). }
  rewrite Hsl. unfold created, can_start in *. simpl. specialize (HP _ i_limit0). case_bool_decide as Hst; simpl.
  - split_and!; [lia|lia|]. intros n Hn. destruct (Hn _ i_limit0). lia.
  - split_and!; [lia| |done]. intros _. lia.
Qed.

Lemma created_core s cl :
  core 0 s → (∀ c, P c → 0 ≤ c)%Z → transfers s !! c_key cl = None → (∀ p, p ∈ parents (c_kind cl) → download_at (xfers s) p) →
  core 0 (created cl s).
Proof.
  intros C HP Hkey Hpar. destruct (created_slots s cl C HP) as (Ha & Hb & Hn). pose proof (fresh_xfer s C) as Hfresh. destruct C.
  assert (Hnew : xfers (created cl s) = <[n_xfers s := new_xfer cl (can_start s)]> (xfers s)) by done.
  assert (Hne : ∀ i y, xfers s !! i = Some y → n_xfers s ≠ i) by (intros i y Hy <-; congruence).
  assert (Hd : ∀ p, download_at (xfers s) p → p < n_xfers s ∧ download_at (xfers (created cl s)) p).
  { intros p (y & Hy & Hu). split; [by eapply i_xfer0|]. exists y. rewrite Hnew, lookup_insert_ne; [done|by eapply Hne]. }
  constructor; try done; try (by unfold created; simpl; destruct (can_start s)).
  - intros i y. rewrite Hnew, lookup_insert_Some. simpl. intros [[<- <-]|[_ Hy]]; [split; [lia|apply new_xfer_ok]|]. destruct (i_xfer0 _ _ Hy). split; [lia|done].
  - intros i y p. rewrite Hnew, lookup_insert_Some. intros [[<- <-]|[_ Hy]] Hp; [by apply Hd, Hpar|].
    destruct (i_parents0 _ _ _ Hy Hp). split; [done|by apply Hd].
  - unfold created. simpl. destruct (can_start s); simpl; [done|]. apply StronglySorted_snoc; [done|].
    intros i (y & Hy & _)%i_waiting0. by eapply i_xfer0.
  - intros i. rewrite Hnew. assert (waitingTransfers (created cl s) = if can_start s then waitingTransfers s else waitingTransfers s ++ [n_xfers s]) as ->
      by (unfold created; simpl; by destruct (can_start s)).
    transitivity (i ∈ waitingTransfers s ∨ can_start s = false ∧ i = n_xfers s); [destruct (can_start s); set_solver|]. rewrite i_waiting0. split.
    + intros [(y & Hy & Hys)|[Hst ->]]; [exists y; rewrite lookup_insert_ne; [done|by eapply Hne]|]. eexists. by rewrite lookup_insert_eq.
    + intros (y & Hy & Hys). apply lookup_insert_Some in Hy as [[<- <-]|[_ Hy]]; [by right|left; by eauto].
  - intros key i. rewrite Hnew. unfold created. simpl. rewrite lookup_insert_Some. rewrite i_map0. split.
    + intros [[<- <-]|[Hk (y & Hy & Hyk)]]; [eexists; by rewrite lookup_insert_eq|]. exists y. rewrite lookup_insert_ne; [done|by eapply Hne].
    + intros (y & Hy & Hyk & Hyt). apply lookup_insert_Some in Hy as [[<- <-]|[_ Hy]]; [by left|]. right. split; [|by eauto].
      intros <-. assert (transfers s !! c_key cl = Some i); [|congruence]. apply i_map0. by eauto.
  - intros w wt Hw. assert (watchers s !! w = Some wt) as Hw' by (unfold created in Hw; simpl in Hw; by destruct (can_start s)).
    destruct (i_watcher0 _ _ Hw') as (? & y & Hy & Ho). split; [done|]. exists y. rewrite Hnew, lookup_insert_ne; [done|by eapply Hne].
  - intros i y w. rewrite Hnew. assert (watchers (created cl s) = watchers s) as -> by (unfold created; simpl; by destruct (can_start s)).
    rewrite lookup_insert_Some. intros [[<- <-]|[_ Hy]] Hw; [simpl in Hw; set_solver|by eauto].
Qed.

(** A call moves on, while no other call has the lock. *)
Lemma calls_step s s' c cl p :
  calls_ok s → calls s !! c = Some cl → tm_mu s = None ∨ tm_mu s = Some c →
  calls s' = <[c := mkCall (c_key cl) (c_kind cl) p]> (calls s) → n_calls s' = n_calls s →
  (∀ k, download_at (xfers s) k → download_at (xfers s') k) → (∀ k, is_Some (xfers s !! k) → is_Some (xfers s' !! k)) →
  (∀ w wt, watchers s !! w = Some wt → w_owner wt ≠ Manager →
     ∃ wt', watchers s' !! w = Some wt' ∧ w_transfer wt' = w_transfer wt ∧ w_owner wt' ≠ Manager) →
  call_ok s' c (mkCall (c_key cl) (c_kind cl) p) →
  tm_mu s' = (if busy_call (mkCall (c_key cl) (c_kind cl) p) then Some c else None) → calls_ok s'.
Proof.
  intros [Hc Hm] Hcl Hmu Ec En Hd Hs Hw Hok Hmu'. constructor; rewrite ?Ec, ?En.
  - intros c' cl'. rewrite lookup_insert_Some. destruct (Hc _ _ Hcl) as (Hlt & _ & Hp). intros [[<- <-]|[Hne Hcl']]; [by eauto 6|].
    destruct (Hc _ _ Hcl') as (Hlt' & Hok' & Hp'). split_and!; [done| |by auto].
    unfold call_ok in *. destruct (c_phase cl'); [done|destruct Hok' as [Hmu'' _]; destruct Hmu; congruence|destruct Hok' as [Hmu'' _]; destruct Hmu; congruence|by auto|].
    destruct Hok' as (wt & Hwt & Ht & Ho). destruct (Hw _ _ Hwt Ho) as (wt' & ? & ? & ?). exists wt'. split_and!; [done|congruence|done].
  - intros c' E. rewrite E in Hmu'. destruct (busy_call _) eqn:Eb; [|done]. simplify_eq. eexists. by rewrite lookup_insert_eq.
Qed.

Lemma startTransfer_run s c cl :
  startTransfer c cl s =
  Ret () (set_calls (<[c := mkCall (c_key cl) (c_kind cl) (CGot (n_xfers s) (n_watchers s))]> (calls s))
            (watched (n_xfers s) (new_xfer cl (can_start s)) Held (created cl s))).
Proof.
  unfold startTransfer, read, modify, mbind, M_bind, id, put_xfer, modify. cbv beta iota zeta. fold (can_start s).
  match goal with |- context [Watch ?i ?s1] => rewrite (Watch_run s1 i (new_xfer cl (can_start s))) by (simpl; apply lookup_insert_eq) end.
  unfold get_watcher. simpl. rewrite lookup_insert_eq. unfold put_watcher, put_call, watched, created. simpl.
  destruct (can_start s); rewrite (insert_insert_eq (watchers _)); reflexivity.
Qed.

Lemma watched_calls s i x o :
  xfers s !! i = Some x → core 0 s →
  (∀ k, download_at (xfers s) k → download_at (xfers (watched i x o s)) k) ∧
  (∀ k, is_Some (xfers s !! k) → is_Some (xfers (watched i x o s) !! k)) ∧
  (∀ w wt, watchers s !! w = Some wt → watchers (watched i x o s) !! w = Some wt).
Proof.
  intros Hi C. split_and!; simpl.
  - intros k Hk. by eapply download_at_put.
  - intros k Hk. apply lookup_insert_is_Some'. by right.
  - intros w wt Hw. rewrite lookup_insert_ne; [done|]. destruct (i_watcher _ _ C _ _ Hw) as [? _]. lia.
Qed.

(** A call finds a transfer of its key, or starts one. *)
Lemma find_inv s c cl i :
  inv s → calls s !! c = Some cl → tm_mu s = None → transfers s !! c_key cl = Some i →
  wp (w ← Watch i; _ ← modify (set_mu (Some c)); put_call c cl (CWatched i w)) (λ _, inv) s.
Proof.
  intros I Hcl Hmu Hi. apply (i_map _ _ (proj1 I)) in Hi as (x & Hi & Hk & Ht). wp_step. eapply wp_ran; [by apply Watch_run|].
  pose proof (watched_core s i x Manager (proj1 I) Hi Ht (or_introl eq_refl)) as C'. destruct (watched_calls s i x Manager Hi (proj1 I)) as (H1 & H2 & H3).
  wp_steps. apply wp_modify. split; [destruct C'; by constructor|]. eapply (calls_step s _ c cl); [apply I|done|by left|done|done|done|done| | |done].
  - intros w wt Hw Ho. exists wt. split_and!; [by apply H3|done|done].
  - split; [done|]. simpl. eexists. by rewrite lookup_insert_eq.
Qed.

Lemma start_inv s c cl :
  inv s → (∀ n, P n → 0 ≤ n)%Z → calls s !! c = Some cl → tm_mu s = None → transfers s !! c_key cl = None →
  wp (startTransfer c cl) (λ _, inv) s.
Proof.
  intros I HP Hcl Hmu Hkey. eapply wp_ran; [apply startTransfer_run|]. destruct (i_call _ (proj2 I) _ _ Hcl) as (_ & _ & Hpar).
  pose proof (created_core s cl (proj1 I) HP Hkey Hpar) as C1. set (s1 := created cl s) in *. set (x := new_xfer cl (can_start s)).
  assert (xfers s1 !! n_xfers s = Some x) as Hi by (apply lookup_insert_eq).
  pose proof (watched_core s1 (n_xfers s) x Held C1 Hi eq_refl (or_intror (conj eq_refl eq_refl))) as C2.
  destruct (watched_calls s1 _ x Held Hi C1) as (H1 & H2 & H3).
  assert (watchers s1 = watchers s ∧ calls s1 = calls s ∧ n_calls s1 = n_calls s ∧ tm_mu s1 = tm_mu s) as (Ew & Ec & En & Em)
    by (unfold s1, created; simpl; by destruct (can_start s)).
  assert (Hx : ∀ k, is_Some (xfers s !! k) → xfers s1 !! k = xfers s !! k).
  { intros k [y Hy]. unfold s1, created. simpl. rewrite lookup_insert_ne; [done|]. destruct (i_xfer _ _ (proj1 I) _ _ Hy). lia. }
  split; [destruct C2; by constructor|]. eapply (calls_step s _ c cl); [apply I|done|by left|reflexivity|exact En| | | | |exact (eq_trans Em Hmu)].
  - intros k (y & Hy & Hu). apply H1. exists y. split; [|done]. by rewrite Hx.
  - intros k Hk. apply H2. by rewrite Hx.
  - intros w wt Hw Ho. exists wt. split_and!; [|done|done]. apply H3. by rewrite Ew.
  - eexists. simpl. rewrite lookup_insert_eq. done.
Qed.

Lemma owners_held s w wt x :
  core 0 s → watchers s !! w = Some wt → xfers s !! w_transfer wt = Some x → w_owner wt = Manager → t_cancelled (x_tr x) = false →
  core 0 (set_watchers (<[w := owned_by Held wt]> (watchers s)) s).
Proof.
  intros C Hw Hx Ho Hc.
  assert (E : set_watchers (<[w := owned_by Held wt]> (watchers s)) s = set_watchers (<[w := owned_by Held wt]> (watchers s)) (set_xfers (<[w_transfer wt := x]> (xfers s)) s)).
  { unfold set_watchers, set_xfers. simpl. by rewrite (insert_id (xfers s) _ x). }
  rewrite E. eapply core_update; [done|done|done|by eapply (i_xfer _ _ C)|done|].
  split; [rewrite dom_insert_lookup_L; [done|by exists wt]|]. intros v vt. rewrite lookup_insert_Some.
  intros [[<- <-]|[Hne Hv]].
  - exists wt. rewrite decide_True by done. split_and!; [done..|]. destruct (i_watcher _ _ C _ _ Hw) as (_ & y & Hy & Hok). simplify_eq.
    destruct Hok. unfold due, attached, w_released in *. rewrite Ho in *. by constructor.
  - exists vt. split_and!; [done..|]. destruct (i_watcher _ _ C _ _ Hv) as (_ & y & Hy & Hok). case_decide as Hd; [|done]. rewrite Hd in Hy. by simplify_eq.
Qed.

Lemma transferStep_inv s c : inv s → (∀ n, P n → 0 ≤ n)%Z → wp (transferStep c) (λ _, inv) s.
Proof.
  intros I HP. unfold transferStep. wp_steps. unfold id. destruct (calls s !! c) as [cl|] eqn:Hcl; [|by apply wp_disabled].
  destruct (i_call _ (proj2 I) _ _ Hcl) as (_ & Hok & _). unfold call_ok in Hok. destruct (c_phase cl) as [|i w|i w|i|i w] eqn:E; [| | | |by apply wp_disabled].
  - apply wp_when; [done|]. intros Hmu%bool_decide_eq_true. destruct (transfers s !! c_key cl) as [i|] eqn:Hi; [by apply find_inv|by apply start_inv].
  - destruct Hok as (Hmu & wt & Hw & Ht & Ho). destruct (i_watcher _ _ (proj1 I) _ _ Hw) as (_ & x & Hx & _). rewrite Ht in Hx.
    apply wp_enabled. wp_step. apply (wp_get_xfer i x); [done|]. destruct (t_cancelled (x_tr x)) eqn:Hc.
    + wp_step. eapply (Release_core s i w wt x); [apply I|done|done|done|unfold attached; by rewrite Ho|].
      intros s' C' Ec Em En Hd Hs (wt' & Hw' & Ht' & Ho') Hv. apply wp_modify. split; [destruct C'; by constructor|].
      eapply (calls_step s _ c cl); [apply I|done|by right|simpl; by rewrite Ec|done|done|done| | |by simpl; rewrite Em].
      * intros v vt Hvt Hvo. simpl. destruct (decide (v = w)) as [->|Hne]; [simplify_eq; congruence|]. exists vt. by rewrite Hv.
      * split_and!; simpl; [by rewrite Em|by eauto|]. exists wt'. split_and!; [done..|]. unfold attached. by rewrite Ho'.
    + wp_step. apply (wp_get_watcher w wt); [done|]. wp_step. apply wp_modify. wp_step. apply wp_modify. apply wp_modify.
      subst i. pose proof (owners_held s w wt x (proj1 I) Hw Hx Ho Hc) as C'. split; [destruct C'; by constructor|].
      eapply (calls_step s _ c cl); [apply I|done|by right|done|done|done|done| | |done].
      * intros v vt Hvt Hvo. simpl. destruct (decide (v = w)) as [->|Hne]; [simplify_eq; congruence|]. exists vt. by rewrite lookup_insert_ne.
      * unfold call_ok; simpl. exists (owned_by Held wt). by rewrite lookup_insert_eq.
  - destruct Hok as (Hmu & Hi & wt & Hw & Ht & Ha). wp_step. apply (wp_get_watcher w wt); [done|]. destruct (w_owner wt) eqn:Ho; try by apply wp_disabled.
    apply wp_enabled. wp_step. apply wp_modify. apply wp_modify. split; [destruct (proj1 I); by constructor|].
    eapply (calls_step s _ c cl); [apply I|done|by right|done|done|done|done|by eauto|done|done].
  - destruct Hok as [x Hi]. wp_step. apply (wp_get_xfer i x); [done|]. apply wp_when; [done|]. intros _. apply wp_modify. split; [destruct (proj1 I); by constructor|].
    destruct (proj2 I) as [Hc Hm]. constructor; simpl.
    + intros c' cl'. rewrite lookup_insert_Some. destruct (Hc _ _ Hcl) as (? & _ & ?). intros [[<- <-]|[Hne Hcl']]; [by split_and!|]. by apply Hc.
    + intros c' Hmu. destruct (Hm _ Hmu) as (cl' & Hcl' & Hb). exists cl'. rewrite lookup_insert_ne; [done|]. intros <-. simplify_eq. unfold busy_call in Hb. by rewrite E in Hb.
Qed.

(** ** Every state that is reached *)

#[local] Hint Resolve jobStep_inv jobParent_inv jobCancelled_inv jobProgress_inv jobTried_inv jobRegistered_inv layerRelease_inv
  broadcastStep_inv watcherStep_inv watcherReleased_inv watcherRunning_inv broadcastSync_inv releaseStep_inv clientRelease_inv Close_inv
  mgrInactive_inv mgrDone_inv SetConcurrency_inv beginTransfer_inv transferStep_inv : core.

Lemma exec_inv s a :
  inv s → (∀ n, P n → 0 ≤ n)%Z → limit_ok P a → possible s a = true → wp (exec a) (λ _, inv) s.
Proof. intros I HP Hl Hp. destruct a; simpl in *; auto. Qed.

Lemma new_inv n : P n → inv (NewTransferManager n).
Proof.
  intros Hn. split; [|by constructor]. constructor; try done.
  - constructor.
  - intros i. split; [by intros ?%not_elem_of_nil|by intros (x & ? & _)].
  - intros key i. split; [done|by intros (x & ? & _)].
  - intros m Hm. destruct (Hm n Hn). simpl. lia.
Qed.

Lemma reachable_inv s : (∀ n, P n → 0 ≤ n)%Z → reachable P s → inv s.
Proof.
  intros HP. induction 1 as [n Hn|s a b s' Hr IH Hl Hp E]; [by apply new_inv|]. exact (wp_run _ _ _ _ _ (exec_inv s a IH HP Hl Hp) E).
Qed.
End invariant.
