(* ===== verification/XferProofs.v ===== *)
(** What the transfer manager of Xfer.v promises: the slots, the clients and
    their watchers, and that from every state the transfers can finish. *)

From Stdlib Require Import Sorted.
From S2P Require Import Prelude Xfer XferInv.

Local Open Scope nat_scope.

(** ** Progress *)

(** How far a job, a broadcaster and the manager's goroutine are from their end. *)
Fixpoint prank (p : phase) : nat :=
  match p with
  | PStart => 12
  | PAwaitStart => 10
  | PCheckParent => 9
  | PTry _ => 8
  | PRetry _ d => 8 + 3 * d
  | PTick _ d => 6 + 3 * d
  | PInactive => 7
  | PAwaitParent => 6
  | PAwaitSource _ => 5
  | PRegister _ => 4
  | PFinish => 1
  | PSend _ n => S (prank n)
  | PDone => 0
  end.
Definition brank (b : bphase) : nat := match b with BGot _ => 4 | BTop | BSelect => 3 | BEnd => 2 | BClose => 1 | BOver => 0 end.
Definition mrank (m : mphase) : nat := match m with MWatch => 3 | MIdle => 2 | MRemoved => 1 | MClosed => 0 end.
Definition xrank (x : xfer) : nat := 2 * prank (j_phase (x_job x)) + brank (t_bc (x_tr x)) + mrank (x_mgr x).

(** The same for a [Release] with its watcher, for a call, and for a broadcaster
    on its way to its second [select]. *)
Definition wrank (w : Watcher) : nat :=
  match w_owner w with Removed => 30 | Waiting => 15 | _ => 0 end +
  match w_phase w with
  | WTop false => 10 | WWrite false _ => 9 | WSelect => 8 | WSync => 7 | WTop true => 4 | WWrite true _ => 3 | WOver | WLate => 0
  end.
Definition crank (c : call) : nat :=
  match c_phase c with CWatched _ _ => 5 | CReleasing _ _ => 4 | CWait _ => 3 | CTop => 2 | CGot _ _ => 0 end.
Definition bsel (x : xfer) : nat := match t_bc (x_tr x) with BTop => 1 | _ => 0 end.

(** A step closer to the end: in the calls, then the transfers, then the watchers. *)
Definition less (s' s : transferManager) : Prop :=
  let c := msum crank (calls s) in let c' := msum crank (calls s') in
  let x := msum xrank (xfers s) in let x' := msum xrank (xfers s') in
  let w := msum wrank (watchers s) + msum bsel (xfers s) in let w' := msum wrank (watchers s') + msum bsel (xfers s') in
  c' < c ∨ c' = c ∧ (x' < x ∨ x' = x ∧ w' < w).

Lemma less_wf : well_founded less.
Proof.
  intros s. remember (msum crank (calls s)) as c eqn:Ec. revert s Ec.
  induction (lt_wf c) as [c _ IHc]. intros s Ec. remember (msum xrank (xfers s)) as x eqn:Ex. revert s Ec Ex.
  induction (lt_wf x) as [x _ IHx]. intros s Ec Ex. remember (msum wrank (watchers s) + msum bsel (xfers s)) as w eqn:Ew. revert s Ec Ex Ew.
  induction (lt_wf w) as [w _ IHw]. intros s Ec Ex Ew. constructor. intros s' [H|[H [H'|[H' H'']]]].
  - eapply IHc; [|reflexivity]. lia.
  - eapply (IHx (msum xrank (xfers s'))); [lia|congruence|done].
  - eapply (IHw (msum wrank (watchers s') + msum bsel (xfers s'))); [lia|congruence|congruence|done].
Qed.

Lemma less_xfer s s' i x x' :
  xfers s !! i = Some x → xfers s' = <[i := x']> (xfers s) → calls s' = calls s → xrank x' < xrank x → less s' s.
Proof. intros Hi Ex Ec Hr. right. rewrite Ec, Ex. pose proof (msum_put xrank _ _ _ x' Hi). split; [done|]. left. lia. Qed.
Lemma less_watcher s s' w wt wt' :
  watchers s !! w = Some wt → watchers s' = <[w := wt']> (watchers s) → xfers s' = xfers s → calls s' = calls s → wrank wt' < wrank wt → less s' s.
Proof. intros Hi Ew Ex Ec Hr. right. rewrite Ec, Ex, Ew. pose proof (msum_put wrank _ _ _ wt' Hi). split; [done|]. right. split; [done|]. lia. Qed.
Lemma less_select s s' i x x' :
  xfers s !! i = Some x → xfers s' = <[i := x']> (xfers s) → watchers s' = watchers s → calls s' = calls s →
  xrank x' = xrank x → bsel x' < bsel x → less s' s.
Proof.
  intros Hi Ex Ew Ec Hr Hb. right. rewrite Ec, Ex, Ew. pose proof (msum_put xrank _ _ _ x' Hi). pose proof (msum_put bsel _ _ _ x' Hi).
  split; [done|]. right. lia.
Qed.
Lemma less_call s s' c cl cl' :
  calls s !! c = Some cl → calls s' = <[c := cl']> (calls s) → crank cl' < crank cl → less s' s.
Proof. intros Hi Ec Hr. left. rewrite Ec. pose proof (msum_put crank _ _ _ cl' Hi). lia. Qed.

(** The action is one of the engine, it is possible, and it is a step closer. *)
Definition advances (s : transferManager) (a : action) : Prop :=
  internal a = true ∧ possible s a = true ∧ wp (exec a) (λ b s', b = true ∧ less s' s) s.

(** The download that a job waits for. *)
Definition awaited (j : job) : option nat :=
  match j_phase j, j_kind j with
  | PAwaitParent, Download _ (Some p) | PAwaitParent, FromDownload _ p | PAwaitSource _, FromDownload p _ => Some p
  | _, _ => None
  end.
Lemma awaited_parent j p : awaited j = Some p → p ∈ parents (j_kind j).
Proof. unfold awaited. destruct (j_phase j), (j_kind j) as [? [?|]| |]; intros E; simplify_eq/=; set_solver. Qed.

Section progress.
  Context (P : Z → Prop) (s : transferManager) (I : inv P s).

Lemma adv_job i x j' :
  xfers s !! i = Some x → prank (j_phase j') < prank (j_phase (x_job x)) → wp (put_job i x j') (λ _ s', less s' s) s.
Proof. intros Hi Hr. apply wp_modify. eapply (less_xfer s _ i x _ Hi); [reflexivity|done|]. unfold xrank. simpl. lia. Qed.

Lemma exists_xfer_true i x : xfers s !! i = Some x → exists_xfer s i = true.
Proof. intros Hi. apply bool_decide_eq_true. by exists x. Qed.

Lemma wp_true m : wp m (λ _ s', less s' s) s → wp (enabled m) (λ b s', b = true ∧ less s' s) s.
Proof. intros H. apply wp_enabled. eapply wp_mono; [exact H|]. by intros. Qed.
Lemma wp_when_true b m : b = true → wp m (λ _ s', less s' s) s → wp (when b m) (λ b s', b = true ∧ less s' s) s.
Proof. intros ->. apply wp_true. Qed.

(** A job that does not wait goes on. *)
Lemma adv_step i x :
  xfers s !! i = Some x →
  match j_phase (x_job x) with
  | PStart | PCheckParent | PRetry _ _ | PTick _ _ | PInactive | PFinish => True
  | PAwaitStart => j_start (x_job x) = true
  | _ => False
  end → advances s (AJob i).
Proof using I.
  intros Hi Hph. split_and!; [done|by eapply exists_xfer_true|]. simpl. unfold jobStep. wp_step. apply (wp_get_xfer i x); [done|].
  pose proof (inv_phase P s i x I Hi) as Hok. destruct (j_phase (x_job x)) eqn:E; try done.
  all: destruct (j_kind (x_job x)) as [pl p|q p|] eqn:Hk; unfold downloadStep, fromDownloadStep, uploadStep, retryStep; rewrite E; try (exfalso; simpl in Hok; unfold transferring in Hok; rewrite Hk in Hok; naive_solver).
  all: try (apply wp_when_true; [done|]; apply adv_job; [done|]; rewrite E; simpl; lia).
  all: apply wp_true; try (apply adv_job; [done|]; rewrite E; try destruct Hok as (_ & _ & ?); simpl; (case_decide || destruct (j_start (x_job x))); simpl; lia).
  - assert (Hgo : wp (put_job i x (goto (PTry 0) (x_job x))) (λ _ s', less s' s) s) by (apply adv_job; [done|]; rewrite E; simpl; lia).
    destruct p as [p|]; [|done].
    destruct (inv_parent P s i x p I Hi) as (y & Hy & Hr); [rewrite Hk; apply list_elem_of_here|]. wp_step. apply (wp_get_xfer p y); [done|].
    destruct (t_running (x_tr y)); [|done]. wp_step. apply wp_download_result; [by apply Hr|]. intros [l|e]; [done|].
    apply adv_job; [done|]. rewrite E. simpl. lia.
  - unfold closeInactive. destruct Hok as ([-> _] & _). apply adv_job; [done|]. rewrite E. destruct p; simpl; lia.
  - unfold closeInactive. destruct Hok as ([-> _] & _). apply adv_job; [done|]. rewrite E. simpl; lia.
Qed.

(** The outside answers. *)
Lemma adv_tried i x n : xfers s !! i = Some x → j_phase (x_job x) = PTry n → advances s (ATried i (Ok "")).
Proof.
  intros Hi E. split_and!; [done|by eapply exists_xfer_true|]. simpl. unfold jobTried. wp_step. apply (wp_get_xfer i x); [done|]. rewrite E.
  apply wp_true, adv_job; [done|]. rewrite E. destruct (j_kind (x_job x)); simpl; lia.
Qed.
Lemma adv_registered i x l : xfers s !! i = Some x → j_phase (x_job x) = PRegister l → advances s (ARegistered i (Ok "")).
Proof.
  intros Hi E. split_and!; [done|by eapply exists_xfer_true|]. simpl. unfold jobRegistered. wp_step. apply (wp_get_xfer i x); [done|]. rewrite E.
  apply wp_true, adv_job; [done|]. rewrite E. destruct (j_kind (x_job x)); simpl; lia.
Qed.

(** The download that a job waits for is over. *)
Lemma adv_parent i x p y :
  xfers s !! i = Some x → awaited (x_job x) = Some p → xfers s !! p = Some y → t_running (x_tr y) = true → advances s (AParent i).
Proof using I.
  intros Hi Ha Hy Hr. split_and!; [done|by eapply exists_xfer_true|]. simpl. unfold jobParent. wp_step. apply (wp_get_xfer i x); [done|].
  destruct (inv_parent P s i x p I Hi (awaited_parent _ _ Ha)) as (y' & Hy' & Hres). simplify_eq. specialize (Hres Hr). unfold awaited in Ha.
  destruct (j_phase (x_job x)) eqn:E; destruct (j_kind (x_job x)) as [? [?|]| |]; simplify_eq; unfold downloadParent, fromDownloadParent; rewrite E.
  all: unfold awaitDownload; wp_step; apply (wp_get_xfer p y); [done|]; apply wp_when_true; [done|]; wp_step; apply wp_download_result; [done|].
  all: intros [l|e]; apply adv_job; try done; rewrite E; simpl; lia.
Qed.

(** The broadcaster of a transfer that sends, that has ended, or that has an item. *)
Lemma adv_broadcast i x :
  xfers s !! i = Some x → t_running (x_tr x) = false →
  (match t_bc (x_tr x) with
   | BTop => True
   | BSelect => match j_phase (x_job x) with PSend _ _ | PDone => True | _ => False end
   | _ => True
   end) → advances s (ABroadcast i).
Proof using I.
  intros Hi Hr Hb. split_and!; [done|by eapply exists_xfer_true|]. simpl. unfold broadcastStep. wp_step. apply (wp_get_xfer i x); [done|].
  pose proof (to_running _ (xo_tr _ (proj2 (i_xfer P _ _ (proj1 I) i x Hi)))) as Hrun.
  destruct (t_bc (x_tr x)) eqn:E.
  - destruct (j_phase (x_job x)) eqn:Ep; apply wp_true, wp_modify.
    all: try (eapply (less_xfer s _ i x _ Hi); [reflexivity|done|]; unfold xrank; simpl; rewrite E, Ep; simpl; lia).
    all: eapply (less_select s _ i x _ Hi); [reflexivity|done|done|unfold xrank|unfold bsel]; simpl; rewrite E; simpl; lia.
  - destruct (j_phase (x_job x)) eqn:Ep; try done; apply wp_true, wp_modify.
    all: eapply (less_xfer s _ i x _ Hi); [reflexivity|done|]; unfold xrank; simpl; rewrite E, Ep; simpl; lia.
  - apply wp_true. wp_step. apply wp_modify, wp_modify. eapply (less_xfer s _ i x _ Hi); [reflexivity|done|]. unfold xrank. simpl. rewrite E. simpl. lia.
  - apply wp_true, wp_modify. eapply (less_xfer s _ i x _ Hi); [reflexivity|done|]. unfold xrank. simpl. rewrite E. simpl. lia.
  - apply wp_true. rewrite Hr. apply wp_modify. eapply (less_xfer s _ i x _ Hi); [reflexivity|done|]. unfold xrank. simpl. rewrite E. simpl. lia.
  - congruence.
Qed.

(** The manager's goroutine. *)
Lemma inactivate_rank i x (Q : unit → transferManager → Prop) :
  xfers s !! i = Some x → j_start (x_job x) = true →
  (∀ s', xfers s' !! i = Some x → calls s' = calls s → msum xrank (xfers s') = msum xrank (xfers s) → Q () s') →
  wp (inactivate i) Q s.
Proof using I.
  intros Hi Hs HQ. unfold inactivate. wp_step. apply (wp_get_xfer i x); [done|]. rewrite Hs. wp_steps. unfold id.
  destruct (waitingTransfers s) as [|k rest] eqn:E; [by apply wp_modify, HQ|].
  assert (k ∈ waitingTransfers s) as Hk by (rewrite E; apply list_elem_of_here). apply (i_waiting P _ _ (proj1 I)) in Hk as (y & Hk & Hys).
  wp_step. apply (wp_get_xfer k y); [done|]. rewrite Hys. wp_step. apply wp_modify. wp_steps. apply HQ; simpl; [|done|].
  - rewrite lookup_insert_ne; [done|]. intros ->. congruence.
  - pose proof (msum_put xrank _ _ _ (mkXfer (x_key y) (x_mgr y) (open_start (x_job y)) (x_tr y)) Hk) as H. unfold xrank in H at 2 4. simpl in H. lia.
Qed.
Lemma less_mgr s' i x m :
  xfers s' !! i = Some x → calls s' = calls s → msum xrank (xfers s') = msum xrank (xfers s) → mrank m < mrank (x_mgr x) →
  ∀ s'', xfers s'' = <[i := mkXfer (x_key x) m (x_job x) (x_tr x)]> (xfers s') → calls s'' = calls s' → less s'' s.
Proof.
  intros Hi Ec Er Hm s'' Ex Ec'. right. rewrite Ec', Ec, Ex. split; [done|]. left. set (x' := mkXfer _ _ _ _).
  pose proof (msum_put xrank _ _ _ x' Hi) as H. unfold xrank in H at 2 4. simpl in H. lia.
Qed.

Lemma adv_inactive i x :
  xfers s !! i = Some x → tm_mu s = None → x_mgr x = MWatch → j_inactive (x_job x) = true → advances s (AInactive i).
Proof using I.
  intros Hi Hmu Hm Hin. split_and!; [done|by eapply exists_xfer_true|]. simpl. unfold mgrInactive. wp_step. apply (wp_get_xfer i x); [done|].
  wp_steps. unfold id. rewrite Hm. apply wp_when_true; [by rewrite Hmu, Hin|].
  pose proof (inactive_start _ (xo_job _ (proj2 (i_xfer P _ _ (proj1 I) i x Hi))) Hin) as Hs.
  wp_step. apply (inactivate_rank i x); [done..|]. intros s' Hi' Ec Er. wp_step. apply (wp_get_xfer i x); [done|].
  apply wp_modify. eapply (less_mgr s' i x MIdle); try done. rewrite Hm. simpl. lia.
Qed.
Lemma adv_finished i x :
  xfers s !! i = Some x → tm_mu s = None → tracked (x_mgr x) = true → t_running (x_tr x) = true → advances s (AFinished i).
Proof using I.
  intros Hi Hmu Hm Hr. split_and!; [done|by eapply exists_xfer_true|]. simpl. unfold mgrDone. wp_step. apply (wp_get_xfer i x); [done|].
  wp_steps. unfold id. pose proof (over_start _ (proj2 (i_xfer P _ _ (proj1 I) i x Hi)) Hr) as Hs.
  destruct (x_mgr x) eqn:E; try done; (apply wp_when_true; [by rewrite Hmu, Hr|]); wp_step.
  - apply (inactivate_rank i x); [done..|]. intros s' Hi' Ec Er. wp_steps. apply (wp_get_xfer i x); [done|].
    apply wp_modify. eapply (less_mgr s' i x MRemoved); try done. rewrite E. simpl. lia.
  - wp_steps. apply (wp_get_xfer i x); [done|]. apply wp_modify. eapply (less_mgr s i x MRemoved); try done. rewrite E. simpl. lia.
Qed.
Lemma adv_close i x : xfers s !! i = Some x → x_mgr x = MRemoved → advances s (AClose i).
Proof using I.
  intros Hi E. split_and!; [done|by eapply exists_xfer_true|]. simpl. unfold Close. wp_step. apply (wp_get_xfer i x); [done|]. rewrite E.
  apply wp_true. pose proof (proj2 (i_xfer P _ _ (proj1 I) i x Hi)) as Hx. rewrite (to_released _ (xo_tr _ Hx)), (xo_closed _ Hx), E. rewrite andb_false_r.
  apply wp_modify. eapply (less_xfer s _ i x _ Hi); [reflexivity|done|]. unfold xrank. simpl. rewrite E. simpl. lia.
Qed.

(** A [Release] that has not returned goes on, or what it waits for does. *)
Lemma adv_release w wt :
  watchers s !! w = Some wt → w_owner wt = Removed ∨ w_owner wt = Waiting → ∃ a, advances s a.
Proof using I.
  intros Hw Ho. assert (exists_watcher s w = true) as Hex by (apply bool_decide_eq_true; by exists wt).
  destruct (exists_watcher_inv P s w I Hex) as (wt' & x & Hw' & Hx & Hok & Hxo). simplify_eq.
  assert (Hput : ∀ wt', wrank wt' < wrank wt → wp (put_watcher w wt') (λ _ s', less s' s) s).
  { intros wt' Hr. apply wp_modify. by eapply (less_watcher s _ w wt). }
  destruct Ho as [Ho|Ho].
  { exists (AReleaseStep w). split_and!; [done|done|]. simpl. unfold releaseStep. wp_step. apply (wp_get_watcher w wt); [done|]. rewrite Ho.
    apply wp_true, Hput. unfold wrank. simpl. rewrite Ho. lia. }
  assert (w_released wt = true) as Hrel by (unfold w_released; by rewrite Ho).
  destruct (w_over wt) eqn:Hov.
  { exists (AReleaseStep w). split_and!; [done|done|]. simpl. unfold releaseStep. wp_step. apply (wp_get_watcher w wt); [done|]. rewrite Ho.
    apply wp_when_true; [done|]. apply Hput. unfold wrank. simpl. rewrite Ho. lia. }
  destruct (w_phase wt) as [d|d p| | | |] eqn:E; try (unfold w_over in Hov; by rewrite E in Hov).
  - exists (AWatcher w). split_and!; [done|done|]. simpl. unfold watcherStep. wp_step. apply (wp_get_watcher w wt); [done|]. rewrite E.
    apply wp_true. wp_step. apply (wp_get_xfer _ x); [done|]. apply Hput. unfold wrank. simpl. rewrite E. destruct d; lia.
  - exists (AWatcher w). split_and!; [done|done|]. simpl. unfold watcherStep. wp_step. apply (wp_get_watcher w wt); [done|]. rewrite E.
    apply wp_true, Hput. unfold wrank. simpl. rewrite E. destruct d; lia.
  - exists (AWatcherReleased w). split_and!; [done|done|]. simpl. unfold watcherReleased. wp_step. apply (wp_get_watcher w wt); [done|]. rewrite E.
    apply wp_when_true; [done|]. apply Hput. unfold wrank. simpl. rewrite E. lia.
  - destruct (t_running (x_tr x)) eqn:Hr.
    { exists (AWatcherRunning w). split_and!; [done|done|]. simpl. unfold watcherRunning. wp_step. apply (wp_get_watcher w wt); [done|].
      wp_step. apply (wp_get_xfer _ x); [done|]. rewrite E. apply wp_when_true; [done|]. apply Hput. unfold wrank. simpl. rewrite E. lia. }
    assert (t_bc (x_tr x) = BSelect ∨ match t_bc (x_tr x) with BSelect => False | _ => True end) as [Eb|Eb] by (destruct (t_bc (x_tr x)); auto).
    2: { exists (ABroadcast (w_transfer wt)). apply (adv_broadcast _ x); try done. by destruct (t_bc (x_tr x)). }
    exists (ASync w). split_and!; [done|done|]. simpl. unfold broadcastSync. wp_step. apply (wp_get_watcher w wt); [done|].
    wp_step. apply (wp_get_xfer _ x); [done|]. rewrite E, Eb. apply wp_true. wp_step. apply wp_modify, wp_modify.
    right. simpl. set (x' := mkXfer _ _ _ _). pose proof (msum_put xrank _ _ _ x' Hx) as H1. pose proof (msum_put bsel _ _ _ x' Hx) as H2.
    pose proof (msum_put wrank _ _ _ (at_phase (WTop true) wt) Hw) as H3.
    assert (xrank x' = xrank x ∧ bsel x' = 1 ∧ bsel x = 0 ∧ wrank wt = 22 ∧ wrank (at_phase (WTop true) wt) = 19) as (E1 & E2 & E3 & E4 & E5)
      by (unfold xrank, bsel, wrank; simpl; by rewrite Eb, E, Ho).
    split; [done|]. right. lia.
Qed.

(** A transfer that has started and is not closed goes on, or waits for another. *)
Lemma adv_started i x :
  tm_mu s = None → xfers s !! i = Some x → x_mgr x ≠ MClosed → j_start (x_job x) = true →
  (∃ a, advances s a) ∨ j_inactive (x_job x) = true ∧ ∃ p y, p < i ∧ xfers s !! p = Some y ∧ t_running (x_tr y) = false.
Proof using I.
  intros Hmu Hi Hm Hs. pose proof (proj2 (i_xfer P _ _ (proj1 I) i x Hi)) as Hx. pose proof (inv_phase P s i x I Hi) as Hph.
  destruct (tracked (x_mgr x)) eqn:Ht; [|left; exists (AClose i); apply (adv_close i x); [done|]; by destruct (x_mgr x)].
  destruct (t_running (x_tr x)) eqn:Hr; [left; exists (AFinished i); by apply (adv_finished i x)|].
  assert (Hawait : ∀ p, awaited (x_job x) = Some p → j_inactive (x_job x) = true →
    (∃ a, advances s a) ∨ j_inactive (x_job x) = true ∧ ∃ p y, p < i ∧ xfers s !! p = Some y ∧ t_running (x_tr y) = false).
  { intros p Ha Hin. destruct (i_parents P _ _ (proj1 I) _ _ _ Hi (awaited_parent _ _ Ha)) as (Hlt & y & Hy & _).
    destruct (t_running (x_tr y)) eqn:Hyr; [left; exists (AParent i); by apply (adv_parent i x p y)|right; split; [done|]; by exists p, y]. }
  assert (Hb : (t_bc (x_tr x) = BSelect → match j_phase (x_job x) with PSend _ _ | PDone => True | _ => False end) → ∃ a, advances s a).
  { intros Hb. exists (ABroadcast i). apply (adv_broadcast i x); [done..|]. destruct (t_bc (x_tr x)); try done. by apply Hb. }
  destruct (j_phase (x_job x)) eqn:E; try (left; by apply Hb).
  all: try (left; exists (AJob i); apply (adv_step i x); [done|by rewrite E]).
  - left. exists (ATried i (Ok "")). by eapply adv_tried.
  - destruct Hph as ((Hu & _ & Hin & _) & Hpar). destruct (awaited (x_job x)) as [p|] eqn:Ha; [by apply (Hawait p)|].
    unfold awaited in Ha. rewrite E in Ha. by destruct (j_kind (x_job x)) as [? [?|]| |].
  - destruct Hph as ((Hu & _ & Hin & _) & Hfrom). destruct (awaited (x_job x)) as [p|] eqn:Ha; [by apply (Hawait p)|].
    unfold awaited in Ha. rewrite E in Ha. by destruct (j_kind (x_job x)) as [? [?|]| |].
  - left. exists (ARegistered i (Ok "")). by eapply adv_registered.
Qed.

(** A transfer with a slot never waits for another: it gives the slot back first. *)
Lemma adv_holding i x : tm_mu s = None → xfers s !! i = Some x → holding x = true → ∃ a, advances s a.
Proof using I.
  intros Hmu Hi Hh. unfold holding in Hh. apply andb_true_iff in Hh as [Hs Hm]. assert (x_mgr x = MWatch) as Em by (by destruct (x_mgr x)).
  destruct (adv_started i x Hmu Hi) as [Ha|[Hin _]]; [by rewrite Em|done|done|]. exists (AInactive i). by apply (adv_inactive i x).
Qed.

(** Transfers wait only while others have slots. *)
Lemma adv_xfer i x : tm_mu s = None → xfers s !! i = Some x → x_mgr x ≠ MClosed → ∃ a, advances s a.
Proof using I.
  intros Hmu. destruct (waitingTransfers s) as [|k rest] eqn:Ew.
  - revert x. induction (lt_wf i) as [i _ IH]. intros x Hi Hm. destruct (j_start (x_job x)) eqn:Hs.
    + destruct (adv_started i x Hmu Hi Hm Hs) as [Ha|(_ & p & y & Hlt & Hy & Hr)]; [done|]. apply (IH p Hlt y Hy). intros Em.
      pose proof (xo_removed _ (proj2 (i_xfer P _ _ (proj1 I) p y Hy))) as Hrun. rewrite Em in Hrun. rewrite Hrun in Hr; done.
    + assert (i ∈ waitingTransfers s) as Hin by (apply (i_waiting P _ _ (proj1 I)); eauto). rewrite Ew in Hin. by apply not_elem_of_nil in Hin.
  - intros _ _. pose proof (i_busy P _ _ (proj1 I)) as Hb. rewrite Ew in Hb. specialize (Hb ltac:(done)). rewrite (i_active P _ _ (proj1 I)) in Hb.
    destruct (msum_pos (λ x, if holding x then 1 else 0) (xfers s)) as (j & y & Hj & Hh); [unfold slots in Hb; lia|].
    apply (adv_holding j y); [done|done|]. simpl in Hh. destruct (holding y); [done|lia].
Qed.

(** A call that has the lock goes on, or the release that it waits for does. *)
Lemma adv_locked c : tm_mu s = Some c → ∃ a, advances s a.
Proof using I.
  intros Hmu. destruct (i_mu s (proj2 I) c Hmu) as (cl & Hcl & Hb). destruct (i_call s (proj2 I) c cl Hcl) as (_ & Hok & _).
  unfold call_ok, busy_call in *. destruct (c_phase cl) as [|i w|i w|i|i w] eqn:E; try done.
  - destruct Hok as (_ & wt & Hw & Ht & Ho). destruct (i_watcher P _ _ (proj1 I) _ _ Hw) as (_ & x & Hx & _). rewrite Ht in Hx.
    exists (ATransfer c). split_and!; [done|done|]. simpl. unfold transferStep. wp_steps. unfold id. rewrite Hcl, E. apply wp_true.
    wp_step. apply (wp_get_xfer i x); [done|]. destruct (t_cancelled (x_tr x)) eqn:Hc.
    + wp_step. eapply (Release_core P s i w wt x); [apply I|done|done|done|unfold attached; by rewrite Ho|]. intros s' _ Ec _ _ _ _ _ _.
      apply wp_modify. eapply (less_call s _ c cl); [done|simpl; by rewrite Ec|]. unfold crank. simpl. rewrite E. lia.
    + wp_step. apply (wp_get_watcher w wt); [done|]. wp_step. apply wp_modify. wp_step. apply wp_modify, wp_modify.
      eapply (less_call s _ c cl); [done|reflexivity|]. unfold crank. simpl. rewrite E. lia.
  - destruct Hok as (_ & _ & wt & Hw & Ht & Ha). destruct (w_owner wt) eqn:Ho; try (unfold attached in Ha; by rewrite Ho in Ha).
    1, 2: apply (adv_release w wt); auto.
    exists (ATransfer c). split_and!; [done|done|]. simpl. unfold transferStep. wp_steps. unfold id. rewrite Hcl, E.
    wp_step. apply (wp_get_watcher w wt); [done|]. rewrite Ho. apply wp_true. wp_step. apply wp_modify, wp_modify.
    eapply (less_call s _ c cl); [done|reflexivity|]. unfold crank. simpl. rewrite E. lia.
Qed.

(** Once no transfer is left, a call that waits goes on. *)
Lemma adv_call c cl :
  tm_mu s = None → (∀ i x, xfers s !! i = Some x → x_mgr x = MClosed) → calls s !! c = Some cl → crank cl ≠ 0 → advances s (ATransfer c).
Proof using I.
  intros Hmu Hall Hcl Hr. split_and!; [done|done|]. simpl. unfold transferStep. wp_steps. unfold id. rewrite Hcl.
  destruct (i_call s (proj2 I) c cl Hcl) as (_ & Hok & _). unfold call_ok, crank in *. destruct (c_phase cl) as [|i w|i w|i|i w] eqn:E; try done.
  - apply wp_when_true; [by rewrite Hmu|]. destruct (transfers s !! c_key cl) as [i|] eqn:Ei.
    + apply (i_map P _ _ (proj1 I)) in Ei as (x & Hx & _ & Ht). by rewrite (Hall _ _ Hx) in Ht.
    + eapply wp_ran; [apply startTransfer_run|]. eapply (less_call s _ c cl); [done|reflexivity|]. unfold crank. simpl. rewrite E. lia.
  - destruct Hok. congruence.
  - destruct Hok. congruence.
  - destruct Hok as [x Hx]. wp_step. apply (wp_get_xfer i x); [done|]. pose proof (xo_removed _ (proj2 (i_xfer P _ _ (proj1 I) i x Hx))) as Hrun.
    rewrite (Hall _ _ Hx) in Hrun. apply wp_when_true; [by apply Hrun|]. apply wp_modify. eapply (less_call s _ c cl); [done|reflexivity|]. unfold crank. simpl. rewrite E. lia.
Qed.
End progress.

(** Nothing is left to do for the engine: every call of [Transfer] has returned,
    every transfer is over, out of the map and closed, every [Release] returned. *)
Definition settled (s : transferManager) : Prop :=
  (∀ c cl, calls s !! c = Some cl → ∃ i w, c_phase cl = CGot i w) ∧
  (∀ i x, xfers s !! i = Some x → x_mgr x = MClosed ∧ t_running (x_tr x) = true ∧ is_Some (j_result (x_job x))) ∧
  (∀ w wt, watchers s !! w = Some wt → w_owner wt ≠ Removed ∧ w_owner wt ≠ Waiting) ∧
  transfers s = ∅ ∧ waitingTransfers s = [] ∧ activeTransfers s = 0%Z.

(** A finished transfer has its result. *)
Lemma closed_result x : x_ok x → x_mgr x = MClosed → t_running (x_tr x) = true ∧ is_Some (j_result (x_job x)).
Proof.
  intros Hx Em. assert (t_running (x_tr x) = true) as Hr by (apply (xo_removed _ Hx); by rewrite Em). split; [done|].
  rewrite (to_running _ (xo_tr _ Hx)) in Hr. assert (j_phase (x_job x) = PDone) as E by (apply (xo_ended _ Hx); by destruct (t_bc (x_tr x))).
  pose proof (jo_phase _ (xo_job _ Hx)) as Hp. rewrite E in Hp. apply Hp.
Qed.

Lemma settled_or_advances P s : inv P s → settled s ∨ ∃ a, advances s a.
Proof.
  intros I. destruct (tm_mu s) as [c|] eqn:Hmu; [right; by eapply adv_locked|].
  destruct (decide (0 < msum (λ x, mrank (x_mgr x)) (xfers s))) as [H|H1].
  { apply msum_pos in H as (i & x & Hi & Hm). right. apply (adv_xfer P s I i x Hmu Hi). intros E. rewrite E in Hm. simpl in Hm. lia. }
  set (pending w := match w_owner w with Removed | Waiting => 1 | _ => 0 end).
  destruct (decide (0 < msum pending (watchers s))) as [H|H2].
  { apply msum_pos in H as (w & wt & Hw & Hp). right. apply (adv_release P s I w wt Hw). unfold pending in Hp. destruct (w_owner wt); auto; lia. }
  assert (Hclosed : ∀ i x, xfers s !! i = Some x → x_mgr x = MClosed).
  { intros i x Hi. pose proof (msum_zero (λ x, mrank (x_mgr x)) (xfers s) i x ltac:(lia) Hi) as H0. simpl in H0. by destruct (x_mgr x). }
  destruct (decide (0 < msum crank (calls s))) as [H|H3].
  { apply msum_pos in H as (c & cl & Hc & Hp). right. exists (ATransfer c). apply (adv_call P s I c cl); [done..|lia]. }
  left. assert (waitingTransfers s = []) as Ew.
  { destruct (waitingTransfers s) as [|k rest] eqn:E; [done|]. assert (k ∈ waitingTransfers s) as Hk by (rewrite E; apply list_elem_of_here).
    apply (i_waiting P _ _ (proj1 I)) in Hk as (y & Hy & Hs). pose proof (xo_start _ (proj2 (i_xfer P _ _ (proj1 I) _ _ Hy)) Hs). rewrite (Hclosed _ _ Hy) in *. done. }
  split_and!; [| | | |done|].
  - intros c cl Hc. pose proof (msum_zero crank (calls s) c cl ltac:(lia) Hc) as H0. unfold crank in H0. destruct (c_phase cl); try lia. by eauto.
  - intros i x Hi. split; [by eapply Hclosed|]. apply closed_result; [by eapply (i_xfer P _ _ (proj1 I))|by eapply Hclosed].
  - intros w wt Hw. pose proof (msum_zero pending (watchers s) w wt ltac:(lia) Hw) as H0. unfold pending in H0. by destruct (w_owner wt).
  - apply map_empty. intros key. destruct (transfers s !! key) as [i|] eqn:E; [|done]. apply (i_map P _ _ (proj1 I)) in E as (x & Hx & _ & Ht).
    by rewrite (Hclosed _ _ Hx) in Ht.
  - rewrite (i_active P _ _ (proj1 I)). destruct (decide (0 < slots (xfers s))) as [H|H]; [|lia].
    apply msum_pos in H as (i & x & Hi & Hh). unfold holding in Hh. rewrite (Hclosed _ _ Hi), andb_false_r in Hh. lia.
Qed.

(** From every state of the invariant the engine reaches such a state. *)
Lemma inv_settles P s : (∀ n, P n → 0 ≤ n)%Z → inv P s → ∃ s', rtc engine_step s s' ∧ settled s'.
Proof.
  intros HP. induction (less_wf s) as [s _ IH]. intros I. destruct (settled_or_advances P s I) as [Hs|(a & Hint & Hpos & Hw)]; [by exists s|].
  apply wp_inv in Hw as (b & s1 & E & -> & Hl).
  assert (limit_ok P a) as Hlim by (by destruct a). pose proof (wp_run _ _ _ _ _ (exec_inv P s a I HP Hlim Hpos) E) as I1.
  destruct (IH s1 Hl I1) as (s' & Hr & Hs'). exists s'. split; [|done]. eapply rtc_l; [|done]. by exists a.
Qed.

(** Runs given as lists of actions. *)
Lemma exec_all_reachable P l : ∀ s s',
  reachable P s → Forall (limit_ok P) l → exec_all l s = Some s' → reachable P s'.
Proof.
  induction l as [|a l IH]; intros s s' Hr Hl E; simpl in E; [by simplify_eq|]. apply list.Forall_cons in Hl as [Ha Hl].
  destruct (possible s a) eqn:Ep; [|done]. destruct (exec a s) as [[] s1| |] eqn:Ee; try done. eapply IH; [|done|done]. by eapply reachable_step.
Qed.

(** ** The count of active transfers, step by step *)

Definition counts (n : Z) (s : transferManager) : Prop := activeTransfers s = n.

Lemma count_modify n f : (∀ s, activeTransfers (f s) = activeTransfers s) → preserves (counts n) (modify f).
Proof. intros Hf. apply preserves_modify. intros s. unfold counts. by rewrite Hf. Qed.
Lemma count_xfer n i : preserves (counts n) (get_xfer i).
Proof. intros s Hs. unfold get_xfer. by destruct (xfers s !! i). Qed.
Lemma count_watcher n w : preserves (counts n) (get_watcher w).
Proof. intros s Hs. unfold get_watcher. by destruct (watchers s !! w). Qed.
#[local] Hint Resolve count_xfer count_watcher : preserves.
#[local] Hint Extern 1 (preserves _ (modify _)) => apply count_modify; intros ?; reflexivity : preserves.

Ltac count_steps := unfold when, enabled, disabled, put_tr, put_job, put_mgr, put_xfer, put_watcher, put_call; preserve.

Lemma count_Watch n i : preserves (counts n) (Watch i).
Proof. unfold Watch. count_steps. Qed.
Lemma count_Release n i w : preserves (counts n) (Release i w).
Proof. unfold Release. count_steps. Qed.
Lemma count_retry n i x : preserves (counts n) (retryStep i x).
Proof. unfold retryStep. count_steps. Qed.
Lemma count_result n x : preserves (counts n) (download_result x).
Proof. unfold download_result. count_steps. Qed.
#[local] Hint Resolve count_Watch count_Release count_retry count_result : preserves.
Lemma count_await n i x p f : preserves (counts n) (awaitDownload i x p f).
Proof. unfold awaitDownload. count_steps. Qed.
#[local] Hint Resolve count_await : preserves.

(** All the actions but three keep the count. *)
Lemma count_quiet n a :
  match a with ATransfer _ | AInactive _ | AFinished _ => True | _ => preserves (counts n) (exec a) end.
Proof.
  destruct a; simpl; try done;
    unfold beginTransfer, SetConcurrency, clientRelease, jobProgress, releaseStep, watcherStep, watcherReleased, watcherRunning,
      broadcastSync, broadcastStep, Close, jobCancelled, jobTried, jobRegistered, layerRelease, jobStep, downloadStep,
      fromDownloadStep, uploadStep, closeInactive, jobParent, downloadParent, fromDownloadParent; count_steps.
Qed.

(** One more, when there is a slot; one less, when nobody waits; or the same. *)
Definition counted (s s' : transferManager) : Prop :=
  activeTransfers s' = activeTransfers s ∨
  activeTransfers s' = (activeTransfers s + 1)%Z ∧ can_start s = true ∨
  activeTransfers s' = (activeTransfers s - 1)%Z ∧ waitingTransfers s = [].

(** What holds of the end of a call, if it returns. *)
Definition partial {A} (m : TM A) (Q : transferManager → Prop) (s : transferManager) : Prop :=
  match m s with Ret _ s' => Q s' | _ => True end.
Lemma partial_bind {A B} (m : TM A) (f : A → TM B) Q s : partial m (λ s', ∀ a, partial (f a) Q s') s → partial (m ≫= f) Q s.
Proof. unfold partial, mbind, M_bind. destruct (m s) as [a s'| |]; [|done..]. intros H. exact (H a). Qed.
Lemma partial_mono {A} (m : TM A) (P Q : transferManager → Prop) s : partial m P s → (∀ s', P s' → Q s') → partial m Q s.
Proof. unfold partial. destruct (m s); auto. Qed.
Lemma partial_look {A B} (g : TM A) (f : A → TM B) Q s :
  (∀ a s', g s = Ret a s' → s' = s) → (∀ a, g s = Ret a s → partial (f a) Q s) → partial (g ≫= f) Q s.
Proof. unfold partial, mbind, M_bind. intros Hs H. destruct (g s) as [a s'| |] eqn:E; [|done..]. rewrite (Hs _ _ eq_refl) in *. by apply H. Qed.
Lemma partial_read {B} (f : transferManager → TM B) Q s : partial (f s) Q s → partial (read id ≫= f) Q s.
Proof. done. Qed.
Lemma get_xfer_same i s a s' : get_xfer i s = Ret a s' → s' = s.
Proof. unfold get_xfer. destruct (xfers s !! i); intros H; by simplify_eq. Qed.
Lemma partial_counts {A} (m : TM A) s s0 : counted s0 s → (∀ n, preserves (counts n) m) → partial m (counted s0) s.
Proof.
  intros Hc Hm. specialize (Hm (activeTransfers s) s eq_refl). unfold partial. destruct (m s); [|done..].
  unfold counted, counts in *. by rewrite Hm.
Qed.

Lemma counted_inactivate i s : partial (inactivate i) (counted s) s.
Proof.
  unfold inactivate. apply partial_look; [by apply get_xfer_same|]. intros x _. destruct (j_start (x_job x)); [|by left].
  apply partial_read. destruct (waitingTransfers s) as [|k rest] eqn:E; [right; by right|].
  apply partial_look; [by apply get_xfer_same|]. intros y _. destruct (j_start (x_job y)); [done|]. by left.
Qed.

Lemma counted_start c cl s : partial (startTransfer c cl) (counted s) s.
Proof.
  unfold startTransfer. apply partial_read. apply partial_bind. unfold partial at 1. unfold modify at 1. intros _. apply partial_counts.
  - unfold counted, can_start. destruct (bool_decide _) eqn:E; [right; left|left]; done.
  - intros n. count_steps.
Qed.

Lemma counted_step a s b s' : exec a s = Ret b s' → counted s s'.
Proof.
  intros E. cut (partial (exec a) (counted s) s); [unfold partial; by rewrite E|]. clear b s' E.
  pose proof (λ n, count_quiet n a) as Hq. destruct a; try (apply partial_counts; [by left|exact Hq]); simpl; clear Hq.
  - unfold transferStep. apply partial_read. destruct (calls s !! c) as [cl|]; [|by left]. destruct (c_phase cl).
    2-5: apply partial_counts; [by left|intros n; count_steps].
    unfold when, enabled. destruct (bool_decide _); [|by left]. apply partial_bind. apply (partial_mono _ (counted s)); [|done].
    destruct (transfers s !! c_key cl); [apply partial_counts; [by left|intros m; count_steps]|apply counted_start].
  - unfold mgrInactive. apply partial_look; [by apply get_xfer_same|]. intros x _. apply partial_read.
    destruct (x_mgr x); try by left. unfold when, enabled. destruct (_ && _); [|by left].
    apply partial_bind. apply (partial_mono _ (counted s)); [|done].
    apply partial_bind. eapply partial_mono; [apply counted_inactivate|]. intros s1 H1 _. apply partial_counts; [done|].
    intros n. count_steps.
  - unfold mgrDone. apply partial_look; [by apply get_xfer_same|]. intros x _. apply partial_read.
    destruct (x_mgr x); try (by left); unfold when, enabled; (destruct (_ && _); [|by left]).
    + apply partial_bind. apply (partial_mono _ (counted s)); [|done].
      apply partial_bind. eapply partial_mono; [apply counted_inactivate|]. intros s1 H1 _. apply partial_counts; [done|].
      intros n. count_steps.
    + apply partial_counts; [by left|]. intros n. count_steps.
Qed.

(** ** The theorems *)


(** C5.  In every such state no action panics, and what a client holds is good: a
    transfer is not cancelled while a client holds a watcher of it, the layer that
    it has registered stays retained, and the goroutine of that watcher, once it
    ends, has shown the last item of progress.  A watcher that was released has
    shown, when [Release] returns, an item that is at least as recent as those
    sent before the release began. *)
Theorem transfer_watchers (P : Z → Prop) s :
  (∀ n, P n → 0 ≤ n)%Z → reachable P s →
  (∀ a, limit_ok P a → possible s a = true → ∃ b s', exec a s = Ret b s') ∧
  ∀ w wt, watchers s !! w = Some wt → ∃ x, xfers s !! w_transfer wt = Some x ∧
    (w_owner wt = Held →
       t_cancelled (x_tr x) = false ∧
       (∀ l, j_result (x_job x) = Some (Ok l) → is_upload (j_kind (x_job x)) = false → j_layer (x_job x) = true) ∧
       (w_phase wt = WOver → head (w_written wt) = head (t_sent (x_tr x)))) ∧
    (w_owner wt = Returned → w_phase wt = WOver →
       ∃ k, w_due wt ≤ k ≤ length (t_sent (x_tr x)) ∧ head (w_written wt) = item (t_sent (x_tr x)) k).
Proof.
  intros HP Hr. pose proof (reachable_inv P s HP Hr) as I. split.
  - intros a Hl Hp. destruct (wp_inv _ _ _ (exec_inv P s a I HP Hl Hp)) as (b & s' & E & _). by exists b, s'.
  - intros w wt Hw. destruct (i_watcher P _ _ (proj1 I) _ _ Hw) as (_ & x & Hx & Ho). exists x. split; [done|].
    pose proof (proj2 (i_xfer P _ _ (proj1 I) _ _ Hx)) as Hxo. split.
    + intros E. assert (attached wt = true) as Ha by (unfold attached; by rewrite E). split_and!; [by eapply (wo_live _ _ _ Ho)| |].
      * intros l Hl Hu. apply (xo_layer _ Hxo l Hl Hu). rewrite (to_released _ (xo_tr _ Hxo)).
        apply (wo_member _ _ _ Ho) in Ha. rewrite bool_decide_eq_false_2 by set_solver. apply andb_false_r.
      * intros Ep. destruct (wo_over _ _ _ Ho Ep) as (k & Hk & ->). unfold due in Hk. rewrite Ha in Hk.
        replace k with (length (t_sent (x_tr x))) by lia. apply item_all.
    + intros E Ep. destruct (wo_over _ _ _ Ho Ep) as (k & Hk & Hh). unfold due, attached in Hk. rewrite E in Hk. by exists k.
Qed.

(** C32.  Transfers do not deadlock: from every state that can be reached, whoever
    holds locks and slots and whichever transfers wait for a slot, for another
    transfer or for a watcher, the engine alone can go on until every call of
    [Transfer] and every [Release] has returned and every transfer has ended with
    a result, is closed and is out of the map, the queue and the count. *)
Theorem transfers_finish (P : Z → Prop) s :
  (∀ n, P n → 0 ≤ n)%Z → reachable P s → ∃ s', rtc engine_step s s' ∧ settled s'.
Proof. intros HP Hr. apply (inv_settles P); [done|by apply reachable_inv]. Qed.

(** ** A run *)

Module ConcreteTransfers.

(** Two pulls under a limit of one: the layer [a] and the layer [ab] on top of it,
    which waits for a slot; a second client of [a] comes, sees some progress and
    leaves again. *)
Definition two_pulls : list action :=
  [ACall "a" (Download "" None); ATransfer 0; ACall "ab" (Download "" (Some 0)); ATransfer 1;
   AJob 0; AJob 0; AProgress 0 "Downloading"; ABroadcast 0; ABroadcast 0; AJob 1; ABroadcast 1; ABroadcast 1].
Definition second_client : list action :=
  [ACall "a" (Download "" None); ATransfer 2; ATransfer 2; AWatcher 2; AWatcher 2; ARelease 2; AReleaseStep 2; AWatcherReleased 2;
   ABroadcast 0; ASync 2; AWatcher 2; AWatcher 2; AReleaseStep 2].
Definition state_of (l : list action) : transferManager :=
  match exec_all l (NewTransferManager 1) with Some s => s | None => NewTransferManager 1 end.
Definition pulled : transferManager := state_of (two_pulls ++ second_client).

Definition one_slot (c : Z) : Prop := c = 1%Z.
Lemma one_slot_nonneg c : one_slot c → (0 ≤ c)%Z.
Proof. intros ->. lia. Qed.

Lemma pulled_reachable : reachable one_slot pulled.
Proof.
  unfold pulled, state_of. destruct (exec_all (two_pulls ++ second_client) (NewTransferManager 1)) as [s|] eqn:E; [|by constructor].
  apply (exec_all_reachable _ (two_pulls ++ second_client) (NewTransferManager 1)); [by constructor|by repeat constructor|exact E].
Qed.


Lemma transfer_watchers_witness :
  ∃ x wt, xfers pulled !! 0 = Some x ∧ watchers pulled !! 2 = Some wt ∧ w_transfer wt = 0 ∧ t_cancelled (x_tr x) = false ∧
    ∃ k, w_due wt ≤ k ∧ head (w_written wt) = item (t_sent (x_tr x)) k ∧ head (w_written wt) = Some "Downloading".
Proof.
  destruct (transfer_watchers one_slot pulled one_slot_nonneg pulled_reachable) as (_ & H).
  destruct (watchers pulled !! 0) as [wt0|] eqn:E0; [|by (exfalso; revert E0; vm_compute)].
  destruct (watchers pulled !! 2) as [wt2|] eqn:E2; [|by (exfalso; revert E2; vm_compute)].
  assert (F0 : w_owner wt0 = Held ∧ w_transfer wt0 = 0) by (revert E0; vm_compute; intros [= <-]; by split).
  assert (F2 : w_owner wt2 = Returned ∧ w_phase wt2 = WOver ∧ w_transfer wt2 = 0 ∧ head (w_written wt2) = Some "Downloading")
    by (revert E2; vm_compute; intros [= <-]; by repeat split).
  destruct F0 as [O0 T0], F2 as (O2 & P2 & T2 & L2).
  destruct (H 0 wt0 E0) as (x & Hx & H0 & _), (H 2 wt2 E2) as (x' & Hx' & _ & H2). rewrite T0 in Hx. rewrite T2, Hx in Hx'. injection Hx' as <-.
  destruct (H0 O0) as (Hc & _), (H2 O2 P2) as (k & [Hk _] & Hh).
  refine (ex_intro _ x (ex_intro _ wt2 (conj Hx (conj eq_refl (conj T2 (conj Hc (ex_intro _ k (conj Hk (conj Hh L2))))))))).
Defined.

Lemma transfers_finish_witness : ∃ s', rtc engine_step pulled s' ∧ settled s'.
Proof. exact (transfers_finish one_slot pulled one_slot_nonneg pulled_reachable). Defined.
End ConcreteTransfers.
