(* ===== verification/UnixFS.v ===== *)
(** A file system as system calls see it: names for inodes, hard links, symbolic
    links that are followed inside a path, and the calls of packages os and
    syscall that the archive code uses.  A path is absolute, the list of its
    elements.  The process is root and its umask is 0. *)

From Stdlib Require Import Ascii.
From stdpp Require Import sorting.
From S2P Require Import Prelude GoStrings GoPath.

Local Open Scope string_scope.

Abbreviation path := (list string).

(** ** File modes *)

Definition S_IFMT : Z := 0xF000.
Definition S_IFIFO : Z := 0x1000.
Definition S_IFCHR : Z := 0x2000.
Definition S_IFDIR : Z := 0x4000.
Definition S_IFBLK : Z := 0x6000.
Definition S_IFREG : Z := 0x8000.
Definition S_IFLNK : Z := 0xA000.
Definition S_IFSOCK : Z := 0xC000.

(** An inode: what lstat returns (pkg/system's [StatT]: mode, owner, device,
    size, modification time), the capabilities, and the contents of a file or the
    target of a symbolic link. *)
Record inode := mkInode {
  n_mode : Z;
  n_uid : Z;
  n_gid : Z;
  n_rdev : Z;
  n_size : Z;
  n_mtim : Z * Z;
  n_cap : option string;
  n_data : string }.

Definition ifmt (n : inode) : Z := Z.land (n_mode n) S_IFMT.
Definition perm (mode : Z) : Z := Z.land mode 0xFFF.
Definition IsDir (n : inode) : bool := bool_decide (ifmt n = S_IFDIR).
Definition IsLink (n : inode) : bool := bool_decide (ifmt n = S_IFLNK).

(** ** File systems *)

Inductive errno : Type := ENOENT | EEXIST | ENOTDIR | EISDIR | ELOOP | EPERM | EBUSY.
#[global] Instance errno_eq_dec : EqDecision errno.
Proof. solve_decision. Defined.

(** [u_ticks] counts the changes, for the clock; [u_next] is the next inode. *)
Record unixFS := mkFS {
  u_names : gmap path nat;
  u_inodes : gmap nat inode;
  u_dev : Z;
  u_next : nat;
  u_ticks : nat }.

Definition view (s : unixFS) (p : path) : option inode := u_names s !! p ≫= (u_inodes s !!.).

(** The number of names of the inode behind a name. *)
Definition nlink (s : unixFS) (p : path) : nat :=
  match u_names s !! p with
  | Some i => count (λ kv : path * nat, kv.2 = i) (u_names s)
  | None => 0
  end.

Definition set_names (m : gmap path nat) (s : unixFS) : unixFS := mkFS m (u_inodes s) (u_dev s) (u_next s) (u_ticks s).
Definition set_inodes (m : gmap nat inode) (s : unixFS) : unixFS := mkFS (u_names s) m (u_dev s) (u_next s) (u_ticks s).

Definition set_mtim (t : Z * Z) (n : inode) : inode :=
  mkInode (n_mode n) (n_uid n) (n_gid n) (n_rdev n) (n_size n) t (n_cap n) (n_data n).
(** A change of owner takes the set-user-ID bit, the set-group-ID bit of a file
    that its group may execute, and the capabilities; a directory keeps them. *)
Definition kill_priv (mode : Z) : Z :=
  let mode := Z.ldiff mode 0x800 in if decide (Z.land mode 0x8 ≠ 0%Z) then Z.ldiff mode 0x400 else mode.
Definition set_owner (uid gid : Z) (n : inode) : inode :=
  mkInode (if IsDir n then n_mode n else kill_priv (n_mode n)) uid gid (n_rdev n) (n_size n) (n_mtim n)
    (if IsDir n then n_cap n else None) (n_data n).
Definition set_perm (mode : Z) (n : inode) : inode :=
  mkInode (Z.lor (ifmt n) (perm mode)) (n_uid n) (n_gid n) (n_rdev n) (n_size n) (n_mtim n) (n_cap n) (n_data n).
Definition set_cap (c : string) (n : inode) : inode :=
  mkInode (n_mode n) (n_uid n) (n_gid n) (n_rdev n) (n_size n) (n_mtim n) (Some c) (n_data n).

(** The file system on which calls run, and their errors. *)
Abbreviation FS A := (M unixFS (result errno A)).

Definition ok {S E A} (a : A) : M S (result E A) := mret (Ok a).
Definition fail {S E A} (e : E) : M S (result E A) := mret (Err e).

(** ** Paths *)

(** The kernel follows at most 40 symbolic links in a path. *)
Definition MAXSYMLINKS : nat := 40.

(** [namei]: the name that a path leads to.  Elements before the last must be
    directories or symbolic links to follow; the last one is followed only when
    [follow] is set, and it need not exist. *)
Fixpoint namei (links : nat) (s : unixFS) (follow : bool) (cur rest : path) {struct links} : result errno path :=
  (fix walk (cur rest : path) {struct rest} : result errno path :=
     match rest with
     | [] => Ok cur
     | x :: rest' =>
         if decide (x = "" ∨ x = ".") then walk cur rest'
         else if decide (x = "..") then walk (take (length cur - 1) cur) rest'
         else
           let p := (cur ++ [x])%list in
           let last := bool_decide (rest' = []) in
           match view s p with
           | None => if last then Ok p else Err ENOENT
           | Some n =>
               if IsLink n && (negb last || follow) then
                 match links with
                 | O => Err ELOOP
                 | S l => namei l s follow (if filepath.IsAbs (n_data n) then [] else cur) (split_on "/"%char (n_data n) ++ rest')%list
                 end
               else if last || IsDir n then walk p rest'
               else Err ENOTDIR
           end
     end) cur rest.

Definition resolve (follow : bool) (p : path) : FS path := λ s, Ret (namei MAXSYMLINKS s follow [] p) s.

Definition parent (p : path) : path := take (length p - 1) p.

Section calls.
  (** The time of every change. *)
  Context (clock : nat → Z * Z).

(** The directory of a name that comes or goes is modified. *)
Definition touch (p : path) (s : unixFS) : unixFS :=
  let m := match u_names s !! p with Some i => alter (set_mtim (clock (u_ticks s))) i (u_inodes s) | None => u_inodes s end in
  mkFS (u_names s) m (u_dev s) (u_next s) (S (u_ticks s)).

(** A new inode under a name that is free. *)
Definition create (p : path) (n : inode) : FS unit :=
  c ←? resolve false p;
  s ← read id;
  if decide (is_Some (u_names s !! c)) then fail EEXIST
  else
    _ ← modify (λ s, touch (parent c)
           (mkFS (<[c := u_next s]> (u_names s)) (<[u_next s := set_mtim (clock (u_ticks s)) n]> (u_inodes s)) (u_dev s) (S (u_next s)) (u_ticks s)));
    ok ().

Definition Mkdir (p : path) (mode : Z) : FS unit := create p (mkInode (Z.lor S_IFDIR (perm mode)) 0 0 0 0 (0, 0)%Z None "").
(** [OpenFile] with [O_CREATE] of a name that is free, and the copy into it. *)
Definition WriteNewFile (p : path) (mode : Z) (data : string) : FS unit :=
  create p (mkInode (Z.lor S_IFREG (perm mode)) 0 0 0 (Z.of_nat (String.length data)) (0, 0)%Z None data).
Definition Mknod (p : path) (mode dev : Z) : FS unit := create p (mkInode mode 0 0 dev 0 (0, 0)%Z None "").
Definition Symlink (target : string) (p : path) : FS unit :=
  create p (mkInode (Z.lor S_IFLNK 0x1FF) 0 0 0 (Z.of_nat (String.length target)) (0, 0)%Z None target).

Definition Link (old new : path) : FS unit :=
  c ←? resolve false old;
  d ←? resolve false new;
  s ← read id;
  match u_names s !! c, view s c with
  | Some i, Some n =>
      if decide (is_Some (u_names s !! d)) then fail EEXIST
      else if IsDir n then fail EPERM
      else _ ← modify (λ s, touch (parent d) (set_names (<[d := i]> (u_names s)) s)); ok ()
  | _, _ => fail ENOENT
  end.

Definition Lstat (p : path) : FS inode :=
  c ←? resolve false p;
  s ← read id;
  match view s c with Some n => ok n | None => fail ENOENT end.
Definition Stat (p : path) : FS inode :=
  c ←? resolve true p;
  s ← read id;
  match view s c with Some n => ok n | None => fail ENOENT end.

(** Changing the inode behind a name. *)
Definition setattr (follow : bool) (p : path) (f : inode → inode) : FS unit :=
  c ←? resolve follow p;
  s ← read id;
  match u_names s !! c with
  | Some i => _ ← modify (λ s, set_inodes (alter f i (u_inodes s)) s); ok ()
  | None => fail ENOENT
  end.
Definition Lchown (p : path) (uid gid : Z) : FS unit := setattr false p (set_owner uid gid).
Definition Lsetxattr (p : path) (cap : string) : FS unit := setattr false p (set_cap cap).
Definition Chmod (p : path) (mode : Z) : FS unit := setattr true p (set_perm mode).
Definition LUtimes (p : path) (t : Z * Z) : FS unit := setattr false p (set_mtim t).

(** pkg/system's [Chtimes]: a time before 1970 or after what 64 bits of
    nanoseconds reach becomes the epoch. *)
Definition maxTime : Z * Z := (9223372036, 854775807)%Z.
Definition clampTime (t : Z * Z) : Z * Z :=
  if decide (t.1 < 0 ∨ maxTime.1 < t.1 ∨ t.1 = maxTime.1 ∧ maxTime.2 < t.2)%Z then (0, 0)%Z else t.
Definition Chtimes (p : path) (t : Z * Z) : FS unit := setattr true p (set_mtim (clampTime t)).

(** [RemoveAll]: nothing to do when the name or its directory is not there.  The
    root itself stays. *)
Definition RemoveAll (p : path) : FS unit :=
  r ← resolve false p;
  match r with
  | Err ENOENT | Err ENOTDIR => ok ()
  | Err e => fail e
  | Ok c =>
      s ← read id;
      if decide (is_Some (u_names s !! c)) then
        _ ← modify (λ s, touch (parent c) (set_names (filter (λ kv, ¬ c `prefix_of` kv.1 ∨ kv.1 = []) (u_names s)) s));
        if decide (c = []) then fail EBUSY else ok ()
      else ok ()
  end.

(** [MkdirAll]: every directory of the path that is missing. *)
Fixpoint mkdirs (done todo : path) (mode : Z) : FS unit :=
  match todo with
  | [] => ok ()
  | x :: todo' =>
      let p := (done ++ [x])%list in
      r ← Stat p;
      match r with
      | Ok n => if IsDir n then mkdirs p todo' mode else fail ENOTDIR
      | Err _ => _ ←? Mkdir p mode; mkdirs p todo' mode
      end
  end.
Definition MkdirAll (p : path) (mode : Z) : FS unit := mkdirs [] p mode.
End calls.

(** ** Directories *)

(** The names in a directory, in order, as a sorted readdir has them. *)
Definition child (p q : path) : option string :=
  match reverse q with
  | x :: r => if decide (reverse r = p) then Some x else None
  | [] => None
  end.
#[global] Instance string_le_dec' : RelDecision (λ a b : string, String.leb a b = true).
Proof. intros a b. apply _. Defined.
Definition readdir (s : unixFS) (p : path) : list string :=
  merge_sort (λ a b : string, String.leb a b = true) (omap (λ kv, child p kv.1) (map_to_list (u_names s))).
