(* ===== verification/IDTools.v ===== *)
(** Ranges of user and group IDs (pkg/idtools/idtools.go): the subordinate IDs that
    /etc/subuid and /etc/subgid give to a user, the maps that the engine makes of
    them, and the way of an ID from the container to the host and back. *)

From Stdlib Require Import Ascii.
From stdpp Require Import sorting.
From S2P Require Import Prelude GoStrings DockerfileParser GoPath.

Local Open Scope string_scope.
Local Open Scope Z_scope.

Record IDMap := mkIDMap { ContainerID : Z; HostID : Z; Size : Z }.
(** A map that is nil is not the empty one. *)
Abbreviation idMaps := (option (list IDMap)).

(** ** Translation *)

Fixpoint findHost (contID : Z) (l : list IDMap) : result string Z :=
  match l with
  | [] => Err "Container ID cannot be mapped to a host ID"
  | m :: l =>
      if decide (ContainerID m ≤ contID ∧ contID ≤ wrap64 (ContainerID m + Size m - 1)) then
        Ok (wrap64 (HostID m + (contID - ContainerID m)))
      else findHost contID l
  end.
Definition ToHost (contID : Z) (idMap : idMaps) : result string Z :=
  match idMap with None => Ok contID | Some l => findHost contID l end.

Fixpoint findContainer (hostID : Z) (l : list IDMap) : result string Z :=
  match l with
  | [] => Err "Host ID cannot be mapped to a container ID"
  | m :: l =>
      if decide (HostID m ≤ hostID ∧ hostID ≤ wrap64 (HostID m + Size m - 1)) then
        Ok (wrap64 (ContainerID m + (hostID - HostID m)))
      else findContainer hostID l
  end.
Definition ToContainer (hostID : Z) (idMap : idMaps) : result string Z :=
  match idMap with None => Ok hostID | Some l => findContainer hostID l end.

Definition GetRootUIDGID (uidMap gidMap : idMaps) : result string (Z * Z) :=
  match (match uidMap with Some _ => ToHost 0 uidMap | None => Ok 0 end) with
  | Err e => Err e
  | Ok uid =>
      match (match gidMap with Some _ => ToHost 0 gidMap | None => Ok 0 end) with
      | Err e => Err e
      | Ok gid => Ok (uid, gid)
      end
  end.

(** ** Maps from the files *)

Record subIDRange := mkRange { Start : Z; Length : Z }.

(** [ranges.Less], for [sort.Sort]. *)
Definition range_le (a b : subIDRange) : Prop := Start a ≤ Start b.
#[global] Instance range_le_dec : RelDecision range_le.
Proof. intros a b. unfold range_le. apply _. Defined.

(** The loop of [createIDMap], from the first container ID. *)
Fixpoint layOut (containerID : Z) (l : list subIDRange) : list IDMap :=
  match l with
  | [] => []
  | r :: l => mkIDMap containerID (Start r) (Length r) :: layOut (wrap64 (containerID + Length r)) l
  end.
Definition createIDMap (subidRanges : list subIDRange) : list IDMap := layOut 0 (merge_sort range_le subidRanges).

(** One line of the file. *)
Definition parseSubidLine (username line : string) : result string (option subIDRange) :=
  let text := TrimSpace line in
  if decide (text = "") then Ok None
  else if HasPrefix text "#" then Ok None
  else
    match split_on ":"%char text with
    | [name; start; len] =>
        if decide (name = username ∨ username = "ALL") then
          match ParseInt64 start with
          | Err _ => Err "String to int conversion failed during subuid/gid parsing"
          | Ok startid =>
              match ParseInt64 len with
              | Err _ => Err "String to int conversion failed during subuid/gid parsing"
              | Ok length => Ok (Some (mkRange startid length))
              end
          end
        else Ok None
    | _ => Err "Cannot parse subuid/gid information: Format not correct"
    end.
Fixpoint parseSubidLines (username : string) (lines : list string) : result string (list subIDRange) :=
  match lines with
  | [] => Ok []
  | line :: lines =>
      match parseSubidLine username line with
      | Err e => Err e
      | Ok r =>
          match parseSubidLines username lines with
          | Err e => Err e
          | Ok l => Ok (match r with Some r => r :: l | None => l end)
          end
      end
  end.
(** [parseSubidFile], of the contents of the file, if it can be opened.  A line that
    is too long ends the scan, and nothing looks at the error of the scanner then. *)
Definition parseSubidFile (file : option string) (username : string) : result string (list subIDRange) :=
  match file with
  | None => Err "open"
  | Some text => parseSubidLines username (ScanLines text).1
  end.

Definition CreateIDMappings (subuid subgid : option string) (username groupname : string) : result string (list IDMap * list IDMap) :=
  match parseSubidFile subuid username with
  | Err e => Err e
  | Ok subuidRanges =>
      match parseSubidFile subgid groupname with
      | Err e => Err e
      | Ok subgidRanges =>
          match subuidRanges, subgidRanges with
          | [], _ => Err "No subuid ranges found for user"
          | _, [] => Err "No subgid ranges found for group"
          | _, _ => Ok (createIDMap subuidRanges, createIDMap subgidRanges)
          end
      end
  end.

(** ** Translation there and back *)

(** Ranges that are in order, with no number twice, from [lo] on and below the
    largest ID; and how many IDs they are. *)
Fixpoint apart (lo : Z) (l : list subIDRange) : Prop :=
  match l with
  | [] => lo < 2 ^ 63
  | r :: l => lo ≤ Start r ∧ 0 ≤ Length r ∧ apart (Start r + Length r) l
  end.
Fixpoint total (l : list subIDRange) : Z := match l with [] => 0 | r :: l => Length r + total l end.

Lemma apart_total l : ∀ lo, apart lo l → 0 ≤ total l ∧ lo + total l < 2 ^ 63.
Proof. induction l as [|r l IH]; simpl; intros lo H; [lia|]. destruct H as (?&?&H). apply IH in H. lia. Qed.

Lemma small z : -1 ≤ z < 2 ^ 63 → wrap64 z = z.
Proof. intros H. apply wrap64_small. lia. Qed.

Section layOut.
  Context (r : subIDRange) (l : list subIDRange) (c : Z).
  Context (Hc : 0 ≤ c) (Hl : 0 ≤ Length r) (Hs : 0 ≤ Start r) (Hs' : Start r + Length r < 2 ^ 63) (Hc' : c + Length r < 2 ^ 63).

(** The first range, and the others. *)
Lemma findHost_first id : findHost id (layOut c (r :: l)) =
  if decide (c ≤ id < c + Length r) then Ok (Start r + (id - c)) else findHost id (layOut (c + Length r) l).
Proof using Hc Hl Hs Hs' Hc'.
  cbn [layOut findHost ContainerID HostID Size]. rewrite (small (c + Length r - 1)), (small (c + Length r)) by lia.
  destruct (decide (c ≤ id < c + Length r)).
  - rewrite decide_True by lia. by rewrite small by lia.
  - by rewrite decide_False by lia.
Qed.
Lemma findContainer_first h : findContainer h (layOut c (r :: l)) =
  if decide (Start r ≤ h < Start r + Length r) then Ok (c + (h - Start r)) else findContainer h (layOut (c + Length r) l).
Proof using Hc Hl Hs Hs' Hc'.
  cbn [layOut findContainer ContainerID HostID Size]. rewrite (small (Start r + Length r - 1)), (small (c + Length r)) by lia.
  destruct (decide (Start r ≤ h < Start r + Length r)).
  - rewrite decide_True by lia. by rewrite small by lia.
  - by rewrite decide_False by lia.
Qed.
End layOut.

(** The IDs of the host that the ranges have. *)
Definition has (l : list subIDRange) (h : Z) : Prop := ∃ r, r ∈ l ∧ Start r ≤ h < Start r + Length r.

Lemma has_cons r l h : has (r :: l) h ↔ Start r ≤ h < Start r + Length r ∨ has l h.
Proof. unfold has. setoid_rewrite elem_of_cons. naive_solver. Qed.

Lemma has_from l : ∀ lo h, apart lo l → has l h → lo ≤ h.
Proof.
  induction l as [|r l IH]; intros lo h Hap Hh; [by destruct Hh as (?&?%not_elem_of_nil&_)|].
  apply has_cons in Hh. destruct Hap as (?&?&Hap). destruct Hh as [?|Hh]; [lia|]. apply (IH _ _ Hap) in Hh. lia.
Qed.

Lemma has_perm l l' h : l ≡ₚ l' → has l h ↔ has l' h.
Proof. intros Hp. unfold has. by setoid_rewrite Hp. Qed.
Lemma total_perm l l' : l ≡ₚ l' → total l = total l'.
Proof. induction 1; simpl; lia. Qed.

(** An ID of the container goes to one of the ranges, from which it comes back,
    and those after it go to larger ones. *)
Lemma layOut_there l : ∀ lo c id, 0 ≤ lo → apart lo l → 0 ≤ c → c + total l < 2 ^ 63 →
  if decide (c ≤ id < c + total l) then
    ∃ h, findHost id (layOut c l) = Ok h ∧ has l h ∧ findContainer h (layOut c l) = Ok id ∧
      ∀ id' h', id < id' → findHost id' (layOut c l) = Ok h' → h < h'
  else ∃ e, findHost id (layOut c l) = Err e.
Proof.
  induction l as [|r l IH]; intros lo c id Hlo Hap Hc Hmax; cbn [total apart] in *; [rewrite decide_False by lia; by eexists|].
  destruct Hap as (Hs&Hl&Hap). pose proof (apart_total _ _ Hap) as [Ht Hm]. rewrite findHost_first by lia.
  assert (Hlater : ∀ i h, findHost i (layOut (c + Length r) l) = Ok h → Start r + Length r ≤ h).
  { intros i h Hi. specialize (IH (Start r + Length r) (c + Length r) i ltac:(lia) Hap ltac:(lia) ltac:(lia)).
    case_decide; [|destruct IH as [? E]; congruence]. destruct IH as (h'&E&Hh&_). assert (h = h') as -> by congruence.
    by apply (has_from l). }
  specialize (IH (Start r + Length r) (c + Length r) id ltac:(lia) Hap ltac:(lia) ltac:(lia)).
  destruct (decide (c ≤ id < c + Length r)).
  - rewrite decide_True by lia. exists (Start r + (id - c)). split; [done|]. rewrite has_cons. split; [left; lia|]. split.
    { rewrite findContainer_first by lia. rewrite decide_True by lia. f_equal. lia. }
    intros id' h' Hlt. rewrite findHost_first by lia. clear IH. case_decide; [intros [= <-]; lia|]. intros ?%Hlater. lia.
  - destruct (decide (c ≤ id < c + (Length r + total l))).
    + rewrite decide_True in IH by lia. destruct IH as (h&H1&H2&H3&H4). exists h. split; [done|]. rewrite has_cons. split; [by right|].
      pose proof (has_from l _ _ Hap H2). split; [rewrite findContainer_first by lia; by rewrite decide_False by lia|].
      intros id' h' Hlt. rewrite findHost_first by lia. rewrite decide_False by lia. by apply H4.
    + by rewrite decide_False in IH by lia.
Qed.

(** The IDs of the host that come to the container are those of the ranges. *)
Lemma layOut_back l : ∀ lo c h, 0 ≤ lo → apart lo l → 0 ≤ c → c + total l < 2 ^ 63 →
  (has l h → ∃ id, findContainer h (layOut c l) = Ok id ∧ c ≤ id < c + total l ∧ findHost id (layOut c l) = Ok h) ∧
  (¬ has l h → ∃ e, findContainer h (layOut c l) = Err e).
Proof.
  induction l as [|r l IH]; intros lo c h Hlo Hap Hc Hmax; cbn [total apart] in *.
  { split; [by intros (?&?%not_elem_of_nil&_)|by eexists]. }
  destruct Hap as (Hs&Hl&Hap). pose proof (apart_total _ _ Hap) as [Ht Hm]. rewrite has_cons, findContainer_first by lia.
  destruct (IH (Start r + Length r) (c + Length r) h ltac:(lia) Hap ltac:(lia) ltac:(lia)) as [Hin Hout].
  destruct (decide (Start r ≤ h < Start r + Length r)).
  - split; [intros _|naive_solver]. eexists. split; [done|]. split; [lia|]. rewrite findHost_first by lia.
    rewrite decide_True by lia. f_equal. lia.
  - split; [|naive_solver]. intros [?|(id&H1&H2&H3)%Hin]; [lia|]. exists id. split; [done|]. split; [lia|].
    rewrite findHost_first by lia. by rewrite decide_False by lia.
Qed.

(** C38.  The map that the engine makes of the subordinate IDs of a user, however
    many ranges they are and in whatever order, gives the container the IDs from 0
    on, as many as the ranges have: every one of them goes to an ID of the ranges,
    the larger to the larger, and comes back as it was; every ID of the ranges
    comes to one of the container and goes back to itself; no other ID of the
    container has one on the host, and no other ID of the host one in the
    container.  The ranges must not overlap, and their IDs must be in the range of
    integers. *)
Theorem ids_round_trip (ranges : list subIDRange) :
  apart 0 (merge_sort range_le ranges) →
  let m := Some (createIDMap ranges) in let n := total ranges in
  (∀ id, 0 ≤ id < n → ∃ h, ToHost id m = Ok h ∧ has ranges h ∧ ToContainer h m = Ok id ∧
    ∀ id' h', id < id' → ToHost id' m = Ok h' → h < h') ∧
  (∀ h, has ranges h → ∃ id, ToContainer h m = Ok id ∧ 0 ≤ id < n ∧ ToHost id m = Ok h) ∧
  (∀ id, ¬ 0 ≤ id < n → ∃ e, ToHost id m = Err e) ∧
  (∀ h, ¬ has ranges h → ∃ e, ToContainer h m = Err e).
Proof.
  intros Hap. cbv zeta. unfold ToHost, ToContainer, createIDMap. pose proof (apart_total _ _ Hap) as [Ht Hm].
  pose proof (merge_sort_Permutation range_le ranges) as Hp. rewrite <-(total_perm _ _ Hp).
  pose proof (λ id, layOut_there _ 0 0 id ltac:(lia) Hap ltac:(lia) ltac:(lia)) as There.
  pose proof (λ h, layOut_back _ 0 0 h ltac:(lia) Hap ltac:(lia) ltac:(lia)) as Back. split_and!.
  - intros id Hid. specialize (There id). rewrite decide_True in There by lia. destruct There as (h&?&Hh&?&?).
    exists h. split_and!; [done|by rewrite <-(has_perm _ _ h Hp)|done|done].
  - intros h Hh. rewrite <-(has_perm _ _ h Hp) in Hh. by apply Back.
  - intros id Hid. specialize (There id). by rewrite decide_False in There by lia.
  - intros h Hh. rewrite <-(has_perm _ _ h Hp) in Hh. by apply Back.
Qed.

Lemma ids_round_trip_witness :
  let m := Some (createIDMap [mkRange 300000 1000; mkRange 100000 65536]) in
  createIDMap [mkRange 300000 1000; mkRange 100000 65536] = [mkIDMap 0 100000 65536; mkIDMap 65536 300000 1000] ∧
  ∃ h, ToHost 65540 m = Ok h ∧ has [mkRange 300000 1000; mkRange 100000 65536] h ∧ ToContainer h m = Ok 65540.
Proof.
  split; [reflexivity|]. destruct (ids_round_trip [mkRange 300000 1000; mkRange 100000 65536]) as [H _].
  - change (merge_sort range_le [mkRange 300000 1000; mkRange 100000 65536]) with [mkRange 100000 65536; mkRange 300000 1000]. simpl. lia.
  - destruct (H 65540) as (h & ? & ? & ? & _); [simpl; lia|]. by exists h.
Defined.
