(* ===== verification/Archive.v ===== *)
(** Layers as archives (pkg/archive, with the naive diff of
    daemon/graphdriver/fsdiff.go): the comparison of two directory trees
    (changes.go, changes_linux.go, changes_other.go, changes_unix.go), the archive
    of the changes with its whiteouts (changes.go, archive.go), and the extraction
    of such an archive on top of a tree (diff.go, archive.go).

    A tar stream is the list of its headers with their contents; package
    archive/tar keeps the headers apart from the fractions of seconds of their
    times, so a header has the seconds only.  The temporary directory of
    [UnpackLayer] is private to it: the files in it are the map [u_plnk]. *)

From Stdlib Require Import Ascii.
From stdpp Require Import sorting.
From S2P Require Import Prelude GoStrings GoPath UnixFS IDTools.

Local Open Scope string_scope.

(** ** Names (path/filepath) *)

Definition Base (s : string) : string :=
  match list.last (filter (λ e, e ≠ "") (split_on "/"%char s)) with
  | Some e => e
  | None => if decide (s = "") then "." else "/"
  end.
Definition Dir (s : string) : string :=
  match removelast (split_on "/"%char s) with
  | [] => filepath.Clean ""
  | l => filepath.Clean (join_with "/" l ++ "/")
  end.
(** [HasSuffix(s, "/")]. *)
Definition endsInSlash (s : string) : bool := bool_decide (s ≠ "" ∧ list.last (split_on "/"%char s) = Some "").

(** ** Whiteouts *)

Definition WhiteoutPrefix : string := ".wh.".
Definition WhiteoutMetaPrefix : string := ".wh..wh.".
Definition WhiteoutLinkDir : string := ".wh..wh.plnk".
Definition WhiteoutOpaqueDir : string := ".wh..wh..opq".

(** ** Comparing trees *)

Inductive ChangeType : Type := ChangeModify | ChangeAdd | ChangeDelete.
#[global] Instance ChangeType_eq_dec : EqDecision ChangeType.
Proof. solve_decision. Defined.
Record Change := mkChange { c_Path : path; c_Kind : ChangeType }.
#[global] Instance Change_eq_dec : EqDecision Change.
Proof. solve_decision. Defined.

Definition sameFsTimeSpec (a b : Z * Z) : bool :=
  bool_decide (a.1 = b.1 ∧ (a.2 = b.2 ∨ a.2 = 0%Z ∨ b.2 = 0%Z)).

Definition statDifferent (oldStat newStat : inode) : bool :=
  bool_decide (n_mode oldStat ≠ n_mode newStat ∨ n_uid oldStat ≠ n_uid newStat ∨ n_gid oldStat ≠ n_gid newStat ∨
    n_rdev oldStat ≠ n_rdev newStat ∨
    Z.land (n_mode oldStat) S_IFDIR ≠ S_IFDIR ∧
      (sameFsTimeSpec (n_mtim oldStat) (n_mtim newStat) = false ∨ n_size oldStat ≠ n_size newStat)).

(** [bytes.Compare] of the capabilities: none and an empty one are the same. *)
Definition capability (n : inode) : string := default "" (n_cap n).

(** [FileInfo]: the root of a tree has no stat.  The children of a file are a map
    in Go, whose order may be any; a tree here has one of them. *)
Inductive FileInfo : Type := mkFI (stat : option inode) (children : list (string * FileInfo)).
Definition fi_stat (f : FileInfo) : option inode := let 'mkFI s _ := f in s.
Definition fi_children (f : FileInfo) : list (string * FileInfo) := let 'mkFI _ c := f in c.

(** [isDir] tests one bit, which block devices and sockets have too. *)
Definition fi_isDir (f : FileInfo) : bool :=
  match fi_stat f with
  | None => true
  | Some n => bool_decide (Z.land (n_mode n) S_IFDIR ≠ 0%Z)
  end.

Fixpoint child_of (name : string) (l : list (string * FileInfo)) : option FileInfo :=
  match l with
  | [] => None
  | (n, f) :: l => if decide (n = name) then Some f else child_of name l
  end.

Fixpoint LookUp (f : FileInfo) (p : path) : option FileInfo :=
  match p with
  | [] => Some f
  | x :: p => match child_of x (fi_children f) with Some c => LookUp c p | None => None end
  end.

Definition changed (oldChild newChild : FileInfo) : bool :=
  match fi_stat oldChild, fi_stat newChild with
  | Some o, Some n => statDifferent o n || bool_decide (capability o ≠ capability n)
  | _, _ => false
  end.

(** [addChanges], at the path of [info]; the changes that it appends are its
    result, and [added] is the flag that the caller may have set. *)
Fixpoint addChanges (p : path) (info : FileInfo) (oldInfo : option FileInfo) (added : bool) {struct info} : list Change :=
  let 'mkFI stat children := info in
  let oldChildren := match oldInfo with Some o => if fi_isDir info then fi_children o else [] | None => [] end in
  let added := added || bool_decide (oldInfo = None) in
  let own := match oldInfo with None => [mkChange p ChangeAdd] | Some _ => [] end in
  let below :=
    (fix go (l : list (string * FileInfo)) : list Change :=
       match l with
       | [] => []
       | (name, newChild) :: l =>
           let q := (p ++ [name])%list in
           match child_of name oldChildren with
           | Some oldChild =>
               (if changed oldChild newChild then [mkChange q ChangeModify] else []) ++
               addChanges q newChild (Some oldChild) (changed oldChild newChild)
           | None => addChanges q newChild None false
           end ++ go l
       end)%list children in
  let deleted := (λ nc, mkChange (p ++ [nc.1])%list ChangeDelete) <$> filter (λ nc, nc.1 ∉ children.*1) oldChildren in
  let all := (own ++ below ++ deleted)%list in
  if bool_decide (all ≠ []) && fi_isDir info && negb added && bool_decide (p ≠ []) then mkChange p ChangeModify :: all else all.

(** [Changes] of a tree, against an older one. *)
Definition Changes (info oldInfo : FileInfo) : list Change := addChanges [] info (Some oldInfo) false.

(** *** Collecting a tree: the portable way (changes_other.go) *)

Fixpoint collect (fuel : nat) (s : unixFS) (p : path) (stat : option inode) : FileInfo :=
  match fuel with
  | O => mkFI stat []
  | S fuel =>
      mkFI stat
        (match view s p with
         | Some n =>
             if IsDir n then
               omap (λ name, (λ c, (name, collect fuel s (p ++ [name])%list (Some c))) <$> view s (p ++ [name])%list) (readdir s p)
             else []
         | None => []
         end)
  end.

(** The depth of a tree, which bounds the recursion. *)
Definition depth (s : unixFS) : nat := S (max_list (length ∘ fst <$> map_to_list (u_names s))).

Definition collectFileInfo (s : unixFS) : FileInfo := collect (depth s) s [] None.

(** *** The walker of Linux (changes_linux.go) *)

(** [readdirnames]: the names with the numbers of their inodes. *)
Definition readdirnames (s : unixFS) (p : path) : list (string * nat) :=
  omap (λ name, (λ i, (name, i)) <$> u_names s !! (p ++ [name])%list) (readdir s p).

(** The names of both directories, without those that are the same inode. *)
Fixpoint merge_names (sameDevice : bool) (names1 : list (string * nat)) : list (string * nat) → list string :=
  fix inner (names2 : list (string * nat)) : list string :=
    match names1, names2 with
    | [], _ => names2.*1
    | _, [] => names1.*1
    | (n1, ino1) :: l1, (n2, ino2) :: l2 =>
        match String.compare n1 n2 with
        | Lt => n1 :: merge_names sameDevice l1 names2
        | Eq =>
            (if bool_decide (ino1 ≠ ino2) || negb sameDevice then [n1] else []) ++ merge_names sameDevice l1 l2
        | Gt => n2 :: inner l2
        end
    end%list.

Definition is_dir (i : option inode) : bool := match i with Some n => IsDir n | None => false end.

(** [walk]: the two files at a path, with their trees. *)
Fixpoint walk (fuel : nat) (s1 s2 : unixFS) (p : path) (i1 i2 : option inode) : list (string * FileInfo) * list (string * FileInfo) :=
  match fuel with
  | O => ([], [])
  | S fuel =>
      let is1Dir := is_dir i1 in
      let is2Dir := is_dir i2 in
      let sameDevice := bool_decide (is_Some i1 ∧ is_Some i2 ∧ u_dev s1 = u_dev s2) in
      if negb is1Dir && negb is2Dir then ([], [])
      else
        let names1 := if is1Dir then readdirnames s1 p else [] in
        let names2 := if is2Dir then readdirnames s2 p else [] in
        let step name :=
          let q := (p ++ [name])%list in
          let c1 := if is1Dir then view s1 q else None in
          let c2 := if is2Dir then view s2 q else None in
          (name, c1, c2, walk fuel s1 s2 q c1 c2) in
        let l := step <$> merge_names sameDevice names1 names2 in
        (omap (λ '(name, c1, _, kids), (λ n, (name, mkFI (Some n) kids.1)) <$> c1) l,
         omap (λ '(name, _, c2, kids), (λ n, (name, mkFI (Some n) kids.2)) <$> c2) l)
  end.

Definition collectFileInfoForChanges (dir1 dir2 : unixFS) : FileInfo * FileInfo :=
  let '(k1, k2) := walk (max (depth dir1) (depth dir2)) dir1 dir2 [] (view dir1 []) (view dir2 []) in
  (mkFI None k1, mkFI None k2).

(** [ChangesDirs]. *)
Definition ChangesDirs (newDir oldDir : unixFS) : list Change :=
  let '(oldRoot, newRoot) := collectFileInfoForChanges oldDir newDir in Changes newRoot oldRoot.

(** ** Headers *)

Inductive typeflag : Type :=
| TypeReg | TypeRegA | TypeLink | TypeSymlink | TypeChar | TypeBlock | TypeDir | TypeFifo | TypeXGlobalHeader
| TypeOther (c : ascii).
#[global] Instance typeflag_eq_dec : EqDecision typeflag.
Proof. solve_decision. Defined.

Record Header := mkHeader {
  h_Name : string;
  h_Typeflag : typeflag;
  h_Mode : Z;
  h_Uid : Z;
  h_Gid : Z;
  h_Size : Z;
  h_ModTime : Z;
  h_Linkname : string;
  h_Devmajor : Z;
  h_Devminor : Z;
  h_Cap : option string }.
Abbreviation entry := (Header * string)%type.

Definition set_ids (uid gid : Z) (h : Header) : Header :=
  mkHeader (h_Name h) (h_Typeflag h) (h_Mode h) uid gid (h_Size h) (h_ModTime h) (h_Linkname h) (h_Devmajor h) (h_Devminor h) (h_Cap h).

(** [FileInfoHeader] of archive/tar: the type of the file; a socket gets no type
    flag, which reads as an old regular file. *)
Definition typeOf (n : inode) : option typeflag :=
  if decide (ifmt n = S_IFREG) then Some TypeReg
  else if decide (ifmt n = S_IFDIR) then Some TypeDir
  else if decide (ifmt n = S_IFLNK) then Some TypeSymlink
  else if decide (ifmt n = S_IFCHR) then Some TypeChar
  else if decide (ifmt n = S_IFBLK) then Some TypeBlock
  else if decide (ifmt n = S_IFIFO) then Some TypeFifo
  else if decide (ifmt n = S_IFSOCK) then Some TypeRegA
  else None.
Definition FileInfoHeader (n : inode) (link : string) : result string Header :=
  match typeOf n with
  | None => Err "archive/tar: unknown file mode"
  | Some t =>
      Ok (mkHeader "" t (n_mode n) (n_uid n) (n_gid n) (match t with TypeReg => n_size n | _ => 0%Z end) (n_mtim n).1
            (match t with TypeSymlink => link | _ => "" end) 0 0 None)
  end.

Definition major (device : Z) : Z := Z.land (Z.shiftr device 8) 0xfff.
Definition minor (device : Z) : Z := Z.lor (Z.land device 0xff) (Z.land (Z.shiftr device 12) 0xfff00).
(** pkg/system's [Mkdev]. *)
Definition Mkdev (major minor : Z) : Z :=
  (Z.lor (Z.lor (Z.shiftl (Z.land minor 0xfff00) 12) (Z.shiftl (Z.land major 0xfff) 8)) (Z.land minor 0xff) `mod` 2 ^ 32)%Z.

Definition setHeaderForSpecialDevice (n : inode) (h : Header) : Header :=
  if decide (Z.land (n_mode n) S_IFBLK ≠ 0%Z ∨ Z.land (n_mode n) S_IFCHR ≠ 0%Z) then
    mkHeader (h_Name h) (h_Typeflag h) (h_Mode h) (h_Uid h) (h_Gid h) (h_Size h) (h_ModTime h) (h_Linkname h)
      (major (n_rdev n)) (minor (n_rdev n)) (h_Cap h)
  else h.

(** ** Writing an archive (archive.go, changes.go) *)

Definition canonicalTarName (name : string) (isDir : bool) : string :=
  if isDir && negb (endsInSlash name) then name ++ "/" else name.

(** The header of a file, but for its owner: with its capability, and a link to
    the first name of its inode that the archive has. *)
Definition fileHeader (fi : inode) (h : Header) (name : string) (old : option string) : Header :=
  mkHeader name (match old with Some _ => TypeLink | None => h_Typeflag h end) (h_Mode h) (h_Uid h) (h_Gid h)
    (match old with Some _ => 0%Z | None => h_Size h end) (h_ModTime h)
    (match old with Some oldpath => oldpath | None => h_Linkname h end) (h_Devmajor h) (h_Devminor h) (n_cap fi).

(** The owner that the header gets. *)
Definition headerIDs (uidMaps gidMaps : idMaps) (fi : inode) (h : Header) : result string (Z * Z) :=
  if negb (HasPrefix (Base (h_Name h)) WhiteoutPrefix) && (bool_decide (uidMaps ≠ None) || bool_decide (gidMaps ≠ None)) then
    match ToContainer (n_uid fi) uidMaps with
    | Err e => Err e
    | Ok uid => match ToContainer (n_gid fi) gidMaps with Err e => Err e | Ok gid => Ok (uid, gid) end
    end
  else Ok (h_Uid h, h_Gid h).

(** [addTarFile], of a file below the root [dir]; [seen] is [SeenFiles]. *)
Definition addTarFile (dir : unixFS) (uidMaps gidMaps : idMaps) (seen : gmap nat string) (p : path) (name : string)
    : result string entry * gmap nat string :=
  match namei MAXSYMLINKS dir false [] p with
  | Err _ => (Err "lstat", seen)
  | Ok c =>
      match u_names dir !! c, view dir c with
      | Some ino, Some fi =>
          match FileInfoHeader fi (if IsLink fi then n_data fi else "") with
          | Err e => (Err e, seen)
          | Ok h =>
              let name := canonicalTarName name (IsDir fi) in
              let linked := negb (IsDir fi) && bool_decide (1 < nlink dir c) in
              let old := if linked then seen !! ino else None in
              let seen := if linked then match old with Some _ => seen | None => <[ino := name]> seen end else seen in
              let h := fileHeader fi (setHeaderForSpecialDevice fi h) name old in
              match headerIDs uidMaps gidMaps fi h with
              | Err e => (Err e, seen)
              | Ok (uid, gid) =>
                  let h := set_ids uid gid h in
                  (Ok (h, if bool_decide (h_Typeflag h = TypeReg) && bool_decide (0 < h_Size h)%Z then n_data fi else ""), seen)
              end
          end
      | _, _ => (Err "lstat", seen)
      end
  end.

(** A path as a string, with and without its leading slash. *)
Definition pathString (p : path) : string := "/" ++ join_with "/" p.
Definition relString (p : path) : string := join_with "/" p.

(** [sort.Sort(changesByPath(changes))]. *)
Definition path_le (a b : Change) : Prop := String.leb (pathString (c_Path a)) (pathString (c_Path b)) = true.
#[global] Instance path_le_dec : RelDecision path_le.
Proof. intros a b. unfold path_le. apply _. Defined.

Definition whiteOut (p : path) : path := (parent p ++ [WhiteoutPrefix +:+ default "" (list.last p)])%list.

(** One change in the archive; a file that cannot be added is logged and left out. *)
Definition exportChange (dir : unixFS) (uidMaps gidMaps : idMaps) (timestamp : Z) (st : list entry * gmap nat string) (c : Change)
    : list entry * gmap nat string :=
  match c_Kind c with
  | ChangeDelete =>
      ((st.1 ++ [(mkHeader (relString (whiteOut (c_Path c))) TypeRegA 0 0 0 0 timestamp "" 0 0 None, "")])%list, st.2)
  | _ =>
      match addTarFile dir uidMaps gidMaps st.2 (c_Path c) (relString (c_Path c)) with
      | (Ok e, seen) => ((st.1 ++ [e])%list, seen)
      | (Err _, seen) => (st.1, seen)
      end
  end.

Definition ExportChanges (dir : unixFS) (changes : list Change) (uidMaps gidMaps : idMaps) (timestamp : Z) : list entry :=
  (foldl (exportChange dir uidMaps gidMaps timestamp) ([], ∅) (merge_sort path_le changes)).1.

(** [ChangesSize]: an inode with several names counts once. *)
Definition changeSize (newDir : unixFS) (st : Z * gset nat) (c : Change) : Z * gset nat :=
  match c_Kind c with
  | ChangeDelete => st
  | _ =>
      match namei MAXSYMLINKS newDir false [] (c_Path c) with
      | Err _ => st
      | Ok p =>
          match u_names newDir !! p, view newDir p with
          | Some ino, Some fi =>
              if IsDir fi then st
              else if decide (1 < nlink newDir p) then
                if decide (ino ∈ st.2) then st else (wrap64 (st.1 + n_size fi), {[ino]} ∪ st.2)
              else (wrap64 (st.1 + n_size fi), st.2)
          | _, _ => st
          end
      end
  end.
Definition ChangesSize (newDir : unixFS) (changes : list Change) : Z := (foldl (changeSize newDir) (0%Z, ∅) changes).1.

(** ** Extracting an archive (archive.go, diff.go) *)

Inductive aerror : Type := SysErr (e : errno) | Breakout (msg : string) | Msg (msg : string).

Section unpack.
  (** The clock, and the working directory of the process. *)
  Context (clock : nat → Z * Z) (cwd : path).

Abbreviation UM A := (M unixFS (result aerror A)).

Definition sys {A} (m : FS A) : UM A := r ← m; mret (match r with Ok a => Ok a | Err e => Err (SysErr e) end).

(** [filepath.Join] of an absolute path, given by its elements, and a string. *)
Definition joinAbs (d : path) (name : string) : path := reverse (filepath.clean_elems true (reverse d) (split_on "/"%char name)).

(** [filepath.Rel] of absolute paths, by their elements. *)
Fixpoint relElems (base targ : path) : path :=
  match base, targ with
  | b :: base', t :: targ' => if decide (b = t) then relElems base' targ' else (replicate (length base) ".." ++ targ)%list
  | _, _ => (replicate (length base) ".." ++ targ)%list
  end.

Definition handleTarTypeBlockCharFifo (h : Header) (p : path) : UM unit :=
  let mode := perm (h_Mode h) in
  let mode := match h_Typeflag h with
              | TypeBlock => Z.lor mode S_IFBLK
              | TypeChar => Z.lor mode S_IFCHR
              | TypeFifo => Z.lor mode S_IFIFO
              | _ => mode
              end in
  sys (Mknod clock p mode (Mkdev (h_Devmajor h) (h_Devminor h))).

(** The target of a hard link is there, and it is not a symbolic link: the name in
    the header is looked up in the working directory. *)
Definition linkedFile (h : Header) : UM bool :=
  r ← Lstat (joinAbs cwd (h_Linkname h));
  ok (match r with Ok n => negb (IsLink n) | Err _ => false end).

Definition handleLChmod (h : Header) (p : path) : UM unit :=
  match h_Typeflag h with
  | TypeLink => b ←? linkedFile h; if b then sys (Chmod p (h_Mode h)) else ok ()
  | TypeSymlink => ok ()
  | _ => sys (Chmod p (h_Mode h))
  end.

Definition setTimes (h : Header) (p : path) : UM unit :=
  match h_Typeflag h with
  | TypeLink => b ←? linkedFile h; if b then sys (Chtimes p (h_ModTime h, 0%Z)) else ok ()
  | TypeSymlink => sys (LUtimes p (h_ModTime h, 0%Z))
  | _ => sys (Chtimes p (h_ModTime h, 0%Z))
  end.

(** The file itself, by the type of the header. *)
Definition createNode (p extractDir : path) (h : Header) (data : string) : UM unit :=
  match h_Typeflag h with
  | TypeDir =>
      r ← Lstat p;
      match r with
      | Ok n => if IsDir n then ok () else sys (Mkdir clock p (h_Mode h))
      | Err _ => sys (Mkdir clock p (h_Mode h))
      end
  | TypeReg | TypeRegA => sys (WriteNewFile clock p (h_Mode h) data)
  | TypeBlock | TypeChar | TypeFifo => handleTarTypeBlockCharFifo h p
  | TypeLink =>
      let target := joinAbs extractDir (h_Linkname h) in
      if HasPrefix (pathString target) (pathString extractDir) then sys (Link clock target p)
      else fail (Breakout "invalid hardlink")
  | TypeSymlink =>
      let target := joinAbs (parent p) (h_Linkname h) in
      if HasPrefix (pathString target) (pathString extractDir) then sys (Symlink clock (h_Linkname h) p)
      else fail (Breakout "invalid symlink")
  | TypeXGlobalHeader => ok ()
  | TypeOther _ => fail (Msg "Unhandled tar header type")
  end.

(** The owner, the capability, the permissions and the times, in this order: a
    change of owner may take the others away. *)
Definition setAttributes (p : path) (h : Header) : UM unit :=
  _ ←? sys (Lchown p (h_Uid h) (h_Gid h));
  _ ←? (match h_Cap h with Some c => sys (Lsetxattr p c) | None => ok () end);
  _ ←? handleLChmod h p;
  setTimes h p.

Definition createTarFile (p extractDir : path) (h : Header) (data : string) : UM unit :=
  _ ←? createNode p extractDir h data;
  match h_Typeflag h with
  | TypeXGlobalHeader => ok ()
  | _ => setAttributes p h
  end.

(** The variables of [UnpackLayer]. *)
Record unpackState := mkUnpack {
  u_size : Z;
  u_dirs : list Header;
  u_unpacked : gset path;
  u_plnk : gmap string entry }.

(** The walk below an opaque directory: what this layer has not unpacked goes.
    [filepath.Walk] meets a directory before what is in it; one that is removed is
    not there any more when it is to be read. *)
Fixpoint walkOpaque (fuel : nat) (unpacked : gset path) (top : bool) (p : path) (info : inode) : UM unit :=
  match fuel with
  | O => out_of_fuel
  | S fuel =>
      _ ←? (if top || bool_decide (p ∈ unpacked) then ok () else sys (RemoveAll clock p));
      if IsDir info then
        r ← sys (resolve true p);
        s ← read id;
        match r with
        | Ok c =>
            match view s c with
            | None => ok ()
            | Some _ =>
                (fix go (names : list string) : UM unit :=
                   match names with
                   | [] => ok ()
                   | name :: names =>
                       i ← Lstat (p ++ [name])%list;
                       _ ←? (match i with
                             | Ok i => walkOpaque fuel unpacked false (p ++ [name])%list i
                             | Err ENOENT => ok ()
                             | Err e => fail (SysErr e)
                             end);
                       go names
                   end) (readdir s c)
            end
        | Err (SysErr ENOENT) => ok ()
        | Err e => fail e
        end
      else ok ()
  end.

Definition removeOpaque (dir : path) (unpacked : gset path) : UM unit :=
  n ←? sys (Lstat dir);
  s ← read id;
  walkOpaque (depth s) unpacked true dir n.

(** A file of [/.wh..wh.plnk] is written over the one of the same name. *)
Definition overwrite (data old : string) : string :=
  data ++ String.substring (String.length data) (String.length old - String.length data) old.
Definition keepLink (h : Header) (data : string) (u : unpackState) : unpackState :=
  let name := Base (h_Name h) in
  mkUnpack (u_size u) (u_dirs u) (u_unpacked u)
    (<[name := (h, match u_plnk u !! name with Some old => overwrite data old.2 | None => data end)]> (u_plnk u)).

(** The owner of a file, from the container to the host. *)
Definition hostIDs (uidMaps gidMaps : idMaps) (rootUID rootGID : Z) (h : Header) : result string Header :=
  match (if decide (h_Uid h ≠ rootUID) then ToHost (h_Uid h) uidMaps else Ok (h_Uid h)) with
  | Err e => Err e
  | Ok uid =>
      match (if decide (h_Gid h ≠ rootGID) then ToHost (h_Gid h) gidMaps else Ok (h_Gid h)) with
      | Err e => Err e
      | Ok gid => Ok (set_ids uid gid h)
      end
  end.

Section layer.
  Context (dest : path) (uidMaps gidMaps : idMaps) (rootUID rootGID : Z).

(** The parent of an entry is made when it is missing. *)
Definition ensureParent (name : string) : UM unit :=
  if endsInSlash name then ok ()
  else
    let parentPath := joinAbs dest (Dir name) in
    r ← Lstat parentPath;
    match r with
    | Err ENOENT => sys (MkdirAll clock parentPath 0x180)
    | _ => ok ()
    end.

Definition applyWhiteout (p : path) (base : string) (u : unpackState) : UM unit :=
  if decide (base = WhiteoutOpaqueDir) then removeOpaque (parent p) (u_unpacked u)
  else sys (RemoveAll clock (joinAbs (parent p) (String.substring 4 (String.length base - 4) base))).

(** What is at the path of an entry goes, unless both are directories. *)
Definition replaceOld (p : path) (h : Header) : UM unit :=
  r ← Lstat p;
  match r with
  | Ok fi => if IsDir fi && bool_decide (h_Typeflag h = TypeDir) then ok () else sys (RemoveAll clock p)
  | Err _ => ok ()
  end.

(** The header and the contents of a file; a hard link to the files that AUFS keeps
    gets them from there.  With them, the name there. *)
Definition source (h : Header) (data : string) (u : unpackState) : result aerror (entry * option string) :=
  if bool_decide (h_Typeflag h = TypeLink) && HasPrefix (filepath.Clean (h_Linkname h)) WhiteoutLinkDir then
    match u_plnk u !! Base (h_Linkname h) with
    | Some e => Ok (e, Some (Base (h_Linkname h)))
    | None => Err (Msg "Invalid aufs hardlink")
    end
  else Ok ((h, data), None).

Definition applyFile (p : path) (h : Header) (data : string) (u : unpackState) : UM unpackState :=
  _ ←? replaceOld p h;
  match source h data u with
  | Err e => fail e
  | Ok (src, from) =>
      match hostIDs uidMaps gidMaps rootUID rootGID src.1 with
      | Err e => fail (Msg e)
      | Ok h' =>
          _ ←? createTarFile p dest h' src.2;
          ok (mkUnpack (u_size u) (if decide (h_Typeflag h = TypeDir) then (u_dirs u ++ [h])%list else u_dirs u)
                ({[p]} ∪ u_unpacked u)
                (match from with Some name => <[name := (h', src.2)]> (u_plnk u) | None => u_plnk u end))
      end
  end.

Definition clean_name (h : Header) : Header :=
  mkHeader (filepath.Clean (h_Name h)) (h_Typeflag h) (h_Mode h) (h_Uid h) (h_Gid h) (h_Size h) (h_ModTime h) (h_Linkname h)
    (h_Devmajor h) (h_Devminor h) (h_Cap h).

(** [HasPrefix(rel, "../")]. *)
Definition outside (rel : path) : bool := match rel with x :: _ :: _ => bool_decide (x = "..") | _ => false end.

(** An entry that is not metadata of AUFS. *)
Definition applyEntry (h : Header) (data : string) (u : unpackState) : UM unpackState :=
  let p := joinAbs dest (h_Name h) in
  if outside (relElems dest p) then fail (Breakout "outside")
  else
    let base := default "/" (list.last p) in
    if HasPrefix base WhiteoutPrefix then _ ←? applyWhiteout p base u; ok u
    else applyFile p h data u.

(** One entry of the archive. *)
Definition unpackEntry (e : entry) (u : unpackState) : UM unpackState :=
  let h := clean_name e.1 in
  let u := mkUnpack (wrap64 (u_size u + h_Size h)) (u_dirs u) (u_unpacked u) (u_plnk u) in
  _ ←? ensureParent (h_Name h);
  if HasPrefix (h_Name h) WhiteoutMetaPrefix then
    let u := if HasPrefix (h_Name h) WhiteoutLinkDir && bool_decide (h_Typeflag h = TypeReg) then keepLink h e.2 u else u in
    if decide (h_Name h = WhiteoutOpaqueDir) then applyEntry h e.2 u else ok u
  else applyEntry h e.2 u.

Fixpoint unpackEntries (l : list entry) (u : unpackState) : UM unpackState :=
  match l with
  | [] => ok u
  | e :: l => u' ←? unpackEntry e u; unpackEntries l u'
  end.

(** The times of the directories, at the end. *)
Fixpoint setDirTimes (l : list Header) : UM unit :=
  match l with
  | [] => ok ()
  | h :: l => _ ←? sys (Chtimes (joinAbs dest (h_Name h)) (h_ModTime h, 0%Z)); setDirTimes l
  end.
End layer.

Definition UnpackLayer (dest : path) (uidMaps gidMaps : idMaps) (layer : list entry) : UM Z :=
  match GetRootUIDGID uidMaps gidMaps with
  | Err e => fail (Msg e)
  | Ok (rootUID, rootGID) =>
      u ←? unpackEntries dest uidMaps gidMaps rootUID rootGID layer (mkUnpack 0 [] ∅ ∅);
      _ ←? setDirTimes dest (u_dirs u);
      ok (u_size u)
  end.
End unpack.

(** ** Diffs of graph drivers (daemon/graphdriver/fsdiff.go) *)

(** [NaiveDiffDriver]: the archive of a layer against its parent, its size, and the
    extraction of one on top of the files of the parent, in a process whose root
    directory they are (pkg/chrootarchive).  That process makes its temporary
    directory there too, and removes it at the end: the time of the root is not
    that of the model. *)
Definition Diff (layerFs parentFs : unixFS) (uidMaps gidMaps : idMaps) (timestamp : Z) : list entry :=
  ExportChanges layerFs (ChangesDirs layerFs parentFs) uidMaps gidMaps timestamp.
Definition DiffSize (layerFs parentFs : unixFS) : Z := ChangesSize layerFs (ChangesDirs layerFs parentFs).
Definition ApplyDiff (clock : nat → Z * Z) (uidMaps gidMaps : idMaps) (diff : list entry) : M unixFS (result aerror Z) :=
  UnpackLayer clock [] [] uidMaps gidMaps diff.
