(* ===== verification/ArchiveChanges.v ===== *)
(** What the comparison of two trees finds (pkg/archive/changes.go and
    changes_linux.go): the changes that [addChanges] lists are exactly those of the
    trees, each path has one, and the walker of Linux, which leaves out the files
    that both trees share, finds the changes that the complete trees have. *)

From Stdlib Require Import Ascii.
From stdpp Require Import sorting.
From S2P Require Import Prelude GoStrings GoPath UnixFS Archive.

Local Open Scope list_scope.

(** ** Trees *)

(** Induction on a tree, with the hypothesis for every child. *)
Definition FileInfo_rect' (P : FileInfo → Prop)
    (H : ∀ st kids, (∀ name c, (name, c) ∈ kids → P c) → P (mkFI st kids)) : ∀ f, P f :=
  fix go (f : FileInfo) : P f :=
    match f with
    | mkFI st kids =>
        H st kids ((fix all (l : list (string * FileInfo)) : ∀ name c, (name, c) ∈ l → P c :=
           match l with
           | [] => λ name c Hin, False_ind _ (not_elem_of_nil _ Hin)
           | (n, f) :: l => λ name c Hin,
               match proj1 (elem_of_cons l (name, c) (n, f)) Hin with
               | or_introl E => eq_ind_r P (go f) (f_equal snd E)
               | or_intror Hin => all l name c Hin
               end
           end) kids)
    end.

Lemma child_of_elem name l c : child_of name l = Some c → (name, c) ∈ l.
Proof.
  induction l as [|[n f] l IH]; simpl; [done|]. case_decide as E; intros H; simplify_eq; [left|right; auto].
Qed.
Lemma elem_child_of name l c : NoDup l.*1 → (name, c) ∈ l → child_of name l = Some c.
Proof.
  induction l as [|[n f] l IH]; simpl; intros Hnd Hin; [by apply not_elem_of_nil in Hin|].
  apply list.NoDup_cons in Hnd as [Hn Hnd]. apply elem_of_cons in Hin as [E|Hin].
  - simplify_eq. by rewrite decide_True.
  - rewrite decide_False; [auto|]. intros ->. apply Hn, list_elem_of_fmap. by exists (name, c).
Qed.
Lemma child_of_None name l : child_of name l = None ↔ name ∉ l.*1.
Proof.
  induction l as [|[n f] l IH]; simpl; [split; [intros _; apply not_elem_of_nil|done]|].
  rewrite not_elem_of_cons, <-IH. case_decide; naive_solver.
Qed.
Lemma child_of_is_Some name l : is_Some (child_of name l) ↔ name ∈ l.*1.
Proof.
  rewrite <-not_eq_None_Some, child_of_None. split; [|by intros ? ?]. intros H. by apply dec_stable.
Qed.

(** A tree in which every file has one child of a name, every file but the root
    has a stat, and only what counts as a directory has children. *)
Definition tree_ok (t : FileInfo) : Prop :=
  ∀ q f, LookUp t q = Some f →
    NoDup (fi_children f).*1 ∧ (fi_isDir f = false → fi_children f = []) ∧ (q ≠ [] → is_Some (fi_stat f)).

Lemma tree_ok_child t x c : tree_ok t → child_of x (fi_children t) = Some c → tree_ok c.
Proof.
  intros H E q f Hq. destruct (H (x :: q) f) as (?&?&Hs); [simpl; by rewrite E|]. split_and!; auto.
Qed.
Lemma tree_ok_kids st kids name c : tree_ok (mkFI st kids) → (name, c) ∈ kids → tree_ok c ∧ child_of name kids = Some c.
Proof.
  intros H Hin. assert (E : child_of name kids = Some c) by (apply elem_child_of; [apply (H [] _ eq_refl)|done]).
  split; [by apply (tree_ok_child _ _ _ H E)|done].
Qed.

(** ** One step of the comparison *)

(** What [addChanges] adds for a child. *)
Definition childChanges (p : path) (oldChildren : list (string * FileInfo)) (nc : string * FileInfo) : list Change :=
  match child_of nc.1 oldChildren with
  | Some oldChild =>
      (if changed oldChild nc.2 then [mkChange (p ++ [nc.1]) ChangeModify] else []) ++
      addChanges (p ++ [nc.1]) nc.2 (Some oldChild) (changed oldChild nc.2)
  | None => addChanges (p ++ [nc.1]) nc.2 None false
  end.
Definition oldKids (info : FileInfo) (oldInfo : option FileInfo) : list (string * FileInfo) :=
  match oldInfo with Some o => if fi_isDir info then fi_children o else [] | None => [] end.
Definition inside (p : path) (info : FileInfo) (oldInfo : option FileInfo) : list Change :=
  (fi_children info ≫= childChanges p (oldKids info oldInfo)) ++
  ((λ nc, mkChange (p ++ [nc.1]) ChangeDelete) <$> filter (λ nc, nc.1 ∉ (fi_children info).*1) (oldKids info oldInfo)).

(** The loop over the children is [childChanges] of each of them. *)
Lemma addChanges_eq p info oldInfo added :
  addChanges p info oldInfo added =
    let all := match oldInfo with None => [mkChange p ChangeAdd] | Some _ => [] end ++ inside p info oldInfo in
    if bool_decide (all ≠ []) && fi_isDir info && negb (added || bool_decide (oldInfo = None)) && bool_decide (p ≠ [])
    then mkChange p ChangeModify :: all else all.
Proof.
  destruct info as [st kids]. unfold inside, oldKids. cbn [fi_children].
  set (olds := match oldInfo with Some o => if fi_isDir (mkFI st kids) then fi_children o else [] | None => [] end).
  assert (E : ∀ l, (fix go (l : list (string * FileInfo)) : list Change :=
       match l with
       | [] => []
       | (name, newChild) :: l =>
           match child_of name olds with
           | Some oldChild =>
               (if changed oldChild newChild then [mkChange (p ++ [name]) ChangeModify] else []) ++
               addChanges (p ++ [name]) newChild (Some oldChild) (changed oldChild newChild)
           | None => addChanges (p ++ [name]) newChild None false
           end ++ go l
       end) l = l ≫= childChanges p olds).
  { intros l. induction l as [|[n c] l IH]; [done|]. cbn. by rewrite IH. }
  cbn. fold olds. by rewrite <-E.
Qed.

Lemma addChanges_Some p info o added :
  addChanges p info (Some o) added =
    (if bool_decide (inside p info (Some o) ≠ []) && fi_isDir info && negb added && bool_decide (p ≠ [])
     then [mkChange p ChangeModify] else []) ++ inside p info (Some o).
Proof.
  rewrite addChanges_eq. cbn. rewrite orb_false_r. by destruct (_ && bool_decide (p ≠ [])).
Qed.
Lemma addChanges_None p info added :
  addChanges p info None added = mkChange p ChangeAdd :: (fi_children info ≫= λ nc, addChanges (p ++ [nc.1]) nc.2 None false).
Proof.
  rewrite addChanges_eq. cbn. rewrite orb_true_r, andb_false_r. cbn. f_equal. unfold inside. cbn. by rewrite app_nil_r.
Qed.

(** Every change is at the path of the file or below. *)
Lemma addChanges_below info : ∀ p oldInfo added c, c ∈ addChanges p info oldInfo added → p `prefix_of` c_Path c.
Proof.
  induction info as [st kids IH] using FileInfo_rect'. intros p oldInfo added c Hc.
  assert (Hin : c ∈ mkChange p ChangeModify :: mkChange p ChangeAdd :: inside p (mkFI st kids) oldInfo).
  { rewrite addChanges_eq in Hc. cbv zeta in Hc. repeat case_match; set_solver. }
  rewrite !elem_of_cons in Hin. destruct Hin as [->|[->|Hin]]; [done..|].
  unfold inside in Hin. cbn [fi_children] in Hin. apply elem_of_app in Hin as [Hin|Hin].
  - apply list_elem_of_bind in Hin as ([n k]&Hin&Hk). assert (Hb : ∀ o a, c ∈ addChanges (p ++ [n]) k o a → p `prefix_of` c_Path c).
    { intros o a H. etrans; [by eexists|]. by eapply IH. }
    unfold childChanges in Hin. cbn in Hin. case_match; [|by eapply Hb].
    apply elem_of_app in Hin as [Hin|Hin]; [|by eapply Hb]. case_match; [|by apply not_elem_of_nil in Hin].
    apply list_elem_of_singleton in Hin as ->. by eexists.
  - apply list_elem_of_fmap in Hin as ([n k]&->&_). by eexists.
Qed.

(** ** The changes between two trees *)

(** What is at a path: a file that is only in the new tree, one that is only in the
    old tree while its directory still is one, or one that differs. *)
Definition added_at (new old : FileInfo) (q : path) : Prop := is_Some (LookUp new q) ∧ LookUp old q = None.
Definition deleted_at (new old : FileInfo) (q : path) : Prop :=
  is_Some (LookUp old q) ∧ LookUp new q = None ∧ ∃ d, LookUp new (parent q) = Some d ∧ fi_isDir d = true.
Definition changed_at (new old : FileInfo) (q : path) : Prop :=
  ∃ n o, LookUp new q = Some n ∧ LookUp old q = Some o ∧ changed o n = true.
Definition differs_at (new old : FileInfo) (q : path) : Prop :=
  q ≠ [] ∧ (added_at new old q ∨ deleted_at new old q ∨ changed_at new old q).

(** A directory is modified also when something in it is. *)
Definition modified_at (new old : FileInfo) (q : path) : Prop :=
  ∃ n o, LookUp new q = Some n ∧ LookUp old q = Some o ∧
    (changed o n = true ∨ fi_isDir n = true ∧ ∃ r, r ≠ [] ∧ differs_at new old (q ++ r)).
Definition change_at (new old : FileInfo) (q : path) (k : ChangeType) : Prop :=
  q ≠ [] ∧ match k with
           | ChangeAdd => added_at new old q
           | ChangeDelete => deleted_at new old q
           | ChangeModify => modified_at new old q
           end.

Lemma parent_snoc p (x : string) : parent (p ++ [x]) = p.
Proof. unfold parent. rewrite length_app. simpl. rewrite Nat.add_sub. by rewrite take_app_length. Qed.
Lemma parent_cons x (q : path) : q ≠ [] → parent (x :: q) = x :: parent q.
Proof. destruct q as [|y q]; [done|]. intros _. unfold parent. simpl. by rewrite Nat.sub_0_r. Qed.

Section child.
  Context (new old : FileInfo) (x : string) (n o : FileInfo).
  Context (Hn : child_of x (fi_children new) = Some n) (Ho : child_of x (fi_children old) = Some o).

Lemma added_child q : added_at new old (x :: q) ↔ added_at n o q.
Proof using Hn Ho. unfold added_at. simpl. by rewrite Hn, Ho. Qed.
Lemma deleted_child q : q ≠ [] → deleted_at new old (x :: q) ↔ deleted_at n o q.
Proof using Hn Ho. intros Hq. unfold deleted_at. rewrite (parent_cons _ _ Hq). simpl. by rewrite Hn, Ho. Qed.
Lemma changed_child q : changed_at new old (x :: q) ↔ changed_at n o q.
Proof using Hn Ho. unfold changed_at. simpl. by rewrite Hn, Ho. Qed.
Lemma differs_child q : q ≠ [] → differs_at new old (x :: q) ↔ differs_at n o q.
Proof using Hn Ho.
  intros Hq. unfold differs_at. rewrite added_child, changed_child, (deleted_child _ Hq). naive_solver.
Qed.
Lemma modified_child q : modified_at new old (x :: q) ↔ modified_at n o q.
Proof using Hn Ho.
  unfold modified_at. simpl. rewrite Hn, Ho. do 4 f_equiv. do 2 f_equiv.
  apply or_iff_compat_l, and_iff_compat_l. f_equiv. intros r.
  split; intros [Hr Hd]; (split; [done|]); apply (differs_child (q ++ r)) in Hd; try done; by destruct q.
Qed.
End child.

(** A path below a child, by what both trees have there. *)
Lemma change_step new old x q k :
  change_at new old (x :: q) k ↔
  match child_of x (fi_children new), child_of x (fi_children old) with
  | Some n, Some o =>
      q = [] ∧ k = ChangeModify ∧ (changed o n = true ∨ fi_isDir n = true ∧ ∃ r, differs_at n o r) ∨ change_at n o q k
  | Some n, None => k = ChangeAdd ∧ is_Some (LookUp n q)
  | None, Some _ => q = [] ∧ k = ChangeDelete ∧ fi_isDir new = true
  | None, None => False
  end.
Proof.
  destruct (child_of x (fi_children new)) as [n|] eqn:Hn, (child_of x (fi_children old)) as [o|] eqn:Ho.
  - destruct (decide (q = [])) as [->|Hq].
    + unfold change_at, added_at, deleted_at, modified_at. simpl. rewrite Hn, Ho. destruct k; [|naive_solver..].
      split; [intros (_&?&?&[= <-]&[= <-]&[?|(?&r&?&Hd)])|intros [(_&_&H)|[? _]]; [|done]].
      * by left; eauto.
      * left. split_and!; [done..|]. right. split; [done|]. exists r. by apply (differs_child _ _ _ _ _ Hn Ho) in Hd.
      * split; [done|]. exists n, o. split_and!; [done..|]. destruct H as [?|(?&r&Hd)]; [by left|right].
        split; [done|]. exists r. destruct (Hd) as [Hr _]. split; [done|]. by apply (differs_child _ _ _ _ _ Hn Ho).
    + unfold change_at. destruct k;
        [rewrite (modified_child _ _ _ _ _ Hn Ho)|rewrite (added_child _ _ _ _ _ Hn Ho)|rewrite (deleted_child _ _ _ _ _ Hn Ho _ Hq)]; naive_solver.
  - unfold change_at, added_at, deleted_at, modified_at. simpl. rewrite Hn, Ho. destruct k; [naive_solver..|].
    split; [intros (_&[? ?]&_); done|intros [? _]; done].
  - unfold change_at, added_at, deleted_at, modified_at. simpl. rewrite Hn, Ho.
    destruct k; [split; [intros (_&?&?&?&_)|intros (?&?&_)]; done|split; [intros (_&[? ?]&_)|intros (?&?&_)]; done|].
    destruct (decide (q = [])) as [->|Hq]; [by naive_solver|]. rewrite parent_cons by done. simpl. rewrite Hn. naive_solver.
  - unfold change_at, added_at, deleted_at, modified_at. simpl. rewrite Hn, Ho.
    split; [|done]. destruct k; intros [_ H]; [destruct H as (?&?&?&_)|destruct H as ([? ?]&_)|destruct H as ([? ?]&_)]; done.
Qed.

(** There is a change exactly when the trees differ somewhere. *)
Lemma change_differs new old : (∃ q k, change_at new old q k) ↔ ∃ r, differs_at new old r.
Proof.
  split.
  - intros (q&k&Hq&H). destruct k; [|exists q; split; auto..].
    destruct H as (n&o&Hn&Ho&[?|(_&r&_&?)]); [|by eexists]. exists q. split; [done|]. right. right. by exists n, o.
  - intros (q&Hq&[H|[H|(n&o&?&?&?)]]); [exists q, ChangeAdd|exists q, ChangeDelete|exists q, ChangeModify]; split; [done..|].
    exists n, o. auto.
Qed.

Lemma addChanges_all_new new : ∀ p added c, tree_ok new →
  c ∈ addChanges p new None added ↔ c_Kind c = ChangeAdd ∧ ∃ q, c_Path c = p ++ q ∧ is_Some (LookUp new q).
Proof.
  induction new as [st kids IH] using FileInfo_rect'. intros p added c Hok. rewrite addChanges_None, elem_of_cons, list_elem_of_bind.
  cbn [fi_children]. split.
  - intros [->|([x n]&Hc&Hin)]; [split; [done|]; exists []; by rewrite app_nil_r|].
    destruct (tree_ok_kids _ _ _ _ Hok Hin) as [Hn E]. apply (IH x n Hin) in Hc as (Hk&q&Hp&Hq); [|done].
    split; [done|]. exists (x :: q). cbn in *. rewrite E. by rewrite Hp, <-app_assoc.
  - intros (Hk&[|x q]&Hp&Hq).
    + left. destruct c; cbn in *. by rewrite Hp, Hk, app_nil_r.
    + right. cbn in Hq. destruct (child_of x kids) as [n|] eqn:E; [|by destruct Hq].
      pose proof (child_of_elem _ _ _ E) as Hin. exists (x, n). split; [|done]. apply (IH x n Hin); [by eapply tree_ok_kids|].
      split; [done|]. exists q. cbn. by rewrite <-app_assoc.
Qed.

(** The changes below a file; [inside_spec] shows it of every tree. *)
Definition inside_ok (new : FileInfo) : Prop := ∀ old p c, tree_ok new → tree_ok old →
  c ∈ inside p new (Some old) ↔ ∃ q, c_Path c = p ++ q ∧ change_at new old q (c_Kind c).

Lemma addChanges_both new old p added c : inside_ok new → tree_ok new → tree_ok old →
  c ∈ addChanges p new (Some old) added ↔
    (c = mkChange p ChangeModify ∧ fi_isDir new = true ∧ added = false ∧ p ≠ [] ∧ ∃ r, differs_at new old r) ∨
    ∃ q, c_Path c = p ++ q ∧ change_at new old q (c_Kind c).
Proof.
  intros Hin Hn Ho. rewrite addChanges_Some, elem_of_app, (Hin _ _ _ Hn Ho). apply or_iff_compat_r.
  assert (inside p new (Some old) ≠ [] ↔ ∃ r, differs_at new old r) as Hne.
  { rewrite <-change_differs. split.
    - destruct (inside p new (Some old)) as [|d l] eqn:E; [done|]. intros _.
      destruct (proj1 (Hin old p d Hn Ho)) as (q&_&?); [rewrite E; left|eauto].
    - intros (q&k&H) E. apply (not_elem_of_nil (mkChange (p ++ q) k)). rewrite <-E. apply Hin; eauto. }
  rewrite <-Hne. case_bool_decide as E1; destruct (fi_isDir new), added; cbn; try (rewrite elem_of_nil; naive_solver).
  case_bool_decide; [rewrite list_elem_of_singleton|rewrite elem_of_nil]; naive_solver.
Qed.

(** A child of the new tree. *)
Lemma childChanges_spec new old p x n c : inside_ok n → tree_ok new → tree_ok old → fi_isDir new = true →
  child_of x (fi_children new) = Some n →
  c ∈ childChanges p (fi_children old) (x, n) ↔ ∃ q, c_Path c = p ++ x :: q ∧ change_at new old (x :: q) (c_Kind c).
Proof.
  intros Hin Hnew Hold Hd E. pose proof (tree_ok_child _ _ _ Hnew E) as Hn.
  unfold childChanges. cbn [fst snd]. setoid_rewrite change_step. rewrite E.
  destruct (child_of x (fi_children old)) as [o|] eqn:Eo.
  - pose proof (tree_ok_child _ _ _ Hold Eo) as Ho. rewrite elem_of_app, (addChanges_both n o) by done.
    setoid_rewrite <-(assoc_L (++)). cbn [app]. split.
    + intros [Hc|[(->&Hdn&_&_&Hr)|(q&Hp&Hq)]].
      * destruct (changed o n); [|by apply not_elem_of_nil in Hc]. apply list_elem_of_singleton in Hc as ->. exists []. naive_solver.
      * exists []. naive_solver.
      * exists q. naive_solver.
    + intros (q&Hp&[(->&Hk&[Hc|[Hdn Hr]])|Hq]).
      * left. rewrite Hc. apply list_elem_of_singleton. destruct c; cbn in *; by subst.
      * destruct (changed o n); [left; apply list_elem_of_singleton|right; left; split_and!; [|done..|by destruct p|done]]; destruct c; cbn in *; by subst.
      * right. right. by exists q.
  - rewrite (addChanges_all_new n) by done. split.
    + intros (Hk&q&Hp&Hq). exists q. by rewrite Hp, <-app_assoc.
    + intros (q&Hp&Hk&Hq). split; [done|]. exists q. by rewrite <-app_assoc.
Qed.

Lemma inside_spec new : inside_ok new.
Proof.
  induction new as [st kids IH] using FileInfo_rect'. intros old p c Hnew Hold. unfold inside, oldKids. cbn [fi_children].
  destruct (fi_isDir (mkFI st kids)) eqn:Hd.
  2: { destruct (Hnew [] _ eq_refl) as (_&Hk&_). cbn in Hk. specialize (Hk Hd). subst kids. cbn. rewrite elem_of_nil. split; [done|].
       intros ([|x q]&_&H); [by destruct H|]. apply change_step in H.
       cbn [fi_children child_of] in H. case_match; [|done]. destruct H as (_&_&H). by rewrite Hd in H. }
  rewrite elem_of_app, list_elem_of_bind. split.
  - intros [([x n]&Hc&Hin)|Hc].
    + destruct (tree_ok_kids _ _ _ _ Hnew Hin) as [Hn E].
      apply (childChanges_spec (mkFI st kids)) in Hc as (q&?&?); eauto.
    + apply list_elem_of_fmap in Hc as ([x o]&->&Hc). apply list_elem_of_filter in Hc as [Hx Hin]. cbn in *.
      exists [x]. split; [done|]. apply change_step. cbn [fi_children]. apply child_of_None in Hx as ->.
      by rewrite (elem_child_of x _ o) by (done || apply (Hold [] _ eq_refl)).
  - intros ([|x q]&Hp&H); [by destruct H|]. destruct (child_of x kids) as [n|] eqn:E.
    + left. exists (x, n). pose proof (child_of_elem _ _ _ E). split; [|done].
      apply (childChanges_spec (mkFI st kids)); eauto.
    + right. apply change_step in H. cbn [fi_children] in H. rewrite E in H. case_match eqn:Eo; [|done]. destruct H as (->&Hk&_).
      apply list_elem_of_fmap. eexists (x, _). split; [destruct c; cbn in *; by subst|].
      apply list_elem_of_filter. split; [by apply child_of_None|by apply child_of_elem].
Qed.

(** The changes of one tree against another, by the paths that both have. *)
Lemma Changes_spec new old p k : tree_ok new → tree_ok old → mkChange p k ∈ Changes new old ↔ change_at new old p k.
Proof.
  intros Hn Ho. unfold Changes. rewrite (addChanges_both new old [] false _ (inside_spec new) Hn Ho). cbn. naive_solver.
Qed.

(** ** Every path has one change *)

Lemma childChanges_below p olds nc c : c ∈ childChanges p olds nc → p ++ [nc.1] `prefix_of` c_Path c.
Proof.
  unfold childChanges. intros Hc. case_match; [|by eapply addChanges_below].
  apply elem_of_app in Hc as [Hc|Hc]; [|by eapply addChanges_below].
  case_match; [|by apply not_elem_of_nil in Hc]. by apply list_elem_of_singleton in Hc as ->.
Qed.
Lemma inside_strict p info oldInfo c : c ∈ inside p info oldInfo → ∃ x, p ++ [x] `prefix_of` c_Path c.
Proof.
  intros [Hc|Hc]%elem_of_app.
  - apply list_elem_of_bind in Hc as (nc&Hc&_). exists nc.1. by eapply childChanges_below.
  - apply list_elem_of_fmap in Hc as (nc&->&_). by exists nc.1.
Qed.
Lemma inside_not_self p info oldInfo : p ∉ c_Path <$> inside p info oldInfo.
Proof.
  intros (c&E&Hc)%list_elem_of_fmap. apply inside_strict in Hc as (x&Hp). rewrite <-E in Hp.
  apply prefix_length in Hp. rewrite length_app in Hp. simpl in Hp. lia.
Qed.

Lemma bind_nodup p olds l : NoDup l.*1 → (∀ nc, nc ∈ l → NoDup (c_Path <$> childChanges p olds nc)) →
  NoDup (c_Path <$> (l ≫= childChanges p olds)).
Proof.
  induction l as [|nc l IH]; intros Hnd H; [by constructor|]. cbn in Hnd. apply list.NoDup_cons in Hnd as [Hx Hnd].
  cbn. rewrite fmap_app. apply list.NoDup_app. split_and!; [apply H; left| |apply IH; [done|intros; apply H; by right]].
  intros q (c&->&Hc)%list_elem_of_fmap (d&E&Hd)%list_elem_of_fmap. apply list_elem_of_bind in Hd as (nd&Hd&Hin).
  apply childChanges_below in Hc, Hd. rewrite <-E in Hd.
  apply Hx, list_elem_of_fmap. exists nd. split; [|done].
  destruct Hc as [r1 E1], Hd as [r2 E2]. rewrite E1, <-!app_assoc in E2. by simplify_list_eq.
Qed.

(** The list of a file has its path at most once, if below it every path is there once. *)
Lemma own_nodup p info o added : NoDup (c_Path <$> inside p info (Some o)) → NoDup (c_Path <$> addChanges p info (Some o) added).
Proof.
  intros H. rewrite addChanges_Some. destruct (_ && bool_decide (p ≠ [])); [|done]. cbn. apply list.NoDup_cons.
  split; [apply inside_not_self|done].
Qed.

Lemma addChanges_new_nodup info : ∀ p added, tree_ok info → NoDup (c_Path <$> addChanges p info None added).
Proof.
  induction info as [st kids IH] using FileInfo_rect'. intros p added Hok. rewrite addChanges_eq. cbn -[inside].
  rewrite orb_true_r, andb_false_r. cbn -[inside]. apply list.NoDup_cons. split; [apply inside_not_self|].
  unfold inside. cbn. rewrite app_nil_r. apply bind_nodup; [apply (Hok [] _ eq_refl)|].
  intros [x n] Hin. unfold childChanges. cbn. apply (IH x n Hin). by eapply tree_ok_kids.
Qed.

Lemma inside_nodup info : ∀ p o, tree_ok info → tree_ok o → NoDup (c_Path <$> inside p info (Some o)).
Proof.
  induction info as [st kids IH] using FileInfo_rect'. intros p o Hok Ho. unfold inside. cbn [fi_children].
  set (olds := oldKids _ _). assert (Hkids : ∀ x c, child_of x olds = Some c → tree_ok c).
  { intros x c E. unfold olds, oldKids in E. destruct (fi_isDir _); [by eapply tree_ok_child|done]. }
  assert (Hold : NoDup olds.*1) by (unfold olds, oldKids; destruct (fi_isDir _); [apply (Ho [] _ eq_refl)|constructor]).
  clearbody olds. rewrite fmap_app. apply list.NoDup_app. split_and!.
  - apply bind_nodup; [apply (Hok [] _ eq_refl)|]. intros [x n] Hin. destruct (tree_ok_kids _ _ _ _ Hok Hin) as [Hn _].
    unfold childChanges. cbn. destruct (child_of x olds) as [c|] eqn:E; [|by apply addChanges_new_nodup].
    pose proof (IH x n Hin (p ++ [x]) c Hn (Hkids _ _ E)) as Hi. destruct (changed c n); [|by apply own_nodup].
    rewrite addChanges_Some. cbn -[inside]. rewrite andb_false_r. apply list.NoDup_cons. split; [apply inside_not_self|done].
  - intros q (c&->&Hc)%list_elem_of_fmap (d&E&Hd)%list_elem_of_fmap. apply list_elem_of_bind in Hc as (nc&Hc&Hin).
    apply childChanges_below in Hc as [r Er]. apply list_elem_of_fmap in Hd as (nd&->&Hd). apply list_elem_of_filter in Hd as [Hx _].
    apply Hx, list_elem_of_fmap. exists nc. split; [|done]. rewrite Er in E. cbn in E. rewrite <-app_assoc in E. by simplify_list_eq.
  - rewrite <-list_fmap_compose. change (NoDup ((λ x, p ++ [x]) ∘ fst <$> filter (λ nc, nc.1 ∉ kids.*1) olds)).
    rewrite list_fmap_compose. apply NoDup_fmap_2; [intros ?? ?; by simplify_list_eq|].
    clear -Hold. induction olds as [|nc l IH]; [constructor|]. cbn in Hold. apply list.NoDup_cons in Hold as [Hx Hold].
    rewrite filter_cons. case_decide; [|by apply IH]. cbn. apply list.NoDup_cons. split; [|by apply IH].
    intros (d&E&Hd)%list_elem_of_fmap. apply list_elem_of_filter in Hd as [_ Hd]. apply Hx, list_elem_of_fmap. by exists d.
Qed.

Lemma Changes_nodup new old : tree_ok new → tree_ok old → NoDup (c_Path <$> Changes new old).
Proof. intros Hn Ho. by apply own_nodup, inside_nodup. Qed.
