(* ===== verification/ArchiveWalk.v ===== *)
(** The trees of file systems (pkg/archive/changes_other.go and changes_linux.go):
    the complete tree of a file system has the files that it has, and the walker of
    Linux, which leaves out what two file systems share, leads to the same changes
    as the complete trees. *)

From Stdlib Require Import Ascii.
From stdpp Require Import sorting.
From S2P Require Import Prelude GoStrings GoPath UnixFS Archive ArchiveChanges.

Local Open Scope list_scope.

(** ** File systems *)

Lemma child_spec p q x : child p q = Some x ↔ q = p ++ [x].
Proof.
  unfold child. split.
  - destruct (reverse q) as [|y r] eqn:E; [done|]. case_decide as Hp; intros H; simplify_eq.
    by rewrite <-(reverse_involutive q), E, reverse_cons.
  - intros ->. rewrite reverse_snoc, reverse_involutive. by rewrite decide_True.
Qed.

Lemma elem_of_readdir s p x : x ∈ readdir s p ↔ is_Some (u_names s !! (p ++ [x])).
Proof.
  unfold readdir. rewrite merge_sort_Permutation, list_elem_of_omap. split.
  - intros ([q i]&Hq&Hc). apply child_spec in Hc. cbn in Hc. subst q. apply elem_of_map_to_list in Hq. by eexists.
  - intros [i Hi]. exists (p ++ [x], i). split; [by apply elem_of_map_to_list|by apply child_spec].
Qed.

Lemma readdir_NoDup s p : NoDup (readdir s p).
Proof.
  unfold readdir. rewrite merge_sort_Permutation. pose proof (NoDup_fst_map_to_list (u_names s)) as Hnd.
  induction (map_to_list (u_names s)) as [|[q i] l IH]; cbn; [constructor|]. cbn in Hnd. apply list.NoDup_cons in Hnd as [Hq Hnd].
  destruct (child p q) as [x|] eqn:E; [|by apply IH]. apply list.NoDup_cons. split; [|by apply IH].
  intros ([q' j]&Hin&E')%list_elem_of_omap. apply child_spec in E, E'. cbn in E'. subst.
  apply Hq, list_elem_of_fmap. by exists (p ++ [x], j).
Qed.

Lemma readdir_sorted s p : StronglySorted sle (readdir s p).
Proof.
  unfold readdir, sle. apply StronglySorted_merge_sort.
  - intros a b c. apply sle_trans.
  - intros a b. apply sle_total.
Qed.

(** A file system: its root is a directory, every name is in a directory and has an
    inode, and names are names. *)
Definition name_ok (x : string) : Prop := x ≠ ""%string ∧ x ≠ "."%string ∧ x ≠ ".."%string ∧ ContainsChar "/"%char x = false.
Record fs_ok (s : unixFS) : Prop := {
  ok_root : is_dir (view s []) = true;
  ok_parent : ∀ p x, is_Some (u_names s !! (p ++ [x])) → is_dir (view s p) = true;
  ok_inode : ∀ p i, u_names s !! p = Some i → is_Some (u_inodes s !! i);
  ok_names : ∀ p x, is_Some (u_names s !! p) → x ∈ p → name_ok x }.

Lemma view_names s p : fs_ok s → is_Some (view s p) ↔ is_Some (u_names s !! p).
Proof.
  intros Hs. unfold view. destruct (u_names s !! p) as [i|] eqn:E; cbn; [|done].
  split; intros _; [by eexists|by eapply ok_inode].
Qed.
Lemma is_dir_Some i : is_dir i = true ↔ ∃ n, i = Some n ∧ IsDir n = true.
Proof. destruct i as [n|]; cbn; naive_solver. Qed.

(** The names above a name are directories. *)
Lemma ok_above s p q : fs_ok s → is_Some (view s (p ++ q)) → q ≠ [] → is_dir (view s p) = true.
Proof.
  intros Hs. revert p. induction q as [|x q IH]; intros p H Hq; [done|].
  rewrite cons_middle, (assoc_L (++)) in H. destruct q as [|y q].
  - rewrite app_nil_r in H. eapply ok_parent; [done|]. by apply view_names.
  - apply (IH (p ++ [x])) in H; [|done]. apply is_dir_Some in H as (n&E&_). eapply ok_parent; [done|].
    apply view_names; [done|]. by rewrite E.
Qed.

Lemma depth_bound s p : is_Some (u_names s !! p) → length p < depth s.
Proof.
  intros [i Hi]. unfold depth. apply Nat.lt_succ_r, max_list_elem_of_le, list_elem_of_fmap. exists (p, i).
  split; [done|]. by apply elem_of_map_to_list.
Qed.

Lemma IsDir_bit n : IsDir n = true → Z.land (n_mode n) S_IFDIR = S_IFDIR.
Proof.
  unfold IsDir, ifmt. intros H%bool_decide_eq_true. assert (E : S_IFDIR = Z.land S_IFMT S_IFDIR) by done.
  rewrite E at 1. by rewrite Z.land_assoc, H.
Qed.

(** ** Complete trees *)

Definition collectKids (fuel : nat) (s : unixFS) (p : path) : list (string * FileInfo) :=
  if is_dir (view s p) then
    omap (λ name, (λ c, (name, collect fuel s (p ++ [name]) (Some c))) <$> view s (p ++ [name])) (readdir s p)
  else [].
Lemma collect_S fuel s p st : collect (S fuel) s p st = mkFI st (collectKids fuel s p).
Proof.
  cbn. unfold collectKids, is_dir. by destruct (view s p).
Qed.

(** Lists of children that come from a list of names. *)
Section kids.
  Context (v : string → option inode) (g : string → inode → FileInfo).

Definition kidsOf (l : list string) : list (string * FileInfo) := omap (λ name, (λ c, (name, g name c)) <$> v name) l.

Lemma kidsOf_names l : (kidsOf l).*1 = filter (λ x, is_Some (v x)) l.
Proof.
  induction l as [|x l IH]; [done|]. rewrite filter_cons. cbn. destruct (v x) eqn:E; cbn.
  - rewrite decide_True by done. cbn. by rewrite <-IH.
  - by rewrite decide_False by (intros []; done).
Qed.
Lemma kidsOf_child l x : child_of x (kidsOf l) = if decide (x ∈ l) then g x <$> v x else None.
Proof.
  induction l as [|y l IH]; [done|]. cbn. destruct (v y) as [c|] eqn:E; cbn.
  - destruct (decide (y = x)) as [->|Hy]; [rewrite decide_True by left; by rewrite E|]. fold (kidsOf l). rewrite IH.
    apply decide_ext. rewrite elem_of_cons. naive_solver.
  - fold (kidsOf l). rewrite IH. destruct (decide (x = y)) as [->|Hne]; [rewrite E; by repeat case_decide|].
    apply decide_ext. rewrite elem_of_cons. naive_solver.
Qed.
End kids.

Lemma collectKids_eq fuel s p : collectKids fuel s p =
  if is_dir (view s p) then kidsOf (λ x, view s (p ++ [x])) (λ x c, collect fuel s (p ++ [x]) (Some c)) (readdir s p) else [].
Proof. done. Qed.

Lemma collectKids_child fuel s p x : fs_ok s →
  child_of x (collectKids fuel s p) = (λ c, collect fuel s (p ++ [x]) (Some c)) <$> view s (p ++ [x]).
Proof.
  intros Hs. rewrite collectKids_eq. destruct (is_dir (view s p)) eqn:Hd.
  - rewrite kidsOf_child. case_decide as Hx; [done|]. rewrite elem_of_readdir, <-view_names in Hx by done.
    by apply eq_None_not_Some in Hx as ->.
  - destruct (view s (p ++ [x])) eqn:E; [|done].
    rewrite (ok_above s p [x]) in Hd; [done|done|by rewrite E|done].
Qed.

(** The file at a path of the tree is the one of the file system. *)
Lemma LookUp_collect s q : fs_ok s → q ≠ [] → ∀ fuel p st, (∀ r, is_Some (view s r) → length r < length p + fuel) →
  LookUp (collect fuel s p st) q = (λ n, collect (fuel - length q) s (p ++ q) (Some n)) <$> view s (p ++ q).
Proof.
  intros Hs. induction q as [|x q IH]; intros Hq fuel p st Hb; [done|]. destruct fuel as [|fuel].
  - cbn. destruct (view s (p ++ x :: q)) eqn:E; [|done]. exfalso. specialize (Hb (p ++ x :: q) (mk_is_Some _ _ E)).
    rewrite length_app in Hb. cbn in Hb. lia.
  - rewrite collect_S. cbn. rewrite collectKids_child by done. destruct (view s (p ++ [x])) as [n|] eqn:E; cbn.
    + destruct q as [|y q]; [by rewrite E, Nat.sub_0_r|]. rewrite (IH ltac:(done) fuel (p ++ [x])).
      * by rewrite <-app_assoc.
      * intros r Hr. specialize (Hb r Hr). rewrite length_app. cbn. lia.
    + destruct (view s (p ++ x :: q)) eqn:E'; [|done]. exfalso. destruct q as [|y q]; [by rewrite E' in E|].
      pose proof (ok_above s (p ++ [x]) (y :: q) Hs) as H. rewrite <-app_assoc, E in H. cbn in H. rewrite E' in H. by discriminate H.
Qed.

Lemma collectFileInfo_at s q : fs_ok s → q ≠ [] →
  LookUp (collectFileInfo s) q = (λ n, collect (depth s - length q) s q (Some n)) <$> view s q.
Proof.
  intros Hs Hq. unfold collectFileInfo. rewrite LookUp_collect; [done|done|done|].
  intros r Hr%view_names; [|done]. by apply depth_bound.
Qed.

Lemma collect_children fuel s p st : fi_children (collect fuel s p st) = match fuel with O => [] | S f => collectKids f s p end.
Proof. destruct fuel; [done|]. by rewrite collect_S. Qed.
Lemma collect_stat fuel s p st : fi_stat (collect fuel s p st) = st.
Proof. by destruct fuel. Qed.

Lemma collectKids_NoDup fuel s p : NoDup (collectKids fuel s p).*1.
Proof.
  rewrite collectKids_eq. destruct (is_dir _); [|constructor]. rewrite kidsOf_names. apply list.NoDup_filter, readdir_NoDup.
Qed.

(** Such a tree is a tree. *)
Lemma collect_ok s : fs_ok s → tree_ok (collectFileInfo s).
Proof.
  intros Hs q f Hf. assert (Hc : ∃ fuel st, f = collect fuel s q st ∧ (q = [] ∧ st = None ∨ st = view s q ∧ is_Some st)).
  { destruct (decide (q = [])) as [->|Hq]; [cbn in Hf; simplify_eq; exists (depth s), None; split; [done|by left]|].
    rewrite collectFileInfo_at in Hf by done. destruct (view s q) as [n|] eqn:E; [|done]. cbn in Hf. simplify_eq. eexists _, _. split; [done|by right]. }
  destruct Hc as (fuel&st&->&Hst). rewrite collect_children, collect_stat. split_and!.
  - destruct fuel; [constructor|apply collectKids_NoDup].
  - intros Hd. destruct fuel as [|fuel]; [done|]. unfold collectKids. destruct (is_dir (view s q)) eqn:E; [|done]. exfalso.
    unfold fi_isDir in Hd. rewrite collect_stat in Hd. destruct Hst as [[_ ->]|[-> [n Hn]]]; [done|].
    rewrite Hn in Hd, E. cbn in E. apply bool_decide_eq_false in Hd. apply Hd. by rewrite (IsDir_bit _ E).
  - intros Hq. by destruct Hst as [[? _]|[-> ?]].
Qed.

(** ** Names in order *)

Definition slt (a b : string) : Prop := sle a b ∧ a ≠ b.

Lemma compare_slt a b : String.compare a b = Lt → slt a b.
Proof.
  intros E. split; [unfold sle, String.leb; by rewrite E|]. intros ->. pose proof (String.compare_antisym b b) as H. by rewrite E in H.
Qed.
Lemma compare_sgt a b : String.compare a b = Gt → slt b a.
Proof. intros E. apply compare_slt. by rewrite String.compare_antisym, E. Qed.
Lemma slt_trans a b c : slt a b → slt b c → slt a c.
Proof. intros [H1 N1] [H2 N2]. split; [by eapply sle_trans|]. intros ->. by apply N1, sle_antisym. Qed.
Lemma slt_head_not_elem x y l : slt x y → StronglySorted slt (y :: l) → x ∉ y :: l.
Proof.
  intros H Hs Hin. assert (slt x x) as []; [|done]. apply elem_of_cons in Hin as [->|Hin]; [done|].
  apply StronglySorted_inv in Hs as [_ Hs]. rewrite list.Forall_forall in Hs. by eapply slt_trans, Hs.
Qed.

Lemma sorted_slt l : NoDup l → StronglySorted sle l → StronglySorted slt l.
Proof.
  induction l as [|x l IH]; intros Hnd Hs; constructor; apply list.NoDup_cons in Hnd as [Hx Hnd];
    apply StronglySorted_inv in Hs as [Hs Ha]; [by apply IH|].
  rewrite list.Forall_forall in *. intros y Hy. split; [by apply Ha|]. by intros ->.
Qed.
Lemma slt_NoDup l : StronglySorted slt l → NoDup l.
Proof.
  induction 1 as [|x l Hs IH Ha]; constructor; [|done]. intros Hin. rewrite list.Forall_forall in Ha. by destruct (Ha _ Hin).
Qed.

(** ** Merging the names *)

(** A name that both have, for the same inode, is left out. *)
Definition shared_in (same : bool) (l1 l2 : list (string * nat)) (x : string) : Prop := same = true ∧ ∃ i, (x, i) ∈ l1 ∧ (x, i) ∈ l2.

Section merge.
  Context (same : bool).

Lemma merge_nil_r l1 : merge_names same l1 [] = l1.*1.
Proof. by destruct l1 as [|[]]. Qed.
Lemma merge_cons n1 i1 l1 n2 i2 l2 :
  merge_names same ((n1, i1) :: l1) ((n2, i2) :: l2) =
  match String.compare n1 n2 with
  | Lt => n1 :: merge_names same l1 ((n2, i2) :: l2)
  | Eq => (if bool_decide (i1 ≠ i2) || negb same then [n1] else []) ++ merge_names same l1 l2
  | Gt => n2 :: merge_names same ((n1, i1) :: l1) l2
  end.
Proof. done. Qed.

Lemma merge_subset l1 : ∀ l2 x, x ∈ merge_names same l1 l2 → x ∈ l1.*1 ∨ x ∈ l2.*1.
Proof.
  induction l1 as [|[n1 i1] l1 IH]; intros l2; [destruct l2; by right|].
  induction l2 as [|[n2 i2] l2 IH2]; intros x; [rewrite merge_nil_r; by left|]. rewrite merge_cons.
  destruct (String.compare n1 n2).
  - rewrite elem_of_app. intros [H|H%IH]; [|cbn; rewrite !elem_of_cons; naive_solver].
    destruct (_ || _); [apply list_elem_of_singleton in H as ->; left; left|by apply not_elem_of_nil in H].
  - rewrite elem_of_cons. intros [->|H%IH]; [left; left|]. cbn in *. rewrite !elem_of_cons in *. naive_solver.
  - rewrite elem_of_cons. intros [->|H%IH2]; [right; left|]. cbn in *. rewrite !elem_of_cons in *. naive_solver.
Qed.

Lemma merge_sorted l1 : ∀ l2, StronglySorted slt l1.*1 → StronglySorted slt l2.*1 → StronglySorted slt (merge_names same l1 l2).
Proof.
  induction l1 as [|[n1 i1] l1 IH]; intros l2 H1; [by destruct l2|].
  induction l2 as [|[n2 i2] l2 IH2]; intros H2; [by rewrite merge_nil_r|]. rewrite merge_cons.
  pose proof (StronglySorted_inv H1) as [H1' Ha1]. pose proof (StronglySorted_inv H2) as [H2' Ha2]. fold (l1.*1) in *. fold (l2.*1) in *.
  rewrite list.Forall_forall in Ha1, Ha2. destruct (String.compare n1 n2) eqn:E.
  - apply String.compare_eq_iff in E as <-. specialize (IH l2 H1' H2'). destruct (_ || _); [|done]. constructor; [done|].
    apply list.Forall_forall. intros x [Hx|Hx]%merge_subset; auto.
  - apply compare_slt in E. specialize (IH _ H1' H2). constructor; [done|].
    apply list.Forall_forall. intros x [Hx|Hx]%merge_subset; [auto|]. cbn in Hx. apply elem_of_cons in Hx as [->|Hx]; [done|].
    eapply slt_trans; [done|auto].
  - apply compare_sgt in E. specialize (IH2 H2'). constructor; [done|].
    apply list.Forall_forall. intros x [Hx|Hx]%merge_subset; [|auto]. cbn in Hx. apply elem_of_cons in Hx as [->|Hx]; [done|].
    eapply slt_trans; [done|auto].
Qed.

Lemma elem_fst (l : list (string * nat)) x i : (x, i) ∈ l → x ∈ l.*1.
Proof. intros H. apply list_elem_of_fmap. by exists (x, i). Qed.

(** A head that the other list does not have. *)
Lemma shared_skip_l n1 i1 l1 l2 x : n1 ∉ l2.*1 → shared_in same ((n1, i1) :: l1) l2 x ↔ shared_in same l1 l2 x.
Proof.
  intros Hn. split; intros (?&i&H1&H2); (split; [done|]); exists i; (split; [|done]); [|by right].
  apply elem_of_cons in H1 as [[= -> ->]|?]; [|done]. by apply elem_fst in H2.
Qed.
Lemma shared_sym l1 l2 x : shared_in same l1 l2 x ↔ shared_in same l2 l1 x.
Proof. unfold shared_in. naive_solver. Qed.
Lemma shared_skip_r l1 n2 i2 l2 x : n2 ∉ l1.*1 → shared_in same l1 ((n2, i2) :: l2) x ↔ shared_in same l1 l2 x.
Proof. intros Hn. rewrite shared_sym, (shared_skip_l _ _ _ _ _ Hn). apply shared_sym. Qed.

Lemma merge_elem l1 : ∀ l2, StronglySorted slt l1.*1 → StronglySorted slt l2.*1 → ∀ x,
  x ∈ merge_names same l1 l2 ↔ (x ∈ l1.*1 ∨ x ∈ l2.*1) ∧ ¬ shared_in same l1 l2 x.
Proof.
  induction l1 as [|[n1 i1] l1 IH]; intros l2 H1.
  { intros _ x. replace (merge_names same [] l2) with l2.*1 by by destruct l2. rewrite elem_of_nil. unfold shared_in.
    split; [intros ?; split; [by right|]; intros (_&i&Hi&_); by apply not_elem_of_nil in Hi|naive_solver]. }
  induction l2 as [|[n2 i2] l2 IH2]; intros H2 x.
  { rewrite merge_nil_r, elem_of_nil. unfold shared_in.
    split; [intros ?; split; [by left|]; intros (_&i&_&Hi); by apply not_elem_of_nil in Hi|naive_solver]. }
  rewrite merge_cons. pose proof (StronglySorted_inv H1) as [H1' _]. pose proof (StronglySorted_inv H2) as [H2' _].
  destruct (String.compare n1 n2) eqn:E.
  - apply String.compare_eq_iff in E as <-. pose proof (slt_NoDup _ H1) as Hd1. pose proof (slt_NoDup _ H2) as Hd2.
    cbn in Hd1, Hd2. apply list.NoDup_cons in Hd1 as [Hd1 _], Hd2 as [Hd2 _]. rewrite elem_of_app, (IH l2 H1' H2').
    destruct (decide (x = n1)) as [->|Hx].
    + assert (shared_in same ((n1, i1) :: l1) ((n1, i2) :: l2) n1 ↔ i1 = i2 ∧ same = true) as ->.
      { split; [|intros [-> ->]; split; [done|]; exists i2; split; left].
        intros (?&i&[[= ->]|?%elem_fst]%elem_of_cons&[[= ->]|?%elem_fst]%elem_of_cons); done. }
      case_bool_decide; destruct same; cbn; rewrite ?elem_of_nil, ?elem_of_cons; naive_solver.
    + assert (shared_in same ((n1, i1) :: l1) ((n1, i2) :: l2) x ↔ shared_in same l1 l2 x) as ->.
      { unfold shared_in. setoid_rewrite elem_of_cons. naive_solver. }
      cbn. rewrite !elem_of_cons. destruct (_ || _); rewrite ?elem_of_nil, ?list_elem_of_singleton; naive_solver.
  - apply compare_slt in E. assert (Hn : n1 ∉ ((n2, i2) :: l2).*1) by by apply slt_head_not_elem.
    rewrite elem_of_cons, (IH _ H1' H2), shared_skip_l by done. change (((n1, i1) :: l1).*1) with (n1 :: l1.*1). rewrite (elem_of_cons l1.*1).
    split; [|naive_solver]. intros [->|?]; [|naive_solver]. split; [by left; left|]. intros (_&i&_&Hi%elem_fst); done.
  - apply compare_sgt in E. assert (Hn : n2 ∉ ((n1, i1) :: l1).*1) by by apply slt_head_not_elem.
    rewrite elem_of_cons, (IH2 H2'), shared_skip_r by done.
    change (((n2, i2) :: l2).*1) with (n2 :: l2.*1). rewrite (elem_of_cons l2.*1).
    split; [|naive_solver]. intros [->|?]; [|naive_solver]. split; [by right; left|]. intros (_&i&Hi%elem_fst&_); done.
Qed.
End merge.

(** ** The walker *)

Lemma elem_of_readdirnames s p x i : (x, i) ∈ readdirnames s p ↔ u_names s !! (p ++ [x]) = Some i.
Proof.
  unfold readdirnames. rewrite list_elem_of_omap. split.
  - intros (y&_&E). destruct (u_names s !! (p ++ [y])) eqn:Ey; by simplify_eq/=.
  - intros E. exists x. rewrite elem_of_readdir, E. by split; [eexists|].
Qed.
Lemma readdirnames_fst s p : (readdirnames s p).*1 = readdir s p.
Proof.
  unfold readdirnames. assert (H : ∀ x, x ∈ readdir s p → is_Some (u_names s !! (p ++ [x]))) by (intros x; apply elem_of_readdir).
  induction (readdir s p) as [|x l IH]; [done|]. cbn. destruct (H x) as [i ->]; [left|]. cbn. f_equal.
  apply IH. intros y Hy. apply H. by right.
Qed.
Lemma readdirnames_sorted s p : StronglySorted slt (readdirnames s p).*1.
Proof. rewrite readdirnames_fst. apply sorted_slt; [apply readdir_NoDup|apply readdir_sorted]. Qed.
Lemma readdir_no_dir s p : fs_ok s → is_dir (view s p) = false → readdir s p = [].
Proof.
  intros Hs Hd. destruct (readdir s p) as [|x l] eqn:E; [done|]. assert (Hx : x ∈ readdir s p) by (rewrite E; left).
  apply elem_of_readdir, (ok_parent s Hs) in Hx. by rewrite Hd in Hx.
Qed.

Section walker.
  (** The old tree and the new one; [side] is which of them. *)
  Context (s1 s2 : unixFS) (Hs1 : fs_ok s1) (Hs2 : fs_ok s2).

Definition fs_of (side : bool) : unixFS := if side then s2 else s1.
Lemma fs_of_ok side : fs_ok (fs_of side).
Proof using Hs1 Hs2. by destruct side. Qed.

(** The same inode of the same device has a name in both. *)
Definition left_out (r : path) : Prop := u_dev s1 = u_dev s2 ∧ ∃ i, u_names s1 !! r = Some i ∧ u_names s2 !! r = Some i.

Definition walkNames (p : path) : list string :=
  merge_names (bool_decide (is_Some (view s1 p) ∧ is_Some (view s2 p) ∧ u_dev s1 = u_dev s2)) (readdirnames s1 p) (readdirnames s2 p).

Lemma elem_of_walkNames p x : x ∈ walkNames p ↔ (∃ side, is_Some (view (fs_of side) (p ++ [x]))) ∧ ¬ left_out (p ++ [x]).
Proof using Hs1 Hs2.
  unfold walkNames. rewrite merge_elem by apply readdirnames_sorted. rewrite !readdirnames_fst, !elem_of_readdir, <-!view_names by done.
  unfold shared_in, left_out. setoid_rewrite elem_of_readdirnames. rewrite bool_decide_eq_true.
  assert (Hd : ∀ s i, fs_ok s → u_names s !! (p ++ [x]) = Some i → is_Some (view s p)).
  { intros s i Hs Hi. destruct (proj1 (is_dir_Some _) (ok_parent s Hs p x (mk_is_Some _ _ Hi))) as (n&->&_). by eexists. }
  assert (is_Some (view s1 (p ++ [x])) ∨ is_Some (view s2 (p ++ [x])) ↔ ∃ side, is_Some (view (fs_of side) (p ++ [x]))) as <-.
  { split; [intros [?|?]; [by exists false|by exists true]|intros [[] ?]; auto]. }
  apply and_iff_compat_l, not_iff_compat. split; [naive_solver|]. intros (E&i&H1&H2). split; eauto.
Qed.
Lemma walkNames_NoDup p : NoDup (walkNames p).
Proof. apply slt_NoDup, merge_sorted; apply readdirnames_sorted. Qed.

(** The children that the walker finds below a path. *)
Definition walkKids (side : bool) (fuel : nat) (p : path) : list (string * FileInfo) :=
  let k := walk fuel s1 s2 p (view s1 p) (view s2 p) in if side then k.2 else k.1.

Lemma walkKids_S side fuel p :
  walkKids side (S fuel) p =
  kidsOf (λ x, view (fs_of side) (p ++ [x])) (λ x c, mkFI (Some c) (walkKids side fuel (p ++ [x]))) (walkNames p).
Proof using Hs1 Hs2.
  assert (Hr : ∀ s, fs_ok s → (if is_dir (view s p) then readdirnames s p else []) = readdirnames s p).
  { intros s Hs. destruct (is_dir (view s p)) eqn:E; [done|]. unfold readdirnames. by rewrite readdir_no_dir. }
  assert (Hv : ∀ s x, fs_ok s → (if is_dir (view s p) then view s (p ++ [x]) else None) = view s (p ++ [x])).
  { intros s x Hs. destruct (is_dir (view s p)) eqn:E; [done|]. destruct (view s (p ++ [x])) eqn:E'; [|done].
    by rewrite (ok_above s p [x] Hs) in E by (rewrite ?E'; done). }
  unfold walkKids at 1. cbn [walk]. rewrite (Hr s1 Hs1), (Hr s2 Hs2).
  destruct (negb (is_dir (view s1 p)) && negb (is_dir (view s2 p))) eqn:E.
  - apply andb_true_iff in E as [E1%negb_true_iff E2%negb_true_iff]. unfold walkNames, readdirnames.
    rewrite !readdir_no_dir by done. by destruct side.
  - fold (walkNames p). clear E. unfold kidsOf.
    destruct side; cbn [fst snd]; induction (walkNames p) as [|x l IH]; try done; cbn; rewrite !Hv by done;
      [destruct (view s2 (p ++ [x]))|destruct (view s1 (p ++ [x]))]; cbn; first [apply IH|f_equal; apply IH].
Qed.

Lemma walkKids_child side fuel p x :
  child_of x (walkKids side (S fuel) p) =
  if decide (x ∈ walkNames p) then (λ c, mkFI (Some c) (walkKids side fuel (p ++ [x]))) <$> view (fs_of side) (p ++ [x]) else None.
Proof using Hs1 Hs2. by rewrite walkKids_S, kidsOf_child. Qed.

Lemma walkKids_NoDup side fuel p : NoDup (walkKids side fuel p).*1.
Proof using Hs1 Hs2.
  destruct fuel as [|fuel]; [destruct side; constructor|]. rewrite walkKids_S, kidsOf_names. apply list.NoDup_filter, walkNames_NoDup.
Qed.
Lemma walkKids_no_dir side fuel p : is_dir (view (fs_of side) p) = false → walkKids side fuel p = [].
Proof using Hs1 Hs2.
  intros Hd. destruct fuel as [|fuel]; [by destruct side|]. rewrite walkKids_S. unfold kidsOf.
  induction (walkNames p) as [|x l IH]; [done|]. cbn. destruct (view (fs_of side) (p ++ [x])) eqn:E; [|done].
  rewrite (ok_above (fs_of side) p [x]) in Hd; [done|apply fs_of_ok|by rewrite E|done].
Qed.

(** A file of the tree is the file at its path, with what the walker finds below. *)
Lemma walk_at side q : ∀ fuel p st f, LookUp (mkFI st (walkKids side fuel p)) q = Some f →
  ∃ fuel', f = mkFI (if decide (q = []) then st else view (fs_of side) (p ++ q)) (walkKids side fuel' (p ++ q)) ∧
    (q ≠ [] → is_Some (view (fs_of side) (p ++ q))).
Proof using Hs1 Hs2.
  induction q as [|x q IH]; intros fuel p st f; cbn [LookUp].
  - intros [= <-]. exists fuel. by rewrite app_nil_r, decide_True.
  - destruct fuel as [|fuel]; [by destruct side|]. cbn [fi_children]. rewrite walkKids_child. destruct (decide (x ∈ walkNames p)); [|done].
    destruct (view (fs_of side) (p ++ [x])) as [n|] eqn:E; [|done]. cbn [fmap option_fmap option_map].
    intros (fuel'&->&Hq)%IH. exists fuel'. rewrite <-app_assoc in *. cbn [app] in *. split.
    + f_equal. rewrite (decide_False (P := x :: q = [])) by done. case_decide; [subst; by rewrite E|done].
    + intros _. destruct (decide (q = [])) as [->|]; [by rewrite E|auto].
Qed.

(** A path that is below no file that was left out. *)
Definition kept (p q : path) : Prop := ∀ r t, q = r ++ t → r ≠ [] → ¬ left_out (p ++ r).

Lemma kept_cons p x q : kept p (x :: q) ↔ ¬ left_out (p ++ [x]) ∧ kept (p ++ [x]) q.
Proof.
  split.
  - intros H. split; [by apply (H [x] q)|]. intros r t -> Hr. rewrite <-app_assoc. by apply (H (x :: r) t).
  - intros [Hx H] [|y r] t E Hr; [done|]. injection E as <- ->. destruct (decide (r = [])) as [->|]; [done|].
    rewrite cons_middle, (assoc_L (++)). by apply (H r t).
Qed.

Lemma walk_is_Some side q : ∀ fuel p st, (∀ r, is_Some (view (fs_of side) r) → length r < length p + fuel) → q ≠ [] →
  is_Some (LookUp (mkFI st (walkKids side fuel p)) q) ↔ is_Some (view (fs_of side) (p ++ q)) ∧ kept p q.
Proof using Hs1 Hs2.
  induction q as [|x q IH]; intros fuel p st Hb Hq; [done|]. destruct fuel as [|fuel].
  { split; [destruct side; by intros [? ?]|]. intros [H _]. apply Hb in H. rewrite length_app in H. cbn in H. lia. }
  cbn [LookUp fi_children]. rewrite walkKids_child, kept_cons. replace (p ++ x :: q) with ((p ++ [x]) ++ q) by by rewrite <-app_assoc.
  assert (Hx : is_Some (view (fs_of side) ((p ++ [x]) ++ q)) → is_Some (view (fs_of side) (p ++ [x]))).
  { intros H. destruct (decide (q = [])) as [->|]; [by rewrite app_nil_r in H|].
    apply (ok_above _ _ _ (fs_of_ok side)) in H; [|done]. apply is_dir_Some in H as (m&->&_). by eexists. }
  case_decide as Hin; rewrite elem_of_walkNames in Hin.
  - destruct (view (fs_of side) (p ++ [x])) as [n|] eqn:E.
    + change (is_Some (LookUp (mkFI (Some n) (walkKids side fuel (p ++ [x]))) q) ↔
        is_Some (view (fs_of side) ((p ++ [x]) ++ q)) ∧ ¬ left_out (p ++ [x]) ∧ kept (p ++ [x]) q).
      destruct (decide (q = [])) as [->|Hq'].
      * rewrite app_nil_r, E. cbn. split; [|by eauto]. intros _. split; [by eexists|]. split; [naive_solver|]. intros [] t; [done|done].
      * rewrite (IH fuel (p ++ [x]) (Some n)); [naive_solver| |done]. intros r Hr%Hb. rewrite length_app. cbn. lia.
    + split; [by intros []|]. intros [H _]. by apply Hx in H as [].
  - split; [by intros []|]. intros (H&Hl&_). exfalso. apply Hin. split; [|done]. exists side. auto.
Qed.
End walker.

(** ** The changes between two file systems *)

(** What the code compares of two files; [file_changed_meta] says what it means. *)
Definition file_changed (o n : inode) : bool := statDifferent o n || bool_decide (capability o ≠ capability n).
Definition dir_bit (n : inode) : bool := bool_decide (Z.land (n_mode n) S_IFDIR ≠ 0%Z).

Lemma file_changed_refl n : file_changed n n = false.
Proof.
  assert (sameFsTimeSpec (n_mtim n) (n_mtim n) = true) as Hm by (apply bool_decide_eq_true_2; auto).
  unfold file_changed, statDifferent. rewrite Hm. apply orb_false_iff. split; apply bool_decide_eq_false_2; naive_solver.
Qed.

Section spec.
  (** What the new and the old file system have at a path. *)
  Context (new old : path → option inode).

(** The directory of a path still is one: the test sees one bit of the mode. *)
Definition holds_dir (p : path) : bool := bool_decide (p = []) || match new p with Some d => dir_bit d | None => false end.

Definition differs (q : path) : Prop :=
  q ≠ [] ∧ match new q, old q with
           | Some n, Some o => file_changed o n = true
           | Some _, None => True
           | None, Some _ => holds_dir (parent q) = true
           | None, None => False
           end.

(** The changes: a file that is new, one that is gone from a directory that is not,
    one that is different, and a directory with one of them anywhere below. *)
Definition change (q : path) (k : ChangeType) : Prop :=
  q ≠ [] ∧ match k, new q, old q with
           | ChangeAdd, Some _, None => True
           | ChangeDelete, None, Some _ => holds_dir (parent q) = true
           | ChangeModify, Some n, Some o => file_changed o n = true ∨ dir_bit n = true ∧ ∃ r, r ≠ [] ∧ differs (q ++ r)
           | _, _, _ => False
           end.
End spec.

(** A tree with the files of [v]. *)
Definition tree_of (t : FileInfo) (v : path → option inode) : Prop :=
  fi_stat t = None ∧ ∀ q, q ≠ [] → match LookUp t q with Some f => is_Some (v q) ∧ fi_stat f = v q | None => v q = None end.

Section tree_of.
  Context (new old : FileInfo) (vn vo : path → option inode) (Hn : tree_of new vn) (Ho : tree_of old vo).

Lemma tree_of_isDir q : (∃ d, LookUp new q = Some d ∧ fi_isDir d = true) ↔ holds_dir vn q = true.
Proof using Hn.
  unfold holds_dir. destruct (decide (q = [])) as [->|Hq].
  - cbn. split; [done|]. intros _. exists new. split; [done|]. unfold fi_isDir. by rewrite (proj1 Hn).
  - rewrite bool_decide_eq_false_2 by done. cbn. pose proof (proj2 Hn q Hq) as H. destruct (LookUp new q) as [f|].
    + destruct H as [[n E] Hf]. rewrite E in *. unfold fi_isDir, dir_bit. split; [intros (?&[= <-]&H); by rewrite Hf in H|].
      intros H. exists f. by rewrite Hf.
    + rewrite H. naive_solver.
Qed.

Lemma differs_views q : differs_at new old q ↔ differs vn vo q.
Proof using Hn Ho.
  unfold differs_at, differs, added_at, deleted_at, changed_at. rewrite tree_of_isDir.
  destruct (decide (q = [])) as [->|Hq]; [naive_solver|]. pose proof (proj2 Hn q Hq) as H1. pose proof (proj2 Ho q Hq) as H2.
  unfold changed, file_changed. destruct (LookUp new q) as [n|], (LookUp old q) as [o|].
  - destruct H1 as [[i1 E1] F1], H2 as [[i2 E2] F2]. rewrite E1, E2 in *. split.
    + intros [_ [[_ ?]|[(_&?&_)|(?&?&[= <-]&[= <-]&H)]]]; [done..|]. by rewrite F1, F2 in H.
    + intros [_ H]. split; [done|]. right. right. exists n, o. by rewrite F1, F2.
  - destruct H1 as [[i1 E1] F1]. rewrite E1, H2. naive_solver.
  - destruct H2 as [[i2 E2] F2]. rewrite E2, H1. split; [|naive_solver].
    intros [_ [[[] _]|[(_&_&?)|(?&?&?&_)]]]; done.
  - rewrite H1, H2. split; [|naive_solver]. intros [_ [[[] _]|[([]&_)|(?&?&?&_)]]]; done.
Qed.

Lemma change_views q k : change_at new old q k ↔ change vn vo q k.
Proof using Hn Ho.
  unfold change_at, change, added_at, deleted_at, modified_at. destruct (decide (q = [])) as [->|Hq]; [naive_solver|].
  pose proof (tree_of_isDir (parent q)) as Hp. pose proof (proj2 Hn q Hq) as H1. pose proof (proj2 Ho q Hq) as H2.
  apply and_iff_compat_l. unfold changed, file_changed. destruct (LookUp new q) as [n|] eqn:En, (LookUp old q) as [o|].
  - destruct H1 as [[i1 E1] F1], H2 as [[i2 E2] F2]. assert (fi_isDir n = dir_bit i1) as Hd by (unfold fi_isDir; by rewrite F1, E1).
    rewrite E1, E2 in *. destruct k; [|naive_solver..]. setoid_rewrite differs_views. split.
    + intros (?&?&[= <-]&[= <-]&H). rewrite F1, F2, Hd in H. naive_solver.
    + intros H. exists n, o. rewrite F1, F2, Hd. naive_solver.
  - destruct H1 as [[i1 E1] F1]. rewrite E1, H2. destruct k; naive_solver.
  - destruct H2 as [[i2 E2] F2]. rewrite E2, H1. destruct k; [naive_solver| |rewrite Hp; naive_solver]. split; [intros [[] _]|]; done.
  - rewrite H1, H2. destruct k; [naive_solver| |]; split; try (intros [[] _]); done.
Qed.
End tree_of.

(** *** Files that are shared *)

(** A path that both file systems have with the same inode of the same device is
    the same file in both, and so is everything below it. *)
Definition same_files (s1 s2 : unixFS) : Prop :=
  ∀ p q, p ≠ [] → left_out s1 s2 p → view s1 (p ++ q) = view s2 (p ++ q).

#[global] Instance left_out_dec s1 s2 r : Decision (left_out s1 s2 r).
Proof.
  refine (cast_if (decide (u_dev s1 = u_dev s2 ∧ is_Some (u_names s1 !! r) ∧ u_names s1 !! r = u_names s2 !! r)));
    abstract (unfold left_out; destruct (u_names s1 !! r), (u_names s2 !! r); naive_solver).
Defined.
#[global] Instance kept_dec s1 s2 p q : Decision (kept s1 s2 p q).
Proof.
  revert p. induction q as [|x q IH]; intros p; [left; by intros [] t|].
  destruct (IH (p ++ [x])); [destruct (decide (left_out s1 s2 (p ++ [x])))|];
    [right|left|right]; rewrite kept_cons; naive_solver.
Defined.

Lemma not_kept_inv s1 s2 q : ∀ p, ¬ kept s1 s2 p q → ∃ r t, q = r ++ t ∧ r ≠ [] ∧ left_out s1 s2 (p ++ r).
Proof.
  induction q as [|x q IH]; intros p H; [exfalso; apply H; by intros [] t|]. rewrite kept_cons in H.
  destruct (decide (left_out s1 s2 (p ++ [x]))) as [Hl|Hl]; [by exists [x], q|].
  destruct (IH (p ++ [x])) as (r&t&->&Hr&H'); [naive_solver|]. exists (x :: r), t. by rewrite <-app_assoc in H'.
Qed.

Section shared.
  Context (s1 s2 : unixFS) (Hs1 : fs_ok s1) (Hs2 : fs_ok s2) (Hsame : same_files s1 s2).

(** The files that the walker meets. *)
Definition met (side : bool) (q : path) : option inode := if decide (kept s1 s2 [] q) then view (fs_of s1 s2 side) q else None.

Lemma kept_app q r : kept s1 s2 [] (q ++ r) → kept s1 s2 [] q.
Proof. intros H a t -> Ha. rewrite <-app_assoc in H. by apply (H a (t ++ r)). Qed.
Lemma not_kept q : ¬ kept s1 s2 [] q → view s1 q = view s2 q.
Proof using Hsame. intros (r&t&->&Hr&Hl)%not_kept_inv. by apply Hsame. Qed.

Lemma not_kept_differs q : ¬ kept s1 s2 [] q → ¬ differs (view s2) (view s1) q.
Proof using Hs1 Hsame.
  intros Hk [_ H]. rewrite <-(not_kept q Hk) in H. destruct (view s1 q) as [n|]; [|done]. by rewrite file_changed_refl in H.
Qed.
Lemma met_kept side q : kept s1 s2 [] q → met side q = view (fs_of s1 s2 side) q.
Proof. intros H. unfold met. by rewrite decide_True. Qed.
Lemma met_not_kept side q : ¬ kept s1 s2 [] q → met side q = None.
Proof. intros H. unfold met. by rewrite decide_False. Qed.

Lemma holds_dir_met q : kept s1 s2 [] q → holds_dir (met true) q = holds_dir (view s2) q.
Proof. intros H. unfold holds_dir. by rewrite (met_kept true _ H). Qed.
Lemma parent_prefix (q : path) : ∃ r, q = parent q ++ r.
Proof. exists (drop (length q - 1) q). unfold parent. by rewrite take_drop. Qed.
Lemma kept_parent q : kept s1 s2 [] q → kept s1 s2 [] (parent q).
Proof. destruct (parent_prefix q) as [r E]. rewrite E at 1. apply kept_app. Qed.

(** Leaving out what is shared hides no difference and makes none. *)
Lemma differs_met q : differs (met true) (met false) q ↔ differs (view s2) (view s1) q.
Proof using Hs1 Hsame.
  destruct (decide (kept s1 s2 [] q)) as [Hk|Hk].
  - unfold differs. rewrite !met_kept by done. rewrite holds_dir_met by by apply kept_parent. done.
  - split; [|intros H; by apply not_kept_differs in H]. intros [_ H]. by rewrite !met_not_kept in H.
Qed.
Lemma change_met q k : change (met true) (met false) q k ↔ change (view s2) (view s1) q k.
Proof using Hs1 Hsame.
  destruct (decide (kept s1 s2 [] q)) as [Hk|Hk].
  - unfold change. rewrite !met_kept by done. rewrite holds_dir_met by by apply kept_parent.
    apply and_iff_compat_l. cbn. destruct k; [|done..]. destruct (view s2 q), (view s1 q); try done.
    setoid_rewrite differs_met. done.
  - split; [intros [_ H]; rewrite !met_not_kept in H by done; by destruct k|].
    intros [Hq H]. rewrite <-(not_kept q Hk) in H. destruct k, (view s1 q) as [n|]; try done.
    rewrite file_changed_refl in H. destruct H as [?|(_&r&_&Hd)]; [done|]. exfalso. revert Hd. apply not_kept_differs.
    intros H. by apply kept_app in H.
Qed.

Let fuel := max (depth s1) (depth s2).
Definition walkTree (side : bool) : FileInfo := mkFI None (walkKids s1 s2 side fuel []).

Lemma walkTree_of side : tree_of (walkTree side) (met side).
Proof using Hs1 Hs2.
  split; [done|]. intros q Hq. assert (Hb : ∀ r, is_Some (view (fs_of s1 s2 side) r) → length r < length (@nil string) + fuel).
  { intros r Hr. rewrite view_names in Hr by by apply fs_of_ok. apply depth_bound in Hr. unfold fuel. destruct side; cbn [fs_of length] in *; lia. }
  pose proof (walk_is_Some s1 s2 Hs1 Hs2 side q fuel [] None Hb Hq) as H. unfold walkTree, met. destruct (LookUp _ q) as [f|] eqn:E.
  - apply walk_at in E as (fuel'&->&_); [|done..]. cbn. rewrite (decide_False (P := q = [])) by done.
    destruct (proj1 H) as [Hv Hk]; [by eexists|]. cbn in Hv. by rewrite decide_True.
  - case_decide as Hk; [|done]. apply eq_None_not_Some. intros Hv. destruct (proj2 H) as [? ?]; done.
Qed.
Lemma walkTree_ok side : tree_ok (walkTree side).
Proof using Hs1 Hs2.
  intros q f Hf. apply walk_at in Hf as (fuel'&->&Hv); [|done..]. cbn. split_and!.
  - by apply walkKids_NoDup.
  - unfold fi_isDir. cbn. case_decide as Hq; [done|]. specialize (Hv Hq). destruct Hv as [n Hn]. cbn in Hn. rewrite Hn.
    intros Hb%bool_decide_eq_false. apply walkKids_no_dir; [done..|]. rewrite Hn. cbn. apply not_true_is_false. intros Hd%IsDir_bit.
    apply Hb. by rewrite Hd.
  - intros Hq. rewrite decide_False by done. by apply Hv.
Qed.
End shared.

Lemma ChangesDirs_trees new old : ChangesDirs new old = Changes (walkTree old new true) (walkTree old new false).
Proof. unfold ChangesDirs, collectFileInfoForChanges, walkTree, walkKids. by destruct (walk _ _ _ _ _ _). Qed.

Lemma collect_of s : fs_ok s → tree_of (collectFileInfo s) (view s).
Proof.
  intros Hs. split; [by destruct (depth s) eqn:E; unfold collectFileInfo; rewrite E|]. intros q Hq.
  rewrite collectFileInfo_at by done. destruct (view s q); cbn; [|done]. rewrite collect_stat. split; [by eexists|done].
Qed.

(** The changes between two file systems are exactly those of [change]. *)
Lemma ChangesDirs_spec new old p k : fs_ok new → fs_ok old → same_files old new →
  mkChange p k ∈ ChangesDirs new old ↔ change (view new) (view old) p k.
Proof.
  intros Hn Ho Hs. rewrite ChangesDirs_trees, Changes_spec by by apply walkTree_ok.
  rewrite change_views by by apply walkTree_of. by apply change_met.
Qed.
Lemma ChangesDirs_nodup new old : fs_ok new → fs_ok old → NoDup (c_Path <$> ChangesDirs new old).
Proof. intros Hn Ho. rewrite ChangesDirs_trees. by apply Changes_nodup; apply walkTree_ok. Qed.

(** C21.  The walker that Linux uses to compare two directory trees reads both in
    parallel and leaves out, without looking at it, whatever has the same inode
    number in both: it finds the same changes as the comparison of the complete
    trees of the two, on condition that a path with the same inode on the same
    device is the same file. *)
Theorem walker_finds_the_changes (new old : unixFS) :
  fs_ok new → fs_ok old → same_files old new →
  ChangesDirs new old ≡ₚ Changes (collectFileInfo new) (collectFileInfo old).
Proof.
  intros Hn Ho Hs. apply NoDup_Permutation.
  - by eapply list.NoDup_fmap_1, ChangesDirs_nodup.
  - eapply list.NoDup_fmap_1, Changes_nodup; by apply collect_ok.
  - intros [p k]. rewrite ChangesDirs_spec, Changes_spec by (done || by apply collect_ok).
    symmetry. apply change_views; by apply collect_of.
Qed.

(** *** The changes, independently of the code *)

(** A regular file, a directory, a symbolic link, a character device or a FIFO.
    The tests of the code see one bit of the type, which block devices and sockets
    share with directories. *)
Definition ordinary (n : inode) : Prop := ifmt n ∈ [S_IFIFO; S_IFCHR; S_IFDIR; S_IFREG; S_IFLNK].
Definition ordinary_files (s : unixFS) : Prop := ∀ p n, view s p = Some n → ordinary n.

(** Two files that are not the same to lstat and lgetxattr.  The size and the time
    of directories do not count, and a time without nanoseconds is compared to the
    second. *)
Definition meta_differs (o n : inode) : Prop :=
  n_mode o ≠ n_mode n ∨ n_uid o ≠ n_uid n ∨ n_gid o ≠ n_gid n ∨ n_rdev o ≠ n_rdev n ∨
  default "" (n_cap o) ≠ default "" (n_cap n) ∨
  IsDir o = false ∧
    (n_size o ≠ n_size n ∨ (n_mtim o).1 ≠ (n_mtim n).1 ∨
     (n_mtim o).2 ≠ (n_mtim n).2 ∧ (n_mtim o).2 ≠ 0%Z ∧ (n_mtim n).2 ≠ 0%Z).

Inductive tree_change (new old : path → option inode) : path → ChangeType → Prop :=
| tc_add q n : q ≠ [] → new q = Some n → old q = None → tree_change new old q ChangeAdd
| tc_delete q o d : q ≠ [] → new q = None → old q = Some o → new (parent q) = Some d → IsDir d = true →
    tree_change new old q ChangeDelete
| tc_modify q n o : q ≠ [] → new q = Some n → old q = Some o → meta_differs o n → tree_change new old q ChangeModify
| tc_below q n o r k : q ≠ [] → new q = Some n → old q = Some o → IsDir n = true → r ≠ [] → tree_change new old (q ++ r) k →
    tree_change new old q ChangeModify.

Lemma ordinary_bit n : ordinary n → Z.land (n_mode n) S_IFDIR = if IsDir n then S_IFDIR else 0%Z.
Proof.
  intros Hn. assert (E : S_IFDIR = Z.land S_IFMT S_IFDIR) by done. rewrite E at 1. rewrite Z.land_assoc.
  unfold ordinary in Hn. unfold IsDir. fold (ifmt n). set_unfold in Hn. by destruct Hn as [->|[->|[->|[->|[->|[]]]]]].
Qed.

Lemma ordinary_dir_bit n : ordinary n → dir_bit n = IsDir n.
Proof. intros Hn. unfold dir_bit. rewrite ordinary_bit by done. by destruct (IsDir n). Qed.

Lemma file_changed_meta o n : ordinary o → file_changed o n = true ↔ meta_differs o n.
Proof.
  intros Ho. unfold file_changed, statDifferent, meta_differs, capability. rewrite ordinary_bit by done.
  rewrite orb_true_iff, !bool_decide_eq_true. unfold sameFsTimeSpec. rewrite bool_decide_eq_false.
  assert ((if IsDir o then S_IFDIR else 0%Z) ≠ S_IFDIR ↔ IsDir o = false) as -> by (by destruct (IsDir o)).
  destruct (decide ((n_mtim o).1 = (n_mtim n).1)), (decide ((n_mtim o).2 = (n_mtim n).2)), (decide ((n_mtim o).2 = 0%Z)),
    (decide ((n_mtim n).2 = 0%Z)); tauto.
Qed.

Section exact.
  Context (new old : unixFS) (Hn : fs_ok new) (On : ordinary_files new) (Oo : ordinary_files old).

Lemma holds_dir_view p : holds_dir (view new) p = true ↔ ∃ d, view new p = Some d ∧ IsDir d = true.
Proof using Hn On.
  unfold holds_dir. destruct (decide (p = [])) as [->|Hp].
  - split; [intros _|done]. pose proof (ok_root _ Hn) as Hr. unfold is_dir in Hr. destruct (view new []); [by eexists|done].
  - rewrite bool_decide_eq_false_2 by done. simpl. destruct (view new p) as [d|] eqn:E; [|naive_solver].
    rewrite (ordinary_dir_bit d) by by eapply On. naive_solver.
Qed.

Lemma differs_tree q : differs (view new) (view old) q → ∃ k, tree_change (view new) (view old) q k.
Proof using Hn On Oo.
  intros [Hq H]. destruct (view new q) as [n|] eqn:En, (view old q) as [o|] eqn:Eo; [|by eexists; eapply tc_add| |done].
  - eexists. eapply tc_modify; [done..|]. apply file_changed_meta; [by eapply Oo|done].
  - apply holds_dir_view in H as (d&?&?). eexists. by eapply tc_delete.
Qed.

Lemma tree_differs q k : tree_change (view new) (view old) q k →
  change (view new) (view old) q k ∧ ∃ r, differs (view new) (view old) (q ++ r).
Proof using Hn On Oo.
  intros H. induction H as [q n Hq En Eo|q o d Hq En Eo Ed Hd|q n o Hq En Eo Hm|q n o r k Hq En Eo Hd Hr Hk IH].
  - unfold change. rewrite En, Eo. split; [done|]. exists []. rewrite app_nil_r. unfold differs. by rewrite En, Eo.
  - assert (holds_dir (view new) (parent q) = true) by (apply holds_dir_view; eauto). unfold change. rewrite En, Eo.
    split; [done|]. exists []. rewrite app_nil_r. unfold differs. by rewrite En, Eo.
  - apply file_changed_meta in Hm; [|by eapply Oo]. unfold change. rewrite En, Eo. split; [auto|]. exists []. rewrite app_nil_r.
    unfold differs. by rewrite En, Eo.
  - destruct IH as [_ [r' Hd']]. rewrite <-app_assoc in Hd'. split; [|by eexists]. unfold change. rewrite En, Eo. split; [done|]. right.
    rewrite ordinary_dir_bit by by eapply On. split; [done|]. exists (r ++ r'). split; [by destruct r|done].
Qed.

Lemma change_tree q k : change (view new) (view old) q k ↔ tree_change (view new) (view old) q k.
Proof using Hn On Oo.
  split; [|by intros [? _]%tree_differs]. intros [Hq H].
  destruct k, (view new q) as [n|] eqn:En, (view old q) as [o|] eqn:Eo; try done.
  - destruct H as [H|(Hd&r&Hr&[k Hk]%differs_tree)].
    + eapply tc_modify; [done..|]. apply file_changed_meta; [by eapply Oo|done].
    + eapply tc_below; [done..| |done|done]. rewrite <-ordinary_dir_bit; [done|by eapply On].
  - by eapply tc_add.
  - apply holds_dir_view in H as (d&?&?). by eapply tc_delete.
Qed.
End exact.

(** C34.  The comparison of two directory trees lists exactly their changes, and
    each path once: an addition for every file that only the new tree has, a
    deletion for every file that only the old tree has and whose directory is still
    one, and a modification for every file of both whose mode, owner, device or
    capability differ, or, if it was not a directory, whose size or time do, and for
    every directory with a change anywhere below it.  A path with the same inode on
    the same device must be the same file, and neither tree may have block devices
    or sockets, which the code takes for directories. *)
Theorem changes_exact (new old : unixFS) :
  fs_ok new → fs_ok old → same_files old new → ordinary_files new → ordinary_files old →
  NoDup (c_Path <$> ChangesDirs new old) ∧
  ∀ p k, mkChange p k ∈ ChangesDirs new old ↔ tree_change (view new) (view old) p k.
Proof.
  intros Hn Ho Hs On Oo. split; [by apply ChangesDirs_nodup|]. intros p k. rewrite ChangesDirs_spec by done. by apply change_tree.
Qed.

(** ** Deciding it *)

#[global] Instance inode_eq_dec : EqDecision inode.
Proof. solve_decision. Defined.

Definition entries_of (s : unixFS) : list (path * nat) := map_to_list (u_names s).
Definition name_okb (x : string) : bool := bool_decide (x ≠ ""%string ∧ x ≠ "."%string ∧ x ≠ ".."%string) && negb (ContainsChar "/"%char x).
Definition fs_okb (s : unixFS) : bool :=
  is_dir (view s []) &&
  forallb (λ kv, (bool_decide (kv.1 = []) || is_dir (view s (parent kv.1))) && bool_decide (is_Some (u_inodes s !! kv.2)) && forallb name_okb kv.1)
    (entries_of s).

Lemma forallb_entries s f p i : forallb f (entries_of s) = true → u_names s !! p = Some i → f (p, i) = true.
Proof. intros H E. rewrite forallb_forall in H. apply H, list_elem_of_In, elem_of_map_to_list. done. Qed.

Lemma fs_okb_ok s : fs_okb s = true → fs_ok s.
Proof.
  intros [Hr H]%andb_true_iff. split; [done|..].
  - intros p x [i Hi]. apply (forallb_entries s _ _ _ H) in Hi. cbn [fst snd] in Hi. rewrite bool_decide_eq_false_2 in Hi by by destruct p.
    rewrite parent_snoc in Hi. cbn in Hi. by apply andb_true_iff in Hi as [[? _]%andb_true_iff _].
  - intros p i Hi. apply (forallb_entries s _ _ _ H) in Hi. apply andb_true_iff in Hi as [[_ Hi%bool_decide_eq_true]%andb_true_iff _]. done.
  - intros p x [i Hi] Hx. apply (forallb_entries s _ _ _ H) in Hi. apply andb_true_iff in Hi as [_ Hi]. cbn in Hi.
    rewrite forallb_forall in Hi. apply list_elem_of_In in Hx. apply Hi in Hx. unfold name_okb in Hx.
    apply andb_true_iff in Hx as [(?&?&?)%bool_decide_eq_true Hx%negb_true_iff]. done.
Qed.

Definition same_filesb (s1 s2 : unixFS) : bool :=
  forallb (λ kv, bool_decide (kv.1 = [] ∨ ¬ left_out s1 s2 kv.1) ||
    forallb (λ kv', bool_decide (¬ kv.1 `prefix_of` kv'.1 ∨ view s1 kv'.1 = view s2 kv'.1)) (entries_of s1 ++ entries_of s2)) (entries_of s1).

Lemma same_filesb_ok s1 s2 : same_filesb s1 s2 = true → same_files s1 s2.
Proof.
  intros H p q Hp Hl. pose proof Hl as (_&i&Hi&_). apply (forallb_entries s1 _ _ _ H) in Hi. cbn in Hi.
  apply orb_true_iff in Hi as [[?|?]%bool_decide_eq_true|Hi]; [done|done|]. rewrite forallb_forall in Hi.
  assert (Hgo : ∀ j, (p ++ q, j) ∈ entries_of s1 ++ entries_of s2 → view s1 (p ++ q) = view s2 (p ++ q)).
  { intros j Hj%list_elem_of_In%Hi. apply bool_decide_eq_true in Hj as [Hj|?]; [|done]. destruct Hj. by eexists. }
  destruct (u_names s1 !! (p ++ q)) as [j|] eqn:E1; [apply (Hgo j), elem_of_app; left; by apply elem_of_map_to_list|].
  destruct (u_names s2 !! (p ++ q)) as [j|] eqn:E2; [apply (Hgo j), elem_of_app; right; by apply elem_of_map_to_list|].
  unfold view. by rewrite E1, E2.
Qed.

(** A test of every file of a file system. *)
Definition all_files (s : unixFS) (f : path → inode → bool) : bool :=
  forallb (λ kv, match view s kv.1 with Some n => f kv.1 n | None => true end) (entries_of s).
Lemma all_files_ok s f p n : all_files s f = true → view s p = Some n → f p n = true.
Proof.
  intros H Hv. pose proof Hv as Hv'. unfold view in Hv'. apply bind_Some in Hv' as (i&Hi&_). apply (forallb_entries s _ _ _ H) in Hi. cbn [fst] in Hi.
  by rewrite Hv in Hi.
Qed.

Definition ordinaryb (n : inode) : bool := bool_decide (ifmt n ∈ [S_IFIFO; S_IFCHR; S_IFDIR; S_IFREG; S_IFLNK]).
Lemma ordinaryb_ok s : all_files s (λ _ n, ordinaryb n) = true → ordinary_files s.
Proof. intros H p n Hv. apply (all_files_ok _ _ _ _ H) in Hv. by apply bool_decide_eq_true in Hv. Qed.

(** ** Two trees *)

Module ConcreteTrees.

Definition dir : inode := mkInode 0x41ED 100000 100000 0 4096 (5, 7)%Z None "".
Definition reg (data : string) (t : Z) : inode := mkInode 0x8FED 100003 100004 0 (Z.of_nat (String.length data)) (t, 9)%Z (Some "cap"%string) data.
Definition lnk (data : string) (t : Z) : inode := mkInode 0xA1FF 100003 100004 0 (Z.of_nat (String.length data)) (t, 9)%Z None data.
Definition tree (names : list (path * nat)) (inodes : list (nat * inode)) : unixFS := mkFS (list_to_map names) (list_to_map inodes) 1 100 0.

(** A file that both share, one that is gone, one that became a directory, two
    names of one new file, and a symbolic link. *)
Definition old : unixFS :=
  tree [([], 0); (["a"], 1); (["a"; "x"], 2); (["a"; "y"], 3); (["b"], 4)]%string
       [(0, dir); (1, dir); (2, reg "hello" 10); (3, reg "gone" 11); (4, reg "file" 3)].
Definition new : unixFS :=
  tree [([], 20); (["a"], 21); (["a"; "x"], 2); (["a"; "z"], 23); (["a"; "w"], 23); (["b"], 24); (["b"; "l"], 26)]%string
       [(20, dir); (21, dir); (2, reg "hello" 10); (23, reg "linked" 12); (24, dir); (26, lnk "../a/x" 8)].

Lemma walker_finds_the_changes_witness :
  fs_okb new = true ∧ fs_okb old = true ∧ same_filesb old new = true ∧
  ChangesDirs new old ≡ₚ Changes (collectFileInfo new) (collectFileInfo old).
Proof.
  refine (conj _ (conj _ (conj _ (walker_finds_the_changes new old (fs_okb_ok _ _) (fs_okb_ok _ _) (same_filesb_ok _ _ _))))); by_vm.
Defined.

Lemma changes_exact_witness :
  ChangesDirs new old =
    [mkChange ["a"] ChangeModify; mkChange ["a"; "w"] ChangeAdd; mkChange ["a"; "z"] ChangeAdd; mkChange ["a"; "y"] ChangeDelete;
     mkChange ["b"] ChangeModify; mkChange ["b"; "l"] ChangeAdd]%string ∧
  ∀ p k, mkChange p k ∈ ChangesDirs new old ↔ tree_change (view new) (view old) p k.
Proof.
  refine (conj _ (proj2 (changes_exact new old (fs_okb_ok _ _) (fs_okb_ok _ _) (same_filesb_ok _ _ _) (ordinaryb_ok _ _) (ordinaryb_ok _ _)))); by_vm.
Defined.
End ConcreteTrees.
