(* ===== verification/ArchivePaths.v ===== *)
(** Names in archives: the strings that paths become in the headers of an archive,
    and what the extraction makes of them (path/filepath). *)

From Stdlib Require Import Ascii.
From S2P Require Import Prelude GoStrings Runes GoPath UnixFS Archive ArchiveChanges ArchiveWalk.

Local Open Scope string_scope.

Abbreviation slash := "/"%char.

(** ** Strings *)

Lemma ContainsChar_cons c x s : ContainsChar c (String x s) = false ↔ x ≠ c ∧ ContainsChar c s = false.
Proof.
  unfold ContainsChar. rewrite !bool_decide_eq_false. simpl. case_decide as E.
  - split; [intros H; exfalso; apply H; by eexists|naive_solver].
  - destruct (cut c s) as [[? ?]|]; split.
    + intros H; exfalso; apply H; by eexists.
    + intros [_ H]; exfalso; apply H; by eexists.
    + intros _. split; [done|by intros []].
    + intros _ []; done.
Qed.

Lemma split_on_plain x : ContainsChar slash x = false → split_on slash x = [x].
Proof. induction x as [|c x IH]; [done|]. intros [Hc Hx]%ContainsChar_cons. cbn. rewrite IH by done. by rewrite decide_False. Qed.
Lemma split_on_ne sep s : split_on sep s ≠ [].
Proof. induction s as [|c s IH]; [done|]. cbn. destruct (split_on sep s); [done|]. by case_decide. Qed.
Lemma split_on_slash x s : ContainsChar slash x = false → split_on slash (x +:+ "/" +:+ s) = (x :: split_on slash s)%list.
Proof.
  induction x as [|c x IH].
  - intros _. change ("" +:+ "/" +:+ s) with (String slash s). cbn [split_on].
    destruct (split_on slash s) eqn:E; [by apply split_on_ne in E|by rewrite decide_True].
  - intros [Hc Hx]%ContainsChar_cons. change (String c x +:+ "/" +:+ s) with (String c (x +:+ "/" +:+ s)). cbn [split_on].
    rewrite IH by done. by rewrite decide_False.
Qed.

(** ** Paths *)

Definition path_ok (p : path) : Prop := Forall name_ok p.

Lemma join_cons x y l : join_with "/" (x :: y :: l) = x +:+ "/" +:+ join_with "/" (y :: l).
Proof. done. Qed.

Lemma split_join p : p ≠ [] → path_ok p → split_on slash (relString p) = p.
Proof.
  unfold relString. intros Hp H. induction H as [|x p (_&_&_&Hx) H IH]; [done|]. destruct p as [|y p]; [by apply split_on_plain|].
  rewrite join_cons, split_on_slash, IH; done.
Qed.
Lemma split_join_slash p : p ≠ [] → path_ok p → split_on slash (relString p +:+ "/") = (p ++ [""])%list.
Proof.
  unfold relString. intros Hp H. induction H as [|x p (_&_&_&Hx) H IH]; [done|]. destruct p as [|y p].
  - change ("/") with ("/" +:+ ""). by rewrite split_on_slash.
  - rewrite join_cons, <-!string_app_assoc, split_on_slash, IH; done.
Qed.

Lemma clean_plain rooted p : path_ok p → ∀ kept, filepath.clean_elems rooted kept p = (reverse p ++ kept)%list.
Proof.
  induction 1 as [|x p (H1&H2&H3&_) H IH]; intros kept; [done|].
  cbn [filepath.clean_elems app]. rewrite decide_False by naive_solver.
  rewrite decide_False by done. by rewrite IH, reverse_cons, <-app_assoc.
Qed.
Lemma clean_plain_slash rooted p kept : path_ok p → filepath.clean_elems rooted kept (p ++ [""])%list = (reverse p ++ kept)%list.
Proof.
  intros H. revert kept. induction H as [|x p (H1&H2&H3&_) H IH]; intros kept; [done|].
  cbn [filepath.clean_elems app]. rewrite decide_False by naive_solver.
  rewrite decide_False by done. by rewrite IH, reverse_cons, <-app_assoc.
Qed.

Lemma relString_first p : p ≠ [] → path_ok p → ∃ c s, relString p = String c s ∧ c ≠ slash.
Proof.
  intros Hp H. destruct H as [|x p (H1&_&_&Hx) H]; [done|]. destruct x as [|c x]; [done|]. apply ContainsChar_cons in Hx as [Hc _].
  destruct p as [|y p]; by eexists _, _.
Qed.
Lemma IsAbs_first c s : c ≠ slash → filepath.IsAbs (String c s) = false.
Proof. intros H. unfold filepath.IsAbs. cbn. rewrite bool_decide_eq_false_2; [done|]. naive_solver. Qed.

Lemma render_plain p : p ≠ [] → filepath.render false p = relString p.
Proof. by destruct p. Qed.

Lemma filter_names p : path_ok p → filter (λ e, e ≠ "") p = p.
Proof. induction 1 as [|x p [Hx _] H IH]; [done|]. rewrite filter_cons, decide_True by done. by rewrite IH. Qed.

Section paths.
  Context (p : path) (Hp : p ≠ []) (Hok : path_ok p).

Lemma Clean_rel : filepath.Clean (relString p) = relString p.
Proof using Hp Hok.
  unfold filepath.Clean. destruct (relString_first p Hp Hok) as (c&s&E&Hc). rewrite split_join by done. rewrite E at 1 2.
  rewrite (IsAbs_first _ _ Hc), clean_plain, app_nil_r, reverse_involutive by done. by apply render_plain.
Qed.
Lemma Clean_rel_slash : filepath.Clean (relString p +:+ "/") = relString p.
Proof using Hp Hok.
  unfold filepath.Clean. destruct (relString_first p Hp Hok) as (c&s&E&Hc). rewrite split_join_slash by done.
  rewrite E at 1 2. change (String c s +:+ "/") with (String c (s +:+ "/")).
  rewrite (IsAbs_first _ _ Hc), clean_plain_slash, app_nil_r, reverse_involutive by done. by apply render_plain.
Qed.
Lemma joinAbs_rel d : joinAbs d (relString p) = (d ++ p)%list.
Proof using Hp Hok.
  unfold joinAbs. rewrite split_join, clean_plain by done. by rewrite reverse_app, !reverse_involutive.
Qed.
Lemma endsInSlash_rel : endsInSlash (relString p) = false.
Proof using Hp Hok.
  unfold endsInSlash. rewrite split_join by done. apply bool_decide_eq_false_2. intros [_ H].
  apply list.last_Some in H as [l E]. unfold path_ok in Hok. rewrite E, list.Forall_app in Hok. destruct Hok as [_ H].
  by apply list.Forall_cons in H as [[? _] _].
Qed.
Lemma endsInSlash_slash : endsInSlash (relString p +:+ "/") = true.
Proof using Hp Hok.
  unfold endsInSlash. rewrite split_join_slash by done. apply bool_decide_eq_true_2. split; [|by rewrite last_snoc].
  by destruct (relString p).
Qed.
Lemma Base_rel : Base (relString p) = default "/" (list.last p).
Proof using Hp Hok.
  unfold Base. rewrite split_join, filter_names by done. destruct (list.last p) eqn:E; [done|]. by apply list.last_None in E.
Qed.
Lemma Base_rel_slash : Base (relString p +:+ "/") = default "/" (list.last p).
Proof using Hp Hok.
  unfold Base. rewrite split_join_slash by done. rewrite list.filter_app, filter_names by done. cbn. rewrite app_nil_r.
  destruct (list.last p) eqn:E; [done|]. by apply list.last_None in E.
Qed.
End paths.

Lemma joinAbs_Dir p : p ≠ [] → path_ok p → joinAbs [] (Dir (relString p)) = parent p.
Proof.
  intros Hp Hok. unfold Dir. rewrite split_join by done. destruct p as [|x q _] using rev_ind; [done|]. rewrite removelast_last, parent_snoc.
  apply list.Forall_app in Hok as [Hq _]. destruct q as [|y q]; [done|].
  change (joinAbs [] (filepath.Clean (relString (y :: q) +:+ "/")) = y :: q).
  rewrite (Clean_rel_slash (y :: q)), joinAbs_rel by done. done.
Qed.

(** ** Order *)

Lemma HasPrefix_app a b : HasPrefix (a +:+ b) a = true.
Proof. induction a as [|c a IH]; [by destruct b|]. simpl. by rewrite bool_decide_eq_true_2. Qed.

Lemma relString_app r t : r ≠ [] → t ≠ [] → relString (r ++ t) = relString r +:+ "/" +:+ relString t.
Proof.
  intros Hr Ht. unfold relString. induction r as [|x r IH]; [done|]. destruct r as [|y r].
  - destruct t as [|z t]; [done|]. apply join_cons.
  - change ((x :: y :: r) ++ t)%list with (x :: y :: (r ++ t))%list. rewrite !join_cons, <-!string_app_assoc.
    by rewrite <-IH by done.
Qed.

(** A path comes after the paths above it. *)
Lemma above_sle r t : sle (pathString r) (pathString (r ++ t)).
Proof.
  unfold pathString. apply prefix_sle. destruct (decide (t = [])) as [->|Ht]; [rewrite app_nil_r; apply prefix_refl|].
  destruct (decide (r = [])) as [->|Hr]; [apply (HasPrefix_app "/" (relString t))|].
  change (HasPrefix ("/" +:+ relString (r ++ t)) ("/" +:+ relString r) = true). rewrite relString_app by done.
  rewrite (string_app_assoc "/"). apply HasPrefix_app.
Qed.

Lemma pathString_inj p q : path_ok p → path_ok q → pathString p = pathString q → p = q.
Proof.
  intros Hp Hq E. injection E as E. change (relString p = relString q) in E.
  assert (H0 : ∀ r, path_ok r → relString r = "" → r = []).
  { intros r Hr E0. destruct (decide (r = [])); [done|]. destruct (relString_first r) as (?&?&E'&_); [done..|]. congruence. }
  destruct (decide (p = [])) as [->|Np]; [symmetry; apply H0; [done|by rewrite <-E]|].
  destruct (decide (q = [])) as [->|Nq]; [by apply H0|]. by rewrite <-(split_join p), <-(split_join q), E.
Qed.

(** ** Whiteouts *)

Lemma HasPrefix_slash w x s : ContainsChar slash w = false → HasPrefix (x +:+ "/" +:+ s) w = true → HasPrefix x w = true.
Proof.
  revert x. induction w as [|c w IH]; intros x Hw H; [by destruct x|]. apply ContainsChar_cons in Hw as [Hc Hw].
  destruct x as [|d x]; simpl in H; apply andb_true_iff in H as [H1%bool_decide_eq_true H2]; [by subst|].
  simpl. rewrite H1, bool_decide_eq_true_2 by done. by apply IH.
Qed.
Lemma HasPrefix_trans a b x : HasPrefix x (a +:+ b) = true → HasPrefix x a = true.
Proof.
  revert x. induction a as [|c a IH]; intros [|d x]; try done. simpl. intros [-> H]%andb_true_iff. by apply IH.
Qed.

(** A name that is no whiteout. *)
Definition no_white (x : string) : Prop := HasPrefix x WhiteoutPrefix = false.

Lemma not_meta x p : no_white x → HasPrefix (relString (x :: p)) WhiteoutMetaPrefix = false.
Proof.
  intros Hx. apply not_true_is_false. intros H. change WhiteoutMetaPrefix with (WhiteoutPrefix +:+ WhiteoutPrefix) in H.
  apply HasPrefix_trans in H. unfold no_white in Hx. destruct p as [|y p]; [change (HasPrefix x WhiteoutPrefix = true) in H; congruence|]. unfold relString in H. rewrite join_cons in H.
  apply HasPrefix_slash in H; [congruence|done].
Qed.
Lemma not_meta_white x : no_white x → HasPrefix (relString [WhiteoutPrefix +:+ x]) WhiteoutMetaPrefix = false.
Proof. intros Hx. exact Hx. Qed.

Lemma white_name_ok x : name_ok x → name_ok (WhiteoutPrefix +:+ x).
Proof. intros (_&_&_&H). split_and!; [done..|]. change (WhiteoutPrefix +:+ x) with (String "." (String "w" (String "h" (String "." x)))). by rewrite !ContainsChar_cons. Qed.
Lemma white_base x : String.substring 4 (String.length (WhiteoutPrefix +:+ x) - 4) (WhiteoutPrefix +:+ x) = x.
Proof.
  replace (String.length (WhiteoutPrefix +:+ x) - 4) with (String.length x)
    by (change (String.length (WhiteoutPrefix +:+ x)) with (4 + String.length x); lia).
  change (String.substring 0 (String.length x) x = x). induction x as [|c x IH]; [done|]. cbn. by rewrite IH.
Qed.
Lemma white_not_opaque x : no_white x → WhiteoutPrefix +:+ x ≠ WhiteoutOpaqueDir.
Proof.
  intros H E. change (WhiteoutPrefix +:+ x = WhiteoutPrefix +:+ ".wh..opq") in E. apply String.app_inj in E. by subst.
Qed.
