(* ===== verification/ArchiveCalls.v ===== *)
(** What the calls of the extraction do to a sound file system: each is shown to
    end in a state that is given by a function of the one before, and what names
    lead to then. *)

From Stdlib Require Import Ascii.
From S2P Require Import Prelude GoStrings GoPath UnixFS Archive ArchiveChanges ArchiveWalk ArchivePaths.

Local Open Scope list_scope.

(** ** Sound file systems *)

(** New inodes are free, and a directory has one name. *)
Record sound (s : unixFS) : Prop := {
  so_ok : fs_ok s;
  so_fresh : ∀ i, is_Some (u_inodes s !! i) → i < u_next s;
  so_dir : ∀ p q i n, u_names s !! p = Some i → u_names s !! q = Some i → u_inodes s !! i = Some n → IsDir n = true → p = q }.

Lemma view_Some s p n : view s p = Some n ↔ ∃ i, u_names s !! p = Some i ∧ u_inodes s !! i = Some n.
Proof. unfold view. by rewrite bind_Some. Qed.
Lemma view_None s p : sound s → view s p = None ↔ u_names s !! p = None.
Proof. intros Hs. by rewrite !eq_None_not_Some, view_names by apply Hs. Qed.
Lemma names_fresh s p : sound s → u_names s !! p ≠ Some (u_next s).
Proof. intros Hs E. destruct (ok_inode s (so_ok s Hs) _ _ E) as [n Hn]. pose proof (so_fresh s Hs _ (mk_is_Some _ _ Hn)). lia. Qed.

(** ** Paths that lead nowhere else *)

(** Every directory on the way to the path is one. *)
Definition plain (s : unixFS) (p : path) : Prop := path_ok p ∧ ∀ r t, p = r ++ t → t ≠ [] → is_dir (view s r) = true.

Lemma plain_parent s p : plain s p → p ≠ [] → is_dir (view s (parent p)) = true.
Proof.
  intros [_ H] Hp. destruct (parent_prefix p) as [r E]. apply (H _ r E). intros ->. rewrite app_nil_r in E.
  apply (f_equal length) in E. unfold parent in E. rewrite length_take in E. destruct p; [done|]. cbn in E. lia.
Qed.
Lemma exists_plain s p : fs_ok s → is_Some (view s p) → plain s p.
Proof.
  intros Hs H. split.
  - apply list.Forall_forall. intros x Hx. eapply ok_names; [done|by apply view_names|done].
  - intros r t -> Ht. by eapply ok_above.
Qed.

Lemma namei_cons l s f cur x rest :
  namei l s f cur (x :: rest) =
  if decide (x = ""%string ∨ x = "."%string) then namei l s f cur rest
  else if decide (x = ".."%string) then namei l s f (take (length cur - 1) cur) rest
  else
    match view s (cur ++ [x]) with
    | None => if bool_decide (rest = []) then Ok (cur ++ [x]) else Err ENOENT
    | Some n =>
        if IsLink n && (negb (bool_decide (rest = [])) || f) then
          match l with
          | O => Err ELOOP
          | S l' => namei l' s f (if filepath.IsAbs (n_data n) then [] else cur) (split_on "/"%char (n_data n) ++ rest)
          end
        else if bool_decide (rest = []) || IsDir n then namei l s f (cur ++ [x]) rest
        else Err ENOTDIR
    end.
Proof. by destruct l. Qed.
Lemma namei_nil l s f cur : namei l s f cur [] = Ok cur.
Proof. by destruct l. Qed.

Lemma dir_no_link n : IsDir n = true → IsLink n = false.
Proof. unfold IsDir, IsLink. rewrite bool_decide_eq_true. intros ->. done. Qed.

(** The walk from a directory on. *)
Lemma namei_from l s f rest : ∀ cur, path_ok rest → (∀ r t, rest = r ++ t → r ≠ [] → t ≠ [] → is_dir (view s (cur ++ r)) = true) →
  (f = true → ∀ n, view s (cur ++ rest) = Some n → IsLink n = false) →
  namei l s f cur rest = Ok (cur ++ rest).
Proof.
  induction rest as [|x rest IH]; intros cur Hok Hd Hl; [by rewrite namei_nil, app_nil_r|].
  apply list.Forall_cons in Hok as [(H1&H2&H3&_) Hok]. rewrite namei_cons, decide_False by naive_solver. rewrite decide_False by done.
  destruct (decide (rest = [])) as [->|Hr].
  - rewrite bool_decide_eq_true_2 by done. cbn. destruct (view s (cur ++ [x])) as [n|] eqn:E; [|done].
    assert (IsLink n && f = false) as ->; [|by rewrite namei_nil].
    destruct f; [|apply andb_false_r]. rewrite andb_true_r. by apply Hl.
  - assert (Hx : is_dir (view s (cur ++ [x])) = true) by by apply (Hd [x] rest).
    apply is_dir_Some in Hx as (n&->&Hn). rewrite (dir_no_link _ Hn), bool_decide_eq_false_2, Hn by done. cbn.
    rewrite IH; [by rewrite <-app_assoc|done| |by rewrite <-app_assoc].
    intros r t -> Hr' Ht. rewrite <-app_assoc. by apply (Hd (x :: r) t).
Qed.

Lemma namei_plain l s f p : plain s p → (f = true → ∀ n, view s p = Some n → IsLink n = false) → namei l s f [] p = Ok p.
Proof. intros [Hok Hd] Hl. apply namei_from; [done| |done]. intros r t -> Hr Ht. by apply (Hd r t). Qed.

(** A name below a file that is no directory. *)
Lemma namei_below_file l s f p x d : plain s p → p ≠ [] → name_ok x → view s p = Some d → IsDir d = false → IsLink d = false →
  namei l s f [] (p ++ [x]) = Err ENOTDIR.
Proof.
  intros [Hok Hd] Hp Hx Hv HD HL.
  assert (Hgo : ∀ rest cur, rest ≠ [] → cur ++ rest = p → namei l s f cur (rest ++ [x]) = Err ENOTDIR).
  { induction rest as [|y rest IH]; intros cur Hr E; [done|]. assert (Hy : name_ok y).
    { eapply (proj1 (list.Forall_forall _ _) Hok). rewrite <-E. apply elem_of_app. right. left. }
    destruct Hy as (H1&H2&H3&_). cbn [app]. rewrite namei_cons, decide_False by naive_solver. rewrite decide_False by done.
    rewrite bool_decide_eq_false_2 by by destruct rest. destruct (decide (rest = [])) as [->|Hr'].
    - rewrite E, Hv, HL, HD. done.
    - assert (HD' : is_dir (view s (cur ++ [y])) = true) by (apply (Hd _ rest); [by rewrite <-app_assoc|done]).
      apply is_dir_Some in HD' as (n&->&Hn). rewrite (dir_no_link _ Hn), Hn. cbn. apply IH; [done|]. by rewrite <-app_assoc. }
  by apply (Hgo p []).
Qed.

(** ** Files that are the same *)

(** The same file for a layer: the times of directories, and the fractions of
    seconds of the others, are not compared. *)
Definition sim (a b : inode) : Prop :=
  n_mode a = n_mode b ∧ n_uid a = n_uid b ∧ n_gid a = n_gid b ∧ n_rdev a = n_rdev b ∧ n_cap a = n_cap b ∧
  (IsDir b = false → n_size a = n_size b ∧ n_data a = n_data b ∧ (n_mtim a).1 = (n_mtim b).1).
Abbreviation osim := (option_Forall2 sim).

Lemma sim_IsDir a b : sim a b → IsDir a = IsDir b.
Proof. intros (E&_). unfold IsDir, ifmt. by rewrite E. Qed.
Lemma sim_IsLink a b : sim a b → IsLink a = IsLink b.
Proof. intros (E&_). unfold IsLink, ifmt. by rewrite E. Qed.
#[global] Instance sim_equiv : Equivalence sim.
Proof.
  split.
  - intros a. by repeat split.
  - intros a b H. pose proof (sim_IsDir _ _ H) as Hd. destruct H as (?&?&?&?&?&H). split_and!; try done.
    rewrite Hd. intros ?. destruct H as (?&?&?); auto.
  - intros a b c H1 H2. pose proof (sim_IsDir _ _ H2) as Hd. destruct H1 as (?&?&?&?&?&H1), H2 as (?&?&?&?&?&H2).
    split_and!; [congruence..|]. intros Hc. destruct H1 as (?&?&?); [congruence|]. destruct H2 as (?&?&?); [done|]. split_and!; congruence.
Qed.
Lemma osim_is_Some a b : osim a b → is_Some a ↔ is_Some b.
Proof. intros []; split; intros []; try done; by eexists. Qed.
Lemma osim_is_dir a b : osim a b → is_dir a = is_dir b.
Proof. intros []; [cbn; by apply sim_IsDir|done]. Qed.
Lemma sim_touched t n : IsDir n = true → sim (set_mtim t n) n.
Proof. intros H. repeat split; congruence. Qed.

(** ** Changing an inode *)

Definition upd (f : inode → inode) (i : nat) (s : unixFS) : unixFS := set_inodes (alter f i (u_inodes s)) s.
Definition keeps_type (f : inode → inode) : Prop := ∀ n, ifmt (f n) = ifmt n.

Lemma upd_view f i s q : view (upd f i s) q = if decide (u_names s !! q = Some i) then f <$> view s q else view s q.
Proof.
  unfold view, upd. cbn. destruct (u_names s !! q) as [j|]; cbn; [|by rewrite decide_False].
  case_decide as E; [injection E as ->; by rewrite lookup_alter_eq|]. by rewrite lookup_alter_ne by congruence.
Qed.
Lemma keeps_IsDir f n : keeps_type f → IsDir (f n) = IsDir n.
Proof. intros H. unfold IsDir. by rewrite H. Qed.
Lemma keeps_IsLink f n : keeps_type f → IsLink (f n) = IsLink n.
Proof. intros H. unfold IsLink. by rewrite H. Qed.
Lemma upd_is_dir f i s q : keeps_type f → is_dir (view (upd f i s) q) = is_dir (view s q).
Proof. intros H. rewrite upd_view. case_decide; [|done]. destruct (view s q); [|done]. cbn. by apply keeps_IsDir. Qed.
Lemma upd_plain f i s p : keeps_type f → plain (upd f i s) p ↔ plain s p.
Proof. intros H. unfold plain. by setoid_rewrite (upd_is_dir f i s _ H). Qed.

Lemma upd_inode f i s j : is_Some (u_inodes (upd f i s) !! j) ↔ is_Some (u_inodes s !! j).
Proof. cbn. by rewrite lookup_alter_is_Some. Qed.
Lemma upd_sound f i s : keeps_type f → sound s → sound (upd f i s).
Proof.
  intros Hf [[Hr Hp Hi Hn] Hfr Hd]. split; [split|..].
  - by rewrite upd_is_dir.
  - intros p x. rewrite upd_is_dir by done. apply Hp.
  - intros p j Hj. by apply upd_inode, (Hi p).
  - exact Hn.
  - intros j Hj%upd_inode. by apply Hfr.
  - intros p q j n H1 H2. cbn. rewrite lookup_alter_Some. intros [(->&m&Hm&->)|[_ Hm]] HD; [|by eapply Hd].
    rewrite keeps_IsDir in HD by done. by eapply Hd.
Qed.

Lemma setattr_run follow p f s i : plain s p → u_names s !! p = Some i →
  (follow = true → ∀ n, view s p = Some n → IsLink n = false) →
  setattr follow p f s = Ret (Ok ()) (upd f i s).
Proof.
  intros Hp Hi Hl. unfold setattr, resolve, try_bind, mbind, M_bind. rewrite (namei_plain _ s follow p Hp Hl). cbn.
  by rewrite Hi.
Qed.
Lemma Lstat_run p s : plain s p → Lstat p s = Ret (match view s p with Some n => Ok n | None => Err ENOENT end) s.
Proof.
  intros Hp. unfold Lstat, resolve, try_bind, mbind, M_bind. rewrite (namei_plain _ s false p) by done. cbn. by destruct (view s p).
Qed.

(** ** Names that come and go *)

Section calls.
  Context (clock : nat → Z * Z).

Lemma touch_eq d s i : u_names s !! d = Some i →
  touch clock d s = mkFS (u_names s) (alter (set_mtim (clock (u_ticks s))) i (u_inodes s)) (u_dev s) (u_next s) (S (u_ticks s)).
Proof. intros E. unfold touch. by rewrite E. Qed.

(** Only the time of the directory changes. *)
Lemma touch_names d s : u_names (touch clock d s) = u_names s.
Proof. done. Qed.
Lemma touch_next d s : u_next (touch clock d s) = u_next s.
Proof. done. Qed.
Lemma touch_view d s q : view (touch clock d s) q =
  match u_names s !! d with Some i => view (upd (set_mtim (clock (u_ticks s))) i s) q | None => view s q end.
Proof. unfold touch, view, upd. cbn. by destruct (u_names s !! d). Qed.
Lemma touch_sim d s q : is_dir (view s d) = true → osim (view (touch clock d s) q) (view s q).
Proof.
  intros Hd. rewrite touch_view. apply is_dir_Some in Hd as (n&(i&Hi&Hn)%view_Some&HD). rewrite Hi, upd_view. case_decide as E; [|done].
  destruct (view s q) as [m|] eqn:Em; [|constructor]. constructor. apply sim_touched. unfold view in Em. rewrite E in Em. cbn in Em. congruence.
Qed.
Lemma set_mtim_keeps t : keeps_type (set_mtim t).
Proof. by intros n. Qed.
Lemma touch_sound d s : sound s → sound (touch clock d s).
Proof.
  intros Hs. destruct (u_names s !! d) as [i|] eqn:E.
  - pose proof (upd_sound (set_mtim (clock (u_ticks s))) i s (set_mtim_keeps _) Hs) as [[? ? ? ?] ? ?]. rewrite (touch_eq _ _ _ E). split; [split|..]; done.
  - unfold touch. rewrite E. destruct Hs as [[? ? ? ?] ? ?]. split; [split|..]; done.
Qed.

(** *** A new name *)

Definition with_name (p : path) (i : nat) (s : unixFS) : unixFS := set_names (<[p := i]> (u_names s)) s.
Definition with_inode (i : nat) (n : inode) (s : unixFS) : unixFS :=
  mkFS (u_names s) (<[i := n]> (u_inodes s)) (u_dev s) (S i) (u_ticks s).

Lemma with_inode_view s n q : sound s → view (with_inode (u_next s) n s) q = view s q.
Proof.
  intros Hs. unfold view, with_inode. cbn. destruct (u_names s !! q) as [i|] eqn:E; [|done]. cbn. apply lookup_insert_ne. intros <-.
  by apply names_fresh in E.
Qed.
Lemma with_inode_sound s n : sound s → sound (with_inode (u_next s) n s).
Proof.
  intros Hs. pose proof Hs as [[Hr Hp Hi Hn] Hfr Hd]. split; [split|..].
  - by rewrite with_inode_view.
  - intros p x. rewrite with_inode_view by done. apply Hp.
  - intros p i Hpi. cbn. apply lookup_insert_is_Some'. right. by eapply Hi.
  - exact Hn.
  - intros i. cbn. rewrite lookup_insert_is_Some'. intros [->|H%Hfr]; lia.
  - intros p q i m H1 H2 Hm. cbn in Hm. rewrite lookup_insert_ne in Hm; [by eapply Hd|]. intros <-. by apply (names_fresh s p) in H1.
Qed.

Lemma with_name_view s p i q : view (with_name p i s) q = if decide (p = q) then u_inodes s !! i else view s q.
Proof.
  unfold view, with_name. cbn. case_decide as E; [subst; by rewrite lookup_insert_eq|by rewrite lookup_insert_ne].
Qed.
(** The name is free, its directory is there, and the inode is no directory or has no name yet. *)
Lemma with_name_sound s p i n : sound s → plain s p → p ≠ [] → u_names s !! p = None → u_inodes s !! i = Some n →
  (IsDir n = true → ∀ q, u_names s !! q ≠ Some i) → sound (with_name p i s).
Proof.
  intros Hs Hp Hne Hfree Hn Huniq. pose proof Hs as [[Hr Hpa Hi Hnm] Hfr Hd]. split; [split|..].
  - rewrite with_name_view, decide_False by done. done.
  - intros q x. cbn. rewrite with_name_view. destruct (decide (p = q)) as [->|Hq].
    + rewrite lookup_insert_ne by (intros E; apply (f_equal length) in E; rewrite length_app in E; cbn in E; lia).
      intros H%Hpa. assert (view s q = None) as Hv by by apply view_None. by rewrite Hv in H.
    + rewrite lookup_insert_is_Some'. intros [->|H]; [|by eapply Hpa]. by apply (proj2 Hp q [x]).
  - intros q j. cbn. rewrite lookup_insert_Some. intros [[_ <-]|[_ H]]; [by eexists|by eapply Hi].
  - intros q x. cbn. rewrite lookup_insert_is_Some'. intros [->|H] Hx; [|by eapply Hnm].
    by apply (proj1 (list.Forall_forall _ _) (proj1 Hp)).
  - exact Hfr.
  - intros q q' j m. cbn. rewrite !lookup_insert_Some. intros [[<- <-]|[N1 H1]] [[<- E]|[N2 H2]] Hm HD; try done.
    + assert (m = n) as -> by congruence. by apply (Huniq HD) in H2.
    + subst j. assert (m = n) as -> by congruence. by apply (Huniq HD) in H1.
    + by eapply Hd.
Qed.

(** *** The calls *)

Definition created (p : path) (n : inode) (s : unixFS) : unixFS :=
  touch clock (parent p) (with_name p (u_next s) (with_inode (u_next s) (set_mtim (clock (u_ticks s)) n) s)).

Lemma create_run p n s : plain s p → u_names s !! p = None → create clock p n s = Ret (Ok ()) (created p n s).
Proof.
  intros Hp Hfree. unfold create, resolve, try_bind, mbind, M_bind, read, modify. rewrite (namei_plain _ s false p) by done. cbn.
  rewrite Hfree. by rewrite decide_False by (intros []; done).
Qed.

Lemma parent_ne (p : path) : p ≠ [] → parent p ≠ p.
Proof.
  intros Hp E. apply (f_equal length) in E. unfold parent in E. rewrite length_take in E. destruct p; [done|]. cbn in E. lia.
Qed.

Section new_name.
  Context (s : unixFS) (p : path) (Hs : sound s) (Hp : plain s p) (Hne : p ≠ []) (Hfree : u_names s !! p = None).

(** After a name has come, with the time of its directory. *)
Lemma named_view i q : q ≠ p → osim (view (touch clock (parent p) (with_name p i s)) q) (view s q).
Proof using Hp Hne.
  intros Hq. etrans; [apply touch_sim|]; rewrite with_name_view, decide_False; try done.
  - by apply plain_parent.
  - intros E. symmetry in E. by apply parent_ne in E.
Qed.
Lemma named_self i n : u_inodes s !! i = Some n → IsDir n = false ∨ (∀ q, u_names s !! q ≠ Some i) →
  view (touch clock (parent p) (with_name p i s)) p = Some n.
Proof using Hp Hne.
  intros Hi Hn. rewrite touch_view. cbn. rewrite lookup_insert_ne by (intros E; symmetry in E; by apply parent_ne in E).
  pose proof (plain_parent s p Hp Hne) as (d&(j&Hj&Hd)%view_Some&HD)%is_dir_Some. rewrite Hj, upd_view, with_name_view. cbn.
  assert (i ≠ j). { intros ->. destruct Hn as [?|Hn]; [congruence|by apply Hn in Hj]. }
  rewrite lookup_insert_eq, decide_False by congruence. by rewrite decide_True.
Qed.
End new_name.

Section create.
  Context (s : unixFS) (p : path) (n : inode) (Hs : sound s) (Hp : plain s p) (Hne : p ≠ []) (Hfree : u_names s !! p = None).
Let s1 := with_inode (u_next s) (set_mtim (clock (u_ticks s)) n) s.

Lemma inode_plain : plain s1 p.
Proof using Hs Hp. destruct Hp as [H1 H2]. split; [done|]. intros r t E Ht. unfold s1. rewrite with_inode_view by done. by eapply H2. Qed.
Lemma created_sound : sound (created p n s).
Proof using Hs Hp Hne Hfree.
  apply touch_sound. eapply (with_name_sound s1); [by apply with_inode_sound|apply inode_plain|done|done|cbn; by rewrite lookup_insert_eq|].
  intros _ q. by apply (names_fresh s q).
Qed.
Lemma created_self : view (created p n s) p = Some (set_mtim (clock (u_ticks s)) n).
Proof using Hs Hp Hne.
  apply (named_self s1); [apply inode_plain|done|cbn; by rewrite lookup_insert_eq|]. right. intros q. by apply (names_fresh s q).
Qed.
Lemma created_other q : q ≠ p → osim (view (created p n s) q) (view s q).
Proof using Hs Hp Hne.
  intros Hq. rewrite <-(with_inode_view s (set_mtim (clock (u_ticks s)) n) q Hs). by apply (named_view s1); [apply inode_plain|..].
Qed.
Lemma created_name : u_names (created p n s) !! p = Some (u_next s).
Proof. cbn. by rewrite lookup_insert_eq. Qed.
Lemma created_alone q : q ≠ p → u_names (created p n s) !! q ≠ Some (u_next s).
Proof using Hs. intros Hq. cbn. rewrite lookup_insert_ne by done. by apply names_fresh. Qed.
End create.

(** *** Removing *)

Definition removed (p : path) (s : unixFS) : unixFS :=
  touch clock (parent p) (set_names (filter (λ kv, ¬ p `prefix_of` kv.1 ∨ kv.1 = []) (u_names s)) s).

Lemma RemoveAll_gone p s : (namei MAXSYMLINKS s false [] p = Ok p ∧ u_names s !! p = None) ∨ namei MAXSYMLINKS s false [] p = Err ENOTDIR →
  RemoveAll clock p s = Ret (Ok ()) s.
Proof.
  unfold RemoveAll, resolve, mbind, M_bind, read. intros [[-> Hp]| ->]; [|done]. cbn. by rewrite Hp, decide_False by (intros []; done).
Qed.
Lemma RemoveAll_run p s : plain s p → p ≠ [] → is_Some (u_names s !! p) → RemoveAll clock p s = Ret (Ok ()) (removed p s).
Proof.
  intros Hp Hne Hex. unfold RemoveAll, resolve, mbind, M_bind, read, modify. rewrite (namei_plain _ s false p) by done. cbn.
  rewrite decide_True by done. by rewrite decide_False.
Qed.

Section removed.
  Context (s : unixFS) (p : path) (Hs : sound s) (Hne : p ≠ []) (Hex : is_Some (u_names s !! p)).
Let m := filter (λ kv : path * nat, ¬ p `prefix_of` kv.1 ∨ kv.1 = []) (u_names s).

Lemma removed_lookup q i : m !! q = Some i ↔ u_names s !! q = Some i ∧ ¬ p `prefix_of` q.
Proof using Hne.
  unfold m. rewrite map_lookup_filter_Some. cbn. apply and_iff_compat_l. split; [|by left]. intros [?| ->]; [done|].
  by intros ?%prefix_nil_inv.
Qed.
Lemma removed_names q : ¬ p `prefix_of` q → m !! q = u_names s !! q.
Proof using Hne. intros Hq. apply option_eq. intros i. rewrite removed_lookup. by split; [intros [? _]|]. Qed.
Lemma removed_names_below q : p `prefix_of` q → m !! q = None.
Proof using Hne. intros Hq. apply eq_None_not_Some. intros [i Hi]. by apply removed_lookup in Hi as [_ ?]. Qed.
Lemma removed_dirs q : ¬ p `prefix_of` q → view (set_names m s) q = view s q.
Proof using Hne. intros Hq. unfold view. cbn. by rewrite removed_names. Qed.

Lemma removed_parent_dir : is_dir (view (set_names m s) (parent p)) = true.
Proof using Hs Hne Hex.
  rewrite removed_dirs.
  - apply plain_parent; [|done]. apply exists_plain; [apply Hs|]. by apply view_names, Hex; apply Hs.
  - intros H. apply prefix_length in H. destruct p; [done|]. unfold parent in H. rewrite length_take in H. cbn in H. lia.
Qed.
Lemma removed_sound0 : sound (set_names m s).
Proof using Hs Hne.
  pose proof Hs as [[Hr Hp Hi Hn] Hfr Hd]. split; [split|..].
  - rewrite removed_dirs; [done|]. by intros ?%prefix_nil_inv.
  - intros q x [i [Hq Hpre]%removed_lookup]. rewrite removed_dirs; [eapply Hp; by eexists|].
    intros H. apply Hpre. etrans; [done|]. by eexists.
  - intros q i [Hq _]%removed_lookup. by eapply Hi.
  - intros q x [i [Hq _]%removed_lookup]. eapply Hn. by eexists.
  - exact Hfr.
  - intros q q' i n [H1 _]%removed_lookup [H2 _]%removed_lookup. by eapply Hd.
Qed.
Lemma removed_sound : sound (removed p s).
Proof using Hs Hne. apply touch_sound, removed_sound0. Qed.
Lemma removed_view q : ¬ p `prefix_of` q → osim (view (removed p s) q) (view s q).
Proof using Hs Hne Hex. intros Hq. rewrite <-(removed_dirs q Hq). apply touch_sim, removed_parent_dir. Qed.
Lemma removed_below q : p `prefix_of` q → view (removed p s) q = None.
Proof using Hne. intros Hq. unfold view. change (u_names (removed p s)) with m. by rewrite (removed_names_below q Hq). Qed.
End removed.

(** *** Hard links *)

Definition linked (i : nat) (p : path) (s : unixFS) : unixFS := touch clock (parent p) (with_name p i s).

Lemma Link_run t p s i n : plain s t → plain s p → u_names s !! t = Some i → u_inodes s !! i = Some n → IsDir n = false →
  u_names s !! p = None → Link clock t p s = Ret (Ok ()) (linked i p s).
Proof.
  intros Ht Hp Hi Hn HD Hfree. unfold Link, resolve, try_bind, mbind, M_bind, read, modify.
  rewrite (namei_plain _ s false t) by done. cbn -[namei]. rewrite (namei_plain _ s false p) by done. cbn. unfold view. rewrite Hi. cbn.
  rewrite Hn, Hfree, decide_False by (intros []; done). cbn. by rewrite HD.
Qed.
End calls.
