(* ===== verification/ArchiveFile.v ===== *)
(** One file of an archive (pkg/archive/archive.go): the header that [addTarFile]
    writes for a file and the file that [createTarFile] makes of it are the same. *)

From Stdlib Require Import Ascii.
From S2P Require Import Prelude GoStrings GoPath UnixFS Archive ArchiveChanges ArchiveWalk ArchivePaths ArchiveCalls.

Local Open Scope list_scope.
Local Open Scope Z_scope.

(** ** Modes *)

Lemma mode_split m : 0 ≤ m < 2 ^ 16 → Z.lor (Z.land m S_IFMT) (perm m) = m.
Proof.
  intros H. unfold perm. rewrite <-Z.land_lor_distr_r. change (Z.lor S_IFMT 0xFFF) with (Z.ones 16). by rewrite Z.land_ones, Z.mod_small.
Qed.
Lemma perm_no_type m : Z.land (perm m) S_IFMT = 0.
Proof. unfold perm. rewrite <-Z.land_assoc. change (Z.land 0xFFF S_IFMT) with 0. apply Z.land_0_r. Qed.
Lemma type_with_perm t m : Z.land t S_IFMT = t → Z.land (Z.lor t (perm m)) S_IFMT = t.
Proof. intros H. by rewrite Z.land_lor_distr_l, perm_no_type, Z.lor_0_r. Qed.
Lemma ldiff_type m k : Z.land k S_IFMT = 0 → Z.land (Z.ldiff m k) S_IFMT = Z.land m S_IFMT.
Proof.
  intros H. apply Z.bits_inj'. intros i Hi. rewrite !Z.land_spec, Z.ldiff_spec.
  assert (E : Z.testbit (Z.land k S_IFMT) i = false) by (by rewrite H, Z.bits_0). rewrite Z.land_spec in E.
  destruct (Z.testbit m i), (Z.testbit k i), (Z.testbit S_IFMT i); done.
Qed.
Lemma kill_priv_type m : Z.land (kill_priv m) S_IFMT = Z.land m S_IFMT.
Proof. unfold kill_priv. case_decide; by rewrite !ldiff_type. Qed.

Lemma set_owner_keeps uid gid : keeps_type (set_owner uid gid).
Proof. intros n. unfold ifmt. cbn. destruct (IsDir n); [done|]. apply kill_priv_type. Qed.
Lemma set_perm_keeps m : keeps_type (set_perm m).
Proof. intros n. unfold ifmt at 1. cbn. apply type_with_perm. unfold ifmt. by rewrite <-Z.land_assoc, Z.land_diag. Qed.
Lemma set_cap_keeps c : keeps_type (set_cap c).
Proof. by intros n. Qed.
Lemma id_keeps : keeps_type id.
Proof. by intros n. Qed.
Lemma compose_keeps f g : keeps_type f → keeps_type g → keeps_type (f ∘ g).
Proof. intros Hf Hg n. cbn. by rewrite Hf, Hg. Qed.

(** ** Files that an archive can hold *)

(** What the kernel says of files by their type, and times that the system takes. *)
Definition storable (n : inode) : Prop :=
  0 ≤ n_mode n < 2 ^ 16 ∧ 0 ≤ (n_mtim n).1 ≤ maxTime.1 ∧
  (ifmt n = S_IFDIR ∧ n_rdev n = 0 ∧ n_cap n = None ∨
   ifmt n = S_IFREG ∧ n_rdev n = 0 ∧ n_size n = Z.of_nat (String.length (n_data n)) ∨
   ifmt n = S_IFLNK ∧ perm (n_mode n) = 0x1FF ∧ n_rdev n = 0 ∧ n_cap n = None ∧ n_size n = Z.of_nat (String.length (n_data n)) ∨
   (ifmt n = S_IFCHR ∨ ifmt n = S_IFBLK) ∧ 0 ≤ n_rdev n < 2 ^ 32 ∧ n_size n = 0 ∧ n_data n = ""%string ∨
   ifmt n = S_IFIFO ∧ n_rdev n = 0 ∧ n_size n = 0 ∧ n_data n = ""%string).

(** ** Attributes *)

Definition with_cap (c : option string) : inode → inode := match c with Some c => set_cap c | None => id end.
Lemma with_cap_keeps c : keeps_type (with_cap c).
Proof. destruct c; [apply set_cap_keeps|apply id_keeps]. Qed.

(** What the calls of [setAttributes] do to an inode: to one that is no symbolic
    link, to a symbolic link, and to a hard link to a symbolic link. *)
Definition owned (h : Header) : inode → inode := with_cap (h_Cap h) ∘ set_owner (h_Uid h) (h_Gid h).
Definition attrs (h : Header) : inode → inode := set_mtim (clampTime (h_ModTime h, 0)) ∘ (set_perm (h_Mode h) ∘ owned h).
Definition symlink_attrs (h : Header) : inode → inode := set_mtim (h_ModTime h, 0) ∘ owned h.

Lemma owned_keeps h : keeps_type (owned h).
Proof. apply compose_keeps; [apply with_cap_keeps|apply set_owner_keeps]. Qed.
Lemma attrs_keeps h : keeps_type (attrs h).
Proof. apply compose_keeps; [apply set_mtim_keeps|apply compose_keeps; [apply set_perm_keeps|apply owned_keeps]]. Qed.
Lemma symlink_attrs_keeps h : keeps_type (symlink_attrs h).
Proof. apply compose_keeps; [apply set_mtim_keeps|apply owned_keeps]. Qed.

Lemma upd_upd f g i s : upd g i (upd f i s) = upd (g ∘ f) i s.
Proof.
  unfold upd, set_inodes. cbn. f_equal. apply map_eq. intros j. destruct (decide (i = j)) as [->|Hj].
  - rewrite !lookup_alter_eq. by destruct (u_inodes s !! j).
  - by rewrite !lookup_alter_ne.
Qed.

Section attributes.
  Context (cwd p : path) (s : unixFS) (i : nat) (n0 : inode).
  Context (Hp : plain s p) (Hi : u_names s !! p = Some i) (Hn : view s p = Some n0).

(** A call after some of them, which still finds the file. *)
Lemma setattr_after follow f g : keeps_type f → (follow = true → IsLink n0 = false) →
  setattr follow p g (upd f i s) = Ret (Ok ()) (upd (g ∘ f) i s).
Proof using Hp Hi Hn.
  intros Hf Hl. rewrite <-upd_upd. apply setattr_run; [by apply upd_plain|done|]. intros E n. rewrite upd_view, decide_True, Hn by done.
  cbn. intros [= <-]. rewrite keeps_IsLink by done. auto.
Qed.

Lemma owned_run h {A} (k : M unixFS (result aerror A)) :
  (_ ←? sys (Lchown p (h_Uid h) (h_Gid h));
   _ ←? (match h_Cap h with Some c => sys (Lsetxattr p c) | None => ok () end);
   k) s = k (upd (owned h) i s).
Proof using Hp Hi Hn.
  unfold sys, Lchown, Lsetxattr, try_bind, mbind, M_bind. rewrite (setattr_run false p _ s i) by done. cbn.
  unfold owned. destruct (h_Cap h) as [c|]; cbn; [|done].
  by rewrite (setattr_after false (set_owner (h_Uid h) (h_Gid h)) (set_cap c)) by (done || apply set_owner_keeps).
Qed.

Lemma setAttributes_file h : h_Typeflag h ≠ TypeLink → h_Typeflag h ≠ TypeSymlink → IsLink n0 = false →
  setAttributes cwd p h s = Ret (Ok ()) (upd (attrs h) i s).
Proof using Hp Hi Hn.
  intros H1 H2 Hl. unfold setAttributes. rewrite owned_run.
  assert (handleLChmod cwd h p = sys (Chmod p (h_Mode h))) as -> by (unfold handleLChmod; by destruct (h_Typeflag h)).
  assert (setTimes cwd h p = sys (Chtimes p (h_ModTime h, 0))) as -> by (unfold setTimes; by destruct (h_Typeflag h)).
  unfold sys, Chmod, Chtimes, try_bind, mbind, M_bind. rewrite (setattr_after true (owned h)) by (done || apply owned_keeps). cbn -[upd].
  rewrite setattr_after; [done| |done]. apply compose_keeps; [apply set_perm_keeps|apply owned_keeps].
Qed.
Lemma setAttributes_symlink h : h_Typeflag h = TypeSymlink → setAttributes cwd p h s = Ret (Ok ()) (upd (symlink_attrs h) i s).
Proof using Hp Hi Hn.
  intros H. unfold setAttributes. rewrite owned_run. unfold handleLChmod, setTimes. rewrite H.
  unfold sys, LUtimes, try_bind, mbind, M_bind. cbn -[upd setattr]. by rewrite (setattr_after false (owned h)) by (done || apply owned_keeps).
Qed.

(** A hard link, whose target is [t]. *)
Lemma setAttributes_link h t : h_Typeflag h = TypeLink → joinAbs cwd (h_Linkname h) = t → plain s t → u_names s !! t = Some i →
  setAttributes cwd p h s = Ret (Ok ()) (upd (if IsLink n0 then owned h else attrs h) i s).
Proof using Hp Hi Hn.
  intros H Ht Hpt Hti. unfold setAttributes. rewrite owned_run. unfold handleLChmod, setTimes. rewrite H.
  assert (Hlf : ∀ f, keeps_type f → linkedFile cwd h (upd f i s) = Ret (Ok (negb (IsLink n0))) (upd f i s)).
  { intros f Hf. unfold linkedFile, mbind, M_bind. rewrite Ht, Lstat_run by by apply upd_plain. rewrite upd_view, decide_True by done.
    unfold view in Hn |- *. rewrite Hti. rewrite Hi in Hn. cbn in Hn |- *. rewrite Hn. cbn. by rewrite keeps_IsLink. }
  unfold try_bind at 1. unfold mbind at 1, M_bind at 1. unfold try_bind at 1. unfold mbind at 1, M_bind at 1.
  rewrite Hlf by apply owned_keeps. destruct (IsLink n0) eqn:El; cbn -[upd linkedFile setattr].
  - unfold try_bind, mbind, M_bind. by rewrite Hlf by apply owned_keeps.
  - unfold sys, Chmod, Chtimes, try_bind, mbind, M_bind. rewrite (setattr_after true (owned h)) by (done || apply owned_keeps).
    cbn -[upd linkedFile setattr]. assert (Hk : keeps_type (set_perm (h_Mode h) ∘ owned h)) by (apply compose_keeps; [apply set_perm_keeps|apply owned_keeps]).
    rewrite Hlf by done. cbn -[upd setattr]. by rewrite setattr_after.
Qed.
End attributes.

(** A header with the attributes of a file. *)
Definition describes (h : Header) (n : inode) : Prop :=
  h_Mode h = n_mode n ∧ h_Uid h = n_uid n ∧ h_Gid h = n_gid n ∧ h_ModTime h = (n_mtim n).1 ∧ h_Cap h = n_cap n.

Lemma owned_cap h n n0 : describes h n → (IsDir n0 = true → n_cap n = None ∧ n_cap n0 = None) → n_cap (owned h n0) = n_cap n.
Proof.
  intros (_&_&_&_&E) H. unfold owned. cbn. rewrite E. destruct (n_cap n) as [c|] eqn:Ec; cbn; [done|].
  destruct (IsDir n0); [|done]. by apply H.
Qed.
Lemma owned_fields h n0 : n_uid (owned h n0) = h_Uid h ∧ n_gid (owned h n0) = h_Gid h ∧ n_rdev (owned h n0) = n_rdev n0 ∧
  n_size (owned h n0) = n_size n0 ∧ n_data (owned h n0) = n_data n0 ∧ n_mtim (owned h n0) = n_mtim n0.
Proof. unfold owned. cbn. by destruct (h_Cap h). Qed.

Lemma storable_dir_cap n : storable n → IsDir n = true → n_cap n = None.
Proof. unfold IsDir. intros (_&_&H) HD%bool_decide_eq_true. rewrite HD in H. destruct H as [?|[?|[?|[?|?]]]]; naive_solver. Qed.
Lemma storable_clamp n : storable n → clampTime ((n_mtim n).1, 0) = ((n_mtim n).1, 0).
Proof. intros (_&H&_). unfold clampTime. rewrite decide_False; [done|]. cbn in *. lia. Qed.

Lemma attrs_sim h n n0 : storable n → describes h n → ifmt n0 = ifmt n → n_rdev n0 = n_rdev n → (IsDir n = true → n_cap n0 = None) →
  (IsDir n = false → n_size n0 = n_size n ∧ n_data n0 = n_data n) → sim (attrs h n0) n.
Proof.
  intros Hst Hd Hf Hr Hc Hs. pose proof Hd as (Em&Eu&Eg&Et&_). destruct (owned_fields h n0) as (Ou&Og&Or&Os&Oda&_).
  assert (HD : IsDir n0 = IsDir n) by (unfold IsDir; by rewrite Hf). unfold attrs, sim. cbn [compose set_mtim set_perm n_mode n_uid n_gid n_rdev n_cap n_size n_data n_mtim].
  rewrite Ou, Og, Or, Os, Oda, Et, (owned_cap h n) by (done || rewrite HD; eauto using storable_dir_cap).
  rewrite owned_keeps, Hf, Em. split_and!; [by apply mode_split, Hst|done..|]. intros HN. destruct (Hs HN). rewrite storable_clamp by done. done.
Qed.

Lemma symlink_mode n : storable n → IsLink n = true → n_mode n = 0xA1FF ∧ n_cap n = None.
Proof.
  unfold IsLink. intros (Hm&_&H) HL%bool_decide_eq_true. rewrite HL in H.
  destruct H as [[? _]|[[? _]|[(_&Hp&_&Hc&_)|[[[?|?] _]|[? _]]]]]; try done. split; [|done].
  rewrite <-(mode_split _ Hm). change (Z.land (n_mode n) S_IFMT) with (ifmt n). by rewrite HL, Hp.
Qed.
Lemma owned_link_sim h n n0 : storable n → describes h n → IsLink n = true → n_mode n0 = n_mode n → n_rdev n0 = n_rdev n →
  n_size n0 = n_size n → n_data n0 = n_data n → n_mode (owned h n0) = n_mode n ∧ n_uid (owned h n0) = n_uid n ∧ n_gid (owned h n0) = n_gid n ∧
    n_rdev (owned h n0) = n_rdev n ∧ n_cap (owned h n0) = n_cap n ∧ n_size (owned h n0) = n_size n ∧ n_data (owned h n0) = n_data n ∧
    n_mtim (owned h n0) = n_mtim n0.
Proof.
  intros Hst Hd HL E1 E2 E3 E4. destruct (symlink_mode n Hst HL) as [Hm Hc]. pose proof Hd as (_&Eu&Eg&_&Ec).
  destruct (owned_fields h n0) as (Ou&Og&Or&Os&Oda&Ot). rewrite Ou, Og, Or, Os, Oda, Ot. unfold owned. rewrite Ec, Hc. cbn.
  assert (IsDir n0 = false) as -> by (unfold IsDir, ifmt; by rewrite E1, Hm). rewrite E1, Hm. split_and!; congruence || done.
Qed.
Lemma symlink_sim h n n0 : storable n → describes h n → IsLink n = true → n_mode n0 = n_mode n → n_rdev n0 = n_rdev n →
  n_size n0 = n_size n → n_data n0 = n_data n → sim (symlink_attrs h n0) n.
Proof.
  intros Hst Hd HL E1 E2 E3 E4. destruct (owned_link_sim h n n0) as (?&?&?&?&?&?&?&?); try done. unfold symlink_attrs, sim. cbn.
  destruct Hd as (_&_&_&Et&_). split_and!; done.
Qed.
Lemma hardlink_sim h n n0 : storable n → describes h n → IsDir n = false → sim n0 n → sim (if IsLink n0 then owned h n0 else attrs h n0) n.
Proof.
  intros Hst Hd HD Hs. pose proof (sim_IsLink _ _ Hs) as HL. destruct Hs as (E1&_&_&E4&_&Hs). destruct (Hs HD) as (E6&E7&E8).
  destruct (IsLink n0) eqn:EL.
  - destruct (owned_link_sim h n n0) as (?&?&?&?&?&?&?&Et); try done. unfold sim. rewrite Et. split_and!; done.
  - apply attrs_sim; try done; [unfold ifmt; by rewrite E1|congruence].
Qed.

(** ** Devices *)

Lemma shift_mask r m k : 0 ≤ k → Z.shiftl (Z.land (Z.shiftr r k) m) k = Z.land r (Z.shiftl m k).
Proof.
  intros Hk. apply Z.bits_inj'. intros i Hi. rewrite Z.land_spec, !Z.shiftl_spec by done. destruct (decide (i < k)).
  - by rewrite !(Z.testbit_neg_r _ (i - k)), andb_false_r by lia.
  - rewrite Z.land_spec, Z.shiftr_spec by lia. by replace (i - k + k) with i by lia.
Qed.
Lemma Mkdev_split r : 0 ≤ r < 2 ^ 32 → Mkdev (major r) (minor r) = r.
Proof.
  intros Hr. unfold Mkdev, major, minor. rewrite !Z.land_lor_distr_l, <-!Z.land_assoc.
  change (Z.land 0xff 0xfff00) with 0. change (Z.land 0xfff00 0xfff00) with 0xfff00. change (Z.land 0xfff 0xfff) with 0xfff.
  change (Z.land 0xff 0xff) with 0xff. change (Z.land 0xfff00 0xff) with 0. rewrite !Z.land_0_r, Z.lor_0_l, Z.lor_0_r.
  rewrite !shift_mask, <-!Z.land_lor_distr_r by lia.
  change (Z.lor (Z.lor (Z.shiftl 0xfff00 12) (Z.shiftl 0xfff 8)) 0xff) with (Z.ones 32).
  rewrite Z.land_ones by lia. rewrite Z.mod_mod by lia. by apply Z.mod_small.
Qed.

(** ** Headers *)

(** What [FileInfoHeader] fills in. *)
Definition infoHeader (n : inode) (t : typeflag) : Header :=
  mkHeader "" t (n_mode n) (n_uid n) (n_gid n) (match t with TypeReg => n_size n | _ => 0%Z end) (n_mtim n).1
    (match t with TypeSymlink => n_data n | _ => "" end) 0 0 None.
(** The header of a file in an archive, with the owner that it gets. *)
Definition headerOf (n : inode) (t : typeflag) (name : string) (old : option string) (uid gid : Z) : Header :=
  set_ids uid gid (fileHeader n (setHeaderForSpecialDevice n (infoHeader n t)) name old).

Lemma special_same n h : let h' := setHeaderForSpecialDevice n h in h_Uid h' = h_Uid h ∧ h_Gid h' = h_Gid h ∧ h_Size h' = h_Size h ∧ h_ModTime h' = h_ModTime h.
Proof. unfold setHeaderForSpecialDevice. by case_decide. Qed.
Lemma headerOf_type n t name uid gid : h_Typeflag (headerOf n t name None uid gid) = t.
Proof. unfold headerOf, setHeaderForSpecialDevice. cbn. by case_decide. Qed.
Lemma headerOf_linkname n t name uid gid :
  h_Linkname (headerOf n t name None uid gid) = match t with TypeSymlink => n_data n | _ => ""%string end.
Proof. unfold headerOf, setHeaderForSpecialDevice. cbn. by case_decide. Qed.
Lemma headerOf_describes n t name old : describes (headerOf n t name old (n_uid n) (n_gid n)) n.
Proof. unfold headerOf, setHeaderForSpecialDevice, describes. cbn. by case_decide. Qed.
Lemma headerOf_device n t name uid gid : storable n → ifmt n ≠ S_IFREG → ifmt n ≠ S_IFDIR → ifmt n ≠ S_IFLNK →
  let h := headerOf n t name None uid gid in Mkdev (h_Devmajor h) (h_Devminor h) = n_rdev n.
Proof.
  intros (_&_&H) H1 H2 H3. cbv zeta. unfold headerOf, setHeaderForSpecialDevice.
  assert (Hbits : ∀ k, Z.land k S_IFMT = k → Z.land (n_mode n) k = Z.land (ifmt n) k).
  { intros k Hk. unfold ifmt. by rewrite <-Z.land_assoc, (Z.land_comm S_IFMT), Hk. }
  rewrite !Hbits by done. destruct H as [[? _]|[[? _]|[[? _]|[([E|E]&Hr&_)|(E&Hr&_)]]]]; try done; rewrite E.
  - by apply Mkdev_split.
  - by apply Mkdev_split.
  - cbn. by rewrite Hr.
Qed.

(** ** Making the file *)

(** Every path is below the root, where a layer is extracted. *)
Lemma root_prefix q : HasPrefix (pathString q) (pathString []) = true.
Proof. exact (HasPrefix_app "/" (relString q)). Qed.

(** A new inode with the type, the device and the contents of a file. *)
Definition base_of (n0 n : inode) : Prop :=
  ifmt n0 = ifmt n ∧ n_rdev n0 = n_rdev n ∧ n_cap n0 = None ∧ (IsDir n = false → n_size n0 = n_size n ∧ n_data n0 = n_data n) ∧
  (IsLink n = true → n_mode n0 = n_mode n).
Lemma base_of_touched n0 n t : base_of n0 n → base_of (set_mtim t n0) n.
Proof. intros (?&?&?&?&?). by split_and!. Qed.

Section make.
  Context (clock : nat → Z * Z) (n : inode) (t : typeflag) (name : string) (s : unixFS) (p : path).
  Context (Hn : storable n) (Ht : typeOf n = Some t) (Hp : plain s p) (Hfree : u_names s !! p = None).
Let h := headerOf n t name None (n_uid n) (n_gid n).

(** The contents that the archive has. *)
Definition contents : string := match t with TypeReg => n_data n | _ => "" end.

Lemma node_run m r size data : Z.land m S_IFMT = ifmt n → r = n_rdev n → (IsDir n = false → size = n_size n ∧ data = n_data n) →
  (IsLink n = true → m = n_mode n) →
  ∃ n0, sys (create clock p (mkInode m 0 0 r size (0, 0) None data)) s = Ret (Ok ()) (created clock p n0 s) ∧ base_of n0 n.
Proof using Hp Hfree.
  intros Hm Hr Hd Hl. eexists. split; [unfold sys, mbind, M_bind; by rewrite create_run|]. by split_and!.
Qed.

Lemma createNode_run : ∃ n0, createNode clock p [] h contents s = Ret (Ok ()) (created clock p n0 s) ∧ base_of n0 n.
Proof using Hn Ht Hp Hfree.
  assert (Hd : h_Mode h = n_mode n) by apply (headerOf_describes n t name None).
  pose proof (headerOf_type n t name (n_uid n) (n_gid n)) as Ety. fold h in Ety.
  pose proof (headerOf_linkname n t name (n_uid n) (n_gid n)) as Eln. fold h in Eln.
  pose proof (headerOf_device n t name (n_uid n) (n_gid n) Hn) as Edev. fold h in Edev.
  assert (HD : IsDir n = bool_decide (ifmt n = S_IFDIR)) by done. assert (HL : IsLink n = bool_decide (ifmt n = S_IFLNK)) by done.
  unfold createNode. rewrite Ety. unfold contents. unfold typeOf in Ht. pose proof Hn as (Hm&_&Hk).
  destruct Hk as [(E&Er&_)|[(E&Er&Es)|[(E&Em&Er&Ec&Es)|[([E|E]&Er&Es&Eda)|(E&Er&Es&Eda)]]]]; rewrite E in Ht, HD, HL;
    repeat (rewrite decide_False in Ht by done); rewrite decide_True in Ht by done; injection Ht as Et; rewrite <-Et in *.
  - unfold mbind at 1, M_bind at 1. rewrite Lstat_run by done. replace (view s p) with (@None inode) by (unfold view; by rewrite Hfree).
    apply node_run; rewrite ?HD, ?HL, ?Er, ?E; try done. by apply type_with_perm.
  - apply node_run; rewrite ?HD, ?HL, ?Er, ?E; try done. by apply type_with_perm.
  - rewrite root_prefix, Eln.
    apply node_run; rewrite ?HD, ?HL, ?Er, ?E; try done. intros _. by destruct (symlink_mode n Hn HL) as [-> _].
  - unfold handleTarTypeBlockCharFifo. rewrite Ety. apply node_run; rewrite ?HD, ?HL, ?E; try done.
    + rewrite Z.lor_comm. by apply type_with_perm.
    + by apply Edev; rewrite E.
  - unfold handleTarTypeBlockCharFifo. rewrite Ety. apply node_run; rewrite ?HD, ?HL, ?E; try done.
    + rewrite Z.lor_comm. by apply type_with_perm.
    + by apply Edev; rewrite E.
  - unfold handleTarTypeBlockCharFifo. rewrite Ety. apply node_run; rewrite ?HD, ?HL, ?E; try done.
    + rewrite Z.lor_comm. by apply type_with_perm.
    + by apply Edev; rewrite E.
Qed.
End make.

Lemma typeOf_cases n t : typeOf n = Some t →
  t ≠ TypeLink ∧ t ≠ TypeXGlobalHeader ∧ (t = TypeSymlink ↔ IsLink n = true) ∧ (t = TypeDir ↔ IsDir n = true).
Proof.
  unfold typeOf, IsLink, IsDir. rewrite !bool_decide_eq_true. intros H.
  repeat (case_decide as E; [injection H as <-; rewrite ?E; split_and!; try split; by intros|clear E]). done.
Qed.

(** [s'] is [s] with the file [n] at the path [p]. *)
Definition with_file (p : path) (n : inode) (s s' : unixFS) : Prop :=
  sound s' ∧ osim (view s' p) (Some n) ∧ ∀ q, q ≠ p → osim (view s' q) (view s q).

(** The attributes of the inode [i], the one at [p], change to those of [n]. *)
Lemma upd_file p n s i f n0 : sound s → keeps_type f → u_names s !! p = Some i → view s p = Some n0 → sim (f n0) n →
  (∀ q, q ≠ p → u_names s !! q = Some i → sim n0 n) → with_file p n s (upd f i s).
Proof.
  intros Hs Hf Hi Hn Hsim Ho. split; [by apply upd_sound|]. split; [rewrite upd_view, decide_True, Hn by done; by constructor|].
  intros q Hq. rewrite upd_view. case_decide as E; [|done]. assert (view s q = Some n0) as ->.
  { unfold view in Hn |- *. by rewrite E, <-Hi. }
  constructor. etrans; [done|]. symmetry. by eapply Ho.
Qed.
Lemma with_file_trans p n s s1 s2 : (∀ q, q ≠ p → osim (view s1 q) (view s q)) → with_file p n s1 s2 → with_file p n s s2.
Proof. intros H (H1&H2&H3). split; [done|]. split; [done|]. intros q Hq. etrans; [by apply H3|by apply H]. Qed.

Section createTarFile.
  Context (clock : nat → Z * Z) (n : inode) (t : typeflag) (name : string) (s : unixFS) (p : path).
  Context (Hs : sound s) (Hn : storable n) (Ht : typeOf n = Some t) (Hp : plain s p) (Hne : p ≠ []).
Let h old := headerOf n t name old (n_uid n) (n_gid n).

(** A file where there is none. *)
Lemma createTarFile_new : u_names s !! p = None →
  ∃ s', createTarFile clock [] p [] (h None) (contents n t) s = Ret (Ok ()) s' ∧ with_file p n s s'.
Proof using Hs Hn Ht Hp Hne.
  intros Hfree. destruct (createNode_run clock n t name s p Hn Ht Hp Hfree) as (n0&Hrun&Hb). destruct (typeOf_cases n t Ht) as (H1&H2&H3&H4).
  pose proof (created_sound clock s p n0 Hs Hp Hne Hfree) as Hs1. pose proof (created_self clock s p n0 Hs Hp Hne) as Hv1.
  assert (Hp1 : plain (created clock p n0 s) p).
  { apply exists_plain; [apply Hs1|]. by rewrite Hv1. }
  apply (base_of_touched _ _ (clock (u_ticks s))) in Hb. set (m := set_mtim _ n0) in *. destruct Hb as (Bf&Br&Bc&Bd&Bl).
  assert (Ety : h_Typeflag (h None) = t) by apply headerOf_type. pose proof (headerOf_describes n t name None) as Hd. fold (h None) in Hd.
  assert (HLm : IsLink m = IsLink n) by (unfold IsLink; by rewrite Bf).
  assert (Hset : ∃ f, setAttributes [] p (h None) (created clock p n0 s) = Ret (Ok ()) (upd f (u_next s) (created clock p n0 s)) ∧
                   keeps_type f ∧ sim (f m) n).
  { destruct (IsLink n) eqn:HL.
    - exists (symlink_attrs (h None)). rewrite (setAttributes_symlink [] p _ (u_next s) m) by (done || apply created_name || by rewrite Ety; apply H3).
      assert (IsDir n = false) by (apply not_true_is_false; intros ?%dir_no_link; congruence). destruct Bd as [? ?]; [done|].
      split_and!; [done|apply symlink_attrs_keeps|]. apply symlink_sim; auto.
    - exists (attrs (h None)). rewrite (setAttributes_file [] p _ (u_next s) m); [|done|apply created_name|done|by rewrite Ety| |done].
      + split_and!; [done|apply attrs_keeps|]. by apply attrs_sim.
      + rewrite Ety. intros ?%H3. done. }
  destruct Hset as (f&Hset&Hf&Hsim). exists (upd f (u_next s) (created clock p n0 s)). split.
  - unfold createTarFile, try_bind, mbind, M_bind. fold (h None) in Hrun. rewrite Hrun. rewrite Ety. destruct t; done.
  - eapply with_file_trans; [intros q Hq; by apply created_other|]. apply (upd_file p n _ _ f m); [done|done|apply created_name|done|done|].
    intros q Hq E. by apply created_alone in E.
Qed.

(** A directory where there is one. *)
Lemma createTarFile_dir d0 : IsDir n = true → view s p = Some d0 → IsDir d0 = true → n_rdev d0 = n_rdev n → n_cap d0 = None →
  ∃ s', createTarFile clock [] p [] (h None) (contents n t) s = Ret (Ok ()) s' ∧ with_file p n s s'.
Proof using Hs Hn Ht Hp.
  intros HD Hv HD0 Hr Hc. destruct (typeOf_cases n t Ht) as (_&_&_&H4). apply H4 in HD as Et. assert (Ety : h_Typeflag (h None) = t) by apply headerOf_type.
  pose proof Hv as (i&Hi&Hin)%view_Some. exists (upd (attrs (h None)) i s). split.
  - unfold createTarFile, createNode, try_bind, mbind, M_bind. rewrite Ety, Et, Lstat_run, Hv by done. rewrite HD0. cbn -[setAttributes h].
    apply (setAttributes_file [] p s i d0); [done|done|done|by rewrite Ety, Et|by rewrite Ety, Et|by apply dir_no_link].
  - apply (upd_file p n s i _ d0); [done|apply attrs_keeps|done|done| |].
    + apply attrs_sim; [done|apply headerOf_describes| |done|done|congruence].
      unfold IsDir in HD, HD0. apply bool_decide_eq_true in HD, HD0. congruence.
    + intros q Hq E. exfalso. apply Hq. by eapply so_dir.
Qed.

(** A hard link to a file that has been extracted. *)
Lemma createTarFile_link tp m0 : u_names s !! p = None → IsDir n = false → tp ≠ [] → path_ok tp → view s tp = Some m0 → sim m0 n →
  ∃ s', createTarFile clock [] p [] (h (Some (relString tp))) "" s = Ret (Ok ()) s' ∧ with_file p n s s'.
Proof using Hs Hn Hp Hne.
  intros Hfree HD Htp Hok Hv Hsim. pose proof Hv as (i&Hi&Hin)%view_Some. set (h' := h (Some (relString tp))).
  assert (Ety : h_Typeflag h' = TypeLink) by done. assert (Eln : h_Linkname h' = relString tp) by done.
  assert (HD0 : IsDir m0 = false) by (rewrite (sim_IsDir _ _ Hsim); done).
  assert (Hpt : plain s tp) by (apply exists_plain; [apply Hs|by rewrite Hv]).
  assert (Hs1 : sound (linked clock i p s)) by (apply touch_sound; eapply with_name_sound; try done; congruence).
  assert (Hv1 : view (linked clock i p s) p = Some m0) by (apply named_self; auto).
  assert (Htv : osim (view (linked clock i p s) tp) (view s tp)) by (apply named_view; try done; congruence).
  assert (Hti : u_names (linked clock i p s) !! tp = Some i) by (cbn; rewrite lookup_insert_ne; [done|congruence]).
  exists (upd (if IsLink m0 then owned h' else attrs h') i (linked clock i p s)). split.
  - unfold createTarFile, createNode, try_bind, mbind, M_bind. rewrite Ety, Eln. fold h'. rewrite (joinAbs_rel tp Htp Hok), root_prefix.
    unfold sys at 1, mbind at 1, M_bind at 1. cbn [app]. rewrite (Link_run clock tp p s i m0) by done. cbn -[setAttributes h' linked].
    apply (setAttributes_link [] p _ i m0 ) with (t := tp); try done.
    + apply exists_plain; [apply Hs1|by rewrite Hv1].
    + cbn. by rewrite lookup_insert_eq.
    + rewrite Eln. by apply (joinAbs_rel tp Htp Hok []).
    + apply exists_plain; [apply Hs1|]. by apply (osim_is_Some _ _ Htv); rewrite Hv.
  - apply (with_file_trans p n s (linked clock i p s)); [intros q Hq; by apply named_view|]. apply (upd_file p n _ i _ m0); [done| |cbn; by rewrite lookup_insert_eq|done| |done].
    + destruct (IsLink m0); [apply owned_keeps|apply attrs_keeps].
    + pose proof (hardlink_sim h' n m0) as H. destruct (IsLink m0); apply H; try done; apply headerOf_describes.
Qed.
End createTarFile.
