(* ===== verification/ArchiveSteps.v ===== *)
(** A layer on top of its parent, change by change: what the file system holds
    after some of the changes between two file systems have been applied to the
    old one, in the order of the archive, and that the next change leads on. *)

From Stdlib Require Import Ascii.
From stdpp Require Import sorting.
From S2P Require Import Prelude GoStrings GoPath UnixFS Archive ArchiveChanges ArchiveWalk ArchivePaths ArchiveCalls ArchiveFile.

Local Open Scope list_scope.

(** ** What can be stored *)

(** A layer that an archive can hold: every file can be stored, and no name looks
    like a whiteout. *)
Record layer_ok (s : unixFS) : Prop := {
  la_sound : sound s;
  la_storable : ∀ p n, p ≠ [] → view s p = Some n → storable n;
  la_white : ∀ p x, is_Some (view s p) → x ∈ p → no_white x }.

(** The file system below it. *)
Record base_ok (s : unixFS) : Prop := {
  ba_sound : sound s;
  ba_dir : ∀ p d, p ≠ [] → view s p = Some d → IsDir d = true → n_rdev d = 0%Z ∧ n_cap d = None;
  ba_white : ∀ p x, is_Some (view s p) → x ∈ p → no_white x }.

(** *** Deciding it *)

#[global] Instance storable_dec n : Decision (storable n).
Proof. unfold storable. apply _. Defined.

Definition soundb (s : unixFS) : bool :=
  fs_okb s && bool_decide (map_Forall (λ i _, i < u_next s) (u_inodes s)) &&
  all_files s (λ p n, negb (IsDir n) || forallb (λ kv, bool_decide (u_names s !! p ≠ Some kv.2 ∨ p = kv.1)) (entries_of s)).
Definition namesb (p : path) : bool := forallb (λ x, negb (HasPrefix x WhiteoutPrefix)) p.
Definition layer_okb (s : unixFS) : bool :=
  soundb s && all_files s (λ p n, (bool_decide (p = []) || bool_decide (storable n)) && namesb p).
Definition base_okb (s : unixFS) : bool :=
  soundb s && all_files s (λ p n, (bool_decide (p = []) || negb (IsDir n) || bool_decide (n_rdev n = 0%Z ∧ n_cap n = None)) && namesb p).

Lemma soundb_ok s : soundb s = true → sound s.
Proof.
  intros [[H1 H2%bool_decide_eq_true]%andb_true_iff H3]%andb_true_iff. split; [by apply fs_okb_ok| |].
  - intros i [n Hn]. exact (H2 i n Hn).
  - intros p q i n Hp Hq Hn HD. assert (Hv : view s p = Some n) by (apply view_Some; eauto).
    apply (all_files_ok s _ p n H3) in Hv. rewrite HD in Hv. cbn in Hv. apply (forallb_entries s _ _ _ Hv) in Hq.
    apply bool_decide_eq_true in Hq as [Hq|Hq]; [by destruct Hq|done].
Qed.
Lemma namesb_ok p x : namesb p = true → x ∈ p → no_white x.
Proof. unfold namesb. rewrite forallb_forall. intros H Hx%list_elem_of_In%H. by apply negb_true_iff in Hx. Qed.

Lemma layer_okb_ok s : layer_okb s = true → layer_ok s.
Proof.
  intros [H1 H2]%andb_true_iff. split; [by apply soundb_ok| |].
  - intros p n Hp Hv. apply (all_files_ok s _ p n H2) in Hv. apply andb_true_iff in Hv as [Hv _].
    rewrite bool_decide_eq_false_2 in Hv by done. by apply bool_decide_eq_true in Hv.
  - intros p x [n Hv]. apply (all_files_ok s _ p n H2) in Hv. apply andb_true_iff in Hv as [_ Hv]. by apply namesb_ok.
Qed.
Lemma base_okb_ok s : base_okb s = true → base_ok s.
Proof.
  intros [H1 H2]%andb_true_iff. split; [by apply soundb_ok| |].
  - intros p n Hp Hv HD. apply (all_files_ok s _ p n H2) in Hv. apply andb_true_iff in Hv as [Hv _].
    rewrite bool_decide_eq_false_2, HD in Hv by done. by apply bool_decide_eq_true in Hv.
  - intros p x [n Hv]. apply (all_files_ok s _ p n H2) in Hv. apply andb_true_iff in Hv as [_ Hv]. by apply namesb_ok.
Qed.

Lemma view_path_ok s p : fs_ok s → is_Some (view s p) → path_ok p.
Proof. intros Hs H. by apply (exists_plain s p Hs). Qed.

Section steps.
  Context (new old : unixFS) (Hnew : layer_ok new) (Hold : base_ok old).

Abbreviation changed_path := (change (view new) (view old)).

(** ** The state after some changes *)

(** Both have a directory there, which is kept. *)
Definition both_dirs (r : path) : bool := is_dir (view new r) && is_dir (view old r).

(** Something above the path has been replaced or removed. *)
Definition replaced (D : list path) (q : path) : Prop := Exists (λ r, r ≠ q ∧ r `prefix_of` q ∧ both_dirs r = false) D.

(** What is at a path when the changes at the paths [D] have been applied. *)
Definition cur (D : list path) (q : path) : option inode :=
  if decide (q ∈ D) then view new q else if decide (replaced D q) then None else view old q.

Definition applied (D : list path) (s : unixFS) : Prop := sound s ∧ ∀ q, q ≠ [] → osim (view s q) (cur D q).

(** The next change: what is above it has been applied, and nothing at it or below. *)
Record next (D : list path) (p : path) (k : ChangeType) : Prop := {
  ne_change : changed_path p k;
  ne_below : ∀ r, r ∈ D → ¬ p `prefix_of` r;
  ne_above : ∀ r t, p = r ++ t → r ≠ [] → t ≠ [] → r ∈ D }.

Lemma replaced_snoc D p q : replaced (D ++ [p]) q ↔ replaced D q ∨ p ≠ q ∧ p `prefix_of` q ∧ both_dirs p = false.
Proof. unfold replaced. rewrite Exists_app, Exists_cons, Exists_nil. naive_solver. Qed.
Lemma replaced_below D p q : replaced D p → p `prefix_of` q → p ≠ q → replaced D q.
Proof.
  unfold replaced. rewrite !list.Exists_exists. intros (r&Hr&Hne&Hpre&Hb) Hq Hpq. exists r. split_and!; [done| |by etrans|done].
  intros ->. apply Hne. by apply (anti_symm prefix).
Qed.

Section cur_step.
  Context (D : list path) (p : path) (Hbelow : ∀ r, r ∈ D → ¬ p `prefix_of` r).

Lemma cur_self : cur (D ++ [p]) p = view new p.
Proof. unfold cur. rewrite decide_True; [done|]. apply elem_of_app. right. by apply list_elem_of_singleton. Qed.
Lemma cur_other q : ¬ p `prefix_of` q → cur (D ++ [p]) q = cur D q.
Proof.
  intros Hq. unfold cur. assert (q ∈ D ++ [p] ↔ q ∈ D) as Hin.
  { rewrite elem_of_app, list_elem_of_singleton. split; [|by left]. intros [?| ->]; [done|]. by destruct Hq. }
  assert (replaced (D ++ [p]) q ↔ replaced D q) as Hrep by (rewrite replaced_snoc; split; [intros [?|(_&?&_)]; done|by left]).
  destruct (decide (q ∈ D)); [by rewrite decide_True by by apply Hin|]. rewrite decide_False by by rewrite Hin.
  by apply decide_ext.
Qed.
Lemma cur_below q : p `prefix_of` q → p ≠ q → cur (D ++ [p]) q = if both_dirs p then cur D q else None.
Proof using Hbelow.
  intros Hpre Hne. assert (HD : q ∉ D) by (intros H; by apply (Hbelow q H)).
  assert (HD' : q ∉ D ++ [p]) by (rewrite elem_of_app, list_elem_of_singleton; naive_solver).
  unfold cur. rewrite (decide_False (P := q ∈ D ++ [p])), (decide_False (P := q ∈ D)) by done. destruct (both_dirs p) eqn:Hb.
  - apply decide_ext. rewrite replaced_snoc, Hb. split; [intros [?|(_&_&?)]; done|by left].
  - rewrite decide_True; [done|]. apply replaced_snoc. auto.
Qed.
Lemma cur_not_yet : cur D p = if decide (replaced D p) then None else view old p.
Proof using Hbelow. unfold cur. rewrite decide_False; [done|]. intros H. by apply (Hbelow p H). Qed.
End cur_step.

(** ** Above the next change *)

Section above.
  Context (D : list path) (s : unixFS) (p : path) (k : ChangeType) (Ha : applied D s) (Hn : next D p k).

Lemma applied_new r : r ∈ D → r ≠ [] → osim (view s r) (view new r).
Proof using Ha. intros Hr Hne. pose proof (proj2 Ha r Hne) as H. unfold cur in H. by rewrite decide_True in H. Qed.

(** The directories above are those of the new layer. *)
Lemma above_dir r t : p = r ++ t → t ≠ [] → is_dir (view new r) = true → is_dir (view s r) = true.
Proof using Ha Hn.
  intros E Ht Hd. destruct (decide (r = [])) as [->|Hr]; [apply (so_ok s (proj1 Ha))|].
  by rewrite (osim_is_dir _ _ (applied_new r (ne_above _ _ _ Hn _ _ E Hr Ht) Hr)).
Qed.

Lemma next_plain : path_ok p → (∀ r t, p = r ++ t → t ≠ [] → is_dir (view new r) = true) → plain s p.
Proof using Ha Hn. intros Hok H. split; [done|]. intros r t E Ht. eapply above_dir; [done|done|by eapply H]. Qed.
End above.

(** ** A file that is gone *)

Lemma prefix_strict (p q : path) : p `prefix_of` q → p ≠ q → ∃ x t, q = p ++ x :: t.
Proof. intros [[|x t] ->] Hne; [by rewrite app_nil_r in Hne|by exists x, t]. Qed.

(** Nothing is below a name that is free. *)
Lemma below_free s p q : sound s → view s p = None → p `prefix_of` q → view s q = None.
Proof.
  intros Hs Hp Hq. destruct (decide (p = q)) as [->|Hne]; [done|]. destruct (prefix_strict _ _ Hq Hne) as (x&t&->).
  apply eq_None_not_Some. intros H. apply (ok_above s p (x :: t)) in H; [by rewrite Hp in H|apply Hs|done].
Qed.

Lemma not_both_dirs r : view new r = None → both_dirs r = false.
Proof. intros E. unfold both_dirs. by rewrite E. Qed.

Section delete.
  Context (clock : nat → Z * Z) (D : list path) (s : unixFS) (p : path).
  Context (Ha : applied D s) (Hn : next D p ChangeDelete).

Lemma delete_facts : p ≠ [] ∧ view new p = None ∧ is_Some (view old p) ∧ holds_dir (view new) (parent p) = true.
Proof using Hn. destruct (ne_change _ _ _ Hn) as [Hp H]. destruct (view new p), (view old p); done. Qed.

(** The state in which nothing is at the path or below it any more. *)
Lemma deleted_applied s' : sound s' → (∀ q, p `prefix_of` q → view s' q = None) →
  (∀ q, ¬ p `prefix_of` q → osim (view s' q) (view s q)) → applied (D ++ [p]) s'.
Proof using Ha Hn.
  intros Hs' Hb Ho. destruct delete_facts as (Hp&Hnp&_&_). split; [done|]. intros q Hq.
  destruct (decide (p `prefix_of` q)) as [Hpre|Hpre].
  - rewrite (Hb q Hpre). destruct (decide (p = q)) as [<-|Hne]; [rewrite cur_self, Hnp; constructor|].
    rewrite (cur_below _ _ (ne_below _ _ _ Hn)), not_both_dirs by done. constructor.
  - rewrite (cur_other _ _ _ Hpre). etrans; [by apply Ho|]. by apply Ha.
Qed.

(** The directory of the file is one, or a file has come in its place. *)
Lemma delete_parent : plain s p ∨ namei MAXSYMLINKS s false [] p = Err ENOTDIR ∧ ∀ q, p `prefix_of` q → view s q = None.
Proof using Ha Hn Hnew Hold.
  destruct delete_facts as (Hp&Hnp&Hop&Hh). assert (Hok : path_ok p) by (eapply view_path_ok; [apply Hold|done]).
  destruct p as [|x r _] using rev_ind; [done|]. rewrite parent_snoc in Hh. unfold holds_dir in Hh.
  assert (Hup : is_dir (view new r) = true → plain s (r ++ [x])).
  { intros Hd. eapply next_plain; [done|done|done|]. intros a t E Ht. destruct t as [|y t _] using rev_ind; [done|].
    rewrite (assoc_L (++)) in E. apply app_inj_tail in E as [-> ->]. destruct (decide (t = [])) as [->|Ht']; [by rewrite app_nil_r in Hd|].
    apply is_dir_Some in Hd as (d&Hd&_). eapply ok_above; [apply Hnew|by rewrite Hd|done]. }
  destruct (decide (r = [])) as [->|Hr]; [left; apply Hup, (ok_root new), Hnew|]. rewrite bool_decide_eq_false_2 in Hh by done. cbn in Hh.
  destruct (view new r) as [d|] eqn:Hd; [|done]. destruct (IsDir d) eqn:HD; [left; by apply Hup|right].
  assert (Hin : r ∈ D) by (eapply (ne_above _ _ _ Hn r [x]); done). pose proof (applied_new D s Ha r Hin Hr) as Hsim. rewrite Hd in Hsim.
  inversion Hsim as [d' ? Hdd E1|]; subst. symmetry in E1. rewrite <-(sim_IsDir _ _ Hdd) in HD. split.
  - eapply namei_below_file; [|done| |done|done|].
    + apply exists_plain; [apply Ha|by rewrite E1].
    + apply list.Forall_app in Hok as [_ Hok]. by apply list.Forall_cons in Hok as [? _].
    + rewrite (sim_IsLink _ _ Hdd). unfold dir_bit in Hh. apply bool_decide_eq_true in Hh. apply not_true_is_false.
      unfold IsLink, ifmt. intros HL%bool_decide_eq_true. apply Hh. change S_IFDIR with (Z.land S_IFMT S_IFDIR). by rewrite Z.land_assoc, HL.
  - intros q [t ->]. apply eq_None_not_Some. intros H. rewrite <-app_assoc in H. apply ok_above in H; [|apply Ha|done].
    rewrite E1 in H. cbn in H. congruence.
Qed.

Lemma delete_step : ∃ s', RemoveAll clock p s = Ret (Ok ()) s' ∧ applied (D ++ [p]) s'.
Proof using Ha Hn Hnew Hold.
  destruct delete_facts as (Hp&_). assert (Hs : sound s) by apply Ha. destruct delete_parent as [Hpl|[He Hb]].
  - destruct (u_names s !! p) as [i|] eqn:E.
    + exists (removed clock p s). split; [by apply RemoveAll_run|]. apply deleted_applied; [by apply removed_sound| |].
      * intros q Hq. by apply removed_below.
      * intros q Hq. by apply removed_view.
    + exists s. split; [apply RemoveAll_gone; left; split; [by apply namei_plain|done]|]. apply deleted_applied; [done| |done].
      intros q. apply below_free; [done|]. by apply view_None.
  - exists s. split; [apply RemoveAll_gone; by right|]. by apply deleted_applied.
Qed.
End delete.

(** ** A file of the new layer *)

Section file.
  Context (clock : nat → Z * Z) (D : list path) (s : unixFS) (p : path) (k : ChangeType) (n : inode).
  Context (Ha : applied D s) (Hn : next D p k) (Hp : p ≠ []) (Hv : view new p = Some n).

Lemma file_plain : plain s p.
Proof using Ha Hn Hv Hnew.
  eapply next_plain; [done|done|eapply view_path_ok; [apply Hnew|by rewrite Hv]|].
  intros r t E Ht. eapply ok_above; [apply Hnew|by rewrite <-E, Hv|done].
Qed.

(** What is at the path before, if anything: the old file. *)
Lemma file_before m : view s p = Some m → ¬ replaced D p ∧ osim (Some m) (view old p).
Proof using Ha Hn Hp.
  intros E. pose proof (proj2 Ha p Hp) as H. rewrite E, (cur_not_yet _ _ (ne_below _ _ _ Hn)) in H.
  destruct (decide (replaced D p)); [by inversion H|done].
Qed.

(** The state in which the path is ready for the file: free, or with a directory for a
    directory. *)
Definition cleared (s1 : unixFS) : Prop :=
  sound s1 ∧ (∀ q, ¬ p `prefix_of` q → osim (view s1 q) (view s q)) ∧
  (∀ q, p `prefix_of` q → p ≠ q → osim (view s1 q) (cur (D ++ [p]) q)) ∧
  (view s1 p = None ∨ IsDir n = true ∧ ∃ d, view s1 p = Some d ∧ IsDir d = true ∧ n_rdev d = 0%Z ∧ n_cap d = None).

Lemma replaceOld_step h : (IsDir n = true ↔ h_Typeflag h = TypeDir) → ∃ s1, replaceOld clock p h s = Ret (Ok ()) s1 ∧ cleared s1.
Proof using Ha Hn Hp Hv Hnew Hold.
  intros Hh. pose proof file_plain as Hpl. assert (Hs : sound s) by apply Ha.
  unfold replaceOld, mbind, M_bind. rewrite Lstat_run by done. destruct (view s p) as [m|] eqn:Hm.
  - destruct (file_before m Hm) as [Hnr Hold']. inversion Hold' as [? o Hmo E1 E2|]; subst. symmetry in E2.
    destruct (IsDir m && bool_decide (h_Typeflag h = TypeDir)) eqn:Hb.
    + apply andb_true_iff in Hb as [Hd Ht%bool_decide_eq_true%Hh]. exists s. split; [done|]. split_and!; [done|done| |].
      * intros q Hpre Hne. rewrite (cur_below _ _ (ne_below _ _ _ Hn)) by done. unfold both_dirs. rewrite Hv, E2. cbn.
        rewrite Ht, <-(sim_IsDir _ _ Hmo), Hd. cbn. apply Ha. by intros ->; apply prefix_nil_inv in Hpre.
      * right. split; [done|]. exists m. pose proof Hmo as (_&_&_&Er&Ec&_). rewrite (sim_IsDir _ _ Hmo) in Hd.
        destruct (ba_dir old Hold p o Hp E2 Hd) as [? ?]. rewrite (sim_IsDir _ _ Hmo). split_and!; congruence.
    + exists (removed clock p s). assert (Hex : is_Some (u_names s !! p)) by (apply view_names; [apply Hs|by rewrite Hm]). split.
      * unfold sys, mbind, M_bind. by rewrite RemoveAll_run.
      * split_and!; [by apply removed_sound|intros; by apply removed_view| |left; by apply removed_below].
        intros q Hpre Hne. rewrite removed_below, (cur_below _ _ (ne_below _ _ _ Hn)) by done.
        unfold both_dirs. rewrite Hv, E2. cbn. rewrite <-(sim_IsDir _ _ Hmo). destruct (IsDir n) eqn:Hd; [|constructor].
        rewrite bool_decide_eq_true_2, andb_true_r in Hb by by apply Hh. rewrite Hb. constructor.
  - exists s. split; [done|]. split_and!; [done|done| |by left]. intros q Hpre Hne. rewrite (below_free s p q) by done.
    rewrite (cur_below _ _ (ne_below _ _ _ Hn)) by done. pose proof (proj2 Ha p Hp) as H.
    rewrite Hm, (cur_not_yet _ _ (ne_below _ _ _ Hn)) in H. destruct (both_dirs p) eqn:Hb; [|constructor].
    destruct (decide (replaced D p)) as [Hr|Hr].
    + assert (cur D q = None) as ->; [|constructor]. unfold cur. rewrite decide_False by (intros Hq; by apply (ne_below _ _ _ Hn q Hq)).
      by rewrite decide_True by by eapply replaced_below.
    + inversion H as [|E1 E2]. unfold both_dirs in Hb. rewrite <-E2, andb_false_r in Hb. done.
Qed.

Lemma file_applied s1 s' : cleared s1 → with_file p n s1 s' → applied (D ++ [p]) s'.
Proof using Ha Hv.
  intros (_&Ho&Hb&_) (Hs'&Hself&Hoth). split; [done|]. intros q Hq. destruct (decide (p = q)) as [<-|Hne]; [by rewrite cur_self, Hv|].
  etrans; [by apply Hoth|]. destruct (decide (p `prefix_of` q)) as [Hpre|Hpre]; [by apply Hb|].
  rewrite (cur_other _ _ _ Hpre). etrans; [by apply Ho|]. by apply Ha.
Qed.

Lemma cleared_plain s1 : cleared s1 → plain s1 p.
Proof using Ha Hn Hv Hnew.
  intros (_&Ho&_&_). destruct file_plain as [Hok Hd]. split; [done|]. intros r t E Ht.
  assert (Hr : ¬ p `prefix_of` r).
  { intros Hpre. apply prefix_length in Hpre. rewrite E, length_app in Hpre. destruct t; [done|]. cbn in Hpre. lia. }
  rewrite (osim_is_dir _ _ (Ho r Hr)). by eapply Hd.
Qed.

Lemma new_storable : storable n.
Proof using Hnew Hp Hv. by eapply la_storable. Qed.

(** The first name of an inode. *)
Lemma create_step t name s1 : cleared s1 → typeOf n = Some t →
  ∃ s', createTarFile clock [] p [] (headerOf n t name None (n_uid n) (n_gid n)) (contents n t) s1 = Ret (Ok ()) s' ∧ applied (D ++ [p]) s'.
Proof using Ha Hn Hp Hv Hnew.
  intros Hc Ht. pose proof (cleared_plain s1 Hc) as Hpl. pose proof new_storable as Hst. pose proof Hc as (Hs1&_&_&[Hfree|(HD&d&Hd&HDd&Hr&Hcap)]).
  - destruct (createTarFile_new clock n t name s1 p) as (s'&?&?); try done; [by apply view_None|]. exists s'. split; [done|by eapply file_applied].
  - destruct (createTarFile_dir clock n t name s1 p Hs1 Hst Ht Hpl d) as (s'&?&?); try done; [|exists s'; split; [done|by eapply file_applied]].
    rewrite Hr. destruct Hst as (_&_&H). unfold IsDir in HD. apply bool_decide_eq_true in HD. rewrite HD in H.
    destruct H as [(_&?&_)|[[? _]|[[? _]|[[[?|?] _]|[? _]]]]]; done.
Qed.

(** Another name of an inode that has been extracted under the name [tp]. *)
Lemma link_step t name tp s1 : cleared s1 → IsDir n = false → tp ∈ D → tp ≠ [] → view new tp = Some n →
  ∃ s', createTarFile clock [] p [] (headerOf n t name (Some (relString tp)) (n_uid n) (n_gid n)) "" s1 = Ret (Ok ()) s' ∧ applied (D ++ [p]) s'.
Proof using Ha Hn Hp Hv Hnew.
  intros Hc HD Hin Htp Htv. pose proof (cleared_plain s1 Hc) as Hpl. pose proof Hc as (Hs1&Ho&_&[Hfree|[? _]]); [|congruence].
  assert (Hsim : osim (view s1 tp) (Some n)).
  { etrans; [apply Ho; by apply (ne_below _ _ _ Hn)|]. rewrite <-Htv. by apply (applied_new D s Ha). }
  inversion Hsim as [m0 ? Hm E1|]; subst. symmetry in E1.
  destruct (createTarFile_link clock n t name s1 p Hs1 new_storable Hpl Hp tp m0) as (s'&?&?); try done.
  - by apply view_None.
  - eapply view_path_ok; [apply Hnew|by rewrite Htv].
  - exists s'. split; [done|by eapply file_applied].
Qed.
End file.

(** ** The order of the changes *)

Section order.
  Context (Hsame : same_files old new).

Definition sortedChanges : list Change := merge_sort path_le (ChangesDirs new old).

Lemma sorted_change c : c ∈ sortedChanges ↔ changed_path (c_Path c) (c_Kind c).
Proof using Hnew Hold Hsame.
  unfold sortedChanges. rewrite merge_sort_Permutation. destruct c as [p k].
  apply ChangesDirs_spec; [apply Hnew|apply Hold|done].
Qed.
Lemma sorted_paths : NoDup (c_Path <$> sortedChanges).
Proof using Hnew Hold.
  unfold sortedChanges. rewrite merge_sort_Permutation. apply ChangesDirs_nodup; [apply Hnew|apply Hold].
Qed.
Lemma sorted_order : StronglySorted path_le sortedChanges.
Proof.
  apply StronglySorted_merge_sort; [intros a b c; apply sle_trans|intros a b; apply sle_total].
Qed.

Lemma change_exists p k : changed_path p k → p ≠ [] ∧ (is_Some (view new p) ∨ is_Some (view old p)).
Proof. intros [Hp H]. split; [done|]. destruct (view new p), (view old p), k; try done; [by left; eexists..|by right; eexists]. Qed.
Lemma change_path_ok p k : changed_path p k → path_ok p.
Proof using Hnew Hold. intros (_&[H|H])%change_exists; (eapply view_path_ok; [|done]); [apply Hnew|apply Hold]. Qed.

Lemma change_differs_below p k : changed_path p k → ∃ t, differs (view new) (view old) (p ++ t).
Proof.
  intros [Hp H]. destruct (view new p) as [n|] eqn:En, (view old p) as [o|] eqn:Eo, k; try done;
    [destruct H as [?|(_&r&_&?)]; [|by exists r]|..]; exists []; rewrite app_nil_r; split; try done; by rewrite En, Eo.
Qed.

(** The directories above a change are in the list. *)
Lemma change_above p k r t : changed_path p k → p = r ++ t → r ≠ [] → t ≠ [] → ∃ k', changed_path r k'.
Proof using Hnew Hold.
  intros Hc E Hr Ht. assert (Hd : ∃ d, view new r = Some d ∧ dir_bit d = true).
  { assert (Hnr : is_Some (view new p) → ∃ d, view new r = Some d ∧ dir_bit d = true).
    { intros H. rewrite E in H. apply ok_above in H; [|apply Hnew|done]. apply is_dir_Some in H as (d&Hd&HD). exists d. split; [done|].
      apply bool_decide_eq_true_2. by rewrite IsDir_bit. }
    destruct Hc as [_ H]. destruct (view new p) as [n|] eqn:En; [apply Hnr; by eexists|]. destruct k, (view old p); try done.
    unfold holds_dir in H. destruct t as [|x t _] using rev_ind; [done|]. rewrite E, (assoc_L (++)), parent_snoc in H.
    rewrite bool_decide_eq_false_2 in H by by destruct r. cbn in H. destruct (view new (r ++ t)) as [d|] eqn:Ed; [|done].
    destruct (decide (t = [])) as [->|Ht']; [rewrite app_nil_r in Ed; eauto|].
    assert (Hd : is_dir (view new r) = true) by (eapply ok_above; [apply Hnew|by rewrite Ed|done]).
    apply is_dir_Some in Hd as (d'&Hd'&HD). exists d'. split; [done|]. apply bool_decide_eq_true_2. by rewrite IsDir_bit. }
  destruct Hd as (d&Hd&Hb). destruct (change_differs_below _ _ Hc) as [t' Hdiff]. rewrite E, <-app_assoc in Hdiff.
  destruct (view old r) as [o|] eqn:Eo.
  - exists ChangeModify. split; [done|]. rewrite Hd, Eo. right. split; [done|]. exists (t ++ t'). split; [by destruct t|done].
  - exists ChangeAdd. split; [done|]. by rewrite Hd, Eo.
Qed.

Lemma next_sorted L1 c L2 : sortedChanges = L1 ++ c :: L2 → next (c_Path <$> L1) (c_Path c) (c_Kind c).
Proof using Hnew Hold Hsame.
  intros E. pose proof sorted_order as Hso. pose proof sorted_paths as Hnd. rewrite E in Hso, Hnd. rewrite fmap_app, fmap_cons in Hnd.
  apply list.NoDup_app in Hnd as (_&Hd1&Hd2). apply list.NoDup_cons in Hd2 as [Hd2 _].
  assert (Hin : ∀ a, a ∈ L1 ++ c :: L2 → path_ok (c_Path a)).
  { intros a Ha. rewrite <-E in Ha. apply sorted_change in Ha. by eapply change_path_ok. }
  assert (Hc : c ∈ L1 ++ c :: L2) by (apply elem_of_app; right; left). split.
  - apply sorted_change. by rewrite E.
  - intros r (a&->&Ha)%list_elem_of_fmap [t Ht]. apply (Hd1 (c_Path a)); [apply list_elem_of_fmap; by exists a|]. rewrite elem_of_cons. left.
    apply pathString_inj; [apply Hin, elem_of_app; by left|by apply Hin|]. apply sle_antisym; [|rewrite Ht; apply above_sle].
    by apply (StronglySorted_app_1_elem_of path_le L1 (c :: L2) a c Hso Ha); left.
  - intros r t Hp Hr Ht. destruct (change_above (c_Path c) (c_Kind c) r t) as [k' Hk']; [apply sorted_change; by rewrite E|done..|].
    assert (Ha : mkChange r k' ∈ sortedChanges) by by apply sorted_change. rewrite E, elem_of_app, elem_of_cons in Ha.
    destruct Ha as [Ha|[Ha|Ha]]; [apply list_elem_of_fmap; by exists (mkChange r k')| |]; exfalso.
    + apply (f_equal (length ∘ c_Path)) in Ha. cbn in Ha. rewrite Hp, length_app in Ha. destruct t; [done|]. cbn in Ha. lia.
    + assert (Heq : r = c_Path c).
      { apply pathString_inj; [by eapply change_path_ok|by apply Hin|]. apply sle_antisym; [rewrite Hp; apply above_sle|].
        apply (StronglySorted_app_1_elem_of path_le (L1 ++ [c]) L2 c (mkChange r k')); [by rewrite <-app_assoc|apply elem_of_app; right; left|exact Ha]. }
      apply Hd2. rewrite <-Heq. apply list_elem_of_fmap. by exists (mkChange r k').
Qed.

(** ** All changes *)

(** The time of a file that is no directory, and its size, are compared only when
    its mode does not have the bit of directories, which block devices have. *)
Definition agrees (a b : inode) : Prop :=
  n_mode a = n_mode b ∧ n_uid a = n_uid b ∧ n_gid a = n_gid b ∧ n_rdev a = n_rdev b ∧ capability a = capability b ∧
  (IsDir b = false → n_data a = n_data b) ∧ (dir_bit b = false → n_size a = n_size b ∧ (n_mtim a).1 = (n_mtim b).1).

Lemma dir_bit_false n : dir_bit n = false → IsDir n = false.
Proof.
  unfold dir_bit. rewrite bool_decide_eq_false. intros H. apply not_true_is_false. intros E%IsDir_bit. apply H. by rewrite E.
Qed.
Lemma sim_agrees a b : sim a b → agrees a b.
Proof.
  intros (?&?&?&?&Hc&H). unfold agrees, capability. rewrite Hc. split_and!; try done; [intros Hd; by apply H|].
  intros Hb%dir_bit_false. by destruct (H Hb) as (?&?&?).
Qed.

Lemma sim_agrees_trans a b c : sim a b → agrees b c → agrees a c.
Proof.
  intros H1%sim_agrees H2. destruct H1 as (M'&U'&G'&R'&C'&Da'&S'), H2 as (M&U&G&R&C&Da&S).
  assert (IsDir b = IsDir c ∧ dir_bit b = dir_bit c) as [Ed Eb] by (unfold IsDir, dir_bit, ifmt; by rewrite M).
  split_and!; try congruence; [intros HD; rewrite Da' by congruence; auto|]. intros HD.
  destruct S as [? ?]; [done|]. destruct S' as [? ?]; [congruence|]. split; congruence.
Qed.

Lemma unchanged o n : file_changed o n = false → (IsDir n = false → n_data o = n_data n) → agrees o n.
Proof.
  unfold file_changed, statDifferent. intros [H1%bool_decide_eq_false H2%bool_decide_eq_false]%orb_false_iff Hd.
  apply Decidable.not_or in H1 as [Hm%dec_stable H1]. apply Decidable.not_or in H1 as [Hu%dec_stable H1].
  apply Decidable.not_or in H1 as [Hg%dec_stable H1]. apply Decidable.not_or in H1 as [Hr%dec_stable H1]. apply dec_stable in H2.
  unfold agrees. split_and!; [done..|]. intros Hb. assert (Hb' : Z.land (n_mode o) S_IFDIR ≠ S_IFDIR).
  { rewrite Hm. unfold dir_bit in Hb. apply bool_decide_eq_false in Hb. intros E. apply Hb. by rewrite E. }
  assert (H3 : ¬ (sameFsTimeSpec (n_mtim o) (n_mtim n) = false ∨ n_size o ≠ n_size n)) by (intros ?; by apply H1).
  apply Decidable.not_or in H3 as [Ht%not_false_is_true Hs%dec_stable]. split; [done|].
  unfold sameFsTimeSpec in Ht. by apply bool_decide_eq_true in Ht as [? _].
Qed.

(** The file above that is the first one missing. *)
Lemma first_missing q : view new q = None → ∃ r t, q = r ++ t ∧ r ≠ [] ∧ view new r = None ∧ is_Some (view new (parent r)).
Proof using Hnew.
  induction q as [|x q IH] using rev_ind; intros H.
  - pose proof (ok_root new (so_ok _ (la_sound _ Hnew))) as Hr. by rewrite H in Hr.
  - destruct (view new q) as [d|] eqn:E.
    + exists (q ++ [x]), []. rewrite app_nil_r, parent_snoc, E. split_and!; [done|by destruct q|done|by eexists].
    + destruct (IH eq_refl) as (r&t&->&?&?&?). exists r, (t ++ [x]). by rewrite <-app_assoc.
Qed.

Section all.
  Context (Hdata : ∀ p o n, view old p = Some o → view new p = Some n → file_changed o n = false → IsDir n = false → n_data o = n_data n).
Let D := c_Path <$> sortedChanges.

Lemma in_D q k : changed_path q k → q ∈ D.
Proof using Hnew Hold Hsame. intros H. apply list_elem_of_fmap. exists (mkChange q k). split; [done|]. by apply sorted_change. Qed.

(** A file that only the old layer has is gone, with a change at it or above it. *)
Lemma gone_replaced q : view new q = None → is_Some (view old q) → q ∈ D ∨ replaced D q.
Proof using Hnew Hold Hsame.
  intros Hnq Hoq. destruct (first_missing q Hnq) as (r&t&E&Hr&Hnr&[d Hd]).
  assert (Hor : is_Some (view old r)).
  { destruct (decide (t = [])) as [->|Ht]; [by rewrite app_nil_r in E; subst|]. rewrite E in Hoq. apply ok_above in Hoq; [|apply Hold|done].
    apply is_dir_Some in Hoq as (o&->&_). by eexists. }
  assert (Hprefix : ∀ a, a ∈ D → a `prefix_of` q → both_dirs a = false → q ∈ D ∨ replaced D q).
  { intros a Ha Hpre Hb. destruct (decide (a = q)) as [->|Hne]; [by left|]. right. apply list.Exists_exists. by exists a. }
  destruct (holds_dir (view new) (parent r)) eqn:Hh.
  - apply (Hprefix r); [apply (in_D r ChangeDelete)|by exists t|by apply not_both_dirs]. split; [done|]. destruct Hor as [o Ho]. by rewrite Hnr, Ho.
  - destruct r as [|x r _] using rev_ind; [done|]. rewrite parent_snoc in *. unfold holds_dir in Hh. apply orb_false_iff in Hh as [Hr0%bool_decide_eq_false Hb].
    rewrite Hd in Hb. apply dir_bit_false in Hb as HD. apply ok_above in Hor; [|apply Hold|done]. apply is_dir_Some in Hor as (o&Ho&HDo).
    apply (Hprefix r); [apply (in_D r ChangeModify)|rewrite E, <-app_assoc; by eexists|unfold both_dirs; rewrite Hd; cbn; by rewrite HD].
    split; [done|]. rewrite Hd, Ho. left. unfold file_changed. apply orb_true_iff. left. apply bool_decide_eq_true_2. left. intros Hm.
    unfold IsDir, ifmt in HD, HDo. rewrite Hm in HDo. congruence.
Qed.

Lemma applied_all s q : applied D s → q ≠ [] → option_Forall2 agrees (view s q) (view new q).
Proof using Hnew Hold Hsame Hdata.
  intros [_ Ha] Hq. specialize (Ha q Hq). unfold cur in Ha. destruct (decide (q ∈ D)) as [Hin|Hin].
  { destruct Ha; constructor. by apply sim_agrees. }
  assert (Hadd : view old q = None → view new q = None).
  { intros Ho. destruct (view new q) as [n|] eqn:En; [|done]. exfalso. apply Hin, (in_D q ChangeAdd). split; [done|]. by rewrite En, Ho. }
  destruct (decide (replaced D q)) as [Hr|Hr].
  - inversion Ha. assert (view new q = None) as ->; [|constructor]. unfold replaced in Hr. rewrite list.Exists_exists in Hr.
    destruct Hr as (r&_&Hne&Hpre&Hb). destruct (prefix_strict _ _ Hpre Hne) as (x&t&->). apply andb_false_iff in Hb as [Hb|Hb].
    + apply eq_None_not_Some. intros H. apply ok_above in H; [congruence|apply Hnew|done].
    + apply Hadd, eq_None_not_Some. intros H. apply ok_above in H; [congruence|apply Hold|done].
  - destruct (view new q) as [n|] eqn:En.
    + destruct (view old q) as [o|] eqn:Eo; [|by specialize (Hadd eq_refl)]. inversion Ha as [a ? Hao|]; subst. constructor.
      assert (Hc : file_changed o n = false).
      { apply not_true_is_false. intros Hc. apply Hin, (in_D q ChangeModify). split; [done|]. rewrite En, Eo. by left. }
      eapply sim_agrees_trans; [done|]. exact (unchanged o n Hc (Hdata q o n Eo En Hc)).
    + destruct (view old q) as [o|] eqn:Eo; [|by inversion Ha; constructor].
      destruct (gone_replaced q) as [?|?]; [done|by rewrite Eo|done..].
Qed.
End all.
End order.
End steps.
