(* ===== verification/ArchiveRoundTrip.v ===== *)
(** Layers round trip: the archive of the changes between two file systems, applied
    to the old one, gives the new one (pkg/archive with daemon/graphdriver/fsdiff.go
    and pkg/chrootarchive). *)

From Stdlib Require Import Ascii.
From stdpp Require Import sorting.
From S2P Require Import Prelude GoStrings GoPath UnixFS IDTools Archive ArchiveChanges ArchiveWalk ArchivePaths ArchiveCalls ArchiveFile ArchiveSteps.

Local Open Scope list_scope.

(** ** The entries of an archive *)

Section export.
  Context (dir : unixFS) (uidMaps gidMaps : idMaps) (timestamp : Z).

(** The entries that a list of changes adds, from the links seen so far. *)
Fixpoint exportFrom (seen : gmap nat string) (l : list Change) : list entry :=
  match l with
  | [] => []
  | c :: l => let r := exportChange dir uidMaps gidMaps timestamp ([], seen) c in r.1 ++ exportFrom r.2 l
  end.

Lemma exportChange_app acc seen c :
  exportChange dir uidMaps gidMaps timestamp (acc, seen) c =
  let r := exportChange dir uidMaps gidMaps timestamp ([], seen) c in (acc ++ r.1, r.2).
Proof.
  unfold exportChange. destruct (c_Kind c); cbn; try done; destruct (addTarFile _ _ _ _ _ _) as [[e|] ?]; cbn; by rewrite ?app_nil_r.
Qed.
Lemma export_foldl l : ∀ acc seen, (foldl (exportChange dir uidMaps gidMaps timestamp) (acc, seen) l).1 = acc ++ exportFrom seen l.
Proof.
  induction l as [|c l IH]; intros acc seen; cbn [foldl exportFrom]; [by rewrite app_nil_r|].
  rewrite exportChange_app. cbv zeta. rewrite IH. by rewrite (assoc_L (++)).
Qed.
End export.

(** ** One file *)

Lemma canonical_clean p isDir : p ≠ [] → path_ok p → filepath.Clean (canonicalTarName (relString p) isDir) = relString p.
Proof.
  intros Hp Hok. unfold canonicalTarName. rewrite endsInSlash_rel by done. destruct isDir; [by apply Clean_rel_slash|by apply Clean_rel].
Qed.
Lemma canonical_base p isDir : p ≠ [] → path_ok p → Base (canonicalTarName (relString p) isDir) = default "/"%string (list.last p).
Proof.
  intros Hp Hok. unfold canonicalTarName. rewrite endsInSlash_rel by done. destruct isDir; [by apply Base_rel_slash|by apply Base_rel].
Qed.

(** An owner that the archive holds in the terms of the container, and that the
    extraction brings back. *)
Definition id_comes_back (maps : idMaps) (root id : Z) : Prop :=
  ∃ c, ToContainer id maps = Ok c ∧ (if decide (c ≠ root) then ToHost c maps else Ok c) = Ok id.

(** A regular file without contents. *)
Lemma empty_file n : storable n → typeOf n = Some TypeReg → ¬ (0 < n_size n)%Z → n_data n = ""%string.
Proof.
  intros (_&_&H) Ht Hsz. assert (E : ifmt n = S_IFREG) by (unfold typeOf in Ht; by repeat (case_decide; [done|])).
  rewrite E in H. destruct H as [[? _]|[(_&_&Hl)|[[? _]|[[[?|?] _]|[? _]]]]]; try done.
  destruct (n_data n); [done|]. cbn in Hl. lia.
Qed.

Section file.
  Context (new : unixFS) (uidMaps gidMaps : idMaps) (rootUID rootGID : Z).
  Context (Hnew : layer_ok new) (p : path) (n : inode) (ino : nat).
  Context (Hp : p ≠ []) (Hino : u_names new !! p = Some ino) (Hv : view new p = Some n).
  Context (Hu : id_comes_back uidMaps rootUID (n_uid n)) (Hg : id_comes_back gidMaps rootGID (n_gid n)).

Lemma file_path_ok : path_ok p.
Proof using Hnew Hv. eapply view_path_ok; [apply Hnew|by rewrite Hv]. Qed.
Lemma file_type : ∃ t, typeOf n = Some t.
Proof using Hnew Hp Hv.
  destruct (la_storable new Hnew p n Hp Hv) as (_&_&H). unfold typeOf.
  destruct H as [[-> _]|[[-> _]|[[-> _]|[[[-> | ->] _]|[-> _]]]]]; by eexists.
Qed.
Lemma file_last : ∃ x, list.last p = Some x ∧ no_white x.
Proof using Hnew Hp Hv.
  destruct (list.last p) as [x|] eqn:E; [|by apply list.last_None in E]. exists x. split; [done|].
  apply (la_white new Hnew p x); [by rewrite Hv|]. apply list.last_Some in E as [l Hl]. rewrite Hl. apply elem_of_app. right. left.
Qed.

(** The links that the archive has seen, and the name that a file links to. *)
Definition linked_to (seen : gmap nat string) : option string := if negb (IsDir n) && bool_decide (1 < nlink new p) then seen !! ino else None.
Definition seen_after (seen : gmap nat string) : gmap nat string :=
  if negb (IsDir n) && bool_decide (1 < nlink new p) then
    match seen !! ino with Some _ => seen | None => <[ino := canonicalTarName (relString p) (IsDir n)]> seen end
  else seen.

Lemma headerIDs_run name t old : Base name = default "/"%string (list.last p) →
  ∃ uid gid, headerIDs uidMaps gidMaps n (fileHeader n (setHeaderForSpecialDevice n (infoHeader n t)) name old) = Ok (uid, gid) ∧
    hostIDs uidMaps gidMaps rootUID rootGID (headerOf n t (filepath.Clean name) old uid gid) =
    Ok (headerOf n t (filepath.Clean name) old (n_uid n) (n_gid n)).
Proof using Hnew Hp Hv Hu Hg.
  intros Hb. destruct Hu as (u&Eu&Ru), Hg as (g&Eg&Rg). destruct file_last as (x&Ex&Hx). exists u, g. split.
  - unfold headerIDs. cbn [fileHeader h_Name]. rewrite Hb, Ex. cbn. unfold no_white in Hx. rewrite Hx. cbn.
    destruct (bool_decide (uidMaps ≠ None) || bool_decide (gidMaps ≠ None)) eqn:E; [by rewrite Eu, Eg|].
    apply orb_false_iff in E as [E1%bool_decide_eq_false%dec_stable E2%bool_decide_eq_false%dec_stable].
    rewrite E1 in Eu. rewrite E2 in Eg. cbn in Eu, Eg. injection Eu as <-. injection Eg as <-.
    destruct (special_same n (infoHeader n t)) as (E3&E4&_). by rewrite E3, E4.
  - unfold hostIDs. change (h_Uid (headerOf n t (filepath.Clean name) old u g)) with u.
    change (h_Gid (headerOf n t (filepath.Clean name) old u g)) with g. rewrite Ru, Rg. done.
Qed.

Definition entryData (t : typeflag) (old : option string) : string := match old with Some _ => "" | None => contents n t end.

Lemma addTarFile_run seen : ∃ t uid gid, typeOf n = Some t ∧
  addTarFile new uidMaps gidMaps seen p (relString p) =
    (Ok (headerOf n t (canonicalTarName (relString p) (IsDir n)) (linked_to seen) uid gid, entryData t (linked_to seen)), seen_after seen) ∧
  hostIDs uidMaps gidMaps rootUID rootGID (headerOf n t (relString p) (linked_to seen) uid gid) =
    Ok (headerOf n t (relString p) (linked_to seen) (n_uid n) (n_gid n)).
Proof using Hnew Hp Hv Hu Hg Hino.
  destruct file_type as [t Ht]. pose proof file_path_ok as Hok.
  set (name := canonicalTarName (relString p) (IsDir n)).
  destruct (headerIDs_run name t (linked_to seen) (canonical_base p (IsDir n) Hp Hok)) as (uid&gid&Hids&Hhost).
  unfold name in Hhost. rewrite canonical_clean in Hhost by done. exists t, uid, gid. split_and!; [done| |done].
  assert (Hpl : plain new p) by (apply exists_plain; [apply Hnew|by rewrite Hv]).
  unfold addTarFile. rewrite (namei_plain _ new false p) by done. rewrite Hino, Hv.
  assert (FileInfoHeader n (if IsLink n then n_data n else ""%string) = Ok (infoHeader n t)) as ->.
  { unfold FileInfoHeader. rewrite Ht. unfold infoHeader. destruct (typeOf_cases n t Ht) as (_&_&H3&_).
    destruct t; try done. by rewrite (proj1 H3). }
  cbv zeta. fold name. fold (linked_to seen). rewrite Hids. fold (headerOf n t name (linked_to seen) uid gid).
  f_equal; [|unfold seen_after, linked_to; by destruct (negb (IsDir n) && _)]. f_equal. f_equal. unfold entryData. destruct (linked_to seen) as [o|]; [done|]. rewrite headerOf_type. unfold contents.
  destruct (decide (t = TypeReg)) as [->|Hne]; [|rewrite bool_decide_eq_false_2 by done; by destruct t].
  rewrite bool_decide_eq_true_2 by done. cbn [andb]. case_bool_decide as Hsz; [done|]. symmetry. apply empty_file; [by apply (la_storable new Hnew p)|done|].
  intros Hpos. apply Hsz. cbn. destruct (special_same n (infoHeader n TypeReg)) as (_&_&E&_). by rewrite E.
Qed.
End file.

(** ** One entry *)

Section entry.
  Context (clock : nat → Z * Z) (uidMaps gidMaps : idMaps) (rootUID rootGID : Z).
  Context (new old : unixFS) (Hnew : layer_ok new) (Hold : base_ok old).

Abbreviation unpack := (unpackEntry clock [] [] uidMaps gidMaps rootUID rootGID).

Lemma ensureParent_run s p : p ≠ [] → path_ok p → sound s → is_Some (view s (parent p)) →
  ensureParent clock [] (relString p) s = Ret (Ok ()) s.
Proof.
  intros Hp Hok Hs Hv. unfold ensureParent. rewrite endsInSlash_rel, joinAbs_Dir by done.
  unfold mbind, M_bind. rewrite Lstat_run by (apply exists_plain; [apply Hs|done]). by destruct Hv as [d ->].
Qed.

(** A path of names does not lead out of the root. *)
Lemma no_breakout (p : path) : path_ok p → outside (relElems [] p) = false.
Proof.
  intros H. change (relElems [] p) with p. destruct H as [|x p (_&_&Hx&_) _]; [done|]. destruct p; [done|]. by apply bool_decide_eq_false_2.
Qed.

(** The steps before the entry is applied. *)
Lemma unpack_run e u s p : p ≠ [] → path_ok p → filepath.Clean (h_Name e.1) = relString p → sound s → is_Some (view s (parent p)) →
  HasPrefix (relString p) WhiteoutMetaPrefix = false →
  unpack e u s =
    (let u := mkUnpack (wrap64 (u_size u + h_Size e.1)) (u_dirs u) (u_unpacked u) (u_plnk u) in
     let base := default "/"%string (list.last p) in
     if HasPrefix base WhiteoutPrefix then _ ←? applyWhiteout clock p base u; ok u
     else applyFile clock [] [] uidMaps gidMaps rootUID rootGID p (clean_name e.1) e.2 u) s.
Proof.
  intros Hp Hok Hname Hs Hv Hmeta. unfold unpackEntry. cbv zeta. change (h_Name (clean_name e.1)) with (filepath.Clean (h_Name e.1)).
  rewrite Hname. unfold try_bind at 1, mbind at 1, M_bind at 1. rewrite ensureParent_run by done. rewrite Hmeta.
  unfold applyEntry. change (h_Name (clean_name e.1)) with (filepath.Clean (h_Name e.1)). rewrite Hname. cbv zeta.
  rewrite (joinAbs_rel p Hp Hok []), no_breakout by done. done.
Qed.

(** The names of a path of the new layer. *)
Lemma new_first_no_white x p : is_Some (view new (x :: p)) → no_white x.
Proof using Hnew. intros H. eapply la_white; [done|exact H|left]. Qed.

Section whiteout.
  Context (D : list path) (s : unixFS) (p : path) (timestamp : Z) (u : unpackState).
  Context (Ha : applied new old D s) (Hn : next new old D p ChangeDelete).

Definition whiteoutEntry : entry := (mkHeader (relString (whiteOut p)) TypeRegA 0 0 0 0 timestamp "" 0 0 None, ""%string).

Lemma delete_parent_exists r x : p = r ++ [x] → is_Some (view s r) ∧ (r ≠ [] → is_Some (view new r)).
Proof using Ha Hn.
  intros E. destruct (delete_facts new old D p Hn) as (_&_&_&Hh). rewrite E, parent_snoc in Hh. unfold holds_dir in Hh.
  destruct (decide (r = [])) as [->|Hr].
  - split; [|done]. pose proof (ok_root s (so_ok s (proj1 Ha))) as (d&->&_)%is_dir_Some. by eexists.
  - rewrite bool_decide_eq_false_2 in Hh by done. cbn in Hh. destruct (view new r) as [d|] eqn:Hd; [|done]. split; [|by eexists].
    assert (Hin : r ∈ D) by (eapply (ne_above _ _ _ _ _ Hn r [x]); done).
    apply (osim_is_Some _ _ (applied_new new old D s Ha r Hin Hr)). by rewrite Hd.
Qed.

Lemma unpack_whiteout : ∃ u' s', unpack whiteoutEntry u s = Ret (Ok u') s' ∧ applied new old (D ++ [p]) s' ∧ u_dirs u' = u_dirs u.
Proof using Ha Hn Hnew Hold.
  destruct (delete_facts new old D p Hn) as (Hp&_&Hop&_). destruct (delete_step new old Hnew Hold clock D s p Ha Hn) as (s'&Hrm&Ha').
  assert (Hok : path_ok p) by (eapply view_path_ok; [apply Hold|done]).
  destruct (exists_last Hp) as (r&x&E). destruct (delete_parent_exists r x E) as [Hpar Hnpar].
  assert (Hx : no_white x) by (apply (ba_white old Hold p x Hop); rewrite E; apply elem_of_app; right; left).
  assert (Hw : whiteOut p = r ++ [WhiteoutPrefix +:+ x]) by (unfold whiteOut; by rewrite E, parent_snoc, last_snoc).
  pose proof Hok as Hok'. unfold path_ok in Hok'. rewrite E, list.Forall_app in Hok'. destruct Hok' as [Hokr [Hokx _]%list.Forall_cons].
  assert (Hokw : path_ok (whiteOut p)).
  { unfold path_ok. rewrite Hw. apply list.Forall_app. split; [done|]. constructor; [by apply white_name_ok|constructor]. }
  assert (Hmeta : HasPrefix (relString (whiteOut p)) WhiteoutMetaPrefix = false).
  { rewrite Hw. destruct r as [|y r]; [by apply not_meta_white|]. apply not_meta. eapply new_first_no_white. by apply Hnpar. }
  rewrite (unpack_run whiteoutEntry u s (whiteOut p)); [|by rewrite Hw; destruct r|done|apply Clean_rel; [by rewrite Hw; destruct r|done]|apply Ha|by rewrite Hw, parent_snoc|done].
  cbv zeta. rewrite Hw, last_snoc. change (default "/"%string (Some (WhiteoutPrefix +:+ x))) with (WhiteoutPrefix +:+ x). rewrite HasPrefix_app. unfold applyWhiteout. rewrite decide_False by by apply white_not_opaque.
  rewrite parent_snoc, white_base. rewrite (joinAbs_rel [x]); [|done|by constructor]. rewrite <-E.
  unfold try_bind, mbind, M_bind, sys. unfold mbind, M_bind. rewrite Hrm. by eexists _, s'.
Qed.
End whiteout.

(** The names in the archive that files may link to have been extracted. *)
Definition seen_ok (D : list path) (seen : gmap nat string) : Prop :=
  ∀ i name, seen !! i = Some name → ∃ tp m, name = relString tp ∧ tp ≠ [] ∧ tp ∈ D ∧ u_names new !! tp = Some i ∧
    view new tp = Some m ∧ IsDir m = false.

Section newfile.
  Context (D : list path) (s : unixFS) (p : path) (k : ChangeType) (u : unpackState) (seen : gmap nat string) (n : inode) (ino : nat) (t : typeflag) (uid gid : Z).
  Context (Ha : applied new old D s) (Hn : next new old D p k) (Hp : p ≠ []) (Hv : view new p = Some n) (Hino : u_names new !! p = Some ino).
  Context (Hseen : seen_ok D seen) (Ht : typeOf n = Some t).
Let name := canonicalTarName (relString p) (IsDir n).
Let old_name := linked_to new p n ino seen.
Let e : entry := (headerOf n t name old_name uid gid, entryData n t old_name).
  Context (Hhost : hostIDs uidMaps gidMaps rootUID rootGID (headerOf n t (relString p) old_name uid gid) =
                   Ok (headerOf n t (relString p) old_name (n_uid n) (n_gid n))).

(** A link is to a name of the same file. *)
Lemma old_name_spec : match old_name with
  | Some o => IsDir n = false ∧ ∃ tp, o = relString tp ∧ tp ≠ [] ∧ tp ∈ D ∧ view new tp = Some n
  | None => True
  end.
Proof using All.
  unfold old_name, linked_to. destruct (IsDir n) eqn:HD; [done|]. cbn. destruct (bool_decide _); [|done].
  destruct (seen !! ino) as [o|] eqn:E; [|done]. split; [done|]. destruct (Hseen _ _ E) as (tp&m&->&Htp&Hin&Hti&Htv&_). exists tp.
  split_and!; try done. unfold view in Hv |- *. rewrite Hti. by rewrite Hino in Hv.
Qed.
Lemma entry_clean : clean_name e.1 = headerOf n t (relString p) old_name uid gid.
Proof using All.
  change (clean_name e.1) with (headerOf n t (filepath.Clean name) old_name uid gid). unfold name.
  rewrite canonical_clean; [done|done|]. eapply view_path_ok; [apply Hnew|by rewrite Hv].
Qed.
Lemma entry_dir : IsDir n = true ↔ h_Typeflag (headerOf n t (relString p) old_name uid gid) = TypeDir.
Proof using All.
  pose proof old_name_spec as Ho. destruct old_name as [o|]; [destruct Ho as [-> _]; split; [done|]; cbn; done|].
  rewrite headerOf_type. destruct (typeOf_cases n t Ht) as (_&_&_&H). by rewrite H.
Qed.
Lemma entry_source data u' : source (headerOf n t (relString p) old_name uid gid) data u' = Ok ((headerOf n t (relString p) old_name uid gid, data), None).
Proof using All.
  unfold source. pose proof old_name_spec as Ho. destruct old_name as [o|].
  - destruct Ho as [_ (tp&->&Htp&_&Htv)]. change (h_Linkname (headerOf n t (relString p) (Some (relString tp)) uid gid)) with (relString tp).
    rewrite Clean_rel; [|done|eapply view_path_ok; [apply Hnew|by rewrite Htv]]. destruct tp as [|x tp]; [done|].
    assert (HasPrefix (relString (x :: tp)) WhiteoutLinkDir = false) as ->; [|by rewrite andb_false_r].
    apply not_true_is_false. intros H. apply (HasPrefix_trans WhiteoutMetaPrefix "plnk") in H.
    rewrite not_meta in H; [done|]. eapply new_first_no_white. by rewrite Htv.
  - rewrite headerOf_type. destruct (typeOf_cases n t Ht) as (H&_&_&_). by rewrite bool_decide_eq_false_2.
Qed.

Lemma unpack_file : ∃ u' s', unpack e u s = Ret (Ok u') s' ∧ applied new old (D ++ [p]) s' ∧
  u_dirs u' = u_dirs u ++ (if IsDir n then [headerOf n t (relString p) old_name uid gid] else []).
Proof using All.
  assert (Hok : path_ok p) by (eapply view_path_ok; [apply Hnew|by rewrite Hv]). pose proof (file_plain new old Hnew D s p k n Ha Hn Hv) as Hpl.
  destruct (file_last new Hnew p n Hp Hv) as (x&Hx&Hwx).
  rewrite (unpack_run e u s p); [|done|done|by apply canonical_clean|apply Ha| |].
  2: { pose proof (plain_parent s p Hpl Hp) as (d&->&_)%is_dir_Some. by eexists. }
  2: { destruct p as [|y q]; [done|]. apply not_meta. eapply new_first_no_white. by rewrite Hv. }
  cbv zeta. rewrite Hx, entry_clean. change (default "/"%string (Some x)) with x. unfold no_white in Hwx. rewrite Hwx.
  destruct (replaceOld_step new old Hnew Hold clock D s p k n Ha Hn Hp Hv _ entry_dir) as (s1&Hrep&Hc). pose proof entry_dir as Hed.
  unfold applyFile. unfold try_bind at 1, mbind at 1, M_bind at 1. rewrite Hrep, entry_source. cbn [fst snd]. rewrite Hhost.
  assert (Hcreate : ∃ s', createTarFile clock [] p [] (headerOf n t (relString p) old_name (n_uid n) (n_gid n)) (entryData n t old_name) s1 =
                      Ret (Ok ()) s' ∧ applied new old (D ++ [p]) s').
  { pose proof old_name_spec as Ho. destruct old_name as [o|].
    - destruct Ho as [HD (tp&->&Htp&Hin&Htv)]. eapply link_step; done.
    - eapply create_step; done. }
  destruct Hcreate as (s'&Hcr&Ha'). unfold try_bind, mbind, M_bind. change (e.2) with (entryData n t old_name). rewrite Hcr.
  eexists _, s'. split; [done|]. split; [done|]. cbn [u_dirs]. destruct (IsDir n) eqn:HD.
  - rewrite decide_True; [done|]. by apply Hed.
  - rewrite decide_False; [by rewrite app_nil_r|]. intros H. by apply Hed in H.
Qed.
End newfile.
End entry.

(** ** The times of directories *)

Section times.
  Context (τ : path → Z).

(** The time of the file at a path, and a header that sets the one of a directory. *)
Definition has_time (s : unixFS) (d : path) : Prop := ∃ m, view s d = Some m ∧ (n_mtim m).1 = τ d.
Definition dir_header (s : unixFS) (h : Header) : Prop :=
  ∃ d, d ≠ [] ∧ path_ok d ∧ h_Name h = relString d ∧ h_ModTime h = τ d ∧ is_dir (view s d) = true ∧ (0 ≤ τ d ≤ maxTime.1)%Z.

Lemma setDirTimes_run l : ∀ s (done : list path), sound s → (∀ d, d ∈ done → has_time s d) → (∀ h, h ∈ l → dir_header s h) →
  ∃ s', setDirTimes [] l s = Ret (Ok ()) s' ∧ (∀ q, osim (view s' q) (view s q)) ∧ (∀ d, d ∈ done → has_time s' d) ∧
    ∀ h d, h ∈ l → d ≠ [] → path_ok d → h_Name h = relString d → has_time s' d.
Proof.
  induction l as [|h l IH]; intros s done Hs Hdone Hl.
  { exists s. split_and!; [done|done|done|]. intros h d Hh. by apply not_elem_of_nil in Hh. }
  destruct (Hl h) as (d&Hd0&Hdok&Hname&Htime&Hdir&Hrange); [left|]. apply is_dir_Some in Hdir as (n&Hv&HD).
  pose proof Hv as (i&Hi&Hin)%view_Some. set (f := set_mtim (clampTime (h_ModTime h, 0%Z))).
  assert (Hclamp : clampTime (h_ModTime h, 0%Z) = (τ d, 0%Z)) by (rewrite Htime; unfold clampTime; rewrite decide_False; [done|]; cbn in *; lia).
  assert (Hsim : ∀ q, osim (view (upd f i s) q) (view s q)).
  { intros q. rewrite upd_view. case_decide as E; [|done]. assert (view s q = Some n) as -> by (unfold view in *; by rewrite E, <-Hi).
    constructor. by apply sim_touched. }
  destruct (IH (upd f i s) (d :: done)) as (s'&Hrun&Hsim'&Hd'&Hl').
  - by apply upd_sound; [apply set_mtim_keeps|].
  - assert (Hself : has_time (upd f i s) d).
    { exists (f n). rewrite upd_view, decide_True, Hv by done. split; [done|]. cbn. by rewrite Hclamp. }
    intros d' [->|Hd']%elem_of_cons; [done|]. destruct (decide (u_names s !! d' = Some i)) as [E|E].
    + assert (d' = d) as -> by by eapply so_dir. done.
    + destruct (Hdone d' Hd') as (m&Hm&Ht). exists m. by rewrite upd_view, decide_False.
  - intros h' Hh'. destruct (Hl h') as (d'&?&?&?&?&?&?); [by right|]. exists d'. split_and!; try (done || lia). by rewrite (osim_is_dir _ _ (Hsim d')).
  - exists s'. split_and!.
    + cbn [setDirTimes]. rewrite Hname, (joinAbs_rel d Hd0 Hdok []). unfold try_bind, sys, Chtimes, mbind, M_bind.
      rewrite (setattr_run true d _ s i); [exact Hrun|apply exists_plain; [apply Hs|by rewrite Hv]|done|].
      intros _ m. rewrite Hv. intros [= <-]. by apply dir_no_link.
    + intros q. etrans; [apply Hsim'|apply Hsim].
    + intros d' Hd''. apply Hd'. by right.
    + intros h' d' [->|Hh']%elem_of_cons Hd0' Hdok' Hn'; [|by eapply Hl']. apply Hd'.
      assert (d' = d) as ->; [|left]. rewrite Hname in Hn'. by rewrite <-(split_join d'), <-(split_join d), Hn'.
Qed.
End times.

(** ** The whole archive *)

Section layer.
  Context (clock : nat → Z * Z) (uidMaps gidMaps : idMaps) (rootUID rootGID timestamp : Z).
  Context (new old : unixFS) (Hnew : layer_ok new) (Hold : base_ok old) (Hsame : same_files old new).
  Context (Hids : ∀ p n, p ≠ [] → view new p = Some n → id_comes_back uidMaps rootUID (n_uid n) ∧ id_comes_back gidMaps rootGID (n_gid n)).

(** The time of a file of the new layer. *)
Definition new_time (d : path) : Z := match view new d with Some n => (n_mtim n).1 | None => 0 end.

(** The directories of the layer so far, in the list whose times are set at the end. *)
Definition dirs_ok (D : list path) (dirs : list Header) : Prop :=
  (∀ h, h ∈ dirs → ∃ d, d ∈ D ∧ d ≠ [] ∧ h_Name h = relString d ∧ h_ModTime h = new_time d ∧ is_dir (view new d) = true) ∧
  (∀ d, d ∈ D → d ≠ [] → is_dir (view new d) = true → ∃ h, h ∈ dirs ∧ h_Name h = relString d).

Lemma dirs_ok_file D dirs p n h : dirs_ok D dirs → p ≠ [] → view new p = Some n → h_Name h = relString p → h_ModTime h = (n_mtim n).1 →
  dirs_ok (D ++ [p]) (dirs ++ (if IsDir n then [h] else [])).
Proof.
  intros [H1 H2] Hp Hv Hname Htime. split.
  - intros h' [Hh|Hh]%elem_of_app.
    + destruct (H1 h' Hh) as (d&?&?&?&?&?). exists d. split_and!; try done. apply elem_of_app. by left.
    + destruct (IsDir n) eqn:HD; [|by apply not_elem_of_nil in Hh]. apply list_elem_of_singleton in Hh as ->. exists p. unfold new_time.
      rewrite Hv. split_and!; try done. apply elem_of_app. right. left.
  - intros d [Hd| ->%list_elem_of_singleton]%elem_of_app Hd0 Hdir.
    + destruct (H2 d Hd Hd0 Hdir) as (h'&?&?). exists h'. split; [apply elem_of_app; by left|done].
    + exists h. split; [|done]. apply elem_of_app. right. rewrite Hv in Hdir. cbn in Hdir. rewrite Hdir. left.
Qed.
Lemma dirs_ok_none D dirs p : dirs_ok D dirs → view new p = None → dirs_ok (D ++ [p]) dirs.
Proof.
  intros [H1 H2] Hv. split.
  - intros h Hh. destruct (H1 h Hh) as (d&?&?&?&?&?). exists d. split_and!; try done. apply elem_of_app. by left.
  - intros d [Hd| ->%list_elem_of_singleton]%elem_of_app Hd0 Hdir; [by apply H2|by rewrite Hv in Hdir].
Qed.

Lemma seen_ok_mono D p seen : seen_ok new D seen → seen_ok new (D ++ [p]) seen.
Proof.
  intros H i name E. destruct (H i name E) as (tp&m&?&?&?&?&?&?). exists tp, m. split_and!; try done. apply elem_of_app. by left.
Qed.
Lemma seen_after_ok D p n ino seen : seen_ok new D seen → p ≠ [] → u_names new !! p = Some ino → view new p = Some n →
  seen_ok new (D ++ [p]) (seen_after new p n ino seen).
Proof.
  intros H Hp Hino Hv. apply (seen_ok_mono D p) in H. unfold seen_after. destruct (IsDir n) eqn:HD; [done|]. cbn.
  destruct (bool_decide _); [|done]. destruct (seen !! ino); [done|]. intros i name. rewrite lookup_insert_Some.
  intros [[<- <-]|[_ E]]; [|by apply H]. exists p, n. split_and!; try done. apply elem_of_app. right. left.
Qed.

Abbreviation entries := (exportFrom new uidMaps gidMaps timestamp).
Abbreviation unpackAll := (unpackEntries clock [] [] uidMaps gidMaps rootUID rootGID).

(** One change: its entry leads on. *)
Lemma change_run L1 c L2 s u seen : sortedChanges new old = L1 ++ c :: L2 → applied new old (c_Path <$> L1) s →
  seen_ok new (c_Path <$> L1) seen → dirs_ok (c_Path <$> L1) (u_dirs u) →
  ∃ e seen' u' s', exportChange new uidMaps gidMaps timestamp ([], seen) c = ([e], seen') ∧
    unpackEntry clock [] [] uidMaps gidMaps rootUID rootGID e u s = Ret (Ok u') s' ∧
    applied new old (c_Path <$> (L1 ++ [c])) s' ∧ seen_ok new (c_Path <$> (L1 ++ [c])) seen' ∧ dirs_ok (c_Path <$> (L1 ++ [c])) (u_dirs u').
Proof using Hnew Hold Hsame Hids.
  intros E Ha Hseen Hdirs. pose proof (next_sorted new old Hnew Hold Hsame L1 c L2 E) as Hn. rewrite fmap_app. cbn [fmap list_fmap].
  destruct c as [p k]. cbn [c_Path c_Kind] in *. destruct (ne_change _ _ _ _ _ Hn) as [Hp Hc]. unfold exportChange. cbn [c_Path c_Kind fst snd].
  destruct (view new p) as [n|] eqn:Hv.
  - assert (k ≠ ChangeDelete) as Hk by (by intros ->). pose proof Hv as (ino&Hino&_)%view_Some. destruct (Hids p n Hp Hv) as [Hu Hg].
    destruct (addTarFile_run new uidMaps gidMaps rootUID rootGID Hnew p n ino Hp Hino Hv Hu Hg seen) as (t&uid&gid&Ht&Hadd&Hhost).
    destruct (unpack_file clock uidMaps gidMaps rootUID rootGID new old Hnew Hold _ s p k u seen n ino t uid gid Ha Hn Hp Hv Hino Hseen Ht Hhost)
      as (u'&s'&Hrun&Ha'&Hdirs').
    eexists _, _, u', s'. split; [destruct k; [rewrite Hadd; done|rewrite Hadd; done|done]|]. split_and!; [exact Hrun|done|by apply seen_after_ok|].
    rewrite Hdirs'. apply dirs_ok_file; try done. cbn. by destruct (special_same n (infoHeader n t)) as (_&_&_&->).
  - assert (k = ChangeDelete) as -> by (destruct k, (view old p); done).
    destruct (unpack_whiteout clock uidMaps gidMaps rootUID rootGID new old Hnew Hold _ s p timestamp u Ha Hn) as (u'&s'&Hrun&Ha'&Hdirs').
    eexists _, seen, u', s'. split; [done|]. split_and!; [exact Hrun|done|by apply seen_ok_mono|]. rewrite Hdirs'. by apply dirs_ok_none.
Qed.

Lemma unpack_all L2 : ∀ L1 s u seen, sortedChanges new old = L1 ++ L2 → applied new old (c_Path <$> L1) s →
  seen_ok new (c_Path <$> L1) seen → dirs_ok (c_Path <$> L1) (u_dirs u) →
  ∃ u' s', unpackAll (entries seen L2) u s = Ret (Ok u') s' ∧
    applied new old (c_Path <$> sortedChanges new old) s' ∧ dirs_ok (c_Path <$> sortedChanges new old) (u_dirs u').
Proof using Hnew Hold Hsame Hids.
  induction L2 as [|c L2 IH]; intros L1 s u seen E Ha Hseen Hdirs.
  - rewrite app_nil_r in E. rewrite E. by exists u, s.
  - destruct (change_run L1 c L2 s u seen E Ha Hseen Hdirs) as (e&seen'&u1&s1&He&Hrun&Ha1&Hs1&Hd1).
    destruct (IH (L1 ++ [c]) s1 u1 seen') as (u'&s'&Hrun'&?&?); [by rewrite <-app_assoc|done..|]. exists u', s'. split; [|done].
    cbn [exportFrom]. rewrite He. cbn [fst snd app unpackEntries]. unfold try_bind, mbind, M_bind. by rewrite Hrun.
Qed.

Lemma applied_none : applied new old [] old.
Proof using Hold.
  split; [apply Hold|]. intros q _. unfold cur. rewrite decide_False by apply not_elem_of_nil.
  rewrite decide_False; [done|]. intros H. by inversion H.
Qed.

(** Everything, with the times of the directories at the end. *)
Lemma apply_run : GetRootUIDGID uidMaps gidMaps = Ok (rootUID, rootGID) →
  ∃ size s1 s', ApplyDiff clock uidMaps gidMaps (Diff new old uidMaps gidMaps timestamp) old = Ret (Ok size) s' ∧
    applied new old (c_Path <$> sortedChanges new old) s1 ∧ (∀ q, osim (view s' q) (view s1 q)) ∧
    ∀ d, d ∈ c_Path <$> sortedChanges new old → d ≠ [] → is_dir (view new d) = true → has_time new_time s' d.
Proof using Hnew Hold Hsame Hids.
  intros Hroot. destruct (unpack_all (sortedChanges new old) [] old (mkUnpack 0 [] ∅ ∅) ∅) as (u&s1&Hrun&Ha&Hd1&Hd2).
  - done.
  - apply applied_none.
  - intros i name. by rewrite lookup_empty.
  - split; [intros h Hh; by apply not_elem_of_nil in Hh|intros d Hd; by apply not_elem_of_nil in Hd].
  - assert (Hok : ∀ d, is_dir (view new d) = true → path_ok d).
    { intros d (n&Hv&_)%is_dir_Some. eapply view_path_ok; [apply Hnew|by rewrite Hv]. }
    destruct (setDirTimes_run new_time (u_dirs u) s1 []) as (s'&Htimes&Hsim&_&Hset).
    + apply Ha.
    + intros d Hd. by apply not_elem_of_nil in Hd.
    + intros h Hh. destruct (Hd1 h Hh) as (d&Hin&Hd0&Hname&Htime&Hdir). exists d.
      pose proof (applied_new new old _ s1 Ha d Hin Hd0) as Hs. 
      pose proof Hdir as (n&Hv&HD)%is_dir_Some. destruct (la_storable new Hnew d n Hd0 Hv) as (_&Ht&_).
      assert (Hnt : new_time d = (n_mtim n).1) by (unfold new_time; by rewrite Hv).
      split_and!; [done|by apply Hok|done|done|by rewrite (osim_is_dir _ _ Hs)|lia..].
    + exists (u_size u), s1, s'. split_and!; [|done|done|].
      * unfold ApplyDiff, UnpackLayer, Diff, ExportChanges. rewrite Hroot, export_foldl. cbn [app]. fold (sortedChanges new old).
        unfold try_bind, mbind, M_bind. rewrite Hrun. by rewrite Htimes.
      * intros d Hin Hd0 Hdir. destruct (Hd2 d Hin Hd0 Hdir) as (h&Hh&Hname). eapply Hset; [done|done|by apply Hok|done].
Qed.
End layer.

(** C6.  A layer is what its archive says: when the archive of the changes between a
    file system and its parent is applied to a copy of the parent, in a process
    whose root directory that is, the extraction succeeds and the result has the
    files of the file system: the same names, and under each of them a file with the
    same type, permissions, owner, device, capability and contents, and the same
    time and size where they are compared; directories that the layer changes get
    their times as well.  This holds of layers whose files an archive can hold and
    whose names do not look like whiteouts, when no contents have changed behind
    the size and the time of a file and when the ranges of IDs bring owners back. *)
Theorem layer_round_trip clock uidMaps gidMaps rootUID rootGID timestamp new old :
  layer_ok new → base_ok old → same_files old new →
  (∀ p o n, view old p = Some o → view new p = Some n → file_changed o n = false → IsDir n = false → n_data o = n_data n) →
  GetRootUIDGID uidMaps gidMaps = Ok (rootUID, rootGID) →
  (∀ p n, p ≠ [] → view new p = Some n → id_comes_back uidMaps rootUID (n_uid n) ∧ id_comes_back gidMaps rootGID (n_gid n)) →
  ∃ size s', ApplyDiff clock uidMaps gidMaps (Diff new old uidMaps gidMaps timestamp) old = Ret (Ok size) s' ∧
    (∀ p, p ≠ [] → option_Forall2 agrees (view s' p) (view new p)) ∧
    (∀ p k n, mkChange p k ∈ ChangesDirs new old → view new p = Some n → IsDir n = true →
       ∃ m, view s' p = Some m ∧ (n_mtim m).1 = (n_mtim n).1).
Proof.
  intros Hnew Hold Hsame Hdata Hroot Hids.
  destruct (apply_run clock uidMaps gidMaps rootUID rootGID timestamp new old Hnew Hold Hsame Hids Hroot) as (size&s1&s'&Hrun&Ha&Hsim&Htime).
  exists size, s'. split_and!; [done| |].
  - intros p Hp. pose proof (applied_all new old Hnew Hold Hsame Hdata s1 p Ha Hp) as H. pose proof (Hsim p) as Hs.
    inversion H as [b c Hbc Eb Ec|Eb Ec]; rewrite <-Eb in Hs; inversion Hs; subst; constructor. by eapply sim_agrees_trans.
  - intros p k n Hin Hv HD. assert (Hp : p ≠ []) by (apply ChangesDirs_spec in Hin as [? _]; [done|apply Hnew|apply Hold|done]).
    destruct (Htime p) as (m&Hm&Ht); [|done|by rewrite Hv|].
    + apply list_elem_of_fmap. exists (mkChange p k). split; [done|]. unfold sortedChanges. by rewrite merge_sort_Permutation.
    + exists m. split; [done|]. rewrite Ht. unfold new_time. by rewrite Hv.
Qed.

(** ** A layer *)

Module ConcreteLayer.
Import ConcreteTrees.

(** The IDs of the container are those of the host from 100000 on. *)
Definition maps : idMaps := Some [mkIDMap 0 100000 65536].
Definition clock (tick : nat) : Z * Z := (2000 + Z.of_nat tick, 5)%Z.

Definition id_comes_backb (maps : idMaps) (root id : Z) : bool :=
  match ToContainer id maps with
  | Ok c => match (if decide (c ≠ root) then ToHost c maps else Ok c) with Ok id' => bool_decide (id' = id) | Err _ => false end
  | Err _ => false
  end.
Lemma id_comes_backb_ok m root id : id_comes_backb m root id = true → id_comes_back m root id.
Proof.
  unfold id_comes_backb, id_comes_back. destruct (ToContainer id m) as [c|]; [|done]. intros H. exists c. split; [done|].
  destruct (if decide (c ≠ root) then _ else _) as [id'|]; [|done]. by apply bool_decide_eq_true in H as ->.
Qed.

Lemma new_ids p n : p ≠ [] → view new p = Some n → id_comes_back maps 100000 (n_uid n) ∧ id_comes_back maps 100000 (n_gid n).
Proof.
  assert (H : all_files new (λ _ n, id_comes_backb maps 100000 (n_uid n) && id_comes_backb maps 100000 (n_gid n)) = true) by by_vm.
  intros _ Hv. apply (all_files_ok _ _ _ _ H), andb_true_iff in Hv as [? ?]. split; by apply id_comes_backb_ok.
Qed.
Lemma same_data p o n : view old p = Some o → view new p = Some n → file_changed o n = false → IsDir n = false → n_data o = n_data n.
Proof.
  assert (H : all_files old (λ p o, match view new p with Some n => file_changed o n || bool_decide (n_data o = n_data n) | None => true end) = true) by by_vm.
  intros Ho Hn Hc _. apply (all_files_ok _ _ _ _ H) in Ho. rewrite Hn, Hc in Ho. by apply bool_decide_eq_true in Ho.
Qed.

Lemma layer_round_trip_witness :
  layer_okb new = true ∧ base_okb old = true ∧ same_filesb old new = true ∧
  ∃ size s', ApplyDiff clock maps maps (Diff new old maps maps 99) old = Ret (Ok size) s' ∧
    (∀ p, p ≠ [] → option_Forall2 agrees (view s' p) (view new p)) ∧
    (∀ p k n, mkChange p k ∈ ChangesDirs new old → view new p = Some n → IsDir n = true →
       ∃ m, view s' p = Some m ∧ (n_mtim m).1 = (n_mtim n).1).
Proof.
  refine (conj _ (conj _ (conj _ (layer_round_trip clock maps maps 100000 100000 99 new old
    (layer_okb_ok _ _) (base_okb_ok _ _) (same_filesb_ok _ _ _) same_data _ new_ids)))); by_vm.
Defined.
End ConcreteLayer.
