(* ===== verification/ArchiveLimits.v ===== *)
(** Where the extraction of layers goes further than it means to
    (pkg/archive/diff.go), and what an archive does not keep. *)

From Stdlib Require Import Ascii.
From S2P Require Import Prelude GoStrings GoPath UnixFS IDTools Archive ArchiveWalk ArchiveRoundTrip.

Local Open Scope string_scope.
Local Open Scope list_scope.

Import ConcreteTrees ConcreteLayer.

(** The error of an extraction, and which of some paths are there after it. *)
Definition after {A} (m : M unixFS (result aerror A)) (s : unixFS) (paths : list path) : option (option aerror * list path) :=
  match m s with
  | Ret r s' => Some (match r with Ok _ => None | Err e => Some e end, filter (λ p, is_Some (u_names s' !! p)) paths)
  | _ => None
  end.

Definition entry_of (name : string) (t : typeflag) (link : string) : entry := (mkHeader name t 0x1A4 5 5 0 7 link 0 0 None, "").

(** A destination, [/v/d], in a file system with other files. *)
Definition host : unixFS :=
  tree [([], 0); (["v"], 1); (["v"; "d"], 2); (["v"; "other"], 3)] [(0, dir); (1, dir); (2, dir); (3, reg "other" 10)].

(** The whiteout of the name [..] removes the directory above the destination: the
    path of an entry is tested, the path that a whiteout removes is not. *)
Example whiteout_leads_out :
  after (UnpackLayer clock [] ["v"; "d"] None None [entry_of ".wh..." TypeReg ""]) host [["v"]; ["v"; "d"]; ["v"; "other"]] = Some (None, []).
Proof. by_vm. Qed.

(** The directory of an entry is made before its path is tested. *)
Example parent_leads_out :
  after (UnpackLayer clock [] ["v"; "d"] None None [entry_of "../../x/y" TypeReg ""]) host [["x"]; ["x"; "y"]] =
  Some (Some (Breakout "outside"), [["x"]]).
Proof. by_vm. Qed.

(** The owner of a file that AUFS keeps for hard links is translated again for each
    link, so that a second link fails when IDs are mapped. *)
Example second_aufs_link :
  after (UnpackLayer clock [] [] maps maps
    [entry_of ".wh..wh.plnk/1.2" TypeReg ""; entry_of "a" TypeLink ".wh..wh.plnk/1.2"; entry_of "b" TypeLink ".wh..wh.plnk/1.2"])
    (tree [([], 0)] [(0, dir)]) [["a"]; ["b"]] =
  Some (Some (Msg "Container ID cannot be mapped to a host ID"), [["a"]]).
Proof. by_vm. Qed.

(** A file of the ID of the container that is the ID of its root on the host belongs
    to the root of the container then. *)
Example root_id_not_mapped :
  ToHost 100000 (Some [mkIDMap 0 100000 200000]) = Ok 200000%Z ∧
  hostIDs (Some [mkIDMap 0 100000 200000]) None 100000 0 (mkHeader "f" TypeReg 0 100000 0 0 0 "" 0 0 None) =
    Ok (mkHeader "f" TypeReg 0 100000 0 0 0 "" 0 0 None).
Proof. split; by_vm. Qed.

(** A socket becomes a regular file. *)
Example socket_is_a_file :
  typeOf (mkInode 0xC1ED 0 0 0 0 (0, 0)%Z None "") = Some TypeRegA.
Proof. by_vm. Qed.

(** The size and the time of a block device are not compared. *)
Example device_time_ignored :
  file_changed (mkInode 0x61B0 0 0 7 0 (1, 0)%Z None "") (mkInode 0x61B0 0 0 7 0 (2, 0)%Z None "") = false.
Proof. by_vm. Qed.
