(* ===== verification/ArchiveSize.v ===== *)
(** The size of a layer (pkg/archive/changes.go, daemon/graphdriver/fsdiff.go): the
    sizes of the files that it has changed, every file once, however many of its
    names have changed. *)

From Stdlib Require Import Ascii.
From S2P Require Import Prelude GoStrings GoPath UnixFS Archive ArchiveChanges ArchiveWalk ArchivePaths ArchiveCalls ArchiveSteps.

Local Open Scope list_scope.
Local Open Scope Z_scope.

Section size.
  Context (new : unixFS).

(** The inode of a file that counts: it is there and no directory. *)
Definition counted (c : Change) : option nat :=
  match c_Kind c with
  | ChangeDelete => None
  | _ => match view new (c_Path c) with Some n => if IsDir n then None else u_names new !! c_Path c | None => None end
  end.
Definition size_of (i : nat) : Z := match u_inodes new !! i with Some n => n_size n | None => 0 end.

(** The inodes of a list of changes, and the sum of their sizes. *)
Definition inodes_of (l : list Change) : gset nat := list_to_set (omap counted l).
Definition sum_sizes (s : gset nat) : Z := foldr (λ i n, size_of i + n) 0 (elements s).

Lemma sum_perm l k : l ≡ₚ k → foldr (λ i n, size_of i + n) 0 l = foldr (λ i n, size_of i + n) 0 k.
Proof. induction 1; cbn; lia. Qed.
Lemma sum_sizes_new i s : i ∉ s → sum_sizes ({[i]} ∪ s) = size_of i + sum_sizes s.
Proof. intros H. unfold sum_sizes. by rewrite (sum_perm _ (i :: elements s)) by by apply elements_union_singleton. Qed.

(** The number of names of an inode. *)
Definition links (i : nat) : nat := count (λ kv : path * nat, kv.2 = i) (u_names new).
Lemma nlink_links p i : u_names new !! p = Some i → nlink new p = links i.
Proof. intros E. unfold nlink. by rewrite E. Qed.
Lemma two_names p q i : u_names new !! p = Some i → u_names new !! q = Some i → p ≠ q → (1 < links i)%nat.
Proof.
  intros Hp Hq Hne. unfold links. rewrite (count_delete _ _ p i Hp), decide_True by done.
  rewrite (count_delete _ _ q i), decide_True by (done || by rewrite lookup_delete_ne). lia.
Qed.

(** The changes of files that are there. *)
Definition there (l : list Change) : Prop := ∀ c, c ∈ l → c_Kind c ≠ ChangeDelete → is_Some (view new (c_Path c)).

Lemma counted_Some c i : counted c = Some i → u_names new !! c_Path c = Some i.
Proof. unfold counted. intros H. by repeat (case_match; try done). Qed.
Lemma inodes_snoc l c : inodes_of (l ++ [c]) = match counted c with Some i => {[i]} ∪ inodes_of l | None => inodes_of l end.
Proof.
  unfold inodes_of. rewrite omap_app. apply set_eq. intros i. rewrite list_to_set_app. cbn. destruct (counted c); set_solver.
Qed.
Lemma elem_inodes l i : i ∈ inodes_of l → ∃ c, c ∈ l ∧ counted c = Some i.
Proof. unfold inodes_of. rewrite elem_of_list_to_set, list_elem_of_omap. naive_solver. Qed.

Context (Hnew : sound new).

Lemma changeSize_eq st c : (c_Kind c ≠ ChangeDelete → is_Some (view new (c_Path c))) →
  changeSize new st c =
  match counted c with
  | Some i => if decide (1 < links i)%nat then if decide (i ∈ st.2) then st else (wrap64 (st.1 + size_of i), {[i]} ∪ st.2)
              else (wrap64 (st.1 + size_of i), st.2)
  | None => st
  end.
Proof using Hnew.
  intros H. unfold changeSize, counted. destruct (c_Kind c) eqn:Ek; [| |done]; (destruct H as [n Hn]; [done|]);
    (rewrite (namei_plain _ new false (c_Path c)); [|apply exists_plain; [apply Hnew|by rewrite Hn]|done]);
    rewrite Hn; pose proof Hn as (i&Hi&Hin)%view_Some; rewrite Hi; (destruct (IsDir n); [done|]);
    rewrite (nlink_links _ _ Hi); unfold size_of; by rewrite Hin.
Qed.

Lemma ChangesSize_run l : NoDup (c_Path <$> l) → there l →
  let st := foldl (changeSize new) (0, ∅) l in
  st.1 = wrap64 (sum_sizes (inodes_of l)) ∧ ∀ i, i ∈ st.2 ↔ i ∈ inodes_of l ∧ (1 < links i)%nat.
Proof using Hnew.
  induction l as [|c l IH] using rev_ind; intros Hnd Ht.
  { cbn. split; [done|]. intros i. unfold inodes_of. cbn. set_solver. }
  rewrite fmap_app in Hnd. apply list.NoDup_app in Hnd as (Hnd&Hc&_).
  destruct IH as [IH1 IH2]; [done|intros d Hd; apply Ht, elem_of_app; by left|]. cbv zeta. rewrite foldl_snoc, inodes_snoc.
  rewrite changeSize_eq by (apply Ht, elem_of_app; right; left). set (st := foldl _ _ l) in *.
  destruct (counted c) as [i|] eqn:Ei; [|done]. apply counted_Some in Ei as Hi. destruct (decide (1 < links i)%nat) as [Hm|Hm].
  - destruct (decide (i ∈ st.2)) as [Hin|Hin].
    + apply IH2 in Hin as [Hin _]. replace ({[i]} ∪ inodes_of l) with (inodes_of l) by set_solver. done.
    + assert (Hni : i ∉ inodes_of l) by (intros ?; apply Hin, IH2; done). cbn. rewrite sum_sizes_new, IH1 by done. split.
      * by rewrite wrap64_add, Z.add_comm.
      * intros j. rewrite !elem_of_union, elem_of_singleton, IH2. split; [intros [->|[? ?]]; auto|intros [[->|?] ?]; auto].
  - assert (Hni : i ∉ inodes_of l).
    { intros (d&Hd&Hj)%elem_inodes. apply counted_Some in Hj. apply Hm. eapply (two_names (c_Path c) (c_Path d)); [done|done|]. intros E.
      apply (Hc (c_Path d)); [apply list_elem_of_fmap; by exists d|]. rewrite <-E. left. }
    cbn. rewrite sum_sizes_new, IH1 by done. split; [by rewrite wrap64_add, Z.add_comm|].
    intros j. rewrite IH2, elem_of_union, elem_of_singleton. split; [intros [? ?]; auto|intros [[->|?] ?]; done].
Qed.
End size.

(** C40.  The size of a layer is the sum of the sizes of the files that were added or
    modified on top of its parent, without the directories, and every file counts
    once, however many hard links to it the layer adds; only an overflow of the sum
    shows. *)
Theorem layer_size (new old : unixFS) : sound new → fs_ok old → same_files old new →
  DiffSize new old = wrap64 (sum_sizes new (inodes_of new (ChangesDirs new old))) ∧
  ∀ i, i ∈ inodes_of new (ChangesDirs new old) ↔
    ∃ p k n, change (view new) (view old) p k ∧ u_names new !! p = Some i ∧ view new p = Some n ∧ IsDir n = false.
Proof.
  intros Hnew Hold Hsame. assert (Hspec : ∀ p k, mkChange p k ∈ ChangesDirs new old ↔ change (view new) (view old) p k).
  { intros p k. apply ChangesDirs_spec; [apply Hnew|done..]. }
  assert (Hth : there new (ChangesDirs new old)).
  { intros [p k] Hc Hk. apply Hspec in Hc as [_ Hc]. cbn in *. destruct (view new p); [by eexists|]. by destruct k. }
  split; [apply ChangesSize_run; [done|apply ChangesDirs_nodup; [apply Hnew|done]|done]|]. intros i. split.
  - intros ([p k]&Hc&Hi)%elem_inodes. apply Hspec in Hc. exists p, k. unfold counted in Hi. cbn in Hi.
    destruct k, (view new p) as [n|]; try done; destruct (IsDir n) eqn:HD; try done; by exists n.
  - intros (p&k&n&Hc&Hi&Hv&HD). apply elem_of_list_to_set, list_elem_of_omap. exists (mkChange p k). split; [by apply Hspec|].
    unfold counted. cbn. rewrite Hv, HD. destruct Hc as [_ Hc]. rewrite Hv in Hc. by destruct k.
Qed.

(** Two names of one new file count once. *)
Lemma layer_size_witness :
  DiffSize ConcreteTrees.new ConcreteTrees.old = 12 ∧
  wrap64 (sum_sizes ConcreteTrees.new (inodes_of ConcreteTrees.new (ChangesDirs ConcreteTrees.new ConcreteTrees.old))) = 12.
Proof.
  assert (H1 : fs_ok ConcreteTrees.old) by (apply fs_okb_ok; by_vm).
  assert (H2 : same_files ConcreteTrees.old ConcreteTrees.new) by (apply same_filesb_ok; by_vm).
  assert (H3 : sound ConcreteTrees.new) by (apply soundb_ok; by_vm).
  destruct (layer_size ConcreteTrees.new ConcreteTrees.old H3 H1 H2) as [H _].
  assert (D : DiffSize ConcreteTrees.new ConcreteTrees.old = 12) by by_vm. split; [exact D|]. rewrite <-H. exact D.
Defined.
